(** * QsrMail: a shallow embedding of the encoders, the header cooking,
      the transaction handle and the SMTP transport state machine.

    Bytes are integers in [0, 256); a [QByteArray] of raw data is a
    [list Z].  Every function below is a transcription of the C++ function
    of the same name; the Qt classes the library builds on ([QIODevice],
    [QSet], [QCryptographicHash], [QByteArray::toBase64]) are modelled by
    what their documentation promises. *)

From Stdlib Require Import ZArith Lia List Bool.
From stdpp Require Import gmap strings list.

Local Open Scope Z_scope.

(** ** Outcomes *)

(** Where C++ leaves the behaviour undefined (a store behind the end of the
    buffer handed to [readData], [head()] of an empty queue, a division by
    zero) the model stops with [Fault].  [Fuel] is the answer of a loop
    whose iteration bound was too small. *)
Inductive outcome (A : Type) : Type :=
| Ok (a : A)
| Fault
| Fuel.
Arguments Ok {A} a.
Arguments Fault {A}.
Arguments Fuel {A}.

Definition obind {A B} (m : outcome A) (k : A -> outcome B) : outcome B :=
  match m with
  | Ok a => k a
  | Fault => Fault
  | Fuel => Fuel
  end.

(** Text literals of the sources, as bytes. *)
Definition bytes (s : string) : list Z :=
  map (fun a => Z.of_N (Ascii.N_of_ascii a)) (String.list_ascii_of_string s).

Definition isByte (b : Z) : Prop := 0 <= b < 256.

(** ** The source device of an encoder (QIODevice) *)

Module Device.

(** [buf] holds the bytes that can be read now, front first, so that
    [bytesAvailable() = length buf]; [getChar] pops the head and
    [ungetChar] pushes one byte back. *)
Record t : Type := mk {
  buf : list Z;
  isSequential : bool
}.

Definition bytesAvailable (d : t) : Z := Z.of_nat (length (buf d)).

(** [QIODevice::atEnd()] of a random-access device. *)
Definition atEnd (d : t) : bool := bytesAvailable d =? 0.

Definition getChar (d : t) : option (Z * t) :=
  match buf d with
  | [] => None
  | c :: rest => Some (c, mk rest (isSequential d))
  end.

Definition ungetChar (c : Z) (d : t) : t := mk (c :: buf d) (isSequential d).

(** [peek(buf, n)]: up to [n] bytes, none of them consumed. *)
Definition peek (n : nat) (d : t) : list Z := firstn n (buf d).

(** A [QBuffer] opened on a byte array. *)
Definition ofBytes (b : list Z) : t := mk b false.

End Device.

(** ** QsrMailBase64Encoder *)

Module Base64.

(** [base64dict] *)
Definition base64dict : list Z :=
  [65;66;67;68;69;70;71;72;73;74;75;76;77;78;79;80;
   81;82;83;84;85;86;87;88;89;90;
   97;98;99;100;101;102;103;104;105;106;107;108;109;110;111;112;
   113;114;115;116;117;118;119;120;121;122;
   48;49;50;51;52;53;54;55;56;57;43;47].

Definition dict (i : Z) : Z := nth (Z.to_nat i) base64dict 0.

(** The members of [QsrMailBase64EncoderPrivate] together with those of
    its base class [QsrMailAbstractEncoderPrivate]. *)
Record t : Type := mk {
  device : Device.t;
  gotReadChannelFinished : bool;
  lineWidth : Z;
  lineChars : Z;
  qBuffer : Z;
  qSize : Z
}.

Definition setDevice (d : Device.t) (e : t) : t :=
  mk d (gotReadChannelFinished e) (lineWidth e) (lineChars e)
     (qBuffer e) (qSize e).

Definition setLineChars (n : Z) (e : t) : t :=
  mk (device e) (gotReadChannelFinished e) (lineWidth e) n
     (qBuffer e) (qSize e).

Definition setQuantum (b s : Z) (e : t) : t :=
  mk (device e) (gotReadChannelFinished e) (lineWidth e) (lineChars e) b s.

(** Constructor followed by [open()]: line width 76 unless changed by
    [setLineWidth], all counters zero. *)
Definition create (d : Device.t) : t := mk d false 76 0 0 0.

Definition setLineWidth (width : Z) (e : t) : t :=
  mk (device e) (gotReadChannelFinished e) width (lineChars e)
     (qBuffer e) (qSize e).

(** [QsrMailAbstractEncoderPrivate::deviceAtEnd] *)
Definition deviceAtEnd (e : t) : bool :=
  if Device.isSequential (device e)
  then (Device.bytesAvailable (device e) =? 0) && gotReadChannelFinished e
  else Device.atEnd (device e).

(** [put]: store [c]; when folding is on and the incremented column
    reaches the line width, store CR LF behind it and reset the column.
    The result carries the bytes stored; the C++ return value is their
    number. *)
Definition put (e : t) (c : Z) : t * list Z :=
  if 0 <? lineWidth e then
    if lineWidth e <=? lineChars e + 1
    then (setLineChars 0 e, [c; 13; 10])
    else (setLineChars (lineChars e + 1) e, [c])
  else (e, [c]).

(** [putQ] *)
Definition putQ (e : t) : t * list Z :=
  let pad := 3 - qSize e in
  let q := qBuffer e in
  let '(e1, o1) := put e (dict (Z.shiftr (Z.land q 0xfc0000) 18)) in
  let '(e2, o2) := put e1 (dict (Z.shiftr (Z.land q 0x3f000) 12)) in
  let '(e3, o3) :=
    put e2 (if pad =? 2 then 61 else dict (Z.shiftr (Z.land q 0xfc0) 6)) in
  let '(e4, o4) :=
    put e3 (if 1 <=? pad then 61 else dict (Z.land q 0x3f)) in
  (setQuantum 0 0 e4, o1 ++ o2 ++ o3 ++ o4).

(** One pass of the [switch] inside the fill loop. *)
Definition accumulate (q s c : Z) : Z :=
  if s =? 0 then Z.lor q (Z.land (Z.shiftl c 16) 0xff0000)
  else if s =? 1 then Z.lor q (Z.land (Z.shiftl c 8) 0xff00)
  else if s =? 2 then Z.lor q (Z.land c 0xff)
  else q.

(** [while (qSize < 3) { if (!device->getChar(&c)) break; ... }] *)
Fixpoint fillQuantum (b : list Z) (q s : Z) : list Z * Z * Z :=
  if s <? 3 then
    match b with
    | [] => (b, q, s)
    | c :: b' => fillQuantum b' (accumulate q s c) (s + 1)
    end
  else (b, q, s).

Definition fill (e : t) : t :=
  let '(b, q, s) := fillQuantum (Device.buf (device e)) (qBuffer e) (qSize e) in
  setQuantum q s (setDevice (Device.mk b (Device.isSequential (device e))) e).

(** [remain -= putQ(&data)] on a buffer with [remain] bytes left. *)
Definition emitQ (e : t) (remain : Z) (out : list Z)
  : outcome (t * Z * list Z) :=
  let '(e', o) := putQ e in
  let n := Z.of_nat (length o) in
  if remain <? n then Fault else Ok (e', remain - n, out ++ o).

(** [while (device->bytesAvailable() > 0 && remain > 6) { ... }] *)
Fixpoint readLoop (fuel : nat) (e : t) (remain : Z) (out : list Z)
  : outcome (t * Z * list Z) :=
  if (0 <? Device.bytesAvailable (device e)) && (6 <? remain) then
    match fuel with
    | O => Fuel
    | S fuel' =>
        let e1 := fill e in
        if qSize e1 =? 3 then
          obind (emitQ e1 remain out)
                (fun '(e2, r2, o2) => readLoop fuel' e2 r2 o2)
        else readLoop fuel' e1 remain out
    end
  else Ok (e, remain, out).

(** What one call of [readData] leaves behind. *)
Record reply : Type := mkReply {
  encoder : t;
  data : list Z;              (* bytes stored in [data], in order *)
  result : Z;                 (* the value returned *)
  readChannelFinished : bool  (* whether the signal was emitted *)
}.

(** [QsrMailBase64EncoderPrivate::readDataImpl].  Every pass of the outer
    loop either takes a byte from the device or empties a full quantum,
    so twice the number of available bytes plus two bounds the passes. *)
Definition readDataImpl (e : t) (maxlen : Z) : outcome reply :=
  if (qSize e =? 0) && deviceAtEnd e then Ok (mkReply e [] 0 false)
  else
    obind (readLoop (2 * length (Device.buf (device e)) + 2) e maxlen [])
      (fun '(e1, remain, out) =>
         if deviceAtEnd e1 then
           obind (if 0 <? qSize e1 then emitQ e1 remain out
                  else Ok (e1, remain, out))
             (fun '(e2, remain2, out2) =>
                Ok (mkReply e2 out2 (maxlen - remain2) true))
         else Ok (mkReply e1 out (maxlen - remain) false)).

(** A consumer that calls [readData] once per element of [maxlens] and
    concatenates what it receives. *)
Fixpoint readAll (e : t) (maxlens : list Z) : outcome (t * list Z) :=
  match maxlens with
  | [] => Ok (e, [])
  | m :: ms =>
      obind (readDataImpl e m)
        (fun r => obind (readAll (encoder r) ms)
                    (fun '(e', o) => Ok (e', data r ++ o)))
  end.

(** The encoder has delivered everything: source at end, quantum empty. *)
Definition atEnd (e : t) : bool := (qSize e =? 0) && deviceAtEnd e.

End Base64.

(** ** QsrMailQpEncoder *)

Module Qp.

(** [qpdict] *)
Definition qpdict : list Z :=
  [48;49;50;51;52;53;54;55;56;57;65;66;67;68;69;70].

Definition hex (i : Z) : Z := nth (Z.to_nat i) qpdict 0.

(** The members of [QsrMailQpEncoderPrivate] and of its base class;
    [textMode] is [q->isTextModeEnabled()]. *)
Record t : Type := mk {
  device : Device.t;
  gotReadChannelFinished : bool;
  lineWidth : Z;
  lineChars : Z;
  textMode : bool
}.

Definition setDevice (d : Device.t) (e : t) : t :=
  mk d (gotReadChannelFinished e) (lineWidth e) (lineChars e) (textMode e).

Definition setLineChars (n : Z) (e : t) : t :=
  mk (device e) (gotReadChannelFinished e) (lineWidth e) n (textMode e).

(** Constructor followed by [open(QIODevice::ReadOnly)]. *)
Definition create (d : Device.t) : t := mk d false 76 0 false.

Definition setLineWidth (value : Z) (e : t) : t :=
  mk (device e) (gotReadChannelFinished e) value (lineChars e) (textMode e).

Definition unget (c : Z) (e : t) : t :=
  setDevice (Device.ungetChar c (device e)) e.

(** [QsrMailAbstractEncoderPrivate::deviceAtEnd] *)
Definition deviceAtEnd (e : t) : bool :=
  if Device.isSequential (device e)
  then (Device.bytesAvailable (device e) =? 0) && gotReadChannelFinished e
  else Device.atEnd (device e).

(** How one pass of the loop body ends: at its end or at a [continue]
    ([Continue]), at a [break] ([Break]), or in a store behind the end of
    [data] ([Crash]). *)
Inductive flow : Type :=
| Continue (e : t) (remaining : Z) (out : list Z)
| Break (e : t) (remaining : Z) (out : list Z)
| Crash.

(** [ENSURE_SPACE(n)]: with fewer than [n] bytes left, push [c] back and
    leave the loop. *)
Definition ensureSpace (n c : Z) (e : t) (remaining : Z) (out : list Z)
    (k : flow) : flow :=
  if remaining <? n then Break (unget c e) remaining out else k.

Definition printable (c : Z) : bool :=
  ((33 <=? c) && (c <=? 60)) || ((62 <=? c) && (c <=? 126))
  || (c =? 9) || (c =? 32).

(** "now write the data itself" *)
Definition writeChar (isPrintable : bool) (c : Z) (e : t) (remaining : Z)
    (out : list Z) : flow :=
  if isPrintable then
    if remaining <? 1 then Crash
    else Continue (setLineChars (lineChars e + 1) e) (remaining - 1)
                  (out ++ [c])
  else
    ensureSpace 3 c e remaining out
      (Continue (setLineChars (lineChars e + 3) e) (remaining - 3)
         (out ++ [61; hex (Z.land (Z.shiftr c 4) 0x0f); hex (Z.land c 0x0f)])).

(** The loop body from the text-mode test on; [c] is the current value
    of the variable [c], [forceEncoding] what rule 3 decided. *)
Definition encodeChar (c : Z) (forceEncoding : bool) (e : t)
    (remaining : Z) (out : list Z) : flow :=
  if textMode e && (c =? 10) then
    ensureSpace 2 c e remaining out
      (Continue (setLineChars 0 e) (remaining - 2) (out ++ [13; 10]))
  else
    let forceEncoding :=
      if (lineChars e =? 0) && (c =? 46) then true else forceEncoding in
    let isPrintable := negb forceEncoding && printable c in
    if lineWidth e <=? lineChars e + (if isPrintable then 2 else 4) then
      ensureSpace 3 c e remaining out
        (writeChar isPrintable c (setLineChars 0 e) (remaining - 3)
           (out ++ [61; 13; 10]))
    else writeChar isPrintable c e remaining out.

(** The body of [while (device->bytesAvailable() && remaining > 0)]. *)
Definition iteration (e : t) (remaining : Z) (out : list Z) : flow :=
  match Device.getChar (device e) with
  | None => Break e remaining out
  | Some (c, d1) =>
      let e1 := setDevice d1 e in
      let isBlank := (c =? 9) || (c =? 32) in
      let buf := Device.peek 2 d1 in
      (* Rule 3: TAB/SPC followed by linebreak must be encoded *)
      if isBlank && negb (Nat.eqb (length buf) 2) then
        Break (unget c e1) remaining out
      else
        let forceEncoding :=
          isBlank && (nth 0 buf 0 =? 13) && (nth 1 buf 0 =? 10) in
        (* Rule 4: Linebreaks *)
        if c =? 13 then
          match Device.getChar d1 with
          | None => Break (unget 13 e1) remaining out
          | Some (c2, d2) =>
              let e2 := setDevice d2 e in
              if c2 =? 10 then
                ensureSpace 2 c2 e2 remaining out
                  (Continue (setLineChars 0 e2) (remaining - 2)
                     (out ++ [13; 10]))
              else
                (* the byte after CR is pushed back, and stays in [c] *)
                encodeChar c2 forceEncoding (unget c2 e2) remaining out
          end
        else encodeChar c forceEncoding e1 remaining out
  end.

Fixpoint readLoop (fuel : nat) (e : t) (remaining : Z) (out : list Z)
  : outcome (t * Z * list Z) :=
  if negb (Device.bytesAvailable (device e) =? 0) && (0 <? remaining) then
    match fuel with
    | O => Fuel
    | S fuel' =>
        match iteration e remaining out with
        | Continue e' r' o' => readLoop fuel' e' r' o'
        | Break e' r' o' => Ok (e', r', o')
        | Crash => Fault
        end
    end
  else Ok (e, remaining, out).

Record reply : Type := mkReply {
  encoder : t;
  data : list Z;
  result : Z;
  readChannelFinished : bool
}.

(** [QsrMailQpEncoderPrivate::readDataImpl].  A pass that does not leave
    the loop takes at least one byte from the device. *)
Definition readDataImpl (e : t) (maxlen : Z) : outcome reply :=
  if deviceAtEnd e then Ok (mkReply e [] 0 false)
  else
    obind (readLoop (S (length (Device.buf (device e)))) e maxlen [])
      (fun '(e1, remaining, out) =>
         Ok (mkReply e1 out (maxlen - remaining) (deviceAtEnd e1))).

(** A consumer that calls [readData] once per element of [maxlens]; the
    replies are kept in order. *)
Fixpoint readAll (e : t) (maxlens : list Z) : outcome (t * list reply) :=
  match maxlens with
  | [] => Ok (e, [])
  | m :: ms =>
      obind (readDataImpl e m)
        (fun r => obind (readAll (encoder r) ms)
                    (fun '(e', rs) => Ok (e', r :: rs)))
  end.

Definition output (rs : list reply) : list Z := concat (map data rs).

End Qp.

(** ** Base64 as RFC 2045 describes it, for comparison with the encoder *)

Module Base64Spec.

Definition ceil3 (n : Z) : Z := (n + 2) / 3.

(** The unfolded Base64 text of a byte sequence: four letters for every
    three bytes, a short last group padded with '='. *)
Fixpoint encodeChars (B : list Z) : list Z :=
  match B with
  | [] => []
  | a :: B1 =>
      match B1 with
      | [] => [Base64.dict (a / 4); Base64.dict (a mod 4 * 16); 61; 61]
      | b :: B2 =>
          match B2 with
          | [] => [Base64.dict (a / 4); Base64.dict (a mod 4 * 16 + b / 16);
                   Base64.dict (b mod 16 * 4); 61]
          | c :: B3 =>
              Base64.dict (a / 4) :: Base64.dict (a mod 4 * 16 + b / 16)
              :: Base64.dict (b mod 16 * 4 + c / 64) :: Base64.dict (c mod 64)
              :: encodeChars B3
          end
      end
  end.

(** The value of a letter of the alphabet. *)
Definition sextet (c : Z) : option Z :=
  if (65 <=? c) && (c <=? 90) then Some (c - 65)
  else if (97 <=? c) && (c <=? 122) then Some (c - 97 + 26)
  else if (48 <=? c) && (c <=? 57) then Some (c - 48 + 52)
  else if c =? 43 then Some 62
  else if c =? 47 then Some 63
  else None.

Definition isNil (l : list Z) : bool :=
  match l with [] => true | _ => false end.

(** A strict decoder for unfolded text: groups of four letters, padding
    only in the last group, anything else is rejected. *)
Fixpoint decodeGroups (l : list Z) : option (list Z) :=
  match l with
  | [] => Some []
  | c1 :: c2 :: c3 :: c4 :: rest =>
      match sextet c1, sextet c2 with
      | Some s1, Some s2 =>
          let b1 := s1 * 4 + s2 / 16 in
          if c3 =? 61 then
            if (c4 =? 61) && isNil rest then Some [b1] else None
          else
            match sextet c3 with
            | Some s3 =>
                let b2 := s2 mod 16 * 16 + s3 / 4 in
                if c4 =? 61 then
                  if isNil rest then Some [b1; b2] else None
                else
                  match sextet c4, decodeGroups rest with
                  | Some s4, Some r => Some (b1 :: b2 :: (s3 mod 4 * 64 + s4) :: r)
                  | _, _ => None
                  end
            | None => None
            end
      | _, _ => None
      end
  | _ => None
  end.

Definition isBreak (c : Z) : bool := (c =? 13) || (c =? 10).

(** Decoding folded text: line breaks are dropped first. *)
Definition decode (l : list Z) : option (list Z) :=
  decodeGroups (List.filter (fun c => negb (isBreak c)) l).

Definition consHead (c : Z) (ls : list (list Z)) : list (list Z) :=
  match ls with
  | [] => [[c]]
  | l :: ls' => (c :: l) :: ls'
  end.

(** The lines of a text, CR LF being the separator. *)
Fixpoint lines (l : list Z) : list (list Z) :=
  match l with
  | [] => [[]]
  | c :: l1 =>
      match l1 with
      | [] => [[c]]
      | d :: l2 =>
          if (c =? 13) && (d =? 10) then [] :: lines l2
          else consHead c (lines l1)
      end
  end.

(** Number of CR LF separators. *)
Definition breaks (l : list Z) : Z := Z.of_nat (length (lines l)) - 1.

(** Line folding on its own: the column after each letter, CR LF when
    it reaches the width. *)
Fixpoint foldLines (lw lc : Z) (cs : list Z) : list Z * Z :=
  match cs with
  | [] => ([], lc)
  | c :: cs' =>
      if 0 <? lw then
        if lw <=? lc + 1
        then let '(o, lc') := foldLines lw 0 cs' in (c :: 13 :: 10 :: o, lc')
        else let '(o, lc') := foldLines lw (lc + 1) cs' in (c :: o, lc')
      else let '(o, lc') := foldLines lw lc cs' in (c :: o, lc')
  end.

End Base64Spec.

(** ** QsrMailRfcTools (qsrmailrfctools.cpp) *)

Module RfcTools.

(** A [const char *] into a NUL-terminated array is the list of the bytes
    from the pointer on; [*c] at the end of the list is the NUL. *)
Definition cur (c : list Z) : Z := hd 0 c.

Definition atext : list Z :=
  [0; 0; 0; 0; 0; 0; 0; 0; 0; 0; 0; 0; 0; 0; 0; 0;
   0; 0; 0; 0; 0; 0; 0; 0; 0; 0; 0; 0; 0; 0; 0; 0;
   0; 33; 0; 35; 36; 37; 38; 39; 0; 0; 42; 43; 0; 45; 0; 47;
   48; 49; 50; 51; 52; 53; 54; 55; 56; 57; 0; 0; 0; 61; 0; 63;
   0; 65; 66; 67; 68; 69; 70; 71; 72; 73; 74; 75; 76; 77; 78; 79;
   80; 81; 82; 83; 84; 85; 86; 87; 88; 89; 90; 0; 0; 0; 94; 95;
   96; 97; 98; 99; 100; 101; 102; 103; 104; 105; 106; 107; 108; 109; 110; 111;
   112; 113; 114; 115; 116; 117; 118; 119; 120; 121; 122; 123; 124; 125; 126; 0].

Definition dtext : list Z :=
  [0; 1; 2; 3; 4; 5; 6; 7; 8; 0; 0; 11; 12; 0; 14; 15;
   16; 17; 18; 19; 20; 21; 22; 23; 24; 25; 26; 27; 28; 29; 30; 31;
   0; 33; 34; 35; 36; 37; 38; 39; 40; 41; 42; 43; 44; 45; 46; 47;
   48; 49; 50; 51; 52; 53; 54; 55; 56; 57; 58; 59; 60; 61; 62; 63;
   64; 65; 66; 67; 68; 69; 70; 71; 72; 73; 74; 75; 76; 77; 78; 79;
   80; 81; 82; 83; 84; 85; 86; 87; 88; 89; 90; 0; 0; 0; 94; 95;
   96; 97; 98; 99; 100; 101; 102; 103; 104; 105; 106; 107; 108; 109; 110; 111;
   112; 113; 114; 115; 116; 117; 118; 119; 120; 121; 122; 123; 124; 125; 126; 127].

Definition encodedtext : list Z :=
  [0; 0; 0; 0; 0; 0; 0; 0; 0; 0; 0; 0; 0; 0; 0; 0;
   0; 0; 0; 0; 0; 0; 0; 0; 0; 0; 0; 0; 0; 0; 0; 0;
   0; 33; 0; 0; 0; 0; 0; 0; 0; 0; 42; 43; 0; 45; 0; 47;
   48; 49; 50; 51; 52; 53; 54; 55; 56; 57; 0; 0; 0; 61; 0; 0;
   0; 65; 66; 67; 68; 69; 70; 71; 72; 73; 74; 75; 76; 77; 78; 79;
   80; 81; 82; 83; 84; 85; 86; 87; 88; 89; 90; 0; 0; 0; 0; 0;
   0; 97; 98; 99; 100; 101; 102; 103; 104; 105; 106; 107; 108; 109; 110; 111;
   112; 113; 114; 115; 116; 117; 118; 119; 120; 121; 122; 0; 0; 0; 0; 0].

Definition tohex : list Z :=
  [48; 49; 50; 51; 52; 53; 54; 55; 56; 57; 65; 66; 67; 68; 69; 70].

(** [c & 0x80] *)
Definition high (x : Z) : bool := negb (Z.land x 0x80 =? 0).

Definition lookup (table : list Z) (x : Z) : Z :=
  if high x then 0 else nth (Z.to_nat x) table 0.

Definition isFWS (x : Z) : bool :=
  (x =? 32) || (x =? 9) || (x =? 13) || (x =? 10).
Definition isATEXT (x : Z) : bool := negb (lookup atext x =? 0).
Definition isDTEXT (x : Z) : bool := negb (lookup dtext x =? 0).
Definition isENCODEDTEXT (x : Z) : bool := negb (lookup encodedtext x =? 0).

(** [skipCFWS] with the nesting [level] as an argument: 0 outside of a
    comment.  [None] is the null pointer. *)
Fixpoint skipCFWSFrom (level : nat) (c : list Z) : option (list Z) :=
  match c with
  | [] => if Nat.eqb level 0 then Some c else None
  | x :: c' =>
      if x =? 0 then (if Nat.eqb level 0 then Some c else None)
      else if Nat.eqb level 0 then
        if isFWS x then skipCFWSFrom 0 c'
        else if x =? 40 then skipCFWSFrom 1 c'
        else Some c
      else if high x then None
      else if x =? 40 then skipCFWSFrom (S level) c'
      else if x =? 41 then skipCFWSFrom (level - 1) c'
      else if x =? 92 then
        match c' with
        | y :: c'' => if y =? 0 then skipCFWSFrom level c'
                      else skipCFWSFrom level c''
        | [] => skipCFWSFrom level c'
        end
      else skipCFWSFrom level c'
  end.

Definition skipCFWS (c : list Z) : option (list Z) := skipCFWSFrom 0 c.

(** The loop over a quoted string; [c] starts behind the opening quote,
    the result is the pointer behind the closing one, [None] stands for
    [return false]. *)
Fixpoint skipQuoted (c : list Z) : option (list Z) :=
  match c with
  | [] => None
  | ch :: c' =>
      if ch =? 0 then None
      else if ch =? 34 then Some c'
      else if high ch then None
      else if ch =? 92 then
        match c' with
        | y :: c'' => if y =? 0 then skipQuoted c' else skipQuoted c''
        | [] => skipQuoted c'
        end
      else skipQuoted c'
  end.

(** The dot-atom loop: advance while the byte is a dot or ATEXT. *)
Fixpoint skipDotAtom (c : list Z) : list Z :=
  match c with
  | [] => c
  | x :: c' => if (x =? 46) || isATEXT x then skipDotAtom c' else c
  end.

(** The loop over a domain literal; [c] starts behind the bracket. *)
Fixpoint skipLiteral (c : list Z) : option (list Z) :=
  match c with
  | [] => None
  | ch :: c' =>
      if ch =? 0 then None
      else if ch =? 93 then Some c'
      else if (ch =? 92) && negb (cur c' =? 0) then
        match c' with
        | _ :: c'' => skipLiteral c''
        | [] => None
        end
      else if negb (isDTEXT ch) && negb (isFWS ch) then None
      else skipLiteral c'
  end.

Definition andThen {A} (o : option (list Z)) (k : list Z -> option A)
  : option A :=
  match o with Some c => k c | None => None end.

(** "check for quoted string ... else it must be a dot-atom" *)
Definition skipWord (c : list Z) : option (list Z) :=
  if cur c =? 34 then skipQuoted (tl c) else Some (skipDotAtom c).

Definition isSome {A} (o : option A) : bool :=
  match o with Some _ => true | None => false end.

(** [QsrMailRfcTools::validateAddrSpec] *)
Definition validateAddrSpec (data : list Z) : bool :=
  isSome
    (andThen (skipCFWS data) (fun c =>
     if cur c =? 0 then None else
     andThen (skipWord c) (fun c =>
     andThen (skipCFWS c) (fun c =>
     if negb (cur c =? 64) then None else
     andThen (skipCFWS (tl c)) (fun c =>
     if cur c =? 0 then None else
     andThen (if cur c =? 91 then skipLiteral (tl c)
              else Some (skipDotAtom c)) (fun c =>
     andThen (skipCFWS c) (fun c =>
     if cur c =? 0 then Some tt else None))))))).

(** [QsrMailRfcTools::validateDisplayName] *)
Definition validateDisplayName (data : list Z) : bool :=
  isSome
    (andThen (skipCFWS data) (fun c =>
     if cur c =? 0 then None else
     andThen (skipWord c) (fun c =>
     andThen (skipCFWS c) (fun c =>
     if cur c =? 0 then Some tt else None)))).

(** The loop of [toEncodedWords]: the encoded bytes and [isEncoded]. *)
Fixpoint encodeWords (s : list Z) : list Z * bool :=
  match s with
  | [] => ([], false)
  | c :: s' =>
      if c =? 0 then ([], false)
      else
        let '(t, isEncoded) := encodeWords s' in
        if isENCODEDTEXT c then (c :: t, isEncoded)
        else if c =? 32 then (95 :: t, true)
        else (61 :: nth (Z.to_nat (Z.land (Z.shiftr c 4) 0xf)) tohex 0
                 :: nth (Z.to_nat (Z.land c 0xf)) tohex 0 :: t, true)
  end.

(** [QsrMailRfcTools::toEncodedWords]; a [QString] is its UTF-8 bytes. *)
Definition toEncodedWords (data : list Z) : list Z :=
  let '(encoded, isEncoded) := encodeWords data in
  if isEncoded then bytes "=?UTF-8?Q?" ++ encoded ++ bytes "?=" else data.

End RfcTools.

(** ** QsrMailAddress (qsrmailaddress.cpp) *)

Module Address.

(** The two [QString] members, as UTF-8. *)
Record t : Type := mk {
  address : list Z;
  displayName : list Z
}.

Definition isValid (a : t) : bool := RfcTools.validateAddrSpec (address a).

(** [QsrMailAddress::toByteArray]; [None] is the null [QByteArray]. *)
Definition toByteArray (a : t) : option (list Z) :=
  if negb (isValid a) then None
  else if Nat.eqb (length (displayName a)) 0 then Some (address a)
  else if RfcTools.validateDisplayName (displayName a)
  then Some (displayName a ++ bytes " <" ++ address a ++ bytes ">")
  else Some (RfcTools.toEncodedWords (displayName a)
             ++ bytes " <" ++ address a ++ bytes ">").

End Address.

(** The bytes of a [QByteArray] that may be null; null compares equal to
    empty. *)
Definition content (b : option (list Z)) : list Z := default [] b.

(** ** QsrMailHeaders (qsrmailheaders.cpp) *)

Module Headers.

Definition HeaderPair : Type := (list Z * list Z)%type.
Definition HeaderList : Type := list HeaderPair.

Definition nameIs (name : list Z) (h : HeaderPair) : bool :=
  bool_decide (fst h = name).

(** [QsrMailHeaders::setHeader]; a null [value] is [None]. *)
Definition setHeader (name : list Z) (value : option (list Z))
    (headers : HeaderList) : HeaderList :=
  if Nat.eqb (length name) 0 then headers
  else
    let headers := List.filter (fun h => negb (nameIs name h)) headers in
    match value with
    | None => headers
    | Some v => headers ++ [(name, v)]
    end.

(** [QsrMailHeaders::appendHeader] *)
Definition appendHeader (name : list Z) (value : option (list Z))
    (headers : HeaderList) : HeaderList :=
  match value with
  | None => headers
  | Some v => if Nat.eqb (length name) 0 then headers
              else headers ++ [(name, v)]
  end.

(** [QsrMailHeaders::findHeader]: the position of the first header named
    [name]; [length headers] is [headers.constEnd()]. *)
Fixpoint findHeader (name : list Z) (headers : HeaderList) : nat :=
  match headers with
  | [] => O
  | h :: rest => if nameIs name h then O else S (findHeader name rest)
  end.

(** [QsrMailHeaders::hasHeader]:
    [return findHeader(name) == headers.constEnd();] *)
Definition hasHeader (name : list Z) (headers : HeaderList) : bool :=
  Nat.eqb (findHeader name headers) (length headers).

(** [QsrMailHeaders::value] *)
Definition value (name : list Z) (headers : HeaderList) : option (list Z) :=
  snd <$> nth_error headers (findHeader name headers).

(** [QsrMailHeaders::renderHeaders] *)
Definition renderHeaders (headers : HeaderList) : list Z :=
  flat_map (fun h =>
              if Nat.eqb (length (fst h)) 0 then []
              else fst h ++ bytes ": " ++ snd h ++ [13; 10]) headers.

(** [QsrMailHeaders::appendHeader(const QsrMailHeaders &)] *)
Definition appendHeaders (other headers : HeaderList) : HeaderList :=
  headers ++ other.

(** [QsrMailHeaders::values].  The loop tests the header the iterator
    points to and has no [++it]; [it] is the position of the iterator,
    [fuel] bounds the number of passes. *)
Fixpoint valuesLoop (fuel : nat) (name : list Z) (headers : HeaderList)
    (it : nat) (result : list (list Z)) : outcome (list (list Z)) :=
  match nth_error headers it with
  | None => Ok result
  | Some h =>
      match fuel with
      | O => Fuel
      | S fuel' =>
          valuesLoop fuel' name headers it
            (if nameIs name h then result ++ [snd h] else result)
      end
  end.

Definition values (fuel : nat) (name : list Z) (headers : HeaderList)
  : outcome (list (list Z)) :=
  valuesLoop fuel name headers 0 [].

End Headers.

(** ** QsrMailMessage (qsrmailmessage.cpp) *)

Module Message.
Section Model.

(** [QDateTime] and the two functions that depend on Qt's calendar:
    [QsrMailRfcTools::rfc2822Date] and [QDateTime::currentDateTime]. *)
Variable DateTime : Type.
Variable rfc2822Date : DateTime -> option (list Z).
Variable currentDateTime : DateTime.

(** The members of [QsrMailMessagePrivate] but the body part.  An
    invalid [QDateTime] and a null [QString] are [None]. *)
Record t : Type := mk {
  messageId : option (list Z);
  headers : Headers.HeaderList;
  sender : Address.t;
  from : list Address.t;
  to : list Address.t;
  replyTo : list Address.t;
  cc : list Address.t;
  bcc : list Address.t;
  date : option DateTime;
  subject : option (list Z)
}.

Definition appendAddresses (name : list Z) (l : list Address.t)
    (result : Headers.HeaderList) : Headers.HeaderList :=
  fold_left (fun r a => Headers.appendHeader name (Address.toByteArray a) r)
            l result.

(** [QsrMailMessagePrivate::cookHeaders] *)
Definition cookHeaders (m : t) : Headers.HeaderList :=
  (* preset with the raw headers *)
  let result := headers m in
  let result := appendAddresses (bytes "From") (from m) result in
  let result := appendAddresses (bytes "To") (to m) result in
  let result := appendAddresses (bytes "Reply-To") (replyTo m) result in
  let result := appendAddresses (bytes "Cc") (cc m) result in
  let result := appendAddresses (bytes "Bcc") (bcc m) result in
  (* add date/time, fallback to current date time *)
  let result :=
    match date m with
    | Some d => Headers.setHeader (bytes "Date") (rfc2822Date d) result
    | None =>
        if negb (Headers.hasHeader (bytes "Date") result)
        then Headers.setHeader (bytes "Date")
                               (rfc2822Date currentDateTime) result
        else result
    end in
  (* set Subject *)
  let result :=
    match subject m with
    | Some s => Headers.setHeader (bytes "Subject")
                                  (Some (RfcTools.toEncodedWords s)) result
    | None => result
    end in
  (* add message id *)
  let result :=
    Headers.setHeader (bytes "Message-ID") (messageId m) result in
  (* add user agent if not supplied *)
  if negb (Headers.hasHeader (bytes "User-Agent") result)
  then Headers.setHeader (bytes "User-Agent")
                         (Some (bytes "QsrMail 1.0.0")) result
  else result.

End Model.

Arguments mk {DateTime}.
Arguments messageId {DateTime}.
Arguments headers {DateTime}.
Arguments sender {DateTime}.
Arguments from {DateTime}.
Arguments to {DateTime}.
Arguments replyTo {DateTime}.
Arguments cc {DateTime}.
Arguments bcc {DateTime}.
Arguments date {DateTime}.
Arguments subject {DateTime}.
Arguments cookHeaders {DateTime}.

End Message.

(** ** Qt functions the transport calls *)

Module Qt.

(** Modelled from the spec: [QByteArray::toBase64()] of the Qt library,
    which is not part of the repository; Base64 of RFC 2045 without line
    breaks, padded with '='. *)
Definition toBase64 (b : list Z) : list Z := Base64Spec.encodeChars b.

(** Modelled from the spec: [QByteArray::fromBase64()] of the Qt library.
    Letters of the alphabet feed a bit buffer, every other byte is
    skipped, a byte is delivered whenever eight bits are there. *)
Definition fromBase64Step (st : Z * Z * list Z) (ch : Z) : Z * Z * list Z :=
  let '(buf, nbits, out) := st in
  match Base64Spec.sextet ch with
  | None => st
  | Some d =>
      let buf := Z.lor (Z.shiftl buf 6) d in
      let nbits := nbits + 6 in
      if 8 <=? nbits then
        let nbits := nbits - 8 in
        (Z.land buf (Z.shiftl 1 nbits - 1), nbits,
         out ++ [Z.shiftr buf nbits mod 256])
      else (buf, nbits, out)
  end.

Definition fromBase64 (b : list Z) : list Z :=
  snd (fold_left fromBase64Step b (0, 0, [])).

(** [QByteArray::toHex().toLower()] *)
Definition hexDigit (i : Z) : Z :=
  nth (Z.to_nat i) [48;49;50;51;52;53;54;55;56;57;97;98;99;100;101;102] 0.

Definition toHexLower (b : list Z) : list Z :=
  flat_map (fun x => [hexDigit (x / 16); hexDigit (x mod 16)]) b.

(** Modelled from the spec: [QCryptographicHash::hash(data,
    QCryptographicHash::Md5)] of the Qt library, the MD5 digest of
    RFC 1321 on 32-bit words. *)
Definition w32 (x : Z) : Z := x mod 4294967296.

Definition rotl (x n : Z) : Z :=
  w32 (Z.lor (Z.shiftl x n) (Z.shiftr x (32 - n))).

Definition not32 (x : Z) : Z := Z.lxor x 0xffffffff.

Definition md5K : list Z :=
  [0xd76aa478; 0xe8c7b756; 0x242070db; 0xc1bdceee;
   0xf57c0faf; 0x4787c62a; 0xa8304613; 0xfd469501;
   0x698098d8; 0x8b44f7af; 0xffff5bb1; 0x895cd7be;
   0x6b901122; 0xfd987193; 0xa679438e; 0x49b40821;
   0xf61e2562; 0xc040b340; 0x265e5a51; 0xe9b6c7aa;
   0xd62f105d; 0x02441453; 0xd8a1e681; 0xe7d3fbc8;
   0x21e1cde6; 0xc33707d6; 0xf4d50d87; 0x455a14ed;
   0xa9e3e905; 0xfcefa3f8; 0x676f02d9; 0x8d2a4c8a;
   0xfffa3942; 0x8771f681; 0x6d9d6122; 0xfde5380c;
   0xa4beea44; 0x4bdecfa9; 0xf6bb4b60; 0xbebfbc70;
   0x289b7ec6; 0xeaa127fa; 0xd4ef3085; 0x04881d05;
   0xd9d4d039; 0xe6db99e5; 0x1fa27cf8; 0xc4ac5665;
   0xf4292244; 0x432aff97; 0xab9423a7; 0xfc93a039;
   0x655b59c3; 0x8f0ccc92; 0xffeff47d; 0x85845dd1;
   0x6fa87e4f; 0xfe2ce6e0; 0xa3014314; 0x4e0811a1;
   0xf7537e82; 0xbd3af235; 0x2ad7d2bb; 0xeb86d391].

Definition md5S : list Z :=
  [7; 12; 17; 22; 7; 12; 17; 22; 7; 12; 17; 22; 7; 12; 17; 22;
   5; 9; 14; 20; 5; 9; 14; 20; 5; 9; 14; 20; 5; 9; 14; 20;
   4; 11; 16; 23; 4; 11; 16; 23; 4; 11; 16; 23; 4; 11; 16; 23;
   6; 10; 15; 21; 6; 10; 15; 21; 6; 10; 15; 21; 6; 10; 15; 21].

Definition le32 (x : Z) : list Z :=
  [x mod 256; x / 256 mod 256; x / 65536 mod 256; x / 16777216 mod 256].

Definition le64 (x : Z) : list Z := le32 (w32 x) ++ le32 (w32 (x / 4294967296)).

Definition md5Pad (m : list Z) : list Z :=
  let len := Z.of_nat (length m) in
  m ++ [128] ++ repeat 0 (Z.to_nat ((55 - len) mod 64)) ++ le64 (8 * len).

(** The [i]-th little-endian word of a block. *)
Definition md5Word (blk : list Z) (i : nat) : Z :=
  nth (4 * i) blk 0 + 256 * nth (4 * i + 1) blk 0
  + 65536 * nth (4 * i + 2) blk 0 + 16777216 * nth (4 * i + 3) blk 0.

Definition md5Round (blk : list Z) (st : Z * Z * Z * Z) (i : nat)
  : Z * Z * Z * Z :=
  let '(a, b, c, d) := st in
  let iz := Z.of_nat i in
  let '(f, g) :=
    if iz <? 16 then (Z.lor (Z.land b c) (Z.land (not32 b) d), iz)
    else if iz <? 32
    then (Z.lor (Z.land d b) (Z.land (not32 d) c), (5 * iz + 1) mod 16)
    else if iz <? 48 then (Z.lxor (Z.lxor b c) d, (3 * iz + 5) mod 16)
    else (Z.lxor c (Z.lor b (not32 d)), (7 * iz) mod 16) in
  let f := w32 (f + a + nth i md5K 0 + md5Word blk (Z.to_nat g)) in
  (d, w32 (b + rotl f (nth i md5S 0)), b, c).

Definition md5Block (st : Z * Z * Z * Z) (blk : list Z) : Z * Z * Z * Z :=
  let '(a0, b0, c0, d0) := st in
  let '(a, b, c, d) := fold_left (md5Round blk) (seq 0 64) st in
  (w32 (a0 + a), w32 (b0 + b), w32 (c0 + c), w32 (d0 + d)).

Fixpoint md5Blocks (n : nat) (m : list Z) (st : Z * Z * Z * Z)
  : Z * Z * Z * Z :=
  match n with
  | O => st
  | S n' => md5Blocks n' (skipn 64 m) (md5Block st (firstn 64 m))
  end.

Definition md5 (m : list Z) : list Z :=
  let p := md5Pad m in
  let '(a, b, c, d) :=
    md5Blocks (Nat.div (length p) 64) p
      (0x67452301, 0xefcdab89, 0x98badcfe, 0x10325476) in
  le32 a ++ le32 b ++ le32 c ++ le32 d.

End Qt.

(** ** SASL responses of the transport (qsrmailtransport.cpp) *)

Module Auth.

(** [for (int i=0; i<64; i++) pad[i] = pad[i] ^ k;] on a byte array.
    The array has 64 bytes where the loop is used; an index behind the
    end, which the code never reaches, leaves the list alone here. *)
Definition xorLoop (k : Z) (pad : list Z) : list Z :=
  fold_left (fun a i => <[i := Z.lxor (nth i a 0) k]> a) (seq 0 64) pad.

(** [QsrMailTransportPrivate::cramMd5Mech] *)
Definition cramMd5Mech (challenge user pass : list Z) : list Z :=
  (* if the secret exceeds 64 byte we should use the md5 as input *)
  let secret := if (64 <? Z.of_nat (length pass)) then Qt.md5 pass else pass in
  (* this is the text we should key *)
  let text := Qt.fromBase64 challenge in
  let padded := firstn 64 (secret ++ repeat 0 64) in
  let ipad := xorLoop 0x36 padded in
  let opad := xorLoop 0x5c padded in
  let ipad := ipad ++ text in
  let opad := opad ++ Qt.md5 ipad in
  (* build hash *)
  let result := Qt.toHexLower (Qt.md5 opad) in
  (* prepend with username and turn to base64 *)
  Qt.toBase64 (user ++ bytes " " ++ result).

(** [QsrMailTransportPrivate::loginMech] *)
Definition loginMech (challenge user pass : list Z) : list Z :=
  let text := Qt.fromBase64 challenge in
  if decide (text = bytes "Username:") then Qt.toBase64 user
  else if decide (text = bytes "Password:") then Qt.toBase64 pass
  else [].

(** [QsrMailTransportPrivate::plainMech] *)
Definition plainMech (challenge user pass : list Z) : list Z :=
  Qt.toBase64 ([0] ++ firstn 255 user ++ [0] ++ firstn 255 pass).

End Auth.

(** CRAM-MD5 in the words of the specification (RFC 2195 over the keyed
    MD5 of RFC 2104), for comparison with [Auth.cramMd5Mech]. *)
Module CramSpec.

Definition key (pass : list Z) : list Z :=
  let k := if (64 <? Z.of_nat (length pass)) then Qt.md5 pass else pass in
  k ++ repeat 0 (64 - length k).

Definition inner (pass : list Z) : list Z :=
  map (fun b => Z.lxor b 0x36) (key pass).

Definition outer (pass : list Z) : list Z :=
  map (fun b => Z.lxor b 0x5c) (key pass).

Definition response (challenge user pass : list Z) : list Z :=
  let text := Qt.fromBase64 challenge in
  let digest := Qt.md5 (outer pass ++ Qt.md5 (inner pass ++ text)) in
  Qt.toBase64 (user ++ bytes " " ++ Qt.toHexLower digest).

End CramSpec.

(** ** QsrMailTransaction (qsrmailtransaction.cpp) *)

(** [QsrMailTransport::AuthMech] and [QsrMailTransport::TlsLevel] *)
Inductive AuthMech : Type :=
  DisabledMech | AutoSelectMech | CramMd5Mech | LoginMech | PlainMech.

Inductive TlsLevel : Type := TlsDisabled | TlsOptional | TlsRequired.

Module Transaction.

Inductive TransactionError : Type :=
| NoError | NoSenderError | NoRecipientsError | ResponseError
| ConnectionError | TlsRequiredError | ResolverError | TimeoutError
| AbortedError | DataError.

Definition isNoError (e : TransactionError) : bool :=
  match e with NoError => true | _ => false end.

(** The signals of a transaction object. *)
Inductive Signal : Type :=
| SigError (e : TransactionError)
| SigFinished
| SigProgressUpdate (percent : Z).

Section Model.
Variable DateTime : Type.

(** The members of [QsrMailTransactionPrivate] that the transport sets,
    and [emitted], the signals the object has emitted so far, oldest
    first.  The constructor leaves [authMech] without a value. *)
Record t : Type := mk {
  message : Message.t DateTime;
  error : TransactionError;
  errorText : list Z;
  status : Z;
  statusText : list Z;
  encrypted : bool;
  authenticated : bool;
  authMech : option AuthMech;
  username : list Z;
  emitted : list Signal
}.

Definition withError (v : TransactionError) (r : t) : t :=
  mk (message r) v (errorText r) (status r) (statusText r) (encrypted r) (authenticated r) (authMech r) (username r) (emitted r).
Definition withErrorText (v : list Z) (r : t) : t :=
  mk (message r) (error r) v (status r) (statusText r) (encrypted r) (authenticated r) (authMech r) (username r) (emitted r).
Definition withStatus (v : Z) (r : t) : t :=
  mk (message r) (error r) (errorText r) v (statusText r) (encrypted r) (authenticated r) (authMech r) (username r) (emitted r).
Definition withStatusText (v : list Z) (r : t) : t :=
  mk (message r) (error r) (errorText r) (status r) v (encrypted r) (authenticated r) (authMech r) (username r) (emitted r).
Definition withEncrypted (v : bool) (r : t) : t :=
  mk (message r) (error r) (errorText r) (status r) (statusText r) v (authenticated r) (authMech r) (username r) (emitted r).
Definition withAuthenticated (v : bool) (r : t) : t :=
  mk (message r) (error r) (errorText r) (status r) (statusText r) (encrypted r) v (authMech r) (username r) (emitted r).
Definition withAuthMech (v : option AuthMech) (r : t) : t :=
  mk (message r) (error r) (errorText r) (status r) (statusText r) (encrypted r) (authenticated r) v (username r) (emitted r).
Definition withUsername (v : list Z) (r : t) : t :=
  mk (message r) (error r) (errorText r) (status r) (statusText r) (encrypted r) (authenticated r) (authMech r) v (emitted r).
Definition withEmitted (v : list Signal) (r : t) : t :=
  mk (message r) (error r) (errorText r) (status r) (statusText r) (encrypted r) (authenticated r) (authMech r) (username r) v.

(** [QsrMailTransactionPrivate::createInstance] *)
Definition createInstance (m : Message.t DateTime) : t :=
  mk m NoError [] 0 [] false false None [] [].

Definition emit (s : Signal) (r : t) : t :=
  withEmitted (emitted r ++ [s]) r.

(** [QsrMailTransactionPrivate::finalize] *)
Definition finalize (r : t) : t :=
  let r := if negb (isNoError (error r)) then emit (SigError (error r)) r
           else r in
  emit SigFinished r.

Definition defaultText (code : TransactionError) : list Z :=
  match code with
  | NoError => bytes "No error occured"
  | NoSenderError => bytes "No sender/from has been specified"
  | NoRecipientsError => bytes "No recipients have been specified"
  | ResponseError => bytes "Unexpected server response"
  | ConnectionError =>
      bytes "The connection timed out or the remote server unexpectedly closed the connection"
  | TlsRequiredError => bytes "TLS required but not available"
  | ResolverError => bytes "Unable to resolve hostname"
  | TimeoutError => bytes "Connection dropped by timeout"
  | AbortedError => bytes "Message aborted."
  | DataError => bytes "Message cannot be rendered."
  end.

(** [QsrMailTransactionPrivate::setError]; a null [text] is [None]. *)
Definition setError (code : TransactionError) (text : option (list Z))
    (r : t) : t :=
  withErrorText (match text with Some x => x | None => defaultText code end)
                (withError code r).

(** [buffer = buffer % line % ' '] for every line, then [chop(1)]. *)
Definition joinLines (text : list (list Z)) : list Z :=
  let buffer := flat_map (fun line => line ++ [32]) text in
  firstn (length buffer - 1) buffer.

(** [QsrMailTransactionPrivate::setStatus] *)
Definition setStatus (code : Z) (text : list (list Z)) (r : t) : t :=
  withStatusText
    (if Nat.ltb (length text) 2 then nth 0 text [] else joinLines text)
    (withStatus code r).

(** [QsrMailTransactionPrivate::setProgress] *)
Definition setProgress (percent : Z) (r : t) : t :=
  emit (SigProgressUpdate percent) r.

(** [QsrMailTransaction::abort], as far as it concerns the object
    itself; what the transport does on the [finished] signal is in
    [Transport.abortTransaction]. *)
Definition abort (r : t) : t := finalize (setError AbortedError None r).

(** How often the object has emitted [finished]. *)
Definition finishedCount (r : t) : nat :=
  length (List.filter (fun s => match s with SigFinished => true
                                         | _ => false end) (emitted r)).
End Model.

Arguments mk {DateTime}.
Arguments message {DateTime}.
Arguments error {DateTime}.
Arguments errorText {DateTime}.
Arguments status {DateTime}.
Arguments statusText {DateTime}.
Arguments encrypted {DateTime}.
Arguments authenticated {DateTime}.
Arguments authMech {DateTime}.
Arguments username {DateTime}.
Arguments emitted {DateTime}.
Arguments withError {DateTime}.
Arguments withErrorText {DateTime}.
Arguments withStatus {DateTime}.
Arguments withStatusText {DateTime}.
Arguments withEncrypted {DateTime}.
Arguments withAuthenticated {DateTime}.
Arguments withAuthMech {DateTime}.
Arguments withUsername {DateTime}.
Arguments withEmitted {DateTime}.
Arguments createInstance {DateTime}.
Arguments emit {DateTime}.
Arguments finalize {DateTime}.
Arguments setError {DateTime}.
Arguments setStatus {DateTime}.
Arguments setProgress {DateTime}.
Arguments abort {DateTime}.
Arguments finishedCount {DateTime}.

End Transaction.

(** ** QsrMailTransport (qsrmailtransport.cpp) *)

Module Transport.

(** [QsrMailTransportPrivate::State], in the order of the enumeration *)
Inductive State : Type :=
| IdleState | ResolvingState | ResolvedState | ConnectingState
| ConnectedState | BannerState | SessionInitState | TlsSetupState
| EncryptedState | EncryptedSessionInitState | SessionSetupState
| AuthState | ReadyToSendState | MailFromState | RcptToState | DataState
| EndOfMessageState | DataSentState | ClosingState | DisconnectedState
| FinishedState.

Definition stateIndex (s : State) : Z :=
  match s with
  | IdleState => 0 | ResolvingState => 1 | ResolvedState => 2
  | ConnectingState => 3 | ConnectedState => 4 | BannerState => 5
  | SessionInitState => 6 | TlsSetupState => 7 | EncryptedState => 8
  | EncryptedSessionInitState => 9 | SessionSetupState => 10
  | AuthState => 11 | ReadyToSendState => 12 | MailFromState => 13
  | RcptToState => 14 | DataState => 15 | EndOfMessageState => 16
  | DataSentState => 17 | ClosingState => 18 | DisconnectedState => 19
  | FinishedState => 20
  end.

Definition isState (a b : State) : bool := stateIndex a =? stateIndex b.

Definition isMech (a b : AuthMech) : bool :=
  match a, b with
  | DisabledMech, DisabledMech | AutoSelectMech, AutoSelectMech
  | CramMd5Mech, CramMd5Mech | LoginMech, LoginMech
  | PlainMech, PlainMech => true
  | _, _ => false
  end.

(** [QAbstractSocket::NetworkLayerProtocol], [QHostAddress],
    [QDnsLookup::Type] and [QAbstractSocket::SocketState], as far as the
    transport looks at them. *)
Inductive NetworkLayerProtocol : Type :=
  IPv4Protocol | IPv6Protocol | AnyIPProtocol | UnknownNetworkLayerProtocol.

Inductive HostAddress : Type :=
| NullAddress
| IPv4Address (a : Z)
| IPv6Address (a : Z).

Definition protocol (a : HostAddress) : NetworkLayerProtocol :=
  match a with
  | NullAddress => UnknownNetworkLayerProtocol
  | IPv4Address _ => IPv4Protocol
  | IPv6Address _ => IPv6Protocol
  end.

Inductive DnsType : Type := DnsA | DnsAAAA | DnsANY.

Inductive SocketState : Type :=
| SocketUnconnected | SocketHostLookup | SocketConnecting | SocketConnected
| SocketBound | SocketListening | SocketClosing.

(** What the transport does to its timer, its socket, the resolver and the
    renderers, and the signals it emits itself, in the order of the
    calls. *)
Inductive Action : Type :=
| TimerStart (msec : Z)            (* timer->start(timeout) *)
| TimerRestart                     (* timer->start() *)
| TimerStop
| Lookup (type : DnsType) (name : list Z)
| ConnectToHost (a : HostAddress) (port : Z)
| StartClientEncryption
| DisconnectFromHost
| SocketWrite (data : list Z)
| RenderMessage (t : nat)
| RendererAbort (t : nat)
| InvokeProcessStates              (* queued call of _q_processStates *)
| EmitFinished
| EmitTransactionFinished (t : nat)
| EmitProgressUpdate (percent : Z).

(** [QsrMailTransportPrivate::SmtpResponse]: the members the state
    machine reads. *)
Record SmtpResponse : Type := mkResponse {
  line : list Z;
  lines : list (list Z);
  code : Z;
  isValid : bool
}.

(** [SmtpResponse::reset] *)
Definition reset : SmtpResponse := mkResponse [] [] 0 false.

(** What the state machine asks of its collaborators while it runs: the
    resolver that signalled [finished], [qrand()], the socket, and the
    renderer of a transaction. *)
Record Env : Type := mkEnv {
  resolverError : option (list Z);        (* [None]: QDnsLookup::NoError *)
  hostAddressRecords : list HostAddress;
  qrand : Z;
  isEncrypted : bool;
  socketErrorString : list Z;
  lastError : nat -> list Z
}.

Section Model.
Variable DateTime : Type.

(** The order in which a [QSet<QByteArray>] is visited from
    [constBegin()] on after the given keys were inserted, one after the
    other, into the empty set.  Qt leaves the order open. *)
Variable qsetOrder : list (list Z) -> list (list Z).

(** The members of [QsrMailTransportPrivate].  The queue holds handles
    (positions in [store]) of the transaction objects; [watched] are the
    transactions whose [finished] signal is connected to
    [_q_transactionFinished]; the timer is its two properties; [rcpt]
    is the part of the set the iterator has not visited yet. *)
Record t : Type := mk {
  state : State;
  interrupted : bool;
  aborted : bool;
  reachedRTS : bool;
  authenticated : bool;
  crlfState : Z;
  hasStartTls : bool;
  hasAuth : bool;
  selectedAuthMech : AuthMech;
  response : SmtpResponse;
  queue : list nat;
  totalMessages : Z;
  processedMessages : Z;
  from : list Z;
  rcpts : gset (list Z);
  rcpt : list (list Z);
  waitingRenderer : option nat;
  username : list Z;
  password : list Z;
  authMech : AuthMech;
  systemIdentifier : list Z;
  timeout : Z;
  serverHostname : list Z;
  serverProtocol : NetworkLayerProtocol;
  serverAddress : HostAddress;
  serverPort : Z;
  tlsLevel : TlsLevel;
  timerActive : bool;
  timerInterval : Z;
  store : list (Transaction.t DateTime);
  watched : gset nat;
  log : list Action
}.

Definition withState (v : State) (r : t) : t :=
  mk v (interrupted r) (aborted r) (reachedRTS r) (authenticated r) (crlfState r) (hasStartTls r) (hasAuth r) (selectedAuthMech r) (response r) (queue r) (totalMessages r) (processedMessages r) (from r) (rcpts r) (rcpt r) (waitingRenderer r) (username r) (password r) (authMech r) (systemIdentifier r) (timeout r) (serverHostname r) (serverProtocol r) (serverAddress r) (serverPort r) (tlsLevel r) (timerActive r) (timerInterval r) (store r) (watched r) (log r).
Definition withInterrupted (v : bool) (r : t) : t :=
  mk (state r) v (aborted r) (reachedRTS r) (authenticated r) (crlfState r) (hasStartTls r) (hasAuth r) (selectedAuthMech r) (response r) (queue r) (totalMessages r) (processedMessages r) (from r) (rcpts r) (rcpt r) (waitingRenderer r) (username r) (password r) (authMech r) (systemIdentifier r) (timeout r) (serverHostname r) (serverProtocol r) (serverAddress r) (serverPort r) (tlsLevel r) (timerActive r) (timerInterval r) (store r) (watched r) (log r).
Definition withAborted (v : bool) (r : t) : t :=
  mk (state r) (interrupted r) v (reachedRTS r) (authenticated r) (crlfState r) (hasStartTls r) (hasAuth r) (selectedAuthMech r) (response r) (queue r) (totalMessages r) (processedMessages r) (from r) (rcpts r) (rcpt r) (waitingRenderer r) (username r) (password r) (authMech r) (systemIdentifier r) (timeout r) (serverHostname r) (serverProtocol r) (serverAddress r) (serverPort r) (tlsLevel r) (timerActive r) (timerInterval r) (store r) (watched r) (log r).
Definition withReachedRTS (v : bool) (r : t) : t :=
  mk (state r) (interrupted r) (aborted r) v (authenticated r) (crlfState r) (hasStartTls r) (hasAuth r) (selectedAuthMech r) (response r) (queue r) (totalMessages r) (processedMessages r) (from r) (rcpts r) (rcpt r) (waitingRenderer r) (username r) (password r) (authMech r) (systemIdentifier r) (timeout r) (serverHostname r) (serverProtocol r) (serverAddress r) (serverPort r) (tlsLevel r) (timerActive r) (timerInterval r) (store r) (watched r) (log r).
Definition withAuthenticated (v : bool) (r : t) : t :=
  mk (state r) (interrupted r) (aborted r) (reachedRTS r) v (crlfState r) (hasStartTls r) (hasAuth r) (selectedAuthMech r) (response r) (queue r) (totalMessages r) (processedMessages r) (from r) (rcpts r) (rcpt r) (waitingRenderer r) (username r) (password r) (authMech r) (systemIdentifier r) (timeout r) (serverHostname r) (serverProtocol r) (serverAddress r) (serverPort r) (tlsLevel r) (timerActive r) (timerInterval r) (store r) (watched r) (log r).
Definition withCrlfState (v : Z) (r : t) : t :=
  mk (state r) (interrupted r) (aborted r) (reachedRTS r) (authenticated r) v (hasStartTls r) (hasAuth r) (selectedAuthMech r) (response r) (queue r) (totalMessages r) (processedMessages r) (from r) (rcpts r) (rcpt r) (waitingRenderer r) (username r) (password r) (authMech r) (systemIdentifier r) (timeout r) (serverHostname r) (serverProtocol r) (serverAddress r) (serverPort r) (tlsLevel r) (timerActive r) (timerInterval r) (store r) (watched r) (log r).
Definition withHasStartTls (v : bool) (r : t) : t :=
  mk (state r) (interrupted r) (aborted r) (reachedRTS r) (authenticated r) (crlfState r) v (hasAuth r) (selectedAuthMech r) (response r) (queue r) (totalMessages r) (processedMessages r) (from r) (rcpts r) (rcpt r) (waitingRenderer r) (username r) (password r) (authMech r) (systemIdentifier r) (timeout r) (serverHostname r) (serverProtocol r) (serverAddress r) (serverPort r) (tlsLevel r) (timerActive r) (timerInterval r) (store r) (watched r) (log r).
Definition withHasAuth (v : bool) (r : t) : t :=
  mk (state r) (interrupted r) (aborted r) (reachedRTS r) (authenticated r) (crlfState r) (hasStartTls r) v (selectedAuthMech r) (response r) (queue r) (totalMessages r) (processedMessages r) (from r) (rcpts r) (rcpt r) (waitingRenderer r) (username r) (password r) (authMech r) (systemIdentifier r) (timeout r) (serverHostname r) (serverProtocol r) (serverAddress r) (serverPort r) (tlsLevel r) (timerActive r) (timerInterval r) (store r) (watched r) (log r).
Definition withSelectedAuthMech (v : AuthMech) (r : t) : t :=
  mk (state r) (interrupted r) (aborted r) (reachedRTS r) (authenticated r) (crlfState r) (hasStartTls r) (hasAuth r) v (response r) (queue r) (totalMessages r) (processedMessages r) (from r) (rcpts r) (rcpt r) (waitingRenderer r) (username r) (password r) (authMech r) (systemIdentifier r) (timeout r) (serverHostname r) (serverProtocol r) (serverAddress r) (serverPort r) (tlsLevel r) (timerActive r) (timerInterval r) (store r) (watched r) (log r).
Definition withResponse (v : SmtpResponse) (r : t) : t :=
  mk (state r) (interrupted r) (aborted r) (reachedRTS r) (authenticated r) (crlfState r) (hasStartTls r) (hasAuth r) (selectedAuthMech r) v (queue r) (totalMessages r) (processedMessages r) (from r) (rcpts r) (rcpt r) (waitingRenderer r) (username r) (password r) (authMech r) (systemIdentifier r) (timeout r) (serverHostname r) (serverProtocol r) (serverAddress r) (serverPort r) (tlsLevel r) (timerActive r) (timerInterval r) (store r) (watched r) (log r).
Definition withQueue (v : list nat) (r : t) : t :=
  mk (state r) (interrupted r) (aborted r) (reachedRTS r) (authenticated r) (crlfState r) (hasStartTls r) (hasAuth r) (selectedAuthMech r) (response r) v (totalMessages r) (processedMessages r) (from r) (rcpts r) (rcpt r) (waitingRenderer r) (username r) (password r) (authMech r) (systemIdentifier r) (timeout r) (serverHostname r) (serverProtocol r) (serverAddress r) (serverPort r) (tlsLevel r) (timerActive r) (timerInterval r) (store r) (watched r) (log r).
Definition withTotalMessages (v : Z) (r : t) : t :=
  mk (state r) (interrupted r) (aborted r) (reachedRTS r) (authenticated r) (crlfState r) (hasStartTls r) (hasAuth r) (selectedAuthMech r) (response r) (queue r) v (processedMessages r) (from r) (rcpts r) (rcpt r) (waitingRenderer r) (username r) (password r) (authMech r) (systemIdentifier r) (timeout r) (serverHostname r) (serverProtocol r) (serverAddress r) (serverPort r) (tlsLevel r) (timerActive r) (timerInterval r) (store r) (watched r) (log r).
Definition withProcessedMessages (v : Z) (r : t) : t :=
  mk (state r) (interrupted r) (aborted r) (reachedRTS r) (authenticated r) (crlfState r) (hasStartTls r) (hasAuth r) (selectedAuthMech r) (response r) (queue r) (totalMessages r) v (from r) (rcpts r) (rcpt r) (waitingRenderer r) (username r) (password r) (authMech r) (systemIdentifier r) (timeout r) (serverHostname r) (serverProtocol r) (serverAddress r) (serverPort r) (tlsLevel r) (timerActive r) (timerInterval r) (store r) (watched r) (log r).
Definition withFrom (v : list Z) (r : t) : t :=
  mk (state r) (interrupted r) (aborted r) (reachedRTS r) (authenticated r) (crlfState r) (hasStartTls r) (hasAuth r) (selectedAuthMech r) (response r) (queue r) (totalMessages r) (processedMessages r) v (rcpts r) (rcpt r) (waitingRenderer r) (username r) (password r) (authMech r) (systemIdentifier r) (timeout r) (serverHostname r) (serverProtocol r) (serverAddress r) (serverPort r) (tlsLevel r) (timerActive r) (timerInterval r) (store r) (watched r) (log r).
Definition withRcpts (v : gset (list Z)) (r : t) : t :=
  mk (state r) (interrupted r) (aborted r) (reachedRTS r) (authenticated r) (crlfState r) (hasStartTls r) (hasAuth r) (selectedAuthMech r) (response r) (queue r) (totalMessages r) (processedMessages r) (from r) v (rcpt r) (waitingRenderer r) (username r) (password r) (authMech r) (systemIdentifier r) (timeout r) (serverHostname r) (serverProtocol r) (serverAddress r) (serverPort r) (tlsLevel r) (timerActive r) (timerInterval r) (store r) (watched r) (log r).
Definition withRcpt (v : list (list Z)) (r : t) : t :=
  mk (state r) (interrupted r) (aborted r) (reachedRTS r) (authenticated r) (crlfState r) (hasStartTls r) (hasAuth r) (selectedAuthMech r) (response r) (queue r) (totalMessages r) (processedMessages r) (from r) (rcpts r) v (waitingRenderer r) (username r) (password r) (authMech r) (systemIdentifier r) (timeout r) (serverHostname r) (serverProtocol r) (serverAddress r) (serverPort r) (tlsLevel r) (timerActive r) (timerInterval r) (store r) (watched r) (log r).
Definition withWaitingRenderer (v : option nat) (r : t) : t :=
  mk (state r) (interrupted r) (aborted r) (reachedRTS r) (authenticated r) (crlfState r) (hasStartTls r) (hasAuth r) (selectedAuthMech r) (response r) (queue r) (totalMessages r) (processedMessages r) (from r) (rcpts r) (rcpt r) v (username r) (password r) (authMech r) (systemIdentifier r) (timeout r) (serverHostname r) (serverProtocol r) (serverAddress r) (serverPort r) (tlsLevel r) (timerActive r) (timerInterval r) (store r) (watched r) (log r).
Definition withTimeout (v : Z) (r : t) : t :=
  mk (state r) (interrupted r) (aborted r) (reachedRTS r) (authenticated r) (crlfState r) (hasStartTls r) (hasAuth r) (selectedAuthMech r) (response r) (queue r) (totalMessages r) (processedMessages r) (from r) (rcpts r) (rcpt r) (waitingRenderer r) (username r) (password r) (authMech r) (systemIdentifier r) v (serverHostname r) (serverProtocol r) (serverAddress r) (serverPort r) (tlsLevel r) (timerActive r) (timerInterval r) (store r) (watched r) (log r).
Definition withServerHostname (v : list Z) (r : t) : t :=
  mk (state r) (interrupted r) (aborted r) (reachedRTS r) (authenticated r) (crlfState r) (hasStartTls r) (hasAuth r) (selectedAuthMech r) (response r) (queue r) (totalMessages r) (processedMessages r) (from r) (rcpts r) (rcpt r) (waitingRenderer r) (username r) (password r) (authMech r) (systemIdentifier r) (timeout r) v (serverProtocol r) (serverAddress r) (serverPort r) (tlsLevel r) (timerActive r) (timerInterval r) (store r) (watched r) (log r).
Definition withServerProtocol (v : NetworkLayerProtocol) (r : t) : t :=
  mk (state r) (interrupted r) (aborted r) (reachedRTS r) (authenticated r) (crlfState r) (hasStartTls r) (hasAuth r) (selectedAuthMech r) (response r) (queue r) (totalMessages r) (processedMessages r) (from r) (rcpts r) (rcpt r) (waitingRenderer r) (username r) (password r) (authMech r) (systemIdentifier r) (timeout r) (serverHostname r) v (serverAddress r) (serverPort r) (tlsLevel r) (timerActive r) (timerInterval r) (store r) (watched r) (log r).
Definition withServerAddress (v : HostAddress) (r : t) : t :=
  mk (state r) (interrupted r) (aborted r) (reachedRTS r) (authenticated r) (crlfState r) (hasStartTls r) (hasAuth r) (selectedAuthMech r) (response r) (queue r) (totalMessages r) (processedMessages r) (from r) (rcpts r) (rcpt r) (waitingRenderer r) (username r) (password r) (authMech r) (systemIdentifier r) (timeout r) (serverHostname r) (serverProtocol r) v (serverPort r) (tlsLevel r) (timerActive r) (timerInterval r) (store r) (watched r) (log r).
Definition withServerPort (v : Z) (r : t) : t :=
  mk (state r) (interrupted r) (aborted r) (reachedRTS r) (authenticated r) (crlfState r) (hasStartTls r) (hasAuth r) (selectedAuthMech r) (response r) (queue r) (totalMessages r) (processedMessages r) (from r) (rcpts r) (rcpt r) (waitingRenderer r) (username r) (password r) (authMech r) (systemIdentifier r) (timeout r) (serverHostname r) (serverProtocol r) (serverAddress r) v (tlsLevel r) (timerActive r) (timerInterval r) (store r) (watched r) (log r).
Definition withTimerActive (v : bool) (r : t) : t :=
  mk (state r) (interrupted r) (aborted r) (reachedRTS r) (authenticated r) (crlfState r) (hasStartTls r) (hasAuth r) (selectedAuthMech r) (response r) (queue r) (totalMessages r) (processedMessages r) (from r) (rcpts r) (rcpt r) (waitingRenderer r) (username r) (password r) (authMech r) (systemIdentifier r) (timeout r) (serverHostname r) (serverProtocol r) (serverAddress r) (serverPort r) (tlsLevel r) v (timerInterval r) (store r) (watched r) (log r).
Definition withTimerInterval (v : Z) (r : t) : t :=
  mk (state r) (interrupted r) (aborted r) (reachedRTS r) (authenticated r) (crlfState r) (hasStartTls r) (hasAuth r) (selectedAuthMech r) (response r) (queue r) (totalMessages r) (processedMessages r) (from r) (rcpts r) (rcpt r) (waitingRenderer r) (username r) (password r) (authMech r) (systemIdentifier r) (timeout r) (serverHostname r) (serverProtocol r) (serverAddress r) (serverPort r) (tlsLevel r) (timerActive r) v (store r) (watched r) (log r).
Definition withStore (v : list (Transaction.t DateTime)) (r : t) : t :=
  mk (state r) (interrupted r) (aborted r) (reachedRTS r) (authenticated r) (crlfState r) (hasStartTls r) (hasAuth r) (selectedAuthMech r) (response r) (queue r) (totalMessages r) (processedMessages r) (from r) (rcpts r) (rcpt r) (waitingRenderer r) (username r) (password r) (authMech r) (systemIdentifier r) (timeout r) (serverHostname r) (serverProtocol r) (serverAddress r) (serverPort r) (tlsLevel r) (timerActive r) (timerInterval r) v (watched r) (log r).
Definition withWatched (v : gset nat) (r : t) : t :=
  mk (state r) (interrupted r) (aborted r) (reachedRTS r) (authenticated r) (crlfState r) (hasStartTls r) (hasAuth r) (selectedAuthMech r) (response r) (queue r) (totalMessages r) (processedMessages r) (from r) (rcpts r) (rcpt r) (waitingRenderer r) (username r) (password r) (authMech r) (systemIdentifier r) (timeout r) (serverHostname r) (serverProtocol r) (serverAddress r) (serverPort r) (tlsLevel r) (timerActive r) (timerInterval r) (store r) v (log r).
Definition withLog (v : list Action) (r : t) : t :=
  mk (state r) (interrupted r) (aborted r) (reachedRTS r) (authenticated r) (crlfState r) (hasStartTls r) (hasAuth r) (selectedAuthMech r) (response r) (queue r) (totalMessages r) (processedMessages r) (from r) (rcpts r) (rcpt r) (waitingRenderer r) (username r) (password r) (authMech r) (systemIdentifier r) (timeout r) (serverHostname r) (serverProtocol r) (serverAddress r) (serverPort r) (tlsLevel r) (timerActive r) (timerInterval r) (store r) (watched r) v.

Definition act (a : Action) (d : t) : t := withLog (log d ++ [a]) d.

(** The constructors of [QsrMailTransportPrivate] and
    [QsrMailTransport]. *)
Definition create : t :=
  mk IdleState false false false false 0 false false DisabledMech
     reset [] 0 0 [] ∅ [] None
     [] [] AutoSelectMech (bytes "localhost")
     6000 [] AnyIPProtocol NullAddress 25 TlsOptional
     false 0 [] ∅ [].

(** [QsrMailTransport::setTimeout] and [QsrMailTransport::timeout] *)
Definition setTimeout (value : Z) (d : t) : t := withTimeout value d.

(** [timer->start(msec)], [timer->start()] and [timer->stop()] *)
Definition timerStart (msec : Z) (d : t) : t :=
  act (TimerStart msec) (withTimerActive true (withTimerInterval msec d)).
Definition timerRestart (d : t) : t :=
  act TimerRestart (withTimerActive true d).
Definition timerStop (d : t) : t :=
  act TimerStop (withTimerActive false d).

(** [QsrMailTransportPrivate::write] *)
Definition write (data : list Z) (d : t) : t :=
  act (SocketWrite (data ++ [13; 10])) d.

(** [QsrMailTransportPrivate::_q_transactionFinished] for the
    transaction with handle [i]. *)
Definition _q_transactionFinished (i : nat) (d : t) : outcome t :=
  let d := withWatched (watched d ∖ {[i]}) d in
  let d := act (RendererAbort i) d in
  let d := act (EmitTransactionFinished i) d in
  let d := withProcessedMessages (processedMessages d + 1) d in
  if totalMessages d =? 0 then Fault
  else
    let percent := Z.quot (processedMessages d * 100) (totalMessages d) in
    Ok (act (EmitProgressUpdate (if 100 <? percent then 100 else percent)) d).

(** A method of the transaction object with handle [i] that ends in
    [finalize()]: the object changes in the store, and the [finished]
    signal runs the slot of the transport when it is connected. *)
Definition finalizeWith
    (f : Transaction.t DateTime -> Transaction.t DateTime)
    (i : nat) (d : t) : outcome t :=
  match store d !! i with
  | None => Fault
  | Some r =>
      let d := withStore (<[i := Transaction.finalize (f r)]> (store d)) d in
      if bool_decide (i ∈ watched d) then _q_transactionFinished i d
      else Ok d
  end.

(** [QsrMailTransaction::abort] called on the object with handle [i] *)
Definition abortTransaction (i : nat) (d : t) : outcome t :=
  finalizeWith (Transaction.setError Transaction.AbortedError None) i d.

(** [QsrMailTransportPrivate::queueMessageImpl]; the result is the new
    transaction's handle. *)
Definition queueMessage (m : Message.t DateTime) (d : t) : nat * t :=
  let i := length (store d) in
  (i, withQueue (queue d ++ [i])
        (withWatched ({[i]} ∪ watched d)
           (withStore (store d ++ [Transaction.createInstance m]) d))).

(** [QsrMailTransportPrivate::sendMessagesImpl] *)
Definition sendMessagesImpl (initState : State) (d : t) : t :=
  match queue d with
  | [] => act EmitFinished d
  | _ =>
      let d := withState initState d in
      let d := withTotalMessages (Z.of_nat (length (queue d))) d in
      let d := withProcessedMessages 0 d in
      let d := withResponse reset d in
      let d := withInterrupted false d in
      let d := withAborted false d in
      let d := withReachedRTS false d in
      let d := withAuthenticated false d in
      let d := withCrlfState 0 d in
      let d := timerStart (timeout d) d in
      act InvokeProcessStates d
  end.

(** [QsrMailTransport::sendMessages(const QString &, quint16,
    QAbstractSocket::NetworkLayerProtocol)] *)
Definition sendMessages (hostname : list Z) (port : Z)
    (proto : NetworkLayerProtocol) (d : t) : t :=
  let d := withServerHostname hostname d in
  let d := withServerProtocol proto d in
  let d := withServerAddress NullAddress d in
  let d := withServerPort port d in
  sendMessagesImpl ResolvingState d.

(** [QsrMailTransport::sendMessages(const QHostAddress &, quint16)] *)
Definition sendMessagesTo (address : HostAddress) (port : Z) (d : t) : t :=
  let d := withServerHostname [] d in
  let d := withServerProtocol (protocol address) d in
  let d := withServerAddress address d in
  let d := withServerPort port d in
  sendMessagesImpl ConnectedState d.

(** [QsrMailTransport::abort] *)
Definition abort (d : t) : t := act DisconnectFromHost (withAborted true d).

(** [QsrMailTransportPrivate::_q_timeout] *)
Definition _q_timeout (d : t) : t :=
  act DisconnectFromHost (withInterrupted true (withTimerActive false d)).

(** [QsrMailTransportPrivate::_q_stateChanged] *)
Definition _q_stateChanged (socketState : SocketState) (d : t) : t :=
  match socketState with
  | SocketConnected => act InvokeProcessStates (withState ConnectedState d)
  | SocketUnconnected =>
      act InvokeProcessStates (withState DisconnectedState d)
  | _ => d
  end.

(** [QsrMailTransportPrivate::finalizeQueue]; [n] bounds the loop, one
    transaction leaves the queue per pass. *)
Fixpoint finalizeQueueLoop (n : nat) (error : Transaction.TransactionError)
    (errorText : option (list Z)) (d : t) : outcome t :=
  match queue d with
  | [] => Ok d
  | i :: rest =>
      match n with
      | O => Fuel
      | S n' =>
          let d := withQueue rest d in
          let r := response d in
          obind
            (finalizeWith
               (fun x =>
                  Transaction.setError error errorText
                    (if isValid r
                     then Transaction.setStatus (code r) (lines r) x
                     else x)) i d)
            (finalizeQueueLoop n' error errorText)
      end
  end.

Definition finalizeQueue (error : Transaction.TransactionError)
    (errorText : option (list Z)) (d : t) : outcome t :=
  finalizeQueueLoop (length (queue d)) error errorText d.

(** [QByteArray::split(' ')] *)
Fixpoint split (sep : Z) (b : list Z) : list (list Z) :=
  match b with
  | [] => [[]]
  | x :: b' =>
      if x =? sep then [] :: split sep b'
      else match split sep b' with
           | [] => [[x]]
           | p :: ps => (x :: p) :: ps
           end
  end.

Definition contains (ps : list (list Z)) (p : list Z) : bool :=
  bool_decide (p ∈ ps).

(** [QsrMailTransportPrivate::enumExtensions] *)
Definition enumLine (d : t) (l : list Z) : t :=
  let parts := split 32 l in
  let first := nth 0 parts [] in
  if bool_decide (first = bytes "STARTTLS") then withHasStartTls true d
  else if bool_decide (first = bytes "AUTH") then
    let d := withHasAuth true d in
    if isMech (authMech d) AutoSelectMech then
      if contains parts (bytes "CRAM-MD5")
      then withSelectedAuthMech CramMd5Mech d
      else if contains parts (bytes "LOGIN")
      then withSelectedAuthMech LoginMech d
      else if contains parts (bytes "PLAIN")
      then withSelectedAuthMech PlainMech d
      else withSelectedAuthMech DisabledMech d
    else withSelectedAuthMech (authMech d) d
  else d.

Definition enumExtensions (ls : list (list Z)) (d : t) : t :=
  let d := withHasStartTls false d in
  let d := withHasAuth false d in
  let d := withSelectedAuthMech DisabledMech d in
  fold_left enumLine ls d.

(** [QsrMailTransportPrivate::authResponse]; the null array is []. *)
Definition authResponse (challenge : list Z) (d : t) : list Z :=
  match selectedAuthMech d with
  | CramMd5Mech => Auth.cramMd5Mech challenge (username d) (password d)
  | LoginMech => Auth.loginMech challenge (username d) (password d)
  | PlainMech => Auth.plainMech challenge (username d) (password d)
  | AutoSelectMech | DisabledMech => []
  end.

(** The keys [setupTransaction] inserts into [rcpts], in the order of
    the insertions. *)
Definition recipientKeys (m : Message.t DateTime) : list (list Z) :=
  map (fun a => content (Address.toByteArray a))
      (Message.to m ++ Message.cc m ++ Message.bcc m).

(** [QsrMailTransportPrivate::setupTransaction] *)
Definition setupTransaction (env : Env) (d : t) : outcome (bool * t) :=
  match queue d with
  | [] => Fault
  | i :: rest =>
      match store d !! i with
      | None => Fault
      | Some r =>
          let msg := Transaction.message r in
          (* setup transport info data *)
          let r := Transaction.withEncrypted (isEncrypted env) r in
          let r := Transaction.withAuthenticated (authenticated d) r in
          let r := Transaction.withAuthMech (Some (selectedAuthMech d)) r in
          let r := Transaction.withUsername (username d) r in
          let d := withStore (<[i := r]> (store d)) d in
          (* setup sender data *)
          let d := withFrom
                     (if Address.isValid (Message.sender msg)
                      then content (Address.toByteArray (Message.sender msg))
                      else match Message.from msg with
                           | a :: _ => content (Address.toByteArray a)
                           | [] => []
                           end) d in
          (* setup recipients *)
          let keys := recipientKeys msg in
          let d := withRcpts (fold_left (fun s k => {[k]} ∪ s) keys ∅) d in
          let d := withRcpt (qsetOrder keys) d in
          (* message preflight check *)
          if Nat.eqb (length (from d)) 0 then
            obind (finalizeWith
                     (Transaction.setError Transaction.NoSenderError None)
                     i (withQueue rest d))
                  (fun d => Ok (false, d))
          else if bool_decide (rcpts d = ∅) then
            obind (finalizeWith
                     (Transaction.setError Transaction.NoRecipientsError None)
                     i (withQueue rest d))
                  (fun d => Ok (false, d))
          else Ok (true, d)
      end
  end.

(** [while (!queue.isEmpty()) { if (setupTransaction()) ... }] of the
    ReadyToSend state; a pass that does not leave shortens the queue. *)
Fixpoint readyToSend (n : nat) (env : Env) (d : t) : outcome t :=
  match queue d with
  | [] => Ok (withState ClosingState (write (bytes "QUIT") d))
  | _ :: _ =>
      match n with
      | O => Fuel
      | S n' =>
          obind (setupTransaction env d)
            (fun '(ok, d) =>
               if ok : bool
               then Ok (withState MailFromState
                          (write (bytes "MAIL FROM:<" ++ from d ++ bytes ">") d))
               else readyToSend n' env d)
      end
  end.

(** How one pass through the [forever] loop ends. *)
Inductive Pass : Type :=
| Return (d : t)
| Continue (d : t)
| Broken (fault : bool).   (* [true]: Fault, [false]: Fuel *)

Definition passOf (o : outcome t) (k : t -> Pass) : Pass :=
  match o with
  | Ok d => k d
  | Fault => Broken true
  | Fuel => Broken false
  end.

Definition dnsType (p : NetworkLayerProtocol) : DnsType :=
  match p with
  | IPv4Protocol => DnsA
  | IPv6Protocol => DnsAAAA
  | AnyIPProtocol | UnknownNetworkLayerProtocol => DnsANY
  end.

Definition quitAndClose (d : t) : Pass :=
  Return (withState ClosingState (write (bytes "QUIT") d)).

(** The body of the [forever] loop of [_q_processStates]; [code] is the
    local variable of that name. *)
Definition pass (env : Env) (code : Z) (d : t) : Pass :=
  let st := state d in
  if isState st ResolvingState then
    Return (withState ResolvedState
              (act (Lookup (dnsType (serverProtocol d)) (serverHostname d)) d))
  else if isState st ResolvedState then
    match resolverError env with
    | Some text =>
        passOf (finalizeQueue Transaction.ResolverError (Some text) d)
               (fun d => Return (withState IdleState d))
    | None =>
        let records := hostAddressRecords env in
        match records with
        | [] => Broken true
        | _ =>
            let k := Z.to_nat (Z.rem (qrand env) (Z.of_nat (length records))) in
            Continue (withState ConnectingState
                        (withServerAddress (nth k records NullAddress) d))
        end
    end
  else if isState st ConnectingState then
    Return (act (ConnectToHost (serverAddress d) (serverPort d)) d)
  else if isState st ConnectedState then
    Return (withState BannerState (withAuthenticated false d))
  else if isState st BannerState && (code =? 220) then
    Return (withState SessionInitState
              (write (bytes "EHLO " ++ systemIdentifier d) d))
  else if isState st SessionInitState && (499 <? code) && (code <? 510) then
    Return (withState SessionSetupState
              (write (bytes "HELO " ++ systemIdentifier d) d))
  else if isState st SessionInitState && (code =? 250) then
    let d := enumExtensions (lines (response d)) d in
    match tlsLevel d with
    | TlsOptional =>
        if hasStartTls d
        then Return (withState TlsSetupState (write (bytes "STARTTLS") d))
        else Continue (withState SessionSetupState d)
    | TlsRequired =>
        if hasStartTls d
        then Return (withState TlsSetupState (write (bytes "STARTTLS") d))
        else passOf (finalizeQueue Transaction.TlsRequiredError None d)
                    quitAndClose
    | TlsDisabled => Continue (withState SessionSetupState d)
    end
  else if isState st TlsSetupState && (code =? 220) then
    Return (withState EncryptedState (act StartClientEncryption d))
  else if isState st TlsSetupState && (code =? 454) then
    match tlsLevel d with
    | TlsRequired =>
        passOf (finalizeQueue Transaction.TlsRequiredError None d)
               quitAndClose
    | _ => Continue (withState SessionSetupState d)
    end
  else if isState st EncryptedState then
    Return (withState EncryptedSessionInitState
              (write (bytes "EHLO " ++ systemIdentifier d) d))
  else if (isState st EncryptedSessionInitState && (code =? 250))
          || (isState st SessionSetupState && (code =? 250)) then
    let d := if isState st EncryptedSessionInitState
             then enumExtensions (lines (response d)) d else d in
    if negb (isMech (selectedAuthMech d) DisabledMech)
       && (negb (Nat.eqb (length (username d)) 0)
           || negb (Nat.eqb (length (password d)) 0))
    then
      let d := match selectedAuthMech d with
               | CramMd5Mech => write (bytes "AUTH CRAM-MD5") d
               | LoginMech => write (bytes "AUTH LOGIN") d
               | PlainMech => write (bytes "AUTH PLAIN") d
               | _ => d
               end in
      Return (withState AuthState d)
    else Continue (withState ReadyToSendState d)
  else if isState st AuthState && (code =? 334) then
    Return (write (authResponse (line (response d)) d) d)
  else if isState st AuthState && (code =? 235) then
    Continue (withState ReadyToSendState (withAuthenticated true d))
  else if isState st ReadyToSendState then
    let d := withReachedRTS true d in
    passOf (readyToSend (length (queue d)) env d) Return
  else if (isState st MailFromState && (code =? 250))
          || (isState st RcptToState && (code =? 250)) then
    match rcpt d with
    | r :: rest =>
        Return (withState RcptToState
                  (write (bytes "RCPT TO:<" ++ r ++ bytes ">")
                         (withRcpt rest d)))
    | [] => Return (withState DataState (write (bytes "DATA") d))
    end
  else if isState st DataState && (code =? 354) then
    match queue d with
    | [] => Broken true
    | i :: _ =>
        Return (withState EndOfMessageState
                  (act (RenderMessage i) (withWaitingRenderer None d)))
    end
  else if isState st EndOfMessageState then
    match queue d with
    | [] => Broken true
    | i :: rest =>
        if negb (Nat.eqb (length (lastError env i)) 0) then
          passOf (finalizeWith
                    (Transaction.setError Transaction.DataError
                                          (Some (lastError env i)))
                    i (withQueue rest d))
                 (fun d => Return (act DisconnectFromHost d))
        else
          let d := if negb (crlfState d =? 2)
                   then act (SocketWrite [13; 10]) d else d in
          Return (withState DataSentState (act (SocketWrite [46; 13; 10]) d))
    end
  else if isState st DataSentState && (code =? 250) then
    match queue d with
    | [] => Broken true
    | i :: rest =>
        passOf (finalizeWith
                  (fun x => Transaction.setStatus code (lines (response d))
                              (Transaction.setError Transaction.NoError None x))
                  i (withQueue rest d))
               (fun d => Continue (withState ReadyToSendState d))
    end
  else if isState st ClosingState then
    Return (act DisconnectFromHost d)
  else if isState st DisconnectedState then
    match queue d with
    | _ :: _ =>
        if reachedRTS d
        then Continue (withState ConnectingState (timerRestart d))
        else
          let d := timerStop d in
          passOf
            (if interrupted d
             then finalizeQueue Transaction.TimeoutError None d
             else if aborted d
             then finalizeQueue Transaction.AbortedError None d
             else finalizeQueue Transaction.ConnectionError
                                (Some (socketErrorString env)) d)
            (fun d => Continue (withState FinishedState d))
    | [] => Continue (withState FinishedState d)
    end
  else if isState st FinishedState then
    Return (act EmitFinished d)
  else if (stateIndex MailFromState <=? stateIndex st)
          && (stateIndex st <=? stateIndex DataSentState) then
    match queue d with
    | [] => Broken true
    | i :: rest =>
        passOf (finalizeWith
                  (fun x => Transaction.setError Transaction.ResponseError None
                              (Transaction.setStatus code (lines (response d)) x))
                  i (withQueue rest d))
               (fun d => Return (withState ReadyToSendState
                                   (write (bytes "RSET") d)))
    end
  else
    passOf (finalizeQueue Transaction.ResponseError None d) quitAndClose.

Fixpoint processLoop (fuel : nat) (env : Env) (code : Z) (d : t)
  : outcome t :=
  match fuel with
  | O => Fuel
  | S fuel' =>
      match pass env code d with
      | Return d => Ok d
      | Continue d => processLoop fuel' env code d
      | Broken true => Fault
      | Broken false => Fuel
      end
  end.

(** [QsrMailTransportPrivate::_q_processStates].  No path through the
    loop takes more than four [continue]s before it returns. *)
Definition _q_processStates (env : Env) (d : t) : outcome t :=
  let code := code (response d) in
  let d := if timerActive d then timerRestart d else d in
  processLoop 8 env code d.

(** A complete server response arrives while the socket is being read
    ([_q_socketReadyRead]): the state machine runs on it, and the
    response is cleared afterwards. *)
Definition respond (env : Env) (r : SmtpResponse) (d : t) : outcome t :=
  obind (_q_processStates env (withResponse r d))
        (fun d => Ok (withResponse reset d)).

(** The socket data written by the transport, oldest first. *)
Definition written (d : t) : list (list Z) :=
  flat_map (fun a => match a with SocketWrite x => [x] | _ => [] end)
           (log d).

End Model.
End Transport.


(** ** The server response (qsrmailtransport.cpp, [SmtpResponse]) *)

Module Response.

(** [QsrMailTransportPrivate::SmtpResponse] with all its members. *)
Record t : Type := mk {
  line : list Z;
  lines : list (list Z);
  code : Z;
  isValid : bool;
  isEmpty : bool;
  isCompleted : bool;
  isIntermediate : bool;
  isTransientError : bool;
  isPermanentError : bool;
  isSuccess : bool;
  isError : bool
}.

(** [SmtpResponse::reset] *)
Definition reset : t :=
  mk [] [] 0 false true false false false false false false.

Definition setCode (v : Z) (r : t) : t :=
  mk (line r) (lines r) v (isValid r) (isEmpty r) (isCompleted r)
     (isIntermediate r) (isTransientError r) (isPermanentError r)
     (isSuccess r) (isError r).

(** The [for] loop of [append] over the bytes from [p] on; [s] is the
    state of the [switch], [lp] the pointer set behind the separator.
    [inl code] is [return false] inside the loop, with the value the
    member [code] has by then; [inr] carries the variables at the end of
    the loop: [s], [code], [cont], [lp] and [p]. *)
Fixpoint scan (p : list Z) (s code : Z) (cont : bool) (lp : list Z)
  : Z + (Z * Z * bool * list Z * list Z) :=
  match p with
  | [] => inr (s, code, cont, lp, p)
  | c :: p' =>
      if (c =? 0) || (c =? 13) || (c =? 10) then inr (s, code, cont, lp, p)
      else if s <? 3 then
        if (c <? 48) || (57 <? c) then inl code
        else scan p' (s + 1) (code * 10 + (c - 48)) cont lp
      else if s =? 3 then
        if c =? 45 then scan p' (s + 1) code true p'
        else if negb (c =? 32) then inl code
        else scan p' (s + 1) code cont p'
      else scan p' s code cont lp
  end.

Definition between (lo hi x : Z) : bool := (lo <=? x) && (x <? hi).

(** [SmtpResponse::append]: the value returned and the structure
    afterwards. *)
Definition append (data : list Z) (r : t) : bool * t :=
  match scan data 0 0 false [] with
  | inl code => (false, setCode code r)
  | inr (s, code, cont, lp, p) =>
      if negb (s =? 4) then (false, setCode code r)
      else
        let line := firstn (length lp - length p) lp in
        (true,
         mk line (lines r ++ [line]) code
            (if cont then isValid r else true)
            false
            (between 200 300 code) (between 300 400 code)
            (between 400 500 code) (between 500 600 code)
            (between 200 400 code) (between 400 600 code))
  end.

(** The members the state machine reads. *)
Definition view (r : t) : Transport.SmtpResponse :=
  Transport.mkResponse (line r) (lines r) (code r) (isValid r).

End Response.

(** ** The slots of the socket and of the renderer (qsrmailtransport.cpp) *)

Module TransportIO.

(** Modelled from the spec: [QIODevice::readLine()] of the Qt library on
    the bytes the socket has received: the bytes up to and including the
    first LF; [None] when [canReadLine()] is false. *)
Fixpoint readLine (b : list Z) : option (list Z * list Z) :=
  match b with
  | [] => None
  | c :: b' =>
      if c =? 10 then Some ([c], b')
      else match readLine b' with
           | Some (l, rest) => Some (c :: l, rest)
           | None => None
           end
  end.

(** What the socket answers while [_q_writeMessageData] runs:
    [isEncrypted()], and the values of [encryptedBytesToWrite()] and of
    [bytesToWrite()] in the pass with the given number. *)
Record Socket : Type := mkSocket {
  isEncrypted : bool;
  encryptedBytesToWrite : nat -> Z;
  bytesToWrite : nat -> Z
}.

(** "detect CRLF at end of buffer": the new value of [crlfState] for
    the [size] bytes at [data]. *)
Definition crlfStep (crlfState : Z) (data : list Z) (size : Z) : Z :=
  let at_ (i : Z) := nth (Z.to_nat i) data 0 in
  if size =? 1 then
    if (crlfState =? 1) && (at_ 0 =? 10) then 2
    else if at_ 0 =? 13 then 1
    else 0
  else
    if (at_ (size - 2) =? 13) && (at_ (size - 1) =? 10) then 2
    else if at_ (size - 1) =? 13 then 1
    else 0.

(** The range of a C++ [int]. *)
Definition isInt (x : Z) : bool := (-2147483648 <=? x) && (x <=? 2147483647).

Section Model.
Variable DateTime : Type.
Variable qsetOrder : list (list Z) -> list (list Z).

(** [QsrMailTransportPrivate::_q_socketReadyRead].  [input] is what
    the socket has buffered, [resp] the member [response]; the state
    machine sees it through [Response.view].  Every pass takes a line
    from [input], [fuel] bounds the passes. *)
Fixpoint socketReadyReadLoop (fuel : nat) (env : Transport.Env)
    (input : list Z) (resp : Response.t) (d : Transport.t DateTime)
  : outcome (list Z * Response.t * Transport.t DateTime) :=
  match readLine input with
  | None => Ok (input, resp, d)
  | Some (data, rest) =>
      match fuel with
      | O => Fuel
      | S fuel' =>
          let resp := snd (Response.append data resp) in
          let d := Transport.withResponse DateTime (Response.view resp) d in
          if Response.isValid resp then
            obind (Transport._q_processStates DateTime qsetOrder env d)
              (fun d =>
                 socketReadyReadLoop fuel' env rest Response.reset
                   (Transport.withResponse DateTime
                      (Response.view Response.reset) d))
          else socketReadyReadLoop fuel' env rest resp d
      end
  end.

Definition _q_socketReadyRead (env : Transport.Env) (input : list Z)
    (resp : Response.t) (d : Transport.t DateTime)
  : outcome (list Z * Response.t * Transport.t DateTime) :=
  socketReadyReadLoop (length input) env input resp d.

(** The [forever] loop of [_q_writeMessageData] for the renderer of
    transaction [r], whose buffer has [bufferSize] bytes and holds
    [avail] at its data pointer; [k] counts the passes.  The result
    carries what the renderer has left. *)
Fixpoint writeLoop (fuel : nat) (socket : Socket) (k : nat) (r : nat)
    (bufferSize : Z) (avail : list Z) (d : Transport.t DateTime)
  : outcome (list Z * Transport.t DateTime) :=
  match fuel with
  | O => Fuel
  | S fuel' =>
      (* don't flood the socket buffer *)
      let maxSize :=
        bufferSize - (if isEncrypted socket
                      then encryptedBytesToWrite socket k
                      else bytesToWrite socket k) in
      if maxSize <=? 0 then
        Ok (avail, Transport.withWaitingRenderer DateTime (Some r) d)
      else
        (* check for data *)
        let size := Z.of_nat (length avail) in
        if size <=? 0 then Ok (avail, d)
        else
          (* make sure maxSize is not exceeded *)
          let size := if maxSize <? size then maxSize else size in
          let d := Transport.withCrlfState DateTime
                     (crlfStep (Transport.crlfState DateTime d) avail size)
                     d in
          let d := Transport.act DateTime
                     (Transport.SocketWrite (firstn (Z.to_nat size) avail))
                     d in
          writeLoop fuel' socket (S k) r bufferSize
                    (skipn (Z.to_nat size) avail) d
  end.

(** [QsrMailTransportPrivate::_q_writeMessageData]; [sender] is the
    transaction whose renderer emitted the signal. *)
Definition _q_writeMessageData (socket : Socket) (sender : nat)
    (bufferSize : Z) (avail : list Z) (d : Transport.t DateTime)
  : outcome (list Z * Transport.t DateTime) :=
  let r := Transport.waitingRenderer DateTime d in
  let d := Transport.withWaitingRenderer DateTime None d in
  let run (r : nat) :=
    writeLoop (S (length avail)) socket 0 r bufferSize avail d in
  match r with
  | Some r =>
      match Transport.queue DateTime d with
      | [] => Ok (avail, d)
      | i :: _ => if negb (Nat.eqb r i) then Ok (avail, d) else run r
      end
  | None => run sender
  end.

(** [QsrMailTransportPrivate::_q_encryptedBytesWritten] *)
Definition _q_encryptedBytesWritten (socket : Socket) (sender : nat)
    (bufferSize : Z) (avail : list Z) (d : Transport.t DateTime)
  : outcome (list Z * Transport.t DateTime) :=
  let d := if Transport.timerActive DateTime d
           then Transport.timerRestart DateTime d else d in
  match Transport.waitingRenderer DateTime d with
  | Some _ => _q_writeMessageData socket sender bufferSize avail d
  | None => Ok (avail, d)
  end.

(** [QsrMailTransportPrivate::_q_bytesWritten] *)
Definition _q_bytesWritten (socket : Socket) (sender : nat)
    (bufferSize : Z) (avail : list Z) (d : Transport.t DateTime)
  : outcome (list Z * Transport.t DateTime) :=
  if negb (isEncrypted socket)
  then _q_encryptedBytesWritten socket sender bufferSize avail d
  else Ok (avail, d).

(** [QsrMailTransportPrivate::_q_messageProgress].  A product or sum
    out of the range of [int], a division by zero and the head of an
    empty queue are undefined. *)
Definition _q_messageProgress (processed total : Z)
    (d : Transport.t DateTime) : outcome (Transport.t DateTime) :=
  if negb (isInt (processed * 100)) || (total =? 0) then Fault
  else
    let percent := Z.quot (processed * 100) total in
    let percent := if 100 <? percent then 100 else percent in
    match Transport.queue DateTime d with
    | [] => Fault
    | i :: _ =>
        match Transport.store DateTime d !! i with
        | None => Fault
        | Some r =>
            let d := Transport.withStore DateTime
                       (<[i := Transaction.setProgress percent r]>
                          (Transport.store DateTime d)) d in
            let sum := Transport.processedMessages DateTime d * 100 in
            if negb (isInt sum) || negb (isInt (sum + percent))
               || (Transport.totalMessages DateTime d =? 0)
            then Fault
            else
              let percent :=
                Z.quot (sum + percent)
                       (Transport.totalMessages DateTime d) in
              Ok (Transport.act DateTime
                    (Transport.EmitProgressUpdate
                       (if 100 <? percent then 100 else percent)) d)
        end
    end.

End Model.
End TransportIO.

(** * Notions the statements are phrased in *)

(** ** Base64: the quantum and the folded text *)

(** The value of the quantum after the bytes [R] were accumulated. *)
Definition pack (R : list Z) : Z :=
  match R with
  | [a] => a * 65536
  | [a; b] => a * 65536 + b * 256
  | [a; b; c] => a * 65536 + b * 256 + c
  | _ => 0
  end.

(** [put] over a run of characters. *)
Fixpoint puts (e : Base64.t) (cs : list Z) : Base64.t * list Z :=
  match cs with
  | [] => (e, [])
  | c :: cs' =>
      let '(e1, o1) := Base64.put e c in
      let '(e2, o2) := puts e1 cs' in (e2, o1 ++ o2)
  end.

(** The four characters [putQ] writes for a quantum of [s] bytes. *)
Definition quantumChars (q s : Z) : list Z :=
  [Base64.dict (Z.shiftr (Z.land q 0xfc0000) 18);
   Base64.dict (Z.shiftr (Z.land q 0x3f000) 12);
   (if 3 - s =? 2 then 61 else Base64.dict (Z.shiftr (Z.land q 0xfc0) 6));
   (if 1 <=? 3 - s then 61 else Base64.dict (Z.land q 0x3f))].

(** Of the input [B], bytes [C] went out as full quanta, [R] wait in the
    quantum, the rest is still in the device; [T] is everything written
    so far with line width [lw]. *)
Definition InvOpen (lw : Z) (B : list Z) (T : list Z) (e : Base64.t) : Prop :=
  exists C R,
    B = C ++ R ++ Device.buf (Base64.device e)
    /\ Base64.qSize e = Z.of_nat (length R)
    /\ (length R < 3)%nat
    /\ Base64.qBuffer e = pack R
    /\ Base64Spec.foldLines lw 0 (Base64Spec.encodeChars C) = (T, Base64.lineChars e)
    /\ Z.of_nat (length C) mod 3 = 0
    /\ Base64.lineWidth e = lw
    /\ Device.isSequential (Base64.device e) = false.

(** The input [B] is consumed and the last quantum is written. *)
Definition InvDone (lw : Z) (B : list Z) (T : list Z) (e : Base64.t) : Prop :=
  Device.buf (Base64.device e) = []
  /\ Base64.qSize e = 0
  /\ Base64Spec.foldLines lw 0 (Base64Spec.encodeChars B) = (T, Base64.lineChars e)
  /\ Base64.lineWidth e = lw
  /\ Device.isSequential (Base64.device e) = false.

Definition Inv (lw : Z) (B : list Z) (T : list Z) (e : Base64.t) : Prop :=
  InvOpen lw B T e \/ InvDone lw B T e.

(** ** Quoted-Printable: a blank that stays in the device *)

(** The device still holds the blank [c] and what follows it. *)
Definition keeps (c : Z) (rest : list Z) (b : list Z) : Prop :=
  exists pre, b = pre ++ c :: rest.

Definition flowKeeps (c : Z) (rest : list Z) (f : Qp.flow) : Prop :=
  match f with
  | Qp.Continue e _ _ | Qp.Break e _ _ => keeps c rest (Device.buf (Qp.device e))
  | Qp.Crash => True
  end.

(** ** The transport: queues, recipients, dialogues *)

(** A fresh transport with the messages queued in order. *)
Definition queued {DateTime : Type} (ms : list (Message.t DateTime)) : Transport.t DateTime :=
  fold_left (fun d m => snd (Transport.queueMessage DateTime m d)) ms
            (Transport.create DateTime).

(** The keys in the order of their first occurrence. *)
Fixpoint dedup (l : list (list Z)) : list (list Z) :=
  match l with
  | [] => []
  | x :: l' => x :: filter (fun y => y <> x) (dedup l')
  end.

(** What Qt promises of the iteration over a [QSet]: every element of the
    set is visited, and visited once. *)
Definition QSetOrder (qsetOrder : list (list Z) -> list (list Z)) : Prop :=
  forall keys, NoDup (qsetOrder keys)
               /\ forall k, k ∈ qsetOrder keys <-> k ∈ keys.

Definition rcptCommand (k : list Z) : list Z :=
  bytes "RCPT TO:<" ++ k ++ bytes ">" ++ [13; 10].

(** The server acknowledges [n] times with a single-line 250. *)
Fixpoint acknowledge {DateTime : Type} (qsetOrder : list (list Z) -> list (list Z))
    (n : nat) (env : Transport.Env) (d : Transport.t DateTime)
    : outcome (Transport.t DateTime) :=
  match n with
  | O => Ok d
  | S n' =>
      obind (Transport.respond DateTime qsetOrder env
               (Transport.mkResponse [] [[]] 250 true) d)
            (acknowledge qsetOrder n' env)
  end.

(** A server that resolves to 127.0.0.1, without TLS and without errors. *)
Definition plainEnv : Transport.Env :=
  Transport.mkEnv None [Transport.IPv4Address 2130706433] 0 false []
                  (fun _ => []).

Definition reply (code : Z) (lines : list (list Z)) : Transport.SmtpResponse :=
  Transport.mkResponse (List.last lines []) lines code true.

(** [sendMessages] with a host name, the lookup, the connection, the banner
    and EHLO; the result waits for the reply to EHLO. *)
Definition upToEhlo (qsetOrder : list (list Z) -> list (list Z))
    (ms : list (Message.t unit)) : outcome (Transport.t unit) :=
  let d := Transport.sendMessages unit (bytes "mail.example") 25
             Transport.AnyIPProtocol (queued ms) in
  obind (Transport._q_processStates unit qsetOrder plainEnv d) (fun d =>
  obind (Transport._q_processStates unit qsetOrder plainEnv d) (fun d =>
  let d := Transport._q_stateChanged unit Transport.SocketConnected d in
  obind (Transport._q_processStates unit qsetOrder plainEnv d) (fun d =>
  Transport.respond unit qsetOrder plainEnv (reply 220 [bytes "ready"]) d))).

Definition resultOr {A} (x : A) (o : outcome A) : A :=
  match o with Ok a => a | _ => x end.

Definition ehloReply : Transport.SmtpResponse :=
  reply 250 [bytes "mail.example"; bytes "SIZE 1000"].

(** To a@x, copy to b@y, and to a@x once more as blind copy. *)
Definition twoRecipients : Message.t unit :=
  Message.mk (Some (bytes "<1@h>")) [] (Address.mk (bytes "s@h") [])
    [] [Address.mk (bytes "a@x") []] [] [Address.mk (bytes "b@y") []]
    [Address.mk (bytes "a@x") []] None None.

(** How often the transaction with handle [i] has emitted [finished],
    and how often it stands in the queue. *)
Definition finishedAt {DateTime : Type} (i : nat) (d : Transport.t DateTime) : nat :=
  match Transport.store DateTime d !! i with
  | Some r => Transaction.finishedCount r
  | None => O
  end.

Definition queuedAt {DateTime : Type} (i : nat) (d : Transport.t DateTime) : nat :=
  count_occ Nat.eq_dec (Transport.queue DateTime d) i.

Definition owed {DateTime : Type} (i : nat) (d : Transport.t DateTime) : nat :=
  (finishedAt i d + queuedAt i d)%nat.

(** The updates the transport applies before [finalize()] leave the
    signals alone. *)
Definition quiet {DateTime : Type} (f : Transaction.t DateTime -> Transaction.t DateTime) : Prop :=
  forall r, Transaction.emitted (f r) = Transaction.emitted r.

(** The dialogue of [upToEhlo] with [twoRecipients] carried on until the
    message body and the final dot are written; the result waits for the
    reply to the dot. *)
Definition dataSent : outcome (Transport.t unit) :=
  obind (upToEhlo dedup [twoRecipients]) (fun d =>
  obind (Transport.respond unit dedup plainEnv ehloReply d) (fun d =>
  obind (acknowledge dedup 3 plainEnv d) (fun d =>
  obind (Transport.respond unit dedup plainEnv (reply 354 [bytes "go ahead"]) d) (fun d =>
  Transport._q_processStates unit dedup plainEnv d)))).

(** The server accepts the message. *)
Definition delivered : outcome (Transport.t unit) :=
  obind dataSent
        (Transport.respond unit dedup plainEnv (reply 250 [bytes "queued"])).

(** The states a transport gets into through its constructor, its public
    methods and its slots, as long as the slots return.  The method
    [abort] of a transaction object is not among them. *)
Inductive reachable {DateTime : Type} (qsetOrder : list (list Z) -> list (list Z))
  : Transport.t DateTime -> Prop :=
| reach_create : reachable qsetOrder (Transport.create DateTime)
| reach_setTimeout value d :
    reachable qsetOrder d ->
    reachable qsetOrder (Transport.setTimeout DateTime value d)
| reach_queueMessage m d :
    reachable qsetOrder d ->
    reachable qsetOrder (snd (Transport.queueMessage DateTime m d))
| reach_sendMessages hostname port proto d :
    reachable qsetOrder d ->
    reachable qsetOrder (Transport.sendMessages DateTime hostname port proto d)
| reach_sendMessagesTo address port d :
    reachable qsetOrder d ->
    reachable qsetOrder (Transport.sendMessagesTo DateTime address port d)
| reach_abort d :
    reachable qsetOrder d -> reachable qsetOrder (Transport.abort DateTime d)
| reach_timeout d :
    reachable qsetOrder d -> reachable qsetOrder (Transport._q_timeout DateTime d)
| reach_stateChanged socketState d :
    reachable qsetOrder d ->
    reachable qsetOrder (Transport._q_stateChanged DateTime socketState d)
| reach_processStates env d d' :
    reachable qsetOrder d ->
    Transport._q_processStates DateTime qsetOrder env d = Ok d' ->
    reachable qsetOrder d'
| reach_respond env r d d' :
    reachable qsetOrder d ->
    Transport.respond DateTime qsetOrder env r d = Ok d' ->
    reachable qsetOrder d'
| reach_socketReadyRead env input resp d input' resp' d' :
    reachable qsetOrder d ->
    TransportIO._q_socketReadyRead DateTime qsetOrder env input resp d
    = Ok (input', resp', d') ->
    reachable qsetOrder d'
| reach_writeMessageData socket sender bufferSize avail d avail' d' :
    reachable qsetOrder d ->
    TransportIO._q_writeMessageData DateTime socket sender bufferSize avail d
    = Ok (avail', d') ->
    reachable qsetOrder d'
| reach_encryptedBytesWritten socket sender bufferSize avail d avail' d' :
    reachable qsetOrder d ->
    TransportIO._q_encryptedBytesWritten DateTime socket sender bufferSize avail d
    = Ok (avail', d') ->
    reachable qsetOrder d'
| reach_bytesWritten socket sender bufferSize avail d avail' d' :
    reachable qsetOrder d ->
    TransportIO._q_bytesWritten DateTime socket sender bufferSize avail d
    = Ok (avail', d') ->
    reachable qsetOrder d'
| reach_messageProgress processed total d d' :
    reachable qsetOrder d ->
    TransportIO._q_messageProgress DateTime processed total d = Ok d' ->
    reachable qsetOrder d'.

(** ** Consumers of the Base64 encoder *)

(** The reads with room for seven bytes or more, the least the loop of the
    Base64 encoder asks for. *)
Definition bigReads (maxlens : list Z) : list Z :=
  List.filter (fun m => 6 <? m) maxlens.

(** A series of reads that takes the Base64 encoder over [n] input bytes to
    its end and keeps every store inside its buffer: the first read has
    room for the whole text at any line width, or, with folding off or a
    width of at least four, more reads than the text can have bytes have
    room for seven bytes. *)
Definition adequate (lw : Z) (n : nat) (maxlens : list Z) : Prop :=
  (exists m rest,
     maxlens = m :: rest /\ 12 * Base64Spec.ceil3 (Z.of_nat n) + 12 < m)
  \/ ((lw <= 0 \/ 4 <= lw)
      /\ 12 * Base64Spec.ceil3 (Z.of_nat n) < Z.of_nat (length (bigReads maxlens))).

(** ** Reply lines on the wire *)

(** A byte that ends the scan of a reply line: NUL, CR or LF. *)
Definition isStop (c : Z) : bool := (c =? 0) || (c =? 13) || (c =? 10).

Definition isDigit (c : Z) : bool := (48 <=? c) && (c <=? 57).

(** The number three digits stand for. *)
Definition replyCode (d1 d2 d3 : Z) : Z :=
  ((d1 - 48) * 10 + (d2 - 48)) * 10 + (d3 - 48).

(** A reply line as the server sends it: three digits, a hyphen when more
    lines follow and a space otherwise, the text, CR LF. *)
Definition wireLine (d1 d2 d3 : Z) (more : bool) (text : list Z) : list Z :=
  [d1; d2; d3; if more then 45 else 32] ++ text ++ [13; 10].

(** A reply of the lines [texts] and the last line [text]. *)
Definition wireReply (d1 d2 d3 : Z) (texts : list (list Z)) (text : list Z)
  : list Z :=
  flat_map (wireLine d1 d2 d3 true) texts ++ wireLine d1 d2 d3 false text.

(** The lines [SmtpResponse::append] accepts: three digits, a hyphen or a
    space, then any bytes; the text ends in front of the first NUL, CR or
    LF. *)
Definition wellFormed (data : list Z) : Prop :=
  exists d1 d2 d3 more text tail,
    data = [d1; d2; d3; if more : bool then 45 else 32] ++ text ++ tail
    /\ isDigit d1 = true /\ isDigit d2 = true /\ isDigit d3 = true
    /\ Forall (fun c => isStop c = false) text
    /\ match tail with [] => True | c :: _ => isStop c = true end.

(** ** The message data on the wire *)

(** One byte more on the wire: the value [crlfState] should have. *)
Definition crlfTrack (s b : Z) : Z :=
  if b =? 13 then 1 else if (s =? 1) && (b =? 10) then 2 else 0.

(** Everything written to the socket, as one sequence of bytes. *)
Definition wire {DateTime : Type} (d : Transport.t DateTime) : list Z :=
  concat (Transport.written DateTime d).

(** The renderer signals data several times: each call has its socket
    answers, its sender, the size of the renderer's buffer and the bytes
    the renderer holds.  The result carries the bytes taken from the
    renderers. *)
Fixpoint pump {DateTime : Type}
    (calls : list (TransportIO.Socket * nat * Z * list Z))
    (d : Transport.t DateTime) : outcome (list Z * Transport.t DateTime) :=
  match calls with
  | [] => Ok ([], d)
  | (socket, sender, bufferSize, avail) :: calls' =>
      obind (TransportIO._q_writeMessageData DateTime socket sender bufferSize avail d)
        (fun '(rest, d1) =>
           obind (pump calls' d1)
             (fun '(data, d2) =>
                Ok (firstn (length avail - length rest) avail ++ data, d2)))
  end.

(** ** Dialogues for the examples *)

(** A transport with [twoRecipients] queued, connected to an address and
    waiting for the banner. *)
Definition atBanner : outcome (Transport.t unit) :=
  let d := Transport.sendMessagesTo unit (Transport.IPv4Address 2130706433) 25
             (queued [twoRecipients]) in
  obind (Transport._q_processStates unit dedup plainEnv d) (fun d =>
  let d := Transport._q_stateChanged unit Transport.SocketConnected d in
  Transport._q_processStates unit dedup plainEnv d).

(** The dialogue of [upToEhlo] with [twoRecipients] carried on until the
    server has answered DATA with 354. *)
Definition goAhead : outcome (Transport.t unit) :=
  obind (upToEhlo dedup [twoRecipients]) (fun d =>
  obind (Transport.respond unit dedup plainEnv ehloReply d) (fun d =>
  obind (acknowledge dedup 3 plainEnv d) (fun d =>
  Transport.respond unit dedup plainEnv (reply 354 [bytes "go ahead"]) d))).

(** A socket without encryption that has written everything it was
    given. *)
Definition idleSocket : TransportIO.Socket :=
  TransportIO.mkSocket false (fun _ => 0) (fun _ => 0).

(** ** The passes of the state machine *)

(** How many passes through the loop of [_q_processStates] a state may
    still take. *)
Definition rank (s : Transport.State) : nat :=
  match s with
  | Transport.ConnectingState | Transport.ReadyToSendState
  | Transport.FinishedState => 1
  | Transport.SessionSetupState => 2
  | _ => 3
  end.

(** What [finalizeQueue] does to a transaction while the response is
    [resp]: the status of a valid response, the error, the signals. *)
Definition flushed {DateTime : Type} (error : Transaction.TransactionError)
    (text : option (list Z)) (resp : Transport.SmtpResponse)
    (r : Transaction.t DateTime) : Transaction.t DateTime :=
  Transaction.finalize
    (Transaction.setError error text
       (if Transport.isValid resp
        then Transaction.setStatus (Transport.code resp) (Transport.lines resp) r
        else r)).

(** ** The lines of the reply to EHLO *)

(** The first of the words of a line that a space separates. *)
Definition firstWord (l : list Z) : list Z := nth 0 (Transport.split 32 l) [].

(** Whether the word [m] is among the words of the line. *)
Definition offered (l : list Z) (m : list Z) : bool :=
  Transport.contains (Transport.split 32 l) m.

(** The session of [upToEhlo] after the reply to EHLO: MAIL FROM is
    written. *)
Definition mailFromSent : outcome (Transport.t unit) :=
  obind (upToEhlo dedup [twoRecipients])
        (Transport.respond unit dedup plainEnv ehloReply).

(** ** Encoded words read back *)

(** The value of a hexadecimal digit in upper case. *)
Definition unhex (c : Z) : option Z :=
  if (48 <=? c) && (c <=? 57) then Some (c - 48)
  else if (65 <=? c) && (c <=? 70) then Some (c - 55)
  else None.

(** The "Q" decoding of RFC 2047 for the text of an encoded word: an
    underscore is a space, [=XY] the byte with the hexadecimal digits
    [XY], every other byte itself. *)
Fixpoint decodeQ (s : list Z) : option (list Z) :=
  match s with
  | [] => Some []
  | c :: s' =>
      if c =? 95 then option_map (cons 32) (decodeQ s')
      else if c =? 61 then
        match s' with
        | h1 :: h2 :: s'' =>
            match unhex h1, unhex h2, decodeQ s'' with
            | Some a, Some b, Some r => Some (a * 16 + b :: r)
            | _, _, _ => None
            end
        | _ => None
        end
      else option_map (cons c) (decodeQ s')
  end.

Definition stripPrefix (p w : list Z) : option (list Z) :=
  if decide (take (length p) w = p) then Some (drop (length p) w) else None.

Definition stripSuffix (s w : list Z) : option (list Z) :=
  if decide (drop (length w - length s) w = s)
  then Some (take (length w - length s) w) else None.

(** Reading a header text back: an encoded word in UTF-8 and "Q" is
    decoded, any other text is taken as it is. *)
Definition decodeWord (w : list Z) : option (list Z) :=
  match stripPrefix (bytes "=?UTF-8?Q?") w with
  | Some r =>
      match stripSuffix (bytes "?=") r with
      | Some t => decodeQ t
      | None => None
      end
  | None => Some w
  end.



(** ** The output of the quoted-printable encoder *)

(** The bytes of plain text: TAB, LF, CR and the printable ASCII range
    with the space. *)
Definition isPlain (b : Z) : bool :=
  (b =? 9) || (b =? 10) || (b =? 13) || ((32 <=? b) && (b <=? 126)).

Definition plain (l : list Z) : Prop := Forall (fun b => isPlain b = true) l.

(** What a pass of the loop body has stored is plain. *)
Definition plainFlow (f : Qp.flow) : Prop :=
  match f with
  | Qp.Continue _ _ out | Qp.Break _ _ out => plain out
  | Qp.Crash => True
  end.

(** The decoding of quoted-printable text (RFC 2045, 6.7): [=] before
    CR LF is a soft line break and stands for nothing, [=XY] is the byte
    with the hexadecimal digits [XY], every other byte stands for itself;
    a [=] before anything else is rejected. *)
Fixpoint decodeQp (s : list Z) : option (list Z) :=
  match s with
  | [] => Some []
  | c :: s' =>
      if c =? 61 then
        match s' with
        | h1 :: h2 :: s'' =>
            if (h1 =? 13) && (h2 =? 10) then decodeQp s''
            else
              match unhex h1, unhex h2, decodeQp s'' with
              | Some a, Some b, Some r => Some (a * 16 + b :: r)
              | _, _, _ => None
              end
        | _ => None
        end
      else option_map (cons c) (decodeQp s')
  end.

(** An input the encoder can take to its end: every CR is followed by LF,
    and every TAB or SPACE by two more bytes. *)
Fixpoint settled (B : list Z) : bool :=
  match B with
  | [] => true
  | c :: r =>
      if c =? 13 then
        match r with
        | c2 :: r' => (c2 =? 10) && settled r'
        | [] => false
        end
      else
        (if (c =? 9) || (c =? 32) then (2 <=? length r)%nat else true)
        && settled r
  end.

(** The text [chunk] stands for the bytes [P], whatever follows it. *)
Definition stands (chunk P : list Z) : Prop :=
  forall tail, decodeQp (chunk ++ tail) = option_map (app P) (decodeQp tail).

(** ** The lines of quoted-printable text *)

(** Lines joined by CR LF, each one closed. *)
Definition closedLines (ls : list (list Z)) : list Z :=
  concat (map (fun l => l ++ [13; 10]) ls).

Definition noCr (l : list Z) : Prop := Forall (fun b => b <> 13) l.

(** The longest line the encoder writes at line width [lw], the [=] of a
    soft break included. *)
Definition lineBound (lw : Z) : Z := Z.max (lw - 1) 4.

(** [text] is a sequence of closed lines within the bound and an open
    line of [lc] characters that a soft break still fits behind. *)
Definition Lined (lw lc : Z) (text : list Z) : Prop :=
  exists ls last,
    text = closedLines ls ++ last
    /\ Forall noCr ls /\ noCr last
    /\ Forall (fun l => Z.of_nat (length l) <= lineBound lw) ls
    /\ Z.of_nat (length last) = lc
    /\ lc + 1 <= lineBound lw.

Definition LineInv (lw : Z) (pre : list Z) (e : Qp.t) (out : list Z) : Prop :=
  Qp.lineWidth e = lw /\ Lined lw (Qp.lineChars e) (pre ++ out).

Definition lineFlow (lw : Z) (pre : list Z) (f : Qp.flow) : Prop :=
  match f with
  | Qp.Continue e _ out | Qp.Break e _ out => LineInv lw pre e out
  | Qp.Crash => True
  end.

(** ** Messages that cannot be sent *)

(** The error the preflight check of the transport finds in a message:
    neither a valid sender nor a valid first author, or no recipient at
    all; [NoError] when it finds none. *)
Definition preflightError {DateTime : Type} (m : Message.t DateTime)
    : Transaction.TransactionError :=
  if negb (Address.isValid (Message.sender m))
     && match Message.from m with
        | [] => true
        | a :: _ => negb (Address.isValid a)
        end
  then Transaction.NoSenderError
  else
    match Message.to m ++ Message.cc m ++ Message.bcc m with
    | [] => Transaction.NoRecipientsError
    | _ :: _ => Transaction.NoError
    end.

(** The transaction was refused by the preflight check and is finished:
    it has the error the check finds in its message, and the last two
    signals it emitted are [error] with that kind and [finished]. *)
Definition refused {DateTime : Type} (r : Transaction.t DateTime) : Prop :=
  Transaction.error r = preflightError (Transaction.message r)
  /\ Transaction.error r <> Transaction.NoError
  /\ exists pre,
       Transaction.emitted r
       = pre ++ [Transaction.SigError (Transaction.error r);
                 Transaction.SigFinished].

Definition refusedAt {DateTime : Type} (j : nat) (d : Transport.t DateTime) : Prop :=
  exists r, Transport.store DateTime d !! j = Some r /\ refused r.

(** A message without recipients and one without a sender. *)
Definition noRecipients : Message.t unit :=
  Message.mk None [] (Address.mk (bytes "s@h") []) [] [] [] [] [] None None.

Definition noSender : Message.t unit :=
  Message.mk None [] (Address.mk [] []) [] [Address.mk (bytes "a@x") []]
    [] [] [] None None.

(** From Ann, to an address without an at sign. *)
Definition fromAnn : Message.t unit :=
  Message.mk None [] (Address.mk (bytes "s@h") (bytes "Ann")) []
    [Address.mk (bytes "nobody") []] [] [] [] None None.

(** The session is ready to send the messages [ms]. *)
Definition readyFor (ms : list (Message.t unit)) : Transport.t unit :=
  Transport.withState unit Transport.ReadyToSendState
    (Transport.sendMessages unit (bytes "mail.example") 25
       Transport.AnyIPProtocol (queued ms)).

(** ** Replies outside a transaction *)

(** The reply code [code] is none the state machine expects in state
    [st], a state between the banner and the first message. *)
Definition unexpected (st : Transport.State) (code : Z) : bool :=
  match st with
  | Transport.BannerState => negb (code =? 220)
  | Transport.SessionInitState =>
      negb ((499 <? code) && (code <? 510)) && negb (code =? 250)
  | Transport.TlsSetupState => negb (code =? 220) && negb (code =? 454)
  | Transport.EncryptedSessionInitState | Transport.SessionSetupState =>
      negb (code =? 250)
  | Transport.AuthState => negb (code =? 334) && negb (code =? 235)
  | _ => false
  end.

(** ** Transports the state machine can run on *)

(** Every queued handle names a transaction of the store, and the number
    of messages of the session is not zero. *)
Definition sound {DateTime : Type} (d : Transport.t DateTime) : Prop :=
  (forall i, i ∈ Transport.queue DateTime d ->
             (i < length (Transport.store DateTime d))%nat)
  /\ Transport.totalMessages DateTime d <> 0.

(** The states that work on the transaction at the head of the queue. *)
Definition headState (s : Transport.State) : bool :=
  (Transport.stateIndex Transport.MailFromState <=? Transport.stateIndex s)
  && (Transport.stateIndex s <=? Transport.stateIndex Transport.DataSentState).

(** The states a pass of the loop goes on in. *)
Definition resumed (s : Transport.State) : bool :=
  match s with
  | Transport.ConnectingState | Transport.SessionSetupState
  | Transport.ReadyToSendState | Transport.FinishedState => true
  | _ => false
  end.

(** The reply to EHLO of [ehloReply] has arrived in the session of
    [upToEhlo] with [twoRecipients]. *)
Definition ehloAnswered : Transport.t unit :=
  Transport.withResponse unit ehloReply
    (resultOr (Transport.create unit) (upToEhlo dedup [twoRecipients])).
(** * Arithmetic of the 24-bit quantum *)

Lemma lor_hi_lo (hi lo k : Z) :
  0 <= k -> 0 <= lo < 2 ^ k -> Z.lor (hi * 2 ^ k) lo = hi * 2 ^ k + lo.
Proof.
  intros Hk Hlo.
  rewrite <- (Z.add_lor_land (hi * 2 ^ k) lo).
  assert (Z.land (hi * 2 ^ k) lo = 0) as ->; [ | lia].
  apply Z.bits_inj'. intros n Hn.
  rewrite Z.land_spec, Z.bits_0.
  destruct (Z.lt_ge_cases n k) as [Hlt | Hge].
  - rewrite Z.mul_pow2_bits_low by lia. reflexivity.
  - destruct (Z.eq_dec lo 0) as [-> | Hne].
    + rewrite Z.bits_0. apply andb_false_r.
    + rewrite (Z.bits_above_log2 lo n); [apply andb_false_r | lia | ].
      apply Z.log2_lt_pow2; [lia | ].
      apply Z.lt_le_trans with (2 ^ k); [lia | ].
      apply Z.pow_le_mono_r; lia.
Qed.

Lemma land_mask_shift (c k : Z) :
  0 <= k -> isByte c -> Z.land (Z.shiftl c k) (255 * 2 ^ k) = c * 2 ^ k.
Proof.
  intros Hk Hc.
  rewrite <- (Z.shiftl_mul_pow2 255 k Hk), <- Z.shiftl_land.
  change 255 with (Z.ones 8). rewrite Z.land_ones by lia.
  rewrite Z.mod_small by (unfold isByte in Hc; simpl; lia).
  apply Z.shiftl_mul_pow2; lia.
Qed.

Lemma accumulate_pack (R : list Z) (c : Z) :
  Forall isByte R -> isByte c -> (length R < 3)%nat ->
  Base64.accumulate (pack R) (Z.of_nat (length R)) c = pack (R ++ [c]).
Proof.
  intros HR Hc Hlen. unfold Base64.accumulate.
  destruct R as [ | a [ | b [ | ? ?]]]; simpl in Hlen; try lia; simpl.
  - change 16711680 with (255 * 2 ^ 16). rewrite land_mask_shift by (lia || assumption).
    reflexivity.
  - inversion HR as [ | ? ? Ha _]; subst.
    change 65280 with (255 * 2 ^ 8). rewrite land_mask_shift by (lia || assumption).
    replace (a * 65536) with (a * 2 ^ 16) by lia.
    rewrite lor_hi_lo; unfold isByte in *; lia.
  - inversion HR as [ | ? ? Ha HR']; subst. inversion HR' as [ | ? ? Hb _]; subst.
    change 255 with (Z.ones 8). rewrite Z.land_ones by lia.
    unfold isByte in *. rewrite (Z.mod_small c) by (simpl; lia).
    replace (a * 65536 + b * 256) with ((a * 256 + b) * 2 ^ 8) by lia.
    rewrite lor_hi_lo; lia.
Qed.

Lemma sextets (a b c : Z) :
  isByte a -> isByte b -> isByte c ->
  let q := a * 65536 + b * 256 + c in
  Z.shiftr (Z.land q 0xfc0000) 18 = a / 4 /\
  Z.shiftr (Z.land q 0x3f000) 12 = a mod 4 * 16 + b / 16 /\
  Z.shiftr (Z.land q 0xfc0) 6 = b mod 16 * 4 + c / 64 /\
  Z.land q 0x3f = c mod 64.
Proof.
  intros Ha Hb Hc q. unfold isByte in *.
  rewrite !Z.shiftr_land.
  change (Z.shiftr 0xfc0000 18) with (Z.ones 6).
  change (Z.shiftr 0x3f000 12) with (Z.ones 6).
  change (Z.shiftr 0xfc0 6) with (Z.ones 6).
  change 0x3f with (Z.ones 6).
  rewrite !Z.land_ones, !Z.shiftr_div_pow2 by lia.
  change (2 ^ 18) with 262144. change (2 ^ 12) with 4096.
  change (2 ^ 6) with 64.
  subst q. repeat split; Z.div_mod_to_equations; lia.
Qed.

(** * The alphabet *)

Lemma forall_below (P : Z -> bool) (n : nat) :
  forallb P (map Z.of_nat (seq 0 n)) = true ->
  forall i, 0 <= i < Z.of_nat n -> P i = true.
Proof.
  intros H i Hi. rewrite forallb_forall in H. apply H.
  apply in_map_iff. exists (Z.to_nat i). split; [lia | ].
  apply in_seq. lia.
Qed.

Lemma sextet_dict (i : Z) :
  0 <= i < 64 -> Base64Spec.sextet (Base64.dict i) = Some i.
Proof.
  intros Hi.
  pose proof (forall_below
    (fun i => match Base64Spec.sextet (Base64.dict i) with
              | Some j => (j =? i) | None => false end) 64 eq_refl i Hi) as H.
  simpl in H. destruct (Base64Spec.sextet (Base64.dict i)); [ | discriminate].
  f_equal. lia.
Qed.

Lemma dict_letter (i : Z) :
  Base64Spec.isBreak (Base64.dict i) = false /\
  (0 <= i < 64 -> (Base64.dict i =? 61) = false).
Proof.
  split.
  - unfold Base64.dict.
    assert (Forall (fun c => Base64Spec.isBreak c = false) (0 :: Base64.base64dict)) as HF.
    { repeat constructor. }
    rewrite List.Forall_forall in HF. apply HF.
    destruct (nth_in_or_default (Z.to_nat i) Base64.base64dict 0) as [Hin | ->].
    + right. exact Hin.
    + left. reflexivity.
  - intros Hi.
    pose proof (forall_below (fun i => negb (Base64.dict i =? 61)) 64 eq_refl i Hi) as H.
    apply negb_true_iff in H. exact H.
Qed.

(** * Round trip of the unfolded text *)

Lemma list_ind3 (P : list Z -> Prop) :
  P [] -> (forall a, P [a]) -> (forall a b, P [a; b]) ->
  (forall a b c l, P l -> P (a :: b :: c :: l)) ->
  forall l, P l.
Proof.
  intros H0 H1 H2 H3 l.
  assert (P l /\ (forall a, P (a :: l)) /\ (forall a b, P (a :: b :: l))) as [H _].
  { induction l as [ | x l (IH0 & IH1 & IH2)]; [auto | ].
    repeat split; auto. }
  exact H.
Qed.

Lemma decodeGroups_encodeChars (B : list Z) :
  Forall isByte B -> Base64Spec.decodeGroups (Base64Spec.encodeChars B) = Some B.
Proof.
  induction B as [ | a | a b | a b c l IH] using list_ind3; intros HB.
  - reflexivity.
  - inversion HB as [ | ? ? Ha _]; subst. unfold isByte in Ha.
    cbn [Base64Spec.encodeChars Base64Spec.decodeGroups].
    rewrite !sextet_dict by (Z.div_mod_to_equations; lia).
    cbn. do 2 f_equal. Z.div_mod_to_equations; lia.
  - inversion HB as [ | ? ? Ha HB']; subst. inversion HB' as [ | ? ? Hb _]; subst.
    unfold isByte in Ha, Hb.
    cbn [Base64Spec.encodeChars Base64Spec.decodeGroups].
    rewrite !sextet_dict by (Z.div_mod_to_equations; lia).
    rewrite (proj2 (dict_letter _)) by (Z.div_mod_to_equations; lia).
    cbn. f_equal. f_equal; [ | f_equal]; Z.div_mod_to_equations; lia.
  - inversion HB as [ | ? ? Ha HB']; subst. inversion HB' as [ | ? ? Hb HB'']; subst.
    inversion HB'' as [ | ? ? Hc Hl]; subst.
    unfold isByte in Ha, Hb, Hc.
    cbn [Base64Spec.encodeChars Base64Spec.decodeGroups].
    rewrite !sextet_dict by (Z.div_mod_to_equations; lia).
    rewrite !(proj2 (dict_letter _)) by (Z.div_mod_to_equations; lia).
    rewrite (IH Hl).
    f_equal. f_equal; [ | f_equal; [ | f_equal]]; Z.div_mod_to_equations; lia.
Qed.

Lemma encodeChars_letters (B : list Z) :
  Forall (fun c => Base64Spec.isBreak c = false) (Base64Spec.encodeChars B).
Proof.
  induction B as [ | a | a b | a b c l IH] using list_ind3;
    cbn [Base64Spec.encodeChars];
    repeat (apply Forall_cons; split; [first [apply dict_letter | reflexivity] | ]);
    first [exact IH | apply Forall_nil; exact I | apply Forall_nil].
Qed.

Lemma encodeChars_length (B : list Z) :
  Z.of_nat (length (Base64Spec.encodeChars B))
  = 4 * Base64Spec.ceil3 (Z.of_nat (length B)).
Proof.
  unfold Base64Spec.ceil3.
  induction B as [ | a | a b | a b c l IH] using list_ind3;
    cbn [Base64Spec.encodeChars length]; try reflexivity.
  rewrite !Nat2Z.inj_succ. Z.div_mod_to_equations. lia.
Qed.

Lemma encodeChars_app (C G : list Z) :
  (Z.of_nat (length C) mod 3 = 0) ->
  Base64Spec.encodeChars (C ++ G)
  = Base64Spec.encodeChars C ++ Base64Spec.encodeChars G.
Proof.
  induction C as [ | a | a b | a b c l IH] using list_ind3; intros Hlen.
  - reflexivity.
  - discriminate Hlen.
  - discriminate Hlen.
  - cbn [app Base64Spec.encodeChars]. rewrite IH; [reflexivity | ].
    cbn [length] in Hlen. rewrite !Nat2Z.inj_succ in Hlen.
    Z.div_mod_to_equations. lia.
Qed.

(** * Line folding *)

Section Folding.
Import Base64Spec.

Lemma foldLines_app lw lc xs ys :
  foldLines lw lc (xs ++ ys)
  = let '(o1, lc1) := foldLines lw lc xs in
    let '(o2, lc2) := foldLines lw lc1 ys in (o1 ++ o2, lc2).
Proof.
  revert lc. induction xs as [ | c xs IH]; intros lc.
  - cbn. destruct (foldLines lw lc ys); reflexivity.
  - cbn [app foldLines].
    destruct (0 <? lw); [destruct (lw <=? lc + 1) | ]; rewrite IH;
      destruct (foldLines lw _ xs) as [o1 lc1];
      destruct (foldLines lw lc1 ys) as [o2 lc2]; reflexivity.
Qed.

Lemma foldLines_filter lw lc cs :
  Forall (fun c => isBreak c = false) cs ->
  List.filter (fun c => negb (isBreak c)) (fst (foldLines lw lc cs)) = cs.
Proof.
  revert lc. induction cs as [ | c cs IH]; intros lc Hcs; [reflexivity | ].
  inversion Hcs as [ | ? ? Hc Hcs']; subst.
  cbn [foldLines].
  destruct (0 <? lw); [destruct (lw <=? lc + 1) | ];
    [ specialize (IH 0 Hcs') | specialize (IH (lc + 1) Hcs')
    | specialize (IH lc Hcs') ];
    destruct (foldLines lw _ cs) as [o lc']; cbn [fst] in *;
    cbn [List.filter]; rewrite Hc; cbn [negb isBreak Z.eqb orb List.filter];
    f_equal; exact IH.
Qed.

Lemma foldLines_off lw lc cs :
  lw <= 0 -> foldLines lw lc cs = (cs, lc).
Proof.
  intros Hlw. induction cs as [ | c cs IH]; [reflexivity | ].
  cbn [foldLines]. destruct (Z.ltb_spec 0 lw); [lia | ].
  rewrite IH. reflexivity.
Qed.

Lemma foldLines_length lw lc cs :
  0 < lw -> 0 <= lc < lw ->
  Z.of_nat (length (fst (foldLines lw lc cs)))
  = Z.of_nat (length cs) + 2 * ((lc + Z.of_nat (length cs)) / lw)
  /\ snd (foldLines lw lc cs) = (lc + Z.of_nat (length cs)) mod lw.
Proof.
  intros Hlw. revert lc. induction cs as [ | c cs IH]; intros lc Hlc.
  - cbn. rewrite Z.add_0_r, Z.div_small, Z.mod_small by lia. lia.
  - cbn [foldLines]. destruct (Z.ltb_spec 0 lw); [ | lia].
    destruct (Z.leb_spec lw (lc + 1)).
    + destruct (IH 0 ltac:(lia)) as [IHl IHc].
      destruct (foldLines lw 0 cs) as [o lc']. cbn [fst snd length] in *.
      rewrite !Nat2Z.inj_succ, IHl, IHc.
      replace (lc + Z.succ (Z.of_nat (length cs)))
        with (Z.of_nat (length cs) + 1 * lw) by lia.
      rewrite Z.div_add, Z.mod_add by lia. rewrite Z.add_0_l. split; [lia | reflexivity].
    + destruct (IH (lc + 1) ltac:(lia)) as [IHl IHc].
      destruct (foldLines lw (lc + 1) cs) as [o lc']. cbn [fst snd length] in *.
      rewrite !Nat2Z.inj_succ, IHl, IHc.
      replace (lc + Z.succ (Z.of_nat (length cs)))
        with (lc + 1 + Z.of_nat (length cs)) by lia.
      split; [lia | reflexivity].
Qed.

Lemma lines_letter c o :
  isBreak c = false -> lines (c :: o) = consHead c (lines o).
Proof.
  intros Hc. cbn [lines]. destruct o as [ | d o']; [reflexivity | ].
  unfold isBreak in Hc. apply orb_false_elim in Hc as [Hc _].
  rewrite Hc. reflexivity.
Qed.

Lemma lines_letters cs :
  Forall (fun c => isBreak c = false) cs -> lines cs = [cs].
Proof.
  induction cs as [ | c cs IH]; intros Hcs; [reflexivity | ].
  inversion Hcs as [ | ? ? Hc Hcs']; subst.
  rewrite lines_letter by assumption. rewrite IH by assumption. reflexivity.
Qed.

Lemma foldLines_lines lw lc cs :
  0 < lw -> 0 <= lc < lw ->
  Forall (fun c => isBreak c = false) cs ->
  exists l0 ls,
    lines (fst (foldLines lw lc cs)) = l0 :: ls
    /\ Z.of_nat (length l0) <= lw - lc
    /\ Forall (fun l => Z.of_nat (length l) <= lw) ls
    /\ Z.of_nat (length ls) = (lc + Z.of_nat (length cs)) / lw.
Proof.
  intros Hlw. revert lc. induction cs as [ | c cs IH]; intros lc Hlc Hcs.
  - exists [], []. cbn. rewrite Z.add_0_r, Z.div_small by lia.
    repeat split; [lia | constructor].
  - inversion Hcs as [ | ? ? Hc Hcs']; subst.
    cbn [foldLines]. destruct (Z.ltb_spec 0 lw); [ | lia].
    destruct (Z.leb_spec lw (lc + 1)).
    + destruct (IH 0 ltac:(lia) Hcs') as (l0 & ls & Hl & Hl0 & Hls & Hn).
      destruct (foldLines lw 0 cs) as [o lc']. cbn [fst] in *.
      exists [c], (l0 :: ls).
      rewrite lines_letter by assumption.
      cbn [lines]. cbn [Z.eqb andb]. rewrite Hl.
      repeat split.
      * cbn. lia.
      * constructor; [lia | exact Hls].
      * cbn [length]. rewrite !Nat2Z.inj_succ, Hn.
        replace (lc + Z.succ (Z.of_nat (length cs)))
          with (Z.of_nat (length cs) + 1 * lw) by lia.
        rewrite Z.div_add by lia. rewrite Z.add_0_l. lia.
    + destruct (IH (lc + 1) ltac:(lia) Hcs') as (l0 & ls & Hl & Hl0 & Hls & Hn).
      destruct (foldLines lw (lc + 1) cs) as [o lc']. cbn [fst] in *.
      exists (c :: l0), ls.
      rewrite lines_letter by assumption. rewrite Hl.
      repeat split.
      * cbn [length]. rewrite Nat2Z.inj_succ. lia.
      * exact Hls.
      * cbn [length]. rewrite Nat2Z.inj_succ, Hn.
        f_equal. lia.
Qed.
End Folding.

(** * The encoder against the folded text *)

Section Refinement.
Import Base64 Base64Spec.

Lemma setLineChars_id e : setLineChars (lineChars e) e = e.
Proof. destruct e; reflexivity. Qed.

Lemma put_spec e c :
  put e c = (setLineChars (snd (foldLines (lineWidth e) (lineChars e) [c])) e,
             fst (foldLines (lineWidth e) (lineChars e) [c])).
Proof.
  unfold put. cbn [foldLines].
  destruct (0 <? lineWidth e); [destruct (lineWidth e <=? lineChars e + 1) | ];
    cbn [fst snd]; try reflexivity.
  rewrite setLineChars_id. reflexivity.
Qed.

Lemma puts_spec e cs :
  puts e cs = (setLineChars (snd (foldLines (lineWidth e) (lineChars e) cs)) e,
               fst (foldLines (lineWidth e) (lineChars e) cs)).
Proof.
  revert e. induction cs as [ | c cs IH]; intros e.
  - cbn. rewrite setLineChars_id. reflexivity.
  - cbn [puts]. rewrite put_spec.
    change (c :: cs) with ([c] ++ cs). rewrite (foldLines_app _ _ [c] cs).
    destruct (foldLines (lineWidth e) (lineChars e) [c]) as [o1 lc1].
    cbn [fst snd]. rewrite IH. cbn [lineWidth lineChars setLineChars].
    destruct (foldLines (lineWidth e) lc1 cs) as [o2 lc2]. reflexivity.
Qed.

Lemma putQ_puts e :
  putQ e = (setQuantum 0 0 (fst (puts e (quantumChars (qBuffer e) (qSize e)))),
            snd (puts e (quantumChars (qBuffer e) (qSize e)))).
Proof.
  unfold putQ, quantumChars. cbn [puts].
  destruct (put e _) as [e1 o1]. destruct (put e1 _) as [e2 o2].
  destruct (put e2 _) as [e3 o3]. destruct (put e3 _) as [e4 o4].
  cbn [fst snd]. rewrite app_nil_r. reflexivity.
Qed.

Lemma quantumChars_pack R :
  Forall isByte R -> (0 < length R <= 3)%nat ->
  quantumChars (pack R) (Z.of_nat (length R)) = encodeChars R.
Proof.
  intros HR Hlen. unfold quantumChars.
  destruct R as [ | a [ | b [ | c [ | ? ?]]]]; cbn [length] in Hlen; try lia.
  - inversion HR as [ | ? ? Ha _]; subst.
    destruct (sextets a 0 0 Ha ltac:(unfold isByte; lia) ltac:(unfold isByte; lia))
      as (H1 & H2 & _ & _).
    cbn [pack]. replace (a * 65536) with (a * 65536 + 0 * 256 + 0) by lia.
    rewrite H1, H2. cbn. rewrite Z.add_0_r. reflexivity.
  - inversion HR as [ | ? ? Ha HR']; subst. inversion HR' as [ | ? ? Hb _]; subst.
    destruct (sextets a b 0 Ha Hb ltac:(unfold isByte; lia)) as (H1 & H2 & H3 & _).
    cbn [pack]. replace (a * 65536 + b * 256) with (a * 65536 + b * 256 + 0) by lia.
    rewrite H1, H2, H3. cbn. rewrite Z.add_0_r. reflexivity.
  - inversion HR as [ | ? ? Ha HR']; subst. inversion HR' as [ | ? ? Hb HR'']; subst.
    inversion HR'' as [ | ? ? Hc _]; subst.
    destruct (sextets a b c Ha Hb Hc) as (H1 & H2 & H3 & H4).
    cbn [pack]. rewrite H1, H2, H3, H4. reflexivity.
Qed.

Lemma putQ_spec e R :
  Forall isByte R -> (0 < length R <= 3)%nat ->
  qSize e = Z.of_nat (length R) -> qBuffer e = pack R ->
  putQ e
  = (setQuantum 0 0
       (setLineChars (snd (foldLines (lineWidth e) (lineChars e) (encodeChars R))) e),
     fst (foldLines (lineWidth e) (lineChars e) (encodeChars R))).
Proof.
  intros HR Hlen Hs Hq. rewrite putQ_puts, Hs, Hq, quantumChars_pack by assumption.
  rewrite puts_spec. reflexivity.
Qed.

Lemma fillQuantum_spec b : forall R,
  Forall isByte R -> Forall isByte b -> (length R <= 3)%nat ->
  exists R' b',
    fillQuantum b (pack R) (Z.of_nat (length R))
    = (b', pack R', Z.of_nat (length R'))
    /\ R ++ b = R' ++ b'
    /\ (length R' <= 3)%nat
    /\ (length R' = 3%nat \/ b' = [])
    /\ Forall isByte R'
    /\ (length R <= length R')%nat.
Proof.
  induction b as [ | c b IH]; intros R HR Hb Hlen.
  - exists R, []. cbn [fillQuantum].
    destruct (Z.of_nat (length R) <? 3); repeat split; auto.
  - cbn [fillQuantum]. destruct (Z.ltb_spec (Z.of_nat (length R)) 3) as [Hlt | Hge].
    + inversion Hb as [ | ? ? Hc Hb']; subst.
      rewrite accumulate_pack by (assumption || lia).
      replace (Z.of_nat (length R) + 1) with (Z.of_nat (length (R ++ [c])))
        by (rewrite length_app; cbn; lia).
      destruct (IH (R ++ [c])) as (R' & b' & Hf & Happ & Hl & Hor & HR' & Hle).
      * apply Forall_app; split; [assumption | ]. constructor; [assumption | constructor].
      * assumption.
      * rewrite length_app; cbn; lia.
      * exists R', b'. rewrite Hf. rewrite <- Happ, <- app_assoc.
        repeat split; auto. rewrite length_app in Hle. cbn in Hle. lia.
    + exists R, (c :: b). repeat split; auto. left. lia.
Qed.
End Refinement.

Section Invariant.
Import Base64 Base64Spec.
Variable lw : Z.
Variable B : list Z.
Hypothesis HB : Forall isByte B.

Lemma InvOpen_bytes (e : Base64.t) C R :
  B = C ++ R ++ Device.buf (device e) ->
  Forall isByte C /\ Forall isByte R /\ Forall isByte (Device.buf (device e)).
Proof.
  intros HBe. rewrite HBe in HB.
  apply Forall_app in HB as [HC HB']. apply Forall_app in HB' as [HR Hb]. auto.
Qed.

Lemma InvOpen_emit T e C R :
  Forall isByte R -> (0 < length R <= 3)%nat ->
  qSize e = Z.of_nat (length R) -> qBuffer e = pack R ->
  foldLines lw 0 (encodeChars C) = (T, lineChars e) ->
  Z.of_nat (length C) mod 3 = 0 ->
  lineWidth e = lw ->
  exists e' o,
    putQ e = (e', o)
    /\ foldLines lw 0 (encodeChars (C ++ R)) = (T ++ o, lineChars e')
    /\ qSize e' = 0 /\ qBuffer e' = 0
    /\ device e' = device e /\ lineWidth e' = lw
    /\ gotReadChannelFinished e' = gotReadChannelFinished e.
Proof.
  intros HR Hlen Hs Hq HT HC Hlw.
  rewrite (putQ_spec e R) by assumption.
  eexists _, _. split; [reflexivity | ].
  rewrite encodeChars_app, foldLines_app, HT, Hlw by assumption.
  destruct (foldLines lw (lineChars e) (encodeChars R)) as [o lc'].
  cbn. repeat split; auto.
Qed.

Lemma readLoop_cond_false (e : Base64.t) remain :
  (0 <? Device.bytesAvailable (device e)) && (6 <? remain) = false ->
  Device.buf (device e) = [] \/ remain <= 6.
Proof.
  intros H. apply andb_false_iff in H as [H | H].
  - left. apply Z.ltb_ge in H. unfold Device.bytesAvailable in H.
    destruct (Device.buf (device e)); [reflexivity | cbn in H; lia].
  - right. apply Z.ltb_ge in H. exact H.
Qed.

Lemma readLoop_inv fuel : forall e remain out e' remain' out' T,
  readLoop fuel e remain out = Ok (e', remain', out') ->
  InvOpen lw B T e ->
  exists o,
    out' = out ++ o
    /\ InvOpen lw B (T ++ o) e'
    /\ gotReadChannelFinished e' = gotReadChannelFinished e
    /\ (Device.buf (device e') = [] \/ remain' <= 6).
Proof.
  induction fuel as [ | fuel IH]; intros e remain out e' remain' out' T Hrun Hinv;
    cbn [readLoop] in Hrun;
    destruct ((0 <? Device.bytesAvailable (device e)) && (6 <? remain)) eqn:Hcond.
  - discriminate.
  - injection Hrun as <- <- <-. exists []. rewrite !app_nil_r.
    repeat split; auto using readLoop_cond_false.
  - destruct Hinv as (C & R & HBe & Hs & Hlen & Hq & HT & HC & Hlw & Hseq).
    destruct (InvOpen_bytes e C R HBe) as (HCb & HRb & Hbb).
    destruct (fillQuantum_spec (Device.buf (device e)) R HRb Hbb ltac:(lia))
      as (R' & b' & Hf & Happ & Hl & Hor & HR' & Hle).
    unfold fill in Hrun. rewrite Hq, Hs, Hf in Hrun.
    cbn [qSize setQuantum] in Hrun.
    destruct (Z.eqb_spec (Z.of_nat (length R')) 3) as [H3 | H3].
    + (* a full quantum goes out *)
      unfold emitQ in Hrun.
      edestruct (InvOpen_emit T
        (setQuantum (pack R') (Z.of_nat (length R'))
           (setDevice (Device.mk b' (Device.isSequential (device e))) e)) C R')
        as (e2 & o & HputQ & HT2 & Hs2 & Hq2 & Hd2 & Hlw2 & Hg2);
        [exact HR' | lia | reflexivity | reflexivity | exact HT | exact HC
        | exact Hlw | ].
      rewrite HputQ in Hrun.
      destruct (remain <? Z.of_nat (length o)); [discriminate | ].
      cbn [obind] in Hrun.
      apply IH with (T := T ++ o) in Hrun.
      * destruct Hrun as (o' & -> & Hinv' & Hg' & Hex).
        exists (o ++ o'). rewrite !app_assoc. repeat split; auto.
        rewrite Hg', Hg2. reflexivity.
      * exists (C ++ R'), []. rewrite Hd2. cbn [device setQuantum setDevice Device.buf].
        repeat split; auto.
        -- rewrite HBe, Happ, <- app_assoc. reflexivity.
        -- rewrite length_app, Nat2Z.inj_add. Z.div_mod_to_equations. lia.
    + (* the device ran dry inside the quantum *)
      destruct Hor as [Hl3 | ->]; [lia | ].
      apply IH with (T := T) in Hrun.
      * destruct Hrun as (o' & -> & Hinv' & Hg' & Hex).
        exists o'. repeat split; auto.
      * exists C, R'. cbn [device setQuantum setDevice Device.buf qSize qBuffer
                            lineChars lineWidth Device.isSequential].
        rewrite app_nil_r in *.
        repeat split; auto; [rewrite HBe, Happ; reflexivity | lia].
  - injection Hrun as <- <- <-. exists []. rewrite !app_nil_r.
    repeat split; auto using readLoop_cond_false.
Qed.

Lemma deviceAtEnd_nonseq (e : Base64.t) :
  Device.isSequential (device e) = false ->
  deviceAtEnd e = true <-> Device.buf (device e) = [].
Proof.
  intros Hseq. unfold deviceAtEnd, Device.atEnd, Device.bytesAvailable.
  rewrite Hseq. destruct (Device.buf (device e)); cbn; [tauto | ].
  split; discriminate.
Qed.

Lemma InvOpen_done T e :
  InvOpen lw B T e -> Device.buf (device e) = [] -> qSize e = 0 -> InvDone lw B T e.
Proof.
  intros (C & R & HBe & Hs & Hlen & Hq & HT & HC & Hlw & Hseq) Hbuf Hq0.
  assert (R = []) as -> by (destruct R; [reflexivity | cbn in Hs; lia]).
  rewrite Hbuf in HBe. cbn in HBe. rewrite app_nil_r in HBe.
  unfold InvDone. rewrite HBe. repeat split; auto.
Qed.

Lemma readDataImpl_inv e maxlen r T :
  readDataImpl e maxlen = Ok r -> Inv lw B T e -> Inv lw B (T ++ data r) (encoder r).
Proof.
  intros Hrun Hinv. unfold readDataImpl in Hrun.
  destruct ((qSize e =? 0) && deviceAtEnd e) eqn:Hfirst.
  { injection Hrun as <-. cbn [data encoder]. rewrite app_nil_r. exact Hinv. }
  destruct Hinv as [Hopen | (Hbuf & Hs & _ & _ & Hseq)].
  2: { rewrite Hs, (proj2 (deviceAtEnd_nonseq e Hseq) Hbuf) in Hfirst.
       discriminate. }
  destruct (readLoop _ e maxlen []) as [[[e1 remain] out] | | ] eqn:Hloop;
    cbn [obind] in Hrun; try discriminate.
  destruct (readLoop_inv _ _ _ _ _ _ _ T Hloop Hopen) as (o & Ho & Hinv1 & Hg & _).
  cbn [app] in Ho. subst out.
  pose proof Hinv1 as (C & R & HBe & Hs & Hlen & Hq & HT & HC & Hlw & Hseq).
  destruct (deviceAtEnd e1) eqn:Hend.
  - apply (deviceAtEnd_nonseq e1 Hseq) in Hend.
    destruct (Z.ltb_spec 0 (qSize e1)) as [Hpos | Hzero].
    + unfold emitQ in Hrun.
      destruct (InvOpen_bytes e1 C R HBe) as (HCb & HRb & Hbb).
      destruct (InvOpen_emit (T ++ o) e1 C R HRb ltac:(lia) Hs Hq HT HC Hlw)
        as (e2 & o2 & HputQ & HT2 & Hs2 & Hq2 & Hd2 & Hlw2 & Hg2).
      rewrite HputQ in Hrun.
      destruct (remain <? Z.of_nat (length o2)); [discriminate | ].
      cbn [obind] in Hrun. injection Hrun as <-. cbn [data encoder].
      right. rewrite Hend, app_nil_r in HBe. unfold InvDone.
      rewrite HBe, app_assoc, Hd2. repeat split; auto.
    + cbn [obind] in Hrun. injection Hrun as <-. cbn [data encoder].
      right. apply InvOpen_done; [assumption | assumption | lia].
  - injection Hrun as <-. cbn [data encoder]. left. exact Hinv1.
Qed.

Lemma readAll_inv maxlens : forall e e' out T,
  readAll e maxlens = Ok (e', out) -> Inv lw B T e -> Inv lw B (T ++ out) e'.
Proof.
  induction maxlens as [ | m ms IH]; intros e e' out T Hrun Hinv.
  - injection Hrun as <- <-. rewrite app_nil_r. exact Hinv.
  - cbn [readAll] in Hrun.
    destruct (readDataImpl e m) as [r | | ] eqn:Hr; cbn [obind] in Hrun;
      try discriminate.
    destruct (readAll (encoder r) ms) as [[e2 o2] | | ] eqn:Hrest;
      cbn [obind] in Hrun; try discriminate.
    injection Hrun as <- <-. rewrite app_assoc.
    eapply IH; [exact Hrest | ]. eapply readDataImpl_inv; eassumption.
Qed.

(** What a complete run delivers is the folded Base64 text of [B]. *)
Lemma readAll_complete maxlens e' out :
  readAll (setLineWidth lw (create (Device.ofBytes B))) maxlens = Ok (e', out) ->
  atEnd e' = true ->
  out = fst (foldLines lw 0 (encodeChars B)).
Proof.
  intros Hrun Hend.
  apply readAll_inv with (T := []) in Hrun.
  - cbn [app] in Hrun. unfold atEnd in Hend. apply andb_true_iff in Hend as [Hs Hd].
    apply Z.eqb_eq in Hs.
    assert (InvDone lw B out e') as (_ & _ & HT & _).
    { destruct Hrun as [Hopen | Hdone]; [ | exact Hdone].
      apply InvOpen_done; [exact Hopen | | exact Hs].
      destruct Hopen as (C & R & _ & _ & _ & _ & _ & _ & _ & Hseq).
      apply (deviceAtEnd_nonseq e' Hseq). exact Hd. }
    rewrite HT. reflexivity.
  - left. exists [], []. cbn. repeat split; auto.
Qed.

(** ** A read with room for the whole text delivers it *)

Lemma InvOpen_col T e :
  InvOpen lw B T e -> 0 < lw -> 0 <= lineChars e < lw.
Proof.
  intros (C & R & _ & _ & _ & _ & HT & _) Hlw.
  destruct (foldLines_length lw 0 (encodeChars C) Hlw ltac:(lia)) as [_ Hc].
  rewrite HT in Hc. cbn [snd] in Hc. rewrite Hc.
  apply Z.mod_pos_bound. exact Hlw.
Qed.

Lemma putQ_size e R :
  Forall isByte R -> (0 < length R <= 3)%nat ->
  qSize e = Z.of_nat (length R) -> qBuffer e = pack R ->
  lineWidth e <= 0 \/ (4 <= lineWidth e /\ 0 <= lineChars e < lineWidth e) ->
  Z.of_nat (length (snd (putQ e))) <= 6.
Proof.
  intros HR Hlen Hs Hq Hw. rewrite (putQ_spec e R) by assumption. cbn [snd].
  assert (Z.of_nat (length (encodeChars R)) = 4) as H4.
  { rewrite encodeChars_length. unfold ceil3.
    destruct R as [ | a [ | b [ | c [ | ? ?]]]]; cbn [length] in *; try lia;
      reflexivity. }
  destruct Hw as [Hoff | [Hon Hcol]].
  - rewrite foldLines_off by assumption. cbn [fst]. lia.
  - destruct (foldLines_length (lineWidth e) (lineChars e) (encodeChars R))
      as [Hl _]; [lia | lia | ].
    rewrite Hl, H4.
    assert ((lineChars e + 4) / lineWidth e <= 1); [ | lia].
    apply Z.lt_succ_r. apply Z.div_lt_upper_bound; lia.
Qed.

Lemma readLoop_exit fuel (e : Base64.t) remain out :
  (0 <? Device.bytesAvailable (device e)) && (6 <? remain) = false ->
  readLoop fuel e remain out = Ok (e, remain, out).
Proof. intros H. destruct fuel; cbn [readLoop]; rewrite H; reflexivity. Qed.

Lemma readLoop_total fuel : forall e remain out T,
  InvOpen lw B T e ->
  lw <= 0 \/ 4 <= lw ->
  (2 * length (Device.buf (device e)) + 1 <= fuel)%nat ->
  6 * ceil3 (qSize e + Device.bytesAvailable (device e)) + 6 < remain ->
  exists e' remain' out',
    readLoop fuel e remain out = Ok (e', remain', out')
    /\ Device.buf (device e') = [] /\ 6 < remain'.
Proof.
  induction fuel as [ | fuel IH]; intros e remain out T Hinv Hw Hfuel Hrem; [lia | ].
  assert (0 <= ceil3 (qSize e + Device.bytesAvailable (device e))) as Hc0.
  { destruct Hinv as (C & R & _ & Hs & _). unfold ceil3, Device.bytesAvailable.
    rewrite Hs. apply Z.div_pos; lia. }
  destruct (Device.buf (device e)) as [ | c0 b0] eqn:Hbuf.
  { exists e, remain, out. rewrite readLoop_exit.
    - repeat split; [exact Hbuf | lia].
    - unfold Device.bytesAvailable. rewrite Hbuf. reflexivity. }
  cbn [readLoop].
  replace ((0 <? Device.bytesAvailable (device e)) && (6 <? remain)) with true.
  2: { symmetry. apply andb_true_iff. unfold Device.bytesAvailable.
       rewrite Hbuf. cbn [length]. split; [reflexivity | apply Z.ltb_lt; lia]. }
  pose proof (InvOpen_col T e Hinv) as Hcol.
  destruct Hinv as (C & R & HBe & Hs & Hlen & Hq & HT & HC & Hlw & Hseq).
  destruct (InvOpen_bytes e C R HBe) as (HCb & HRb & Hbb).
  destruct (fillQuantum_spec (Device.buf (device e)) R HRb Hbb ltac:(lia))
    as (R' & b' & Hf & Happ & Hl & Hor & HR' & Hle).
  unfold fill. rewrite Hq, Hs, Hf. cbn [qSize setQuantum].
  assert (length R + length (c0 :: b0) = length R' + length b')%nat as Hcount.
  { rewrite <- Hbuf, <- !length_app, Happ. reflexivity. }
  destruct (Z.eqb_spec (Z.of_nat (length R')) 3) as [H3 | H3].
  - set (e1 := setQuantum (pack R') (Z.of_nat (length R'))
                 (setDevice (Device.mk b' (Device.isSequential (device e))) e)).
    destruct (InvOpen_emit T e1 C R' HR' ltac:(lia) eq_refl eq_refl HT HC Hlw)
      as (e2 & o & HputQ & HT2 & Hs2 & Hq2 & Hd2 & Hlw2 & Hg2).
    assert (Z.of_nat (length o) <= 6) as Ho.
    { replace o with (snd (putQ e1)) by (rewrite HputQ; reflexivity).
      apply (putQ_size e1 R'); [exact HR' | lia | reflexivity | reflexivity | ].
      subst e1. cbn [lineWidth lineChars setQuantum setDevice]. rewrite Hlw.
      destruct Hw as [Hoff | Hon]; [left; exact Hoff | right; split; [exact Hon | ]].
      apply Hcol. lia. }
    unfold emitQ. rewrite HputQ.
    destruct (Z.ltb_spec remain (Z.of_nat (length o))); [lia | ].
    cbn [obind].
    apply (IH e2 _ _ (T ++ o)).
    + exists (C ++ R'), []. rewrite Hd2.
      subst e1. cbn [device setQuantum setDevice Device.buf].
      repeat split; auto.
      * rewrite HBe, Happ, <- app_assoc. reflexivity.
      * rewrite length_app, Nat2Z.inj_add. Z.div_mod_to_equations. lia.
    + exact Hw.
    + rewrite Hd2. subst e1. cbn [device setQuantum setDevice Device.buf].
      cbn [length] in Hcount, Hfuel. lia.
    + rewrite Hd2, Hs2. subst e1. cbn [device setQuantum setDevice].
      unfold Device.bytesAvailable in *. cbn [Device.buf].
      rewrite Hs, Hbuf in Hrem. unfold ceil3 in *.
      assert (Z.of_nat (length R) + Z.of_nat (length (c0 :: b0))
              = 3 + Z.of_nat (length b')) as Heq by lia.
      rewrite Heq in Hrem.
      replace (3 + Z.of_nat (length b') + 2)
        with (0 + Z.of_nat (length b') + 2 + 1 * 3) in Hrem by lia.
      rewrite Z.div_add in Hrem by lia. lia.
  - destruct Hor as [Hl3 | ->]; [lia | ].
    eexists _, _, _. rewrite readLoop_exit by reflexivity.
    split; [reflexivity | ]. split; [reflexivity | lia].
Qed.

Lemma readDataImpl_total maxlen :
  lw <= 0 \/ 4 <= lw ->
  6 * ceil3 (Z.of_nat (length B)) + 6 < maxlen ->
  exists r,
    readDataImpl (setLineWidth lw (create (Device.ofBytes B))) maxlen = Ok r
    /\ atEnd (encoder r) = true.
Proof.
  intros Hw Hmax.
  set (e0 := setLineWidth lw (create (Device.ofBytes B))).
  assert (InvOpen lw B [] e0) as Hinv0.
  { exists [], []. cbn. repeat split; auto. }
  unfold readDataImpl.
  destruct ((qSize e0 =? 0) && deviceAtEnd e0) eqn:Hfirst.
  { eexists. split; [reflexivity | ]. exact Hfirst. }
  destruct (readLoop_total (2 * length (Device.buf (device e0)) + 2) e0 maxlen [] []
              Hinv0 Hw ltac:(lia) Hmax) as (e1 & remain & out & Hloop & Hbuf & Hrem).
  rewrite Hloop. cbn [obind].
  destruct (readLoop_inv _ _ _ _ _ _ _ [] Hloop Hinv0) as (o & Ho & Hinv1 & Hg & _).
  cbn [app] in Ho. subst out.
  pose proof (InvOpen_col _ _ Hinv1) as Hcol.
  destruct Hinv1 as (C & R & HBe & Hs & Hlen & Hq & HT & HC & Hlw & Hseq).
  destruct (InvOpen_bytes e1 C R HBe) as (HCb & HRb & Hbb).
  rewrite (proj2 (deviceAtEnd_nonseq e1 Hseq) Hbuf).
  destruct (Z.ltb_spec 0 (qSize e1)) as [Hpos | Hzero].
  - destruct (InvOpen_emit o e1 C R HRb ltac:(lia) Hs Hq HT HC Hlw)
      as (e2 & o2 & HputQ & HT2 & Hs2 & Hq2 & Hd2 & Hlw2 & Hg2).
    assert (Z.of_nat (length o2) <= 6) as Ho2.
    { replace o2 with (snd (putQ e1)) by (rewrite HputQ; reflexivity).
      apply (putQ_size e1 R); [exact HRb | lia | exact Hs | exact Hq | ].
      rewrite Hlw.
      destruct Hw as [Hoff | Hon]; [left; exact Hoff | right; split; [exact Hon | ]].
      apply Hcol. lia. }
    unfold emitQ. rewrite HputQ.
    destruct (Z.ltb_spec remain (Z.of_nat (length o2))); [lia | ].
    cbn [obind]. eexists. split; [reflexivity | ].
    cbn [encoder]. unfold atEnd. rewrite Hs2.
    rewrite (proj2 (deviceAtEnd_nonseq e2 ltac:(rewrite Hd2; exact Hseq)));
      [reflexivity | rewrite Hd2; exact Hbuf].
  - cbn [obind]. eexists. split; [reflexivity | ].
    cbn [encoder]. unfold atEnd.
    rewrite (proj2 (deviceAtEnd_nonseq e1 Hseq) Hbuf).
    replace (qSize e1) with 0 by lia. reflexivity.
Qed.
End Invariant.

(** ** Reads of any size *)

Section Safety.
Import Base64 Base64Spec.
Variable lw : Z.
Variable B : list Z.
Hypothesis HB : Forall isByte B.
Hypothesis Hw : lw <= 0 \/ 4 <= lw.

(** The loop returns without a store behind the buffer; a quantum that
    is left unfinished has the room it needs. *)
Lemma readLoop_returns fuel : forall e remain out T,
  InvOpen lw B T e ->
  qSize e = 0 ->
  (length (Device.buf (device e)) < fuel)%nat ->
  exists e' remain' out',
    readLoop fuel e remain out = Ok (e', remain', out')
    /\ (qSize e' = 0 \/ (Device.buf (device e') = [] /\ 6 < remain')).
Proof.
  induction fuel as [ | fuel IH]; intros e remain out T Hinv Hz Hfuel; [lia | ].
  destruct ((0 <? Device.bytesAvailable (device e)) && (6 <? remain)) eqn:Hcond.
  2: { exists e, remain, out. rewrite readLoop_exit by exact Hcond.
       split; [reflexivity | left; exact Hz]. }
  cbn [readLoop]. rewrite Hcond.
  apply andb_true_iff in Hcond as [Hav Hrem].
  apply Z.ltb_lt in Hav, Hrem. unfold Device.bytesAvailable in Hav.
  pose proof (InvOpen_col lw B T e Hinv) as Hcol.
  destruct Hinv as (C & R & HBe & Hs & Hlen & Hq & HT & HC & Hlw & Hseq).
  destruct (InvOpen_bytes B HB e C R HBe) as (HCb & HRb & Hbb).
  assert (R = []) as -> by (destruct R; [reflexivity | cbn in Hs; lia]).
  destruct (fillQuantum_spec (Device.buf (device e)) [] HRb Hbb ltac:(cbn; lia))
    as (R' & b' & Hf & Happ & Hl & Hor & HR' & Hle).
  unfold fill. rewrite Hq, Hs, Hf. cbn [qSize setQuantum].
  cbn [app] in Happ.
  assert (length (Device.buf (device e)) = length R' + length b')%nat as Hcount.
  { rewrite Happ, length_app. reflexivity. }
  destruct (Z.eqb_spec (Z.of_nat (length R')) 3) as [H3 | H3].
  - set (e1 := setQuantum (pack R') (Z.of_nat (length R'))
                 (setDevice (Device.mk b' (Device.isSequential (device e))) e)).
    destruct (InvOpen_emit lw T e1 C R' HR' ltac:(lia) eq_refl eq_refl HT HC Hlw)
      as (e2 & o & HputQ & HT2 & Hs2 & Hq2 & Hd2 & Hlw2 & Hg2).
    assert (Z.of_nat (length o) <= 6) as Ho.
    { replace o with (snd (putQ e1)) by (rewrite HputQ; reflexivity).
      apply (putQ_size e1 R'); [exact HR' | lia | reflexivity | reflexivity | ].
      subst e1. cbn [lineWidth lineChars setQuantum setDevice]. rewrite Hlw.
      destruct Hw as [Hoff | Hon]; [left; exact Hoff | right; split; [exact Hon | ]].
      apply Hcol. lia. }
    unfold emitQ. rewrite HputQ.
    destruct (Z.ltb_spec remain (Z.of_nat (length o))); [lia | ].
    cbn [obind].
    apply (IH e2 _ _ (T ++ o)).
    + exists (C ++ R'), []. rewrite Hd2.
      subst e1. cbn [device setQuantum setDevice Device.buf].
      repeat split; auto.
      * rewrite HBe, Happ, <- app_assoc. reflexivity.
      * rewrite length_app, Nat2Z.inj_add. Z.div_mod_to_equations. lia.
    + exact Hs2.
    + rewrite Hd2. subst e1. cbn [device setQuantum setDevice Device.buf]. lia.
  - destruct Hor as [Hfull | ->]; [lia | ].
    eexists _, _, _. rewrite readLoop_exit by reflexivity.
    split; [reflexivity | right]. split; [reflexivity | exact Hrem].
Qed.

Lemma readDataImpl_returns e maxlen T :
  Inv lw B T e -> qSize e = 0 ->
  exists r,
    readDataImpl e maxlen = Ok r
    /\ qSize (encoder r) = 0
    /\ Inv lw B (T ++ data r) (encoder r).
Proof.
  intros Hinv Hz.
  assert (exists r, readDataImpl e maxlen = Ok r /\ qSize (encoder r) = 0)
    as (r & Hrun & Hz').
  2: { exists r. split; [exact Hrun | ]. split; [exact Hz' | ].
       exact (readDataImpl_inv lw B HB e maxlen r T Hrun Hinv). }
  unfold readDataImpl.
  destruct ((qSize e =? 0) && deviceAtEnd e) eqn:Hfirst.
  { eexists. split; [reflexivity | exact Hz]. }
  destruct Hinv as [Hopen | (Hbuf & Hs & _ & _ & Hseq)].
  2: { rewrite Hs, (proj2 (deviceAtEnd_nonseq e Hseq) Hbuf) in Hfirst.
       discriminate. }
  destruct (readLoop_returns (2 * length (Device.buf (device e)) + 2) e maxlen []
              T Hopen Hz ltac:(lia)) as (e1 & remain & out & Hloop & Hor).
  rewrite Hloop. cbn [obind].
  destruct (readLoop_inv lw B HB _ _ _ _ _ _ _ T Hloop Hopen)
    as (o & Ho & Hinv1 & Hg & _).
  pose proof (InvOpen_col lw B T e Hopen) as Hcol0.
  pose proof (InvOpen_col lw B _ e1 Hinv1) as Hcol.
  destruct Hinv1 as (C & R & HBe & Hs & Hlen & Hq & HT & HC & Hlw & Hseq).
  destruct (deviceAtEnd e1) eqn:Hend.
  - destruct (Z.ltb_spec 0 (qSize e1)) as [Hpos | Hzero].
    + destruct Hor as [Hzz | [Hbuf Hrem]]; [lia | ].
      destruct (InvOpen_bytes B HB e1 C R HBe) as (HCb & HRb & Hbb).
      destruct (InvOpen_emit lw (T ++ o) e1 C R HRb ltac:(lia) Hs Hq HT HC Hlw)
        as (e2 & o2 & HputQ & HT2 & Hs2 & Hq2 & Hd2 & Hlw2 & Hg2).
      assert (Z.of_nat (length o2) <= 6) as Ho2.
      { replace o2 with (snd (putQ e1)) by (rewrite HputQ; reflexivity).
        apply (putQ_size e1 R); [exact HRb | lia | exact Hs | exact Hq | ].
        rewrite Hlw.
        destruct Hw as [Hoff | Hon]; [left; exact Hoff | right; split; [exact Hon | ]].
        apply Hcol. lia. }
      unfold emitQ. rewrite HputQ.
      destruct (Z.ltb_spec remain (Z.of_nat (length o2))); [lia | ].
      cbn [obind]. eexists. split; [reflexivity | exact Hs2].
    + cbn [obind]. eexists. split; [reflexivity | ]. cbn [encoder]. lia.
  - eexists. split; [reflexivity | ]. cbn [encoder].
    destruct Hor as [Hzz | [Hbuf _]]; [exact Hzz | ].
    rewrite (proj2 (deviceAtEnd_nonseq e1 Hseq) Hbuf) in Hend. discriminate.
Qed.

Lemma readAll_returns maxlens : forall e T,
  Inv lw B T e -> qSize e = 0 ->
  exists e' out,
    readAll e maxlens = Ok (e', out) /\ Inv lw B (T ++ out) e' /\ qSize e' = 0.
Proof.
  induction maxlens as [ | m ms IH]; intros e T Hinv Hz.
  - exists e, []. rewrite app_nil_r. split; [reflexivity | split; assumption].
  - destruct (readDataImpl_returns e m T Hinv Hz) as (r & Hrun & Hz' & Hinv').
    destruct (IH (encoder r) _ Hinv' Hz') as (e' & out & Hrest & Hinv'' & Hz'').
    exists e', (data r ++ out). cbn [readAll]. rewrite Hrun. cbn [obind].
    rewrite Hrest. cbn [obind]. split; [reflexivity | ].
    rewrite app_assoc. split; assumption.
Qed.

Lemma putQ_nonempty e : snd (putQ e) <> [].
Proof.
  unfold putQ. cbv zeta.
  destruct (put e _) as [e1 o1] eqn:H1. destruct (put e1 _) as [e2 o2].
  destruct (put e2 _) as [e3 o3]. destruct (put e3 _) as [e4 o4].
  cbn [snd]. unfold put in H1.
  destruct (0 <? lineWidth e); [destruct (lineWidth e <=? lineChars e + 1) | ];
    injection H1 as _ <-; discriminate.
Qed.

Lemma readLoop_first fuel e remain out e' remain' out' T :
  InvOpen lw B T e -> qSize e = 0 -> Device.buf (device e) <> [] ->
  6 < remain ->
  readLoop (S fuel) e remain out = Ok (e', remain', out') ->
  out' <> out \/ (0 < qSize e' /\ Device.buf (device e') = []).
Proof.
  intros Hopen Hz Hbuf Hrem Hrun.
  pose proof Hopen as (C & R & HBe & Hs & Hlen & Hq & HT & HC & Hlw & Hseq).
  destruct (InvOpen_bytes B HB e C R HBe) as (HCb & HRb & Hbb).
  assert (R = []) as -> by (destruct R; [reflexivity | cbn in Hs; lia]).
  cbn [readLoop] in Hrun.
  replace ((0 <? Device.bytesAvailable (device e)) && (6 <? remain)) with true
    in Hrun.
  2: { symmetry. apply andb_true_iff. unfold Device.bytesAvailable.
       split; apply Z.ltb_lt; [ | lia].
       destruct (Device.buf (device e)); [congruence | cbn [length]; lia]. }
  destruct (fillQuantum_spec (Device.buf (device e)) [] HRb Hbb ltac:(cbn; lia))
    as (R' & b' & Hf & Happ & Hl & Hor & HR' & Hle).
  unfold fill in Hrun. rewrite Hq, Hs, Hf in Hrun.
  cbn [qSize setQuantum app] in Hrun, Happ.
  assert (0 < length R')%nat as Hne.
  { destruct Hor as [H3 | ->]; [lia | ].
    rewrite app_nil_r in Happ. rewrite <- Happ.
    destruct (Device.buf (device e)); [congruence | cbn [length]; lia]. }
  set (e1 := setQuantum (pack R') (Z.of_nat (length R'))
               (setDevice (Device.mk b' (Device.isSequential (device e))) e)) in *.
  destruct (Z.eqb_spec (Z.of_nat (length R')) 3) as [H3 | H3].
  - left. unfold emitQ in Hrun.
    pose proof (putQ_nonempty e1) as Hput.
    destruct (InvOpen_emit lw T e1 C R' HR' ltac:(lia) eq_refl eq_refl HT HC Hlw)
      as (e2 & o & HputQ & HT2 & Hs2 & Hq2 & Hd2 & Hlw2 & Hg2).
    rewrite HputQ in Hrun, Hput. cbn [snd] in Hput.
    destruct (remain <? Z.of_nat (length o)); [discriminate | ].
    cbn [obind] in Hrun.
    assert (InvOpen lw B (T ++ o) e2) as Hopen2.
    { exists (C ++ R'), []. rewrite Hd2.
      subst e1. cbn [device setQuantum setDevice Device.buf].
      repeat split; auto.
      - rewrite HBe, Happ, <- app_assoc. reflexivity.
      - rewrite length_app, Nat2Z.inj_add. Z.div_mod_to_equations. lia. }
    destruct (readLoop_inv lw B HB _ _ _ _ _ _ _ _ Hrun Hopen2)
      as (o' & -> & _).
    intros Heq. apply (f_equal length) in Heq.
    rewrite !length_app in Heq. destruct o; [congruence | cbn [length] in Heq; lia].
  - right. destruct Hor as [Hfull | ->]; [lia | ].
    rewrite readLoop_exit in Hrun by reflexivity.
    injection Hrun as <- _ _. subst e1.
    cbn [qSize setQuantum setDevice device Device.buf].
    split; [lia | reflexivity].
Qed.

Lemma readDataImpl_progress e maxlen T r :
  Inv lw B T e -> qSize e = 0 -> atEnd e = false -> 6 < maxlen ->
  readDataImpl e maxlen = Ok r -> data r <> [].
Proof.
  intros Hinv Hz Hnot Hmax Hrun. unfold atEnd in Hnot.
  unfold readDataImpl in Hrun. rewrite Hnot in Hrun.
  rewrite Hz in Hnot. cbn [Z.eqb andb] in Hnot.
  destruct Hinv as [Hopen | (Hbuf & Hs & _ & _ & Hseq)].
  2: { rewrite (proj2 (deviceAtEnd_nonseq e Hseq) Hbuf) in Hnot. discriminate. }
  assert (Device.buf (device e) <> []) as Hbuf.
  { intros Hbuf. destruct Hopen as (C & R & _ & _ & _ & _ & _ & _ & _ & Hseq).
    rewrite (proj2 (deviceAtEnd_nonseq e Hseq) Hbuf) in Hnot. discriminate. }
  replace (2 * length (Device.buf (device e)) + 2)%nat
    with (S (2 * length (Device.buf (device e)) + 1))%nat in Hrun by lia.
  destruct (readLoop _ e maxlen []) as [[[e1 remain] out] | | ] eqn:Hloop;
    try discriminate.
  cbn [obind] in Hrun.
  destruct (readLoop_inv lw B HB _ _ _ _ _ _ _ T Hloop Hopen)
    as (o & Ho & Hinv1 & Hg & Hend).
  destruct (readLoop_first _ _ _ _ _ _ _ T Hopen Hz Hbuf Hmax Hloop)
    as [Hout | Hq].
  - destruct (deviceAtEnd e1).
    + destruct (0 <? qSize e1).
      * unfold emitQ in Hrun. destruct (putQ e1) as [e2 o2].
        destruct (remain <? Z.of_nat (length o2)); [discriminate | ].
        cbn [obind] in Hrun. injection Hrun as <-. cbn [data].
        destruct out; [congruence | discriminate].
      * cbn [obind] in Hrun. injection Hrun as <-. exact Hout.
    + injection Hrun as <-. exact Hout.
  - destruct Hq as [Hq Hb1].
    pose proof Hinv1 as (C & R & HBe & Hs & Hlen & _ & _ & _ & _ & Hseq).
    rewrite (proj2 (deviceAtEnd_nonseq e1 Hseq) Hb1) in Hrun.
    apply Z.ltb_lt in Hq. rewrite Hq in Hrun.
    unfold emitQ in Hrun. pose proof (putQ_nonempty e1) as Hput.
    destruct (putQ e1) as [e2 o2]. cbn [snd] in Hput.
    destruct (remain <? Z.of_nat (length o2)); [discriminate | ].
    cbn [obind] in Hrun. injection Hrun as <-. cbn [data].
    intros Heq. apply (f_equal length) in Heq. rewrite length_app in Heq.
    destruct o2; [congruence | cbn [length] in Heq; lia].
Qed.
Lemma Inv_prefix T e :
  Inv lw B T e -> exists rest, fst (foldLines lw 0 (encodeChars B)) = T ++ rest.
Proof.
  intros [(C & R & HBe & _ & _ & _ & HT & HC & _) | (_ & _ & HT & _)].
  - rewrite HBe, encodeChars_app by exact HC. rewrite foldLines_app, HT.
    destruct (foldLines lw (lineChars e) (encodeChars (R ++ Device.buf (device e))))
      as [o2 lc2]. exists o2. reflexivity.
  - exists []. rewrite HT, app_nil_r. reflexivity.
Qed.
End Safety.

(** ** Reads that take the encoder to its end *)

Section Roomy.
Import Base64 Base64Spec.
Variable lw : Z.
Variable B : list Z.
Hypothesis HB : Forall isByte B.

Lemma put_length (e : Base64.t) c : (length (snd (put e c)) <= 3)%nat.
Proof.
  unfold put. destruct (0 <? lineWidth e); [ | cbn; lia].
  destruct (lineWidth e <=? lineChars e + 1); cbn; lia.
Qed.

Lemma putQ_size12 (e : Base64.t) : Z.of_nat (length (snd (putQ e))) <= 12.
Proof.
  unfold putQ. cbv zeta.
  match goal with |- context [put e ?c] =>
    pose proof (put_length e c) as H1; destruct (put e c) as [e1 o1] end.
  match goal with |- context [put e1 ?c] =>
    pose proof (put_length e1 c) as H2; destruct (put e1 c) as [e2 o2] end.
  match goal with |- context [put e2 ?c] =>
    pose proof (put_length e2 c) as H3; destruct (put e2 c) as [e3 o3] end.
  match goal with |- context [put e3 ?c] =>
    pose proof (put_length e3 c) as H4; destruct (put e3 c) as [e4 o4] end.
  cbn [snd] in *. rewrite !length_app. lia.
Qed.

(** With room for twelve bytes per quantum the loop empties the device at
    any line width. *)
Lemma readLoop_roomy fuel : forall e remain out T,
  InvOpen lw B T e ->
  (2 * length (Device.buf (device e)) + 1 <= fuel)%nat ->
  12 * ceil3 (qSize e + Device.bytesAvailable (device e)) + 12 < remain ->
  exists e' remain' out',
    readLoop fuel e remain out = Ok (e', remain', out')
    /\ Device.buf (device e') = [] /\ 12 < remain'.
Proof.
  induction fuel as [ | fuel IH]; intros e remain out T Hinv Hfuel Hrem; [lia | ].
  assert (0 <= ceil3 (qSize e + Device.bytesAvailable (device e))) as Hc0.
  { destruct Hinv as (C & R & _ & Hs & _). unfold ceil3, Device.bytesAvailable.
    rewrite Hs. apply Z.div_pos; lia. }
  destruct (Device.buf (device e)) as [ | c0 b0] eqn:Hbuf.
  { exists e, remain, out. rewrite readLoop_exit.
    - repeat split; [exact Hbuf | lia].
    - unfold Device.bytesAvailable. rewrite Hbuf. reflexivity. }
  cbn [readLoop].
  replace ((0 <? Device.bytesAvailable (device e)) && (6 <? remain)) with true.
  2: { symmetry. apply andb_true_iff. unfold Device.bytesAvailable.
       rewrite Hbuf. cbn [length]. split; [reflexivity | apply Z.ltb_lt; lia]. }
  destruct Hinv as (C & R & HBe & Hs & Hlen & Hq & HT & HC & Hlw & Hseq).
  destruct (InvOpen_bytes B HB e C R HBe) as (HCb & HRb & Hbb).
  destruct (fillQuantum_spec (Device.buf (device e)) R HRb Hbb ltac:(lia))
    as (R' & b' & Hf & Happ & Hl & Hor & HR' & Hle).
  unfold fill. rewrite Hq, Hs, Hf. cbn [qSize setQuantum].
  assert (length R + length (c0 :: b0) = length R' + length b')%nat as Hcount.
  { rewrite <- Hbuf, <- !length_app, Happ. reflexivity. }
  destruct (Z.eqb_spec (Z.of_nat (length R')) 3) as [H3 | H3].
  - set (e1 := setQuantum (pack R') (Z.of_nat (length R'))
                 (setDevice (Device.mk b' (Device.isSequential (device e))) e)).
    destruct (InvOpen_emit lw T e1 C R' HR' ltac:(lia) eq_refl eq_refl HT HC Hlw)
      as (e2 & o & HputQ & HT2 & Hs2 & Hq2 & Hd2 & Hlw2 & Hg2).
    assert (Z.of_nat (length o) <= 12) as Ho.
    { replace o with (snd (putQ e1)) by (rewrite HputQ; reflexivity).
      apply putQ_size12. }
    unfold emitQ. rewrite HputQ.
    destruct (Z.ltb_spec remain (Z.of_nat (length o))); [lia | ].
    cbn [obind].
    apply (IH e2 _ _ (T ++ o)).
    + exists (C ++ R'), []. rewrite Hd2.
      subst e1. cbn [device setQuantum setDevice Device.buf].
      repeat split; auto.
      * rewrite HBe, Happ, <- app_assoc. reflexivity.
      * rewrite length_app, Nat2Z.inj_add. Z.div_mod_to_equations. lia.
    + rewrite Hd2. subst e1. cbn [device setQuantum setDevice Device.buf].
      cbn [length] in Hcount, Hfuel. lia.
    + rewrite Hd2, Hs2. subst e1. cbn [device setQuantum setDevice].
      unfold Device.bytesAvailable in *. cbn [Device.buf].
      rewrite Hs, Hbuf in Hrem. unfold ceil3 in *.
      assert (Z.of_nat (length R) + Z.of_nat (length (c0 :: b0))
              = 3 + Z.of_nat (length b')) as Heq by lia.
      rewrite Heq in Hrem.
      replace (3 + Z.of_nat (length b') + 2)
        with (0 + Z.of_nat (length b') + 2 + 1 * 3) in Hrem by lia.
      rewrite Z.div_add in Hrem by lia. lia.
  - destruct Hor as [Hfull | ->]; [lia | ].
    eexists _, _, _. rewrite readLoop_exit by reflexivity.
    split; [reflexivity | ]. split; [reflexivity | ]. lia.
Qed.

Lemma readDataImpl_roomy maxlen :
  12 * ceil3 (Z.of_nat (length B)) + 12 < maxlen ->
  exists r,
    readDataImpl (setLineWidth lw (create (Device.ofBytes B))) maxlen = Ok r
    /\ atEnd (encoder r) = true.
Proof.
  intros Hmax.
  set (e0 := setLineWidth lw (create (Device.ofBytes B))).
  assert (InvOpen lw B [] e0) as Hinv0.
  { exists [], []. cbn. repeat split; auto. }
  unfold readDataImpl.
  destruct ((qSize e0 =? 0) && deviceAtEnd e0) eqn:Hfirst.
  { eexists. split; [reflexivity | ]. exact Hfirst. }
  destruct (readLoop_roomy (2 * length (Device.buf (device e0)) + 2) e0 maxlen [] []
              Hinv0 ltac:(lia) Hmax) as (e1 & remain & out & Hloop & Hbuf & Hrem).
  rewrite Hloop. cbn [obind].
  destruct (readLoop_inv lw B HB _ _ _ _ _ _ _ [] Hloop Hinv0)
    as (o & Ho & Hinv1 & Hg & _).
  cbn [app] in Ho. subst out.
  destruct Hinv1 as (C & R & HBe & Hs & Hlen & Hq & HT & HC & Hlw & Hseq).
  destruct (InvOpen_bytes B HB e1 C R HBe) as (HCb & HRb & Hbb).
  rewrite (proj2 (deviceAtEnd_nonseq e1 Hseq) Hbuf).
  destruct (Z.ltb_spec 0 (qSize e1)) as [Hpos | Hzero].
  - destruct (InvOpen_emit lw o e1 C R HRb ltac:(lia) Hs Hq HT HC Hlw)
      as (e2 & o2 & HputQ & HT2 & Hs2 & Hq2 & Hd2 & Hlw2 & Hg2).
    assert (Z.of_nat (length o2) <= 12) as Ho2.
    { replace o2 with (snd (putQ e1)) by (rewrite HputQ; reflexivity).
      apply putQ_size12. }
    unfold emitQ. rewrite HputQ.
    destruct (Z.ltb_spec remain (Z.of_nat (length o2))); [lia | ].
    cbn [obind]. eexists. split; [reflexivity | ].
    cbn [encoder]. unfold atEnd. rewrite Hs2.
    rewrite (proj2 (deviceAtEnd_nonseq e2 ltac:(rewrite Hd2; exact Hseq)));
      [reflexivity | rewrite Hd2; exact Hbuf].
  - cbn [obind]. eexists. split; [reflexivity | ].
    cbn [encoder]. unfold atEnd.
    rewrite (proj2 (deviceAtEnd_nonseq e1 Hseq) Hbuf).
    replace (qSize e1) with 0 by lia. reflexivity.
Qed.

(** At its end the encoder answers every read with nothing. *)
Lemma readAll_atEnd (e : Base64.t) maxlens :
  atEnd e = true -> readAll e maxlens = Ok (e, []).
Proof.
  intros Hend. induction maxlens as [ | m ms IH]; [reflexivity | ].
  cbn [readAll]. unfold readDataImpl. unfold atEnd in Hend. rewrite Hend.
  cbn [obind encoder data]. rewrite IH. reflexivity.
Qed.

(** The whole text has at most twelve bytes per quantum. *)
Lemma text_length :
  Z.of_nat (length (fst (foldLines lw 0 (encodeChars B))))
  <= 12 * ceil3 (Z.of_nat (length B)).
Proof.
  pose proof (encodeChars_length B) as Hlen.
  assert (0 <= ceil3 (Z.of_nat (length B))) as Hc
    by (unfold ceil3; apply Z.div_pos; lia).
  destruct (Z.ltb_spec 0 lw) as [Hon | Hoff].
  - destruct (foldLines_length lw 0 (encodeChars B) Hon ltac:(lia)) as [Hl _].
    rewrite Hl, Hlen, Z.add_0_l.
    assert (4 * ceil3 (Z.of_nat (length B)) / lw
            <= 4 * ceil3 (Z.of_nat (length B))); [ | lia].
    apply Z.div_le_upper_bound; [lia | nia].
  - rewrite foldLines_off by assumption. cbn [fst]. lia.
Qed.

Hypothesis Hw : lw <= 0 \/ 4 <= lw.

(** Enough reads with room for seven bytes take the encoder to its end,
    whatever other reads lie between them. *)
Lemma readAll_reaches_end maxlens : forall e T,
  Inv lw B T e -> qSize e = 0 ->
  (length (fst (foldLines lw 0 (encodeChars B))) - length T
   < length (bigReads maxlens))%nat ->
  exists e' out, readAll e maxlens = Ok (e', out) /\ atEnd e' = true.
Proof.
  induction maxlens as [ | m ms IH]; intros e T Hinv Hz Hcount;
    [cbn in Hcount; lia | ].
  destruct (atEnd e) eqn:Hend.
  { exists e, []. split; [apply readAll_atEnd; exact Hend | exact Hend]. }
  destruct (readDataImpl_returns lw B HB Hw e m T Hinv Hz) as (r & Hrun & Hz' & Hinv').
  destruct (Inv_prefix lw B _ _ Hinv') as [rest Hpre].
  assert (length (fst (foldLines lw 0 (encodeChars B)))
          = length T + length (data r) + length rest)%nat as Hlen
    by (rewrite Hpre, !length_app; reflexivity).
  destruct (IH (encoder r) (T ++ data r) Hinv' Hz') as (e' & out & Hrest & Hend').
  - rewrite length_app. unfold bigReads in *. cbn [List.filter] in Hcount.
    destruct (Z.ltb_spec 6 m) as [Hbig | Hsmall]; [ | lia].
    pose proof (readDataImpl_progress lw B HB e m T r Hinv Hz Hend Hbig Hrun) as Hne.
    destruct (data r); [congruence | ]. cbn [length] in *. lia.
  - exists e', (data r ++ out). cbn [readAll]. rewrite Hrun. cbn [obind].
    rewrite Hrest. cbn [obind]. split; [reflexivity | exact Hend'].
Qed.
End Roomy.

(** C7. Round trip and shape of the Base64 encoder over a byte array [B].
    A consumer whose reads are adequate (the first has room for the whole
    text, at any line width; or, with folding off or a width of at least
    four, enough of them have room for seven bytes) receives the whole
    output: every read returns and stays inside its buffer, and the encoder
    ends.  And whenever a consumer has read the encoder to its end, in
    reads of any sizes, what it received decodes back to [B] under a strict
    decoder, its length is [4 * ceil(n/3)] plus two bytes per CR LF, the
    number of CR LF is the text length divided by the line width (none when
    folding is off), and with a positive line width no line is longer than
    the width. *)
Theorem base64_roundtrip_shape (lw : Z) (B maxlens : list Z) :
  Forall isByte B ->
  (adequate lw (length B) maxlens ->
   exists e' out,
     Base64.readAll (Base64.setLineWidth lw (Base64.create (Device.ofBytes B)))
       maxlens = Ok (e', out)
     /\ Base64.atEnd e' = true)
  /\ (forall e' out,
        Base64.readAll (Base64.setLineWidth lw (Base64.create (Device.ofBytes B)))
          maxlens = Ok (e', out) ->
        Base64.atEnd e' = true ->
        Base64Spec.decode out = Some B
        /\ Z.of_nat (length out)
           = 4 * Base64Spec.ceil3 (Z.of_nat (length B)) + 2 * Base64Spec.breaks out
        /\ Base64Spec.breaks out
           = (if 0 <? lw then 4 * Base64Spec.ceil3 (Z.of_nat (length B)) / lw else 0)
        /\ (0 < lw ->
            Forall (fun l => Z.of_nat (length l) <= lw) (Base64Spec.lines out))).
Proof.
  intros HB. split.
  - intros [(m & rest & -> & Hroom) | [Hw Hcount]].
    + destruct (readDataImpl_roomy lw B HB m Hroom) as (r & Hrun & Hend).
      exists (Base64.encoder r), (Base64.data r ++ []).
      cbn [Base64.readAll]. rewrite Hrun. cbn [obind].
      rewrite (readAll_atEnd _ rest Hend). cbn [obind].
      split; [reflexivity | exact Hend].
    + apply (readAll_reaches_end lw B HB Hw maxlens _ []).
      * left. exists [], []. cbn. repeat split; (reflexivity || lia).
      * reflexivity.
      * pose proof (text_length lw B) as Hlen. cbn [length]. lia.
  - intros e' out Hrun Hend.
    rewrite (readAll_complete lw B HB maxlens e' out Hrun Hend).
    pose proof (encodeChars_letters B) as Hletters.
    pose proof (encodeChars_length B) as Hlen.
    split.
    { unfold Base64Spec.decode. rewrite foldLines_filter by assumption.
      apply decodeGroups_encodeChars. assumption. }
    unfold Base64Spec.breaks.
    destruct (Z.ltb_spec 0 lw) as [Hon | Hoff].
    + destruct (foldLines_length lw 0 (Base64Spec.encodeChars B) Hon ltac:(lia))
        as [Hl _].
      destruct (foldLines_lines lw 0 (Base64Spec.encodeChars B) Hon ltac:(lia) Hletters)
        as (l0 & ls & Hlines & Hl0 & Hls & Hn).
      rewrite Hlines, Hl. cbn [length]. rewrite Nat2Z.inj_succ, Hn, Hlen.
      rewrite Z.add_0_l. repeat split; [lia | lia | ].
      intros _. constructor; [lia | exact Hls].
    + rewrite foldLines_off by assumption. cbn [fst].
      rewrite lines_letters by assumption. cbn [length].
      repeat split; [lia | lia].
Qed.

Lemma base64_roundtrip_shape_witness :
  exists e' out,
    Base64.readAll
      (Base64.setLineWidth 2 (Base64.create (Device.ofBytes (bytes "Mann"))))
      [100; 7] = Ok (e', out)
    /\ Base64.atEnd e' = true
    /\ Base64Spec.decode out = Some (bytes "Mann")
    /\ Z.of_nat (length out) = 4 * Base64Spec.ceil3 4 + 2 * Base64Spec.breaks out
    /\ Base64Spec.breaks out = 4
    /\ Forall (fun l => Z.of_nat (length l) <= 2) (Base64Spec.lines out).
Proof.
  destruct (base64_roundtrip_shape 2 (bytes "Mann") [100; 7]) as [Htotal Hshape].
  - repeat constructor; vm_compute; discriminate.
  - destruct Htotal as (e' & out & Hrun & Hend).
    + left. exists 100, [7]. split; [reflexivity | vm_compute; reflexivity].
    + destruct (Hshape e' out Hrun Hend) as (H1 & H2 & H3 & H4).
      exists e', out.
      exact (conj Hrun (conj Hend (conj H1 (conj H2 (conj H3 (H4 eq_refl)))))).
Defined.

(** * The Quoted-Printable encoder in front of a blank near the end *)

Section Blank.
Import Qp.
Variables (c : Z) (rest : list Z).
Hypothesis Hblank : c = 9 \/ c = 32.
Hypothesis Hrest : (length rest < 2)%nat.

Lemma keeps_cons x b : keeps c rest b -> keeps c rest (x :: b).
Proof. intros [pre ->]. exists (x :: pre). reflexivity. Qed.

Lemma keeps_nonempty b : keeps c rest b -> b <> [].
Proof. intros [pre ->]. destruct pre; discriminate. Qed.

Lemma blank_test : (c =? 9) || (c =? 32) = true.
Proof. destruct Hblank as [-> | ->]; reflexivity. Qed.

Lemma ensureSpace_keeps n x e remaining out k :
  keeps c rest (Device.buf (device e)) -> flowKeeps c rest k ->
  flowKeeps c rest (ensureSpace n x e remaining out k).
Proof.
  intros He Hk. unfold ensureSpace.
  destruct (remaining <? n); [ | exact Hk].
  cbn. apply keeps_cons. exact He.
Qed.

Lemma writeChar_keeps p x e remaining out :
  keeps c rest (Device.buf (device e)) -> flowKeeps c rest (writeChar p x e remaining out).
Proof.
  intros He. unfold writeChar. destruct p.
  - destruct (remaining <? 1); [exact I | exact He].
  - apply ensureSpace_keeps; [exact He | exact He].
Qed.

Lemma encodeChar_keeps x force e remaining out :
  keeps c rest (Device.buf (device e)) -> flowKeeps c rest (encodeChar x force e remaining out).
Proof.
  intros He. unfold encodeChar.
  destruct (textMode e && (x =? 10)).
  - apply ensureSpace_keeps; [exact He | exact He].
  - cbv zeta.
    destruct (lineWidth e <=? _).
    + apply ensureSpace_keeps; [exact He | ]. apply writeChar_keeps. exact He.
    + apply writeChar_keeps. exact He.
Qed.

Lemma device_eta (d : Device.t) :
  Device.mk (Device.buf d) (Device.isSequential d) = d.
Proof. destruct d; reflexivity. Qed.

Lemma setDevice_eta (e : Qp.t) : setDevice (device e) e = e.
Proof. destruct e; reflexivity. Qed.

(** With the blank at the head the pass pushes it back and leaves the
    loop; nothing has changed. *)
Lemma iteration_stuck e remaining out :
  Device.buf (device e) = c :: rest ->
  iteration e remaining out = Break e remaining out.
Proof.
  intros Hbuf. unfold iteration, Device.getChar. rewrite Hbuf.
  cbv zeta. rewrite blank_test. cbn [andb].
  assert (Nat.eqb (length (Device.peek 2 (Device.mk rest (Device.isSequential (device e))))) 2
          = false) as ->.
  { apply Nat.eqb_neq. unfold Device.peek. cbn [Device.buf].
    rewrite length_take. lia. }
  cbn [negb]. unfold unget, Device.ungetChar. cbn.
  rewrite <- Hbuf, device_eta.
  destruct e; reflexivity.
Qed.

Lemma iteration_keeps e remaining out :
  keeps c rest (Device.buf (device e)) -> flowKeeps c rest (iteration e remaining out).
Proof.
  intros [pre Hbuf]. destruct pre as [ | h pre].
  { rewrite iteration_stuck by exact Hbuf. exists []. exact Hbuf. }
  cbn [app] in Hbuf. unfold iteration, Device.getChar. rewrite Hbuf. cbv zeta.
  assert (keeps c rest (pre ++ c :: rest)) as Ht by (exists pre; reflexivity).
  destruct (((h =? 9) || (h =? 32)) && negb _) eqn:Hb1.
  { cbn. exists (h :: pre). reflexivity. }
  destruct (Z.eqb_spec h 13) as [-> | Hh].
  - cbn [Device.getChar Device.buf].
    destruct pre as [ | c2 pre]; cbn [app].
    + (* the byte after CR is the blank itself *)
      destruct (Z.eqb_spec c 10) as [Hc | Hc];
        [destruct Hblank; lia | ].
      apply encodeChar_keeps. cbn. exists []. reflexivity.
    + destruct (c2 =? 10).
      * apply ensureSpace_keeps; cbn.
        -- exists pre. reflexivity.
        -- exists pre. reflexivity.
      * apply encodeChar_keeps. cbn. exists (c2 :: pre). reflexivity.
  - apply encodeChar_keeps. cbn. exact Ht.
Qed.

Lemma readLoop_keeps fuel : forall e remaining out e' remaining' out',
  keeps c rest (Device.buf (device e)) ->
  readLoop fuel e remaining out = Ok (e', remaining', out') ->
  keeps c rest (Device.buf (device e')).
Proof.
  induction fuel as [ | fuel IH]; intros e remaining out e' remaining' out' He Hrun;
    cbn [readLoop] in Hrun;
    destruct (negb (Device.bytesAvailable (device e) =? 0) && (0 <? remaining));
    try discriminate; try (injection Hrun as <- <- <-; exact He).
  pose proof (iteration_keeps e remaining out He) as Hit.
  destruct (iteration e remaining out) as [e1 r1 o1 | e1 r1 o1 | ];
    [ | | discriminate].
  - eapply IH; [exact Hit | exact Hrun].
  - injection Hrun as <- <- <-. exact Hit.
Qed.

Lemma keeps_not_atEnd e :
  keeps c rest (Device.buf (device e)) -> deviceAtEnd e = false.
Proof.
  intros He. apply keeps_nonempty in He.
  unfold deviceAtEnd, Device.atEnd, Device.bytesAvailable.
  destruct (Device.buf (device e)); [contradiction | ].
  destruct (Device.isSequential (device e)); reflexivity.
Qed.

Lemma readDataImpl_keeps e maxlen r :
  keeps c rest (Device.buf (device e)) ->
  readDataImpl e maxlen = Ok r ->
  keeps c rest (Device.buf (device (encoder r))) /\ readChannelFinished r = false.
Proof.
  intros He Hrun. unfold readDataImpl in Hrun.
  rewrite (keeps_not_atEnd e He) in Hrun.
  destruct (readLoop _ e maxlen []) as [[[e1 r1] o1] | | ] eqn:Hloop;
    cbn [obind] in Hrun; try discriminate.
  injection Hrun as <-. cbn [encoder readChannelFinished].
  pose proof (readLoop_keeps _ _ _ _ _ _ _ He Hloop) as H1.
  split; [exact H1 | apply keeps_not_atEnd; exact H1].
Qed.

Lemma readAll_keeps maxlens : forall e e' rs,
  keeps c rest (Device.buf (device e)) ->
  readAll e maxlens = Ok (e', rs) ->
  keeps c rest (Device.buf (device e'))
  /\ Forall (fun r => readChannelFinished r = false) rs.
Proof.
  induction maxlens as [ | m ms IH]; intros e e' rs He Hrun.
  - injection Hrun as <- <-. split; [exact He | constructor].
  - cbn [readAll] in Hrun.
    destruct (readDataImpl e m) as [r | | ] eqn:Hr; cbn [obind] in Hrun;
      try discriminate.
    destruct (readAll (encoder r) ms) as [[e2 rs2] | | ] eqn:Htail;
      cbn [obind] in Hrun; try discriminate.
    injection Hrun as <- <-.
    destruct (readDataImpl_keeps e m r He Hr) as [H1 H2].
    destruct (IH _ _ _ H1 Htail) as [H3 H4].
    split; [exact H3 | constructor; assumption].
Qed.

(** With the blank at the head a call returns 0, stores nothing, changes
    nothing and emits nothing. *)
Lemma readDataImpl_stuck e maxlen :
  Device.buf (device e) = c :: rest ->
  readDataImpl e maxlen = Ok (mkReply e [] 0 false).
Proof.
  intros Hbuf. unfold readDataImpl.
  assert (keeps c rest (Device.buf (device e))) as He by (exists []; exact Hbuf).
  rewrite (keeps_not_atEnd e He). cbn [readLoop].
  unfold Device.bytesAvailable at 1. rewrite Hbuf at 1. cbn [length].
  destruct (Z.ltb_spec 0 maxlen) as [Hpos | Hneg].
  - replace (negb (Z.of_nat (S (length rest)) =? 0) && true) with true
      by (symmetry; apply andb_true_iff; split; [ | reflexivity];
          apply negb_true_iff, Z.eqb_neq; lia).
    rewrite iteration_stuck by exact Hbuf. cbn [obind].
    rewrite (keeps_not_atEnd e He), Z.sub_diag. reflexivity.
  - rewrite andb_false_r. cbn [obind].
    rewrite (keeps_not_atEnd e He), Z.sub_diag. reflexivity.
Qed.

Lemma readAll_stuck maxlens e :
  Device.buf (device e) = c :: rest ->
  readAll e maxlens = Ok (e, map (fun _ => mkReply e [] 0 false) maxlens).
Proof.
  intros Hbuf. induction maxlens as [ | m ms IH]; [reflexivity | ].
  cbn [readAll map]. rewrite readDataImpl_stuck by exact Hbuf.
  cbn [obind encoder]. rewrite IH. reflexivity.
Qed.
End Blank.

(** C10. A TAB or SPACE with fewer than two bytes behind it is never
    encoded.  Whatever the encoder state [e] and however the consumer reads,
    as long as the device holds [pre ++ c :: rest] with [c] a blank and
    [rest] shorter than two bytes, the device still ends in [c :: rest]
    after the reads, it is not at its end, and no call has emitted
    [readChannelFinished]; and once the blank is at the head ([pre] empty)
    every call returns 0, stores nothing and leaves the encoder as it is.
    The source with a blank as its last byte is the case [rest = []]. *)
Theorem qp_blank_near_end_stalls (e : Qp.t) (pre rest : list Z) (c : Z)
    (maxlens : list Z) (e' : Qp.t) (rs : list Qp.reply) :
  c = 9 \/ c = 32 ->
  (length rest < 2)%nat ->
  Device.buf (Qp.device e) = pre ++ c :: rest ->
  Qp.readAll e maxlens = Ok (e', rs) ->
  (exists pre', Device.buf (Qp.device e') = pre' ++ c :: rest)
  /\ Qp.deviceAtEnd e' = false
  /\ Forall (fun r => Qp.readChannelFinished r = false) rs
  /\ (pre = [] ->
      e' = e /\ Forall (fun r => Qp.result r = 0 /\ Qp.data r = []) rs).
Proof.
  intros Hc Hrest Hbuf Hrun.
  assert (keeps c rest (Device.buf (Qp.device e))) as He by (exists pre; exact Hbuf).
  destruct (readAll_keeps c rest Hc Hrest maxlens e e' rs He Hrun) as [Hk Hf].
  split; [exact Hk | ].
  split; [apply (keeps_not_atEnd c rest); exact Hk | ].
  split; [exact Hf | ].
  intros ->. cbn [app] in Hbuf.
  rewrite (readAll_stuck c rest Hc Hrest maxlens e Hbuf) in Hrun.
  injection Hrun as <- <-. split; [reflexivity | ].
  clear. induction maxlens; constructor; [split; reflexivity | assumption].
Qed.

Lemma qp_blank_near_end_stalls_witness :
  exists e' rs,
    Qp.readAll (Qp.create (Device.ofBytes [32])) [100; 100] = Ok (e', rs)
    /\ Device.buf (Qp.device e') = [32]
    /\ Qp.deviceAtEnd e' = false
    /\ Forall (fun r => Qp.readChannelFinished r = false) rs
    /\ e' = Qp.create (Device.ofBytes [32])
    /\ Forall (fun r => Qp.result r = 0 /\ Qp.data r = []) rs.
Proof.
  set (e := Qp.create (Device.ofBytes [32])). eexists _, _. split; [vm_compute; reflexivity | ].
  edestruct (qp_blank_near_end_stalls e [] [] 32 [100; 100])
    as (_ & H2 & H3 & H4).
  - right. reflexivity.
  - cbn. lia.
  - reflexivity.
  - vm_compute. reflexivity.
  - destruct (H4 eq_refl) as [H5 H6].
    exact (conj eq_refl (conj H2 (conj H3 (conj H5 H6)))).
Defined.

(** C8, at its own example and at a dot behind a soft line break.  On the
    body [.start CRLF end SPACE] the encoder delivers [=2Estart CRLF end]
    and then stalls in front of the last byte: the blank is never written,
    no call reports the end.  On 74 letters followed by a dot and CR LF the
    74 letters fill the line, the soft break is written after the test for a
    leading dot was made, and the dot opens the next line as it is: the
    output ends in CRLF [.] CRLF. *)
Theorem qp_mail_safety_fails :
  (exists e' rs,
     Qp.readAll
       (Qp.create (Device.ofBytes (bytes ".start" ++ [13; 10] ++ bytes "end ")))
       [100; 100; 100] = Ok (e', rs)
     /\ Qp.output rs = bytes "=2Estart" ++ [13; 10] ++ bytes "end"
     /\ map Qp.result rs = [13; 0; 0]
     /\ map Qp.readChannelFinished rs = [false; false; false]
     /\ Device.buf (Qp.device e') = [32])
  /\ (exists e' rs,
        Qp.readAll
          (Qp.create (Device.ofBytes (repeat 97 74 ++ [46; 13; 10])))
          [200; 200] = Ok (e', rs)
        /\ Qp.output rs = repeat 97 74 ++ [61; 13; 10] ++ [46] ++ [13; 10]
        /\ Qp.deviceAtEnd e' = true).
Proof.
  split; eexists _, _; (split; [vm_compute; reflexivity | ]);
    repeat split; vm_compute; reflexivity.
Qed.

(** C9.  With a line width of 0 the Quoted-Printable encoder's test
    [lineChars + 2 >= lineWidth] holds before every byte, so a soft line
    break precedes each of them.  The Base64 encoder guards its test with
    [lineWidth > 0]: there a character is written as it is, and the
    encoder is left unchanged. *)
Theorem qp_width_zero_breaks_every_byte :
  (exists e' rs,
     Qp.readAll (Qp.setLineWidth 0 (Qp.create (Device.ofBytes (bytes "ab"))))
       [100; 100] = Ok (e', rs)
     /\ Qp.output rs = [61; 13; 10; 97; 61; 13; 10; 98]
     /\ Qp.deviceAtEnd e' = true)
  /\ (forall (e : Base64.t) (c : Z),
        Base64.put (Base64.setLineWidth 0 e) c = (Base64.setLineWidth 0 e, [c])).
Proof.
  split.
  - eexists _, _. split; [vm_compute; reflexivity | ].
    split; vm_compute; reflexivity.
  - intros e c. destruct e; reflexivity.
Qed.
(** * CRAM-MD5 *)

Lemma md5_length (m : list Z) : length (Qt.md5 m) = 16%nat.
Proof.
  unfold Qt.md5. cbv zeta.
  destruct (Qt.md5Blocks _ _ _) as [[[a b] c] d]. reflexivity.
Qed.

Lemma xorLoop_prefix (k : Z) (pad : list Z) (n : nat) :
  (n <= length pad)%nat ->
  fold_left (fun a i => <[i := Z.lxor (nth i a 0) k]> a) (seq 0 n) pad
  = map (fun b => Z.lxor b k) (take n pad) ++ drop n pad.
Proof.
  induction n as [ | n IH]; intros Hn.
  - rewrite take_0, drop_0. reflexivity.
  - rewrite seq_S, fold_left_app, IH by lia. cbn [fold_left Nat.add].
    destruct (lookup_lt_is_Some_2 pad n ltac:(lia)) as [x Hx].
    rewrite (take_S_r pad n x Hx), (drop_S pad x n Hx), map_app.
    assert (length (map (fun b => Z.lxor b k) (take n pad)) = n) as Hlen
      by (rewrite length_map, length_take; lia).
    rewrite app_nth2 by lia. rewrite Hlen, Nat.sub_diag. cbn [nth].
    rewrite insert_app_r_alt by lia. rewrite Hlen, Nat.sub_diag.
    cbn. rewrite <- app_assoc. reflexivity.
Qed.

Lemma xorLoop_map (k : Z) (pad : list Z) :
  length pad = 64%nat -> Auth.xorLoop k pad = map (fun b => Z.lxor b k) pad.
Proof.
  intros Hlen. unfold Auth.xorLoop. rewrite xorLoop_prefix by lia.
  rewrite take_ge, drop_ge by lia. apply app_nil_r.
Qed.

Lemma take_repeat (x : Z) (n m : nat) :
  (n <= m)%nat -> take n (repeat x m) = repeat x n.
Proof.
  revert m. induction n as [ | n IH]; intros m Hm; [reflexivity | ].
  destruct m as [ | m]; [lia | ]. cbn. rewrite IH by lia. reflexivity.
Qed.

Lemma padded_key (pass : list Z) :
  let secret := if (64 <? Z.of_nat (length pass)) then Qt.md5 pass else pass in
  firstn 64 (secret ++ repeat 0 64) = CramSpec.key pass
  /\ length (CramSpec.key pass) = 64%nat.
Proof.
  unfold CramSpec.key. cbv zeta.
  set (secret := if 64 <? Z.of_nat (length pass) then Qt.md5 pass else pass).
  assert (length secret <= 64)%nat as Hs.
  { subst secret. destruct (Z.ltb_spec 64 (Z.of_nat (length pass))).
    - rewrite md5_length. lia.
    - lia. }
  split.
  - rewrite take_app_ge by lia. f_equal.
    apply take_repeat. lia.
  - rewrite length_app, repeat_length. lia.
Qed.

(** C2. The CRAM-MD5 response is the Base64 text of the user name, a
    space and the lower-case hexadecimal keyed MD5 of the decoded challenge
    under the zero-padded password (its MD5 when longer than 64 bytes);
    RFC 2195's example comes out as expected. *)
Theorem cramMd5_response :
  (forall challenge user pass : list Z,
     Auth.cramMd5Mech challenge user pass
     = CramSpec.response challenge user pass)
  /\ Auth.cramMd5Mech
       (Qt.toBase64 (bytes "<1896.697170952@postoffice.reston.mci.net>"))
       (bytes "tim") (bytes "tanstaaftanstaaf")
     = Qt.toBase64 (bytes "tim b913a602c7eda7a495b4e6e7334d3890").
Proof.
  split.
  - intros challenge user pass.
    unfold Auth.cramMd5Mech, CramSpec.response, CramSpec.inner, CramSpec.outer.
    cbv zeta. destruct (padded_key pass) as [-> Hlen].
    rewrite !xorLoop_map by exact Hlen. reflexivity.
  - vm_compute. reflexivity.
Qed.
(** * The transport *)

Section TransportFacts.
Import Transport.
Variable DateTime : Type.
Variable qsetOrder : list (list Z) -> list (list Z).

Local Abbreviation T := (Transport.t DateTime).

Lemma queueMessage_fields (m : Message.t DateTime) (d : T) :
  let d' := snd (queueMessage DateTime m d) in
  queue DateTime d' = queue DateTime d ++ [length (store DateTime d)]
  /\ timeout DateTime d' = timeout DateTime d
  /\ log DateTime d' = log DateTime d
  /\ state DateTime d' = state DateTime d
  /\ timerActive DateTime d' = timerActive DateTime d.
Proof. destruct d; cbn. repeat split. Qed.

Lemma queued_fields (ms : list (Message.t DateTime)) :
  timeout DateTime (queued ms) = 6000
  /\ log DateTime (queued ms) = []
  /\ state DateTime (queued ms) = IdleState
  /\ timerActive DateTime (queued ms) = false
  /\ (ms <> [] -> queue DateTime (queued ms) <> []).
Proof.
  unfold queued.
  assert (forall (d : T),
    timeout DateTime (fold_left (fun d m => snd (queueMessage DateTime m d)) ms d)
      = timeout DateTime d
    /\ log DateTime (fold_left (fun d m => snd (queueMessage DateTime m d)) ms d)
      = log DateTime d
    /\ state DateTime (fold_left (fun d m => snd (queueMessage DateTime m d)) ms d)
      = state DateTime d
    /\ timerActive DateTime (fold_left (fun d m => snd (queueMessage DateTime m d)) ms d)
      = timerActive DateTime d
    /\ (ms <> [] \/ queue DateTime d <> [] ->
        queue DateTime (fold_left (fun d m => snd (queueMessage DateTime m d)) ms d)
        <> [])) as H.
  { induction ms as [ | m ms IH]; intros d.
    - cbn. repeat split. intros [H | H]; [contradiction | exact H].
    - cbn [fold_left].
      destruct (queueMessage_fields m d) as (Hq & Ht & Hl & Hs & Ha).
      destruct (IH (snd (queueMessage DateTime m d))) as (H1 & H2 & H3 & H4 & H5).
      rewrite H1, H2, H3, H4, Ht, Hl, Hs, Ha. repeat split.
      intros _. apply H5. right. rewrite Hq.
      destruct (queue DateTime d); discriminate. }
  destruct (H (create DateTime)) as (H1 & H2 & H3 & H4 & H5).
  rewrite H1, H2, H3, H4. repeat split.
  intros Hms. apply H5. left. exact Hms.
Qed.

Lemma sendMessagesImpl_started (initState : State) (d : T) :
  queue DateTime d <> [] ->
  let d' := sendMessagesImpl DateTime initState d in
  state DateTime d' = initState
  /\ log DateTime d'
     = log DateTime d ++ [TimerStart (timeout DateTime d); InvokeProcessStates]
  /\ timerInterval DateTime d' = timeout DateTime d
  /\ timerActive DateTime d' = true
  /\ serverHostname DateTime d' = serverHostname DateTime d
  /\ serverProtocol DateTime d' = serverProtocol DateTime d.
Proof.
  intros Hq. unfold sendMessagesImpl.
  destruct (queue DateTime d) as [ | i q] eqn:Hqueue; [contradiction | ].
  destruct d; cbn. rewrite <- app_assoc. repeat split.
Qed.

Lemma with_server_queue hostname proto address port (d : T) :
  let d' := withServerPort DateTime port
              (withServerAddress DateTime address
                 (withServerProtocol DateTime proto
                    (withServerHostname DateTime hostname d))) in
  queue DateTime d' = queue DateTime d
  /\ log DateTime d' = log DateTime d
  /\ timeout DateTime d' = timeout DateTime d
  /\ serverHostname DateTime d' = hostname
  /\ serverProtocol DateTime d' = proto.
Proof. destruct d; cbn. repeat split. Qed.

(** In ConnectedState the state machine only waits for the banner. *)
Lemma processStates_connected env (d : T) :
  state DateTime d = ConnectedState ->
  timerActive DateTime d = true ->
  exists d',
    _q_processStates DateTime qsetOrder env d = Ok d'
    /\ state DateTime d' = BannerState
    /\ log DateTime d' = log DateTime d ++ [TimerRestart].
Proof.
  intros Hs Ha. destruct d; cbn in *; subst.
  eexists. split; [reflexivity | ]. cbn. split; reflexivity.
Qed.

(** In ResolvingState it starts the lookup. *)
Lemma processStates_resolving env (d : T) :
  state DateTime d = ResolvingState ->
  timerActive DateTime d = true ->
  exists d',
    _q_processStates DateTime qsetOrder env d = Ok d'
    /\ state DateTime d' = ResolvedState
    /\ log DateTime d'
       = log DateTime d
         ++ [TimerRestart;
             Lookup (dnsType (serverProtocol DateTime d))
                    (serverHostname DateTime d)].
Proof.
  intros Hs Ha. destruct d; cbn in *; subst.
  eexists. split; [reflexivity | ]. cbn. rewrite <- app_assoc.
  split; reflexivity.
Qed.
End TransportFacts.

(** C1.  With messages queued, [sendMessages] with a host name enters
    ResolvingState and the state machine starts the lookup; [sendMessages]
    with a [QHostAddress] enters ConnectedState, not ConnectingState, and
    the state machine goes on to BannerState without a call of
    [connectToHost]: the log of the transport holds the timer start, the
    queued call and the timer restart, nothing else. *)
Theorem sendMessages_entry_state (DateTime : Type)
    (qsetOrder : list (list Z) -> list (list Z)) (env : Transport.Env)
    (m : Message.t DateTime) (ms : list (Message.t DateTime))
    (hostname : list Z) (port : Z) (proto : Transport.NetworkLayerProtocol)
    (address : Transport.HostAddress) :
  let d0 := queued (m :: ms) in
  Transport.state DateTime (Transport.sendMessages DateTime hostname port proto d0)
  = Transport.ResolvingState
  /\ Transport.state DateTime (Transport.sendMessagesTo DateTime address port d0)
     = Transport.ConnectedState
  /\ (exists d',
        Transport._q_processStates DateTime qsetOrder env
          (Transport.sendMessages DateTime hostname port proto d0) = Ok d'
        /\ Transport.state DateTime d' = Transport.ResolvedState
        /\ Transport.log DateTime d'
           = [Transport.TimerStart 6000; Transport.InvokeProcessStates;
              Transport.TimerRestart;
              Transport.Lookup (Transport.dnsType proto) hostname])
  /\ (exists d',
        Transport._q_processStates DateTime qsetOrder env
          (Transport.sendMessagesTo DateTime address port d0) = Ok d'
        /\ Transport.state DateTime d' = Transport.BannerState
        /\ Transport.log DateTime d'
           = [Transport.TimerStart 6000; Transport.InvokeProcessStates;
              Transport.TimerRestart]).
Proof.
  intros d0.
  destruct (queued_fields DateTime (m :: ms)) as (Ht & Hl & Hs & Ha & Hq).
  specialize (Hq ltac:(discriminate)). fold d0 in Ht, Hl, Hs, Ha, Hq.
  unfold Transport.sendMessages, Transport.sendMessagesTo. cbv zeta.
  split; [ | split; [ | split]].
  - destruct (with_server_queue DateTime hostname proto Transport.NullAddress port d0)
      as (Hq' & _).
    apply sendMessagesImpl_started. rewrite Hq'. exact Hq.
  - destruct (with_server_queue DateTime [] (Transport.protocol address) address port d0)
      as (Hq' & _).
    apply sendMessagesImpl_started. rewrite Hq'. exact Hq.
  - destruct (with_server_queue DateTime hostname proto Transport.NullAddress port d0)
      as (Hq' & Hl' & Ht' & Hh' & Hp').
    destruct (sendMessagesImpl_started DateTime Transport.ResolvingState _
                ltac:(rewrite Hq'; exact Hq)) as (H1 & H2 & H3 & H4 & H5 & H6).
    destruct (processStates_resolving DateTime qsetOrder env _ H1 H4)
      as (d' & Hrun & Hst & Hlog).
    exists d'. split; [exact Hrun | ]. split; [exact Hst | ].
    rewrite Hlog, H2, H5, H6, Hl', Ht', Hh', Hp', Hl, Ht. reflexivity.
  - destruct (with_server_queue DateTime [] (Transport.protocol address) address port d0)
      as (Hq' & Hl' & Ht' & _).
    destruct (sendMessagesImpl_started DateTime Transport.ConnectedState _
                ltac:(rewrite Hq'; exact Hq)) as (H1 & H2 & H3 & H4 & _).
    destruct (processStates_connected DateTime qsetOrder env _ H1 H4)
      as (d' & Hrun & Hst & Hlog).
    exists d'. split; [exact Hrun | ]. split; [exact Hst | ].
    rewrite Hlog, H2, Hl', Ht', Hl, Ht. reflexivity.
Qed.

(** C3.  The constructor sets the timeout to 6000 milliseconds, and that is
    the interval the dialogue timer is started with when [setTimeout] was
    never called. *)
Theorem default_timeout_is_6000 (DateTime : Type)
    (m : Message.t DateTime) (ms : list (Message.t DateTime))
    (hostname : list Z) (port : Z) (proto : Transport.NetworkLayerProtocol) :
  Transport.timeout DateTime (Transport.create DateTime) = 6000
  /\ let d := Transport.sendMessages DateTime hostname port proto
                (queued (m :: ms)) in
     Transport.timerInterval DateTime d = 6000
     /\ Transport.log DateTime d
        = [Transport.TimerStart 6000; Transport.InvokeProcessStates].
Proof.
  split; [reflexivity | ]. cbv zeta.
  destruct (queued_fields DateTime (m :: ms)) as (Ht & Hl & Hs & Ha & Hq).
  specialize (Hq ltac:(discriminate)).
  unfold Transport.sendMessages. cbv zeta.
  destruct (with_server_queue DateTime hostname proto Transport.NullAddress port
              (queued (m :: ms))) as (Hq' & Hl' & Ht' & _).
  destruct (sendMessagesImpl_started DateTime Transport.ResolvingState _
              ltac:(rewrite Hq'; exact Hq)) as (_ & H2 & H3 & _).
  rewrite H3, H2, Hl', Ht', Hl, Ht. split; reflexivity.
Qed.

(** * Header cooking *)

(** [hasHeader] answers [true] exactly when no header has the name. *)
Lemma hasHeader_inverted (name : list Z) (h : Headers.HeaderList) :
  Headers.hasHeader name h = true <-> Forall (fun p => fst p <> name) h.
Proof.
  unfold Headers.hasHeader. rewrite Nat.eqb_eq.
  assert (Headers.findHeader name h <= length h)%nat as Hle.
  { induction h as [ | p h IH]; cbn; [lia | ].
    destruct (Headers.nameIs name p); lia. }
  induction h as [ | p h IH]; cbn [Headers.findHeader length].
  - split; [constructor | reflexivity].
  - unfold Headers.nameIs at 1. destruct (bool_decide_reflect (fst p = name)) as [Hp | Hp].
    + split; [discriminate | ].
      intros HF. inversion HF; contradiction.
    + cbn [Headers.findHeader length] in Hle.
      unfold Headers.nameIs in Hle at 1.
      rewrite (bool_decide_eq_false_2 _ Hp) in Hle.
      split.
      * intros Heq. constructor; [exact Hp | ]. apply IH; lia.
      * intros HF. inversion HF; subst. f_equal. apply IH; [lia | assumption].
Qed.

(** C5.  For a message without a date property: when no header is named
    Date the cooked headers get no Date at all, when one is there it is
    replaced by the current time; and the default User-Agent is set exactly
    when a User-Agent header is there already.  [m0] has neither header,
    [m1] has both. *)
Theorem cookHeaders_date_and_agent (DateTime : Type)
    (rfc2822Date : DateTime -> option (list Z)) (currentDateTime : DateTime)
    (id rawDate rawAgent now : list Z) :
  rfc2822Date currentDateTime = Some now ->
  let nobody := Address.mk [] [] in
  let m0 := Message.mk (Some id) [] nobody [] [] [] [] [] None None in
  let m1 := Message.mk (Some id)
              [(bytes "Date", rawDate); (bytes "User-Agent", rawAgent)]
              nobody [] [] [] [] [] None None in
  Message.cookHeaders rfc2822Date currentDateTime m0
  = [(bytes "Message-ID", id)]
  /\ Message.cookHeaders rfc2822Date currentDateTime m1
     = [(bytes "Date", now); (bytes "Message-ID", id);
        (bytes "User-Agent", bytes "QsrMail 1.0.0")].
Proof.
  intros Hnow nobody m0 m1. unfold Message.cookHeaders. cbn.
  rewrite Hnow. split; reflexivity.
Qed.

Lemma cookHeaders_date_and_agent_witness :
  (fun _ : unit => Some (bytes "now")) tt = Some (bytes "now")
  /\ Message.cookHeaders (fun _ : unit => Some (bytes "now")) tt
       (Message.mk (Some (bytes "<1@h>"))
          [(bytes "Date", bytes "then"); (bytes "User-Agent", bytes "mine")]
          (Address.mk [] []) [] [] [] [] [] None None)
     = [(bytes "Date", bytes "now"); (bytes "Message-ID", bytes "<1@h>");
        (bytes "User-Agent", bytes "QsrMail 1.0.0")].
Proof.
  split; [reflexivity | ].
  exact (proj2 (cookHeaders_date_and_agent unit (fun _ => Some (bytes "now")) tt
                  (bytes "<1@h>") (bytes "then") (bytes "mine") (bytes "now")
                  eq_refl)).
Defined.

(** * Recipients *)

Lemma dedup_elem (l : list (list Z)) (k : list Z) : k ∈ dedup l <-> k ∈ l.
Proof.
  induction l as [ | x l IH]; cbn [dedup]; [reflexivity | ].
  rewrite !elem_of_cons, list_elem_of_filter, IH.
  destruct (decide (k = x)) as [Hk | Hk]; [tauto | ].
  split; [intros [H | [_ H]]; [contradiction | right; exact H] | ].
  intros [H | H]; [contradiction | right; split; assumption].
Qed.

Lemma dedup_NoDup (l : list (list Z)) : NoDup (dedup l).
Proof.
  induction l as [ | x l IH]; cbn [dedup]; constructor.
  - rewrite list_elem_of_filter. intros [H _]. apply H. reflexivity.
  - apply NoDup_filter. exact IH.
Qed.

Lemma dedup_QSetOrder : QSetOrder dedup.
Proof. intros keys. split; [apply dedup_NoDup | apply dedup_elem]. Qed.

Lemma reverse_dedup_QSetOrder : QSetOrder (fun keys => reverse (dedup keys)).
Proof.
  intros keys. split.
  - rewrite reverse_Permutation. apply dedup_NoDup.
  - intros k. rewrite elem_of_reverse. apply dedup_elem.
Qed.

Section Recipients.
Import Transport.
Variable DateTime : Type.
Variable qsetOrder : list (list Z) -> list (list Z).
Hypothesis Horder : QSetOrder qsetOrder.

Local Abbreviation T := (Transport.t DateTime).

Lemma finalizeWith_false f i (d : T) (d' : T) :
  obind (finalizeWith DateTime f i d) (fun d => Ok (false, d)) <> Ok (true, d').
Proof. destruct (finalizeWith DateTime f i d); cbn; congruence. Qed.

(** A transaction that passes the preflight check stays at the head of
    the queue, and the recipient iterator is set on its keys. *)
Lemma setupTransaction_true env (d d' : T) :
  setupTransaction DateTime qsetOrder env d = Ok (true, d') ->
  exists i r,
    head (queue DateTime d') = Some i
    /\ store DateTime d' !! i = Some r
    /\ rcpt DateTime d'
       = qsetOrder (recipientKeys DateTime (Transaction.message r)).
Proof.
  unfold setupTransaction. intros H.
  destruct (queue DateTime d) as [ | i rest] eqn:Hq; [discriminate | ].
  destruct (store DateTime d !! i) as [r | ] eqn:Hr; [ | discriminate].
  cbv zeta in H.
  match type of H with
  | (if ?c then _ else _) = _ => destruct c
  end; [exfalso; eapply finalizeWith_false; exact H | ].
  match type of H with
  | (if ?c then _ else _) = _ => destruct c
  end; [exfalso; eapply finalizeWith_false; exact H | ].
  injection H as <-.
  destruct d; cbn in *. subst. eexists i, _.
  split; [reflexivity | ]. split.
  - apply list_lookup_insert_eq. apply lookup_lt_Some in Hr. exact Hr.
  - reflexivity.
Qed.

Lemma readyToSend_mailFrom n env : forall (d d1 : T),
  readyToSend DateTime qsetOrder n env d = Ok d1 ->
  state DateTime d1 = MailFromState ->
  exists i r,
    head (queue DateTime d1) = Some i
    /\ store DateTime d1 !! i = Some r
    /\ rcpt DateTime d1
       = qsetOrder (recipientKeys DateTime (Transaction.message r)).
Proof.
  induction n as [ | n IH]; intros d d1 Hrun Hst; cbn [readyToSend] in Hrun;
    destruct (queue DateTime d) as [ | i0 rest] eqn:Hq.
  - injection Hrun as <-. destruct d; cbn in Hst. discriminate.
  - discriminate.
  - injection Hrun as <-. destruct d; cbn in Hst. discriminate.
  - destruct (setupTransaction DateTime qsetOrder env d) as [[ok d'] | | ] eqn:Hs;
      cbn [obind] in Hrun; try discriminate.
    destruct ok.
    + injection Hrun as <-.
      destruct (setupTransaction_true env d d' Hs) as (i & r & H1 & H2 & H3).
      exists i, r. destruct d'; cbn in *. auto.
    + eapply IH; eassumption.
Qed.

(** In ReadyToSendState the state machine runs the loop over the queue. *)
Lemma processStates_readyToSend env (d d1 : T) :
  state DateTime d = ReadyToSendState ->
  _q_processStates DateTime qsetOrder env d = Ok d1 ->
  exists n d0, readyToSend DateTime qsetOrder n env d0 = Ok d1.
Proof.
  intros Hs Hrun. destruct d; cbn in Hs; subst.
  unfold _q_processStates in Hrun.
  destruct timerActive0; cbn in Hrun;
    match type of Hrun with
    | context [readyToSend _ _ ?n _ ?d0] =>
        exists n, d0; destruct (readyToSend DateTime qsetOrder n env d0)
    end; cbn in Hrun; congruence.
Qed.

Lemma written_app (d : T) (l : list Action) :
  written DateTime (withLog DateTime (log DateTime d ++ l) d)
  = written DateTime d
    ++ flat_map (fun a => match a with SocketWrite x => [x] | _ => [] end) l.
Proof. destruct d; unfold written; cbn. apply flat_map_app. Qed.

(** One acknowledged command of the walk over the recipients. *)
Lemma respond_rcpt env (d : T) :
  state DateTime d = MailFromState \/ state DateTime d = RcptToState ->
  exists d',
    respond DateTime qsetOrder env (mkResponse [] [[]] 250 true) d = Ok d'
    /\ match rcpt DateTime d with
       | k :: rest =>
           state DateTime d' = RcptToState
           /\ rcpt DateTime d' = rest
           /\ written DateTime d' = written DateTime d ++ [rcptCommand k]
       | [] =>
           state DateTime d' = DataState
           /\ written DateTime d'
              = written DateTime d ++ [bytes "DATA" ++ [13; 10]]
       end.
Proof.
  intros Hs. destruct d; cbn in Hs.
  destruct rcpt0 as [ | k rest], timerActive0, Hs as [-> | ->];
    (eexists; split; [reflexivity | ]); cbn -[bytes]; unfold written;
    cbn -[bytes]; rewrite !flat_map_app; cbn -[bytes]; rewrite ?app_nil_r;
    repeat split; try reflexivity;
    unfold rcptCommand; rewrite <- ?app_assoc; reflexivity.
Qed.

Lemma acknowledge_walk env : forall (l : list (list Z)) (d : T),
  state DateTime d = MailFromState \/ state DateTime d = RcptToState ->
  rcpt DateTime d = l ->
  exists d',
    acknowledge qsetOrder (S (length l)) env d = Ok d'
    /\ state DateTime d' = DataState
    /\ written DateTime d'
       = written DateTime d ++ map rcptCommand l ++ [bytes "DATA" ++ [13; 10]].
Proof.
  induction l as [ | k l IH]; intros d Hs Hl;
    destruct (respond_rcpt env d Hs) as (d1 & Hr & Hd1); rewrite Hl in Hd1.
  - exists d1. cbn [acknowledge length]. rewrite Hr. cbn [obind].
    destruct Hd1 as [H1 H2]. auto.
  - destruct Hd1 as (H1 & H2 & H3).
    destruct (IH d1 (or_intror H1) H2) as (d' & Ha & Hst & Hw).
    exists d'. cbn [acknowledge length]. rewrite Hr. cbn [obind].
    cbn [acknowledge length] in Ha. rewrite Ha.
    split; [reflexivity | ]. split; [exact Hst | ].
    rewrite Hw, H3. cbn [map]. rewrite <- app_assoc. reflexivity.
Qed.
End Recipients.

Section StateMachine.
Import Transport.
Variable DateTime : Type.
Variable qsetOrder : list (list Z) -> list (list Z).

Local Abbreviation T := (Transport.t DateTime).

Lemma transactionFinished_state i (d d' : T) :
  _q_transactionFinished DateTime i d = Ok d' ->
  state DateTime d' = state DateTime d /\ queue DateTime d' = queue DateTime d.
Proof.
  unfold _q_transactionFinished. cbv zeta.
  match goal with |- context [if ?c then _ else _] => destruct c end;
    [discriminate | ].
  intros H. injection H as <-. destruct d; cbn. split; reflexivity.
Qed.

Lemma finalizeWith_state f i (d d' : T) :
  finalizeWith DateTime f i d = Ok d' ->
  state DateTime d' = state DateTime d /\ queue DateTime d' = queue DateTime d.
Proof.
  unfold finalizeWith. destruct (store DateTime d !! i); [ | discriminate].
  cbv zeta. match goal with |- context [if ?c then _ else _] => destruct c end.
  - intros H. apply transactionFinished_state in H. destruct d; cbn in *. exact H.
  - intros H. injection H as <-. destruct d; cbn. split; reflexivity.
Qed.

Lemma finalizeQueueLoop_state n error text : forall (d d' : T),
  finalizeQueueLoop DateTime n error text d = Ok d' ->
  state DateTime d' = state DateTime d.
Proof.
  induction n as [ | n IH]; intros d d' H; cbn [finalizeQueueLoop] in H;
    destruct (queue DateTime d) eqn:Hq; try discriminate;
    try (injection H as <-; reflexivity).
  cbv zeta in H.
  match type of H with
  | obind ?x _ = _ => destruct x as [d1 | | ] eqn:Hf
  end; cbn [obind] in H; try discriminate.
  apply IH in H. apply finalizeWith_state in Hf as [Hf _].
  rewrite H, Hf. destruct d; reflexivity.
Qed.

Lemma finalizeQueue_state error text (d d' : T) :
  finalizeQueue DateTime error text d = Ok d' ->
  state DateTime d' = state DateTime d.
Proof. apply finalizeQueueLoop_state. Qed.

Ltac split_pass H :=
  repeat match type of H with
         | context [if ?c then _ else _] => destruct c eqn:?
         | context [match ?x with _ => _ end] =>
             match type of x with
             | outcome _ => destruct x eqn:?
             | list _ => destruct x eqn:?
             | option _ => destruct x eqn:?
             | TlsLevel => destruct x eqn:?
             | AuthMech => destruct x eqn:?
             end
         end.

(** The only way into MailFromState is the loop of ReadyToSendState. *)
Lemma pass_mailFrom env code (d d1 : T) :
  pass DateTime qsetOrder env code d = Return DateTime d1 ->
  state DateTime d1 = MailFromState ->
  exists n d0, readyToSend DateTime qsetOrder n env d0 = Ok d1.
Proof.
  intros H Hst. unfold pass in H. cbv zeta in H.
  destruct (state DateTime d) eqn:Hs; cbn [isState stateIndex Z.eqb Pos.eqb andb orb
    Z.leb Z.compare Pos.compare Pos.compare_cont] in H;
    unfold passOf, quitAndClose in H; split_pass H;
    try discriminate;
    try (injection H as <-; destruct d; cbn in *; congruence);
    try (injection H as <-;
         match goal with
         | Hf : finalizeQueue _ _ _ _ = Ok ?x |- _ =>
             apply finalizeQueue_state in Hf; destruct x; destruct d;
             cbn in *; congruence
         | Hf : finalizeWith _ _ _ _ = Ok ?x |- _ =>
             apply finalizeWith_state in Hf as [Hf _]; destruct x; destruct d;
             cbn in *; congruence
         end).
  injection H as <-. eexists _, _. eassumption.
Qed.

Lemma processLoop_mailFrom env code fuel : forall (d d1 : T),
  processLoop DateTime qsetOrder fuel env code d = Ok d1 ->
  state DateTime d1 = MailFromState ->
  exists n d0, readyToSend DateTime qsetOrder n env d0 = Ok d1.
Proof.
  induction fuel as [ | fuel IH]; intros d d1 H Hst; cbn [processLoop] in H;
    [discriminate | ].
  destruct (pass DateTime qsetOrder env code d) as [d' | d' | []] eqn:Hp;
    try discriminate.
  - injection H as <-. eapply pass_mailFrom; eassumption.
  - eapply IH; eassumption.
Qed.
End StateMachine.

(** C6, as the code has it.  Whenever the state machine comes out of
    [_q_processStates] in MailFromState, the transaction at the head of the
    queue is the one it has started, and acknowledging with 250 makes it
    write one RCPT TO command for every key of the recipient set and then
    DATA.  The keys are the encoded forms of to, cc and bcc, each once; they
    come in the order in which the [QSet] is visited, which is some
    permutation of the order of insertion. *)
Theorem rcpt_to_commands (DateTime : Type)
    (qsetOrder : list (list Z) -> list (list Z)) (env : Transport.Env)
    (d d1 : Transport.t DateTime) :
  QSetOrder qsetOrder ->
  Transport._q_processStates DateTime qsetOrder env d = Ok d1 ->
  Transport.state DateTime d1 = Transport.MailFromState ->
  exists i r l d2,
    head (Transport.queue DateTime d1) = Some i
    /\ Transport.store DateTime d1 !! i = Some r
    /\ l ≡ₚ dedup (Transport.recipientKeys DateTime (Transaction.message r))
    /\ NoDup l
    /\ acknowledge qsetOrder (S (length l)) env d1 = Ok d2
    /\ Transport.state DateTime d2 = Transport.DataState
    /\ Transport.written DateTime d2
       = Transport.written DateTime d1
         ++ map rcptCommand l ++ [bytes "DATA" ++ [13; 10]].
Proof.
  intros Horder Hrun Hst.
  unfold Transport._q_processStates in Hrun. cbv zeta in Hrun.
  destruct (processLoop_mailFrom DateTime qsetOrder env _ _ _ _ Hrun Hst)
    as (n & d0 & Hready).
  destruct (readyToSend_mailFrom DateTime qsetOrder n env d0 d1 Hready Hst)
    as (i & r & Hhead & Hstore & Hrcpt).
  destruct (acknowledge_walk DateTime qsetOrder env (Transport.rcpt DateTime d1) d1
              (or_introl Hst) eq_refl) as (d2 & Hack & Hst2 & Hw).
  destruct (Horder (Transport.recipientKeys DateTime (Transaction.message r)))
    as [Hnd Hin].
  exists i, r, (Transport.rcpt DateTime d1), d2.
  repeat split; try assumption.
  - rewrite Hrcpt. apply NoDup_Permutation.
    + exact Hnd.
    + apply dedup_NoDup.
    + intros k. rewrite Hin, dedup_elem. reflexivity.
  - rewrite Hrcpt. exact Hnd.
Qed.

Lemma rcpt_to_commands_witness :
  exists d d1 r l d2,
    upToEhlo dedup [twoRecipients] = Ok d
    /\ Transport._q_processStates unit dedup plainEnv
         (Transport.withResponse unit ehloReply d) = Ok d1
    /\ Transport.store unit d1 !! 0%nat = Some r
    /\ l ≡ₚ dedup (Transport.recipientKeys unit (Transaction.message r))
    /\ NoDup l
    /\ acknowledge dedup (S (length l)) plainEnv d1 = Ok d2
    /\ Transport.state unit d2 = Transport.DataState
    /\ Transport.written unit d2
       = Transport.written unit d1
         ++ map rcptCommand l ++ [bytes "DATA" ++ [13; 10]].
Proof.
  set (d := resultOr (Transport.create unit) (upToEhlo dedup [twoRecipients])).
  set (d1 := resultOr (Transport.create unit)
               (Transport._q_processStates unit dedup plainEnv
                  (Transport.withResponse unit ehloReply d))).
  assert (upToEhlo dedup [twoRecipients] = Ok d) as Hd
    by (vm_compute; reflexivity).
  assert (Transport._q_processStates unit dedup plainEnv
            (Transport.withResponse unit ehloReply d) = Ok d1) as Hd1
    by (vm_compute; reflexivity).
  assert (Transport.state unit d1 = Transport.MailFromState) as Hst
    by (vm_compute; reflexivity).
  destruct (rcpt_to_commands unit dedup plainEnv _ _ dedup_QSetOrder Hd1 Hst)
    as (i & r & l & d2 & H1 & H2 & H3 & H4 & H5 & H6 & H7).
  assert (i = 0%nat) as -> by (vm_compute in H1; congruence).
  exists d, d1, r, l, d2.
  exact (conj Hd (conj Hd1 (conj H2 (conj H3 (conj H4 (conj H5 (conj H6 H7))))))).
Defined.

(** C6 as stated fails: under an iteration order that Qt allows, the
    recipients a@x (to) and b@y (copy) are sent as b@y, a@x. *)
Lemma rcpt_order_counterexample :
  exists qsetOrder d d1 r d2,
    QSetOrder qsetOrder
    /\ upToEhlo qsetOrder [twoRecipients] = Ok d
    /\ Transport._q_processStates unit qsetOrder plainEnv
         (Transport.withResponse unit ehloReply d) = Ok d1
    /\ Transport.state unit d1 = Transport.MailFromState
    /\ Transport.store unit d1 !! 0%nat = Some r
    /\ dedup (Transport.recipientKeys unit (Transaction.message r))
       = [bytes "a@x"; bytes "b@y"]
    /\ acknowledge qsetOrder 3 plainEnv d1 = Ok d2
    /\ Transport.written unit d2
       = Transport.written unit d1
         ++ [rcptCommand (bytes "b@y"); rcptCommand (bytes "a@x");
             bytes "DATA" ++ [13; 10]].
Proof.
  exists (fun keys => reverse (dedup keys)).
  eexists _, _, _, _.
  split; [exact reverse_dedup_QSetOrder | ].
  split; [vm_compute; reflexivity | ].
  split; [vm_compute; reflexivity | ].
  split; [reflexivity | ].
  split; [reflexivity | ].
  split; [vm_compute; reflexivity | ].
  split; vm_compute; reflexivity.
Qed.

(** * Finalisation *)

Section Finalisation.
Import Transport.
Variable DateTime : Type.
Variable qsetOrder : list (list Z) -> list (list Z).

Local Abbreviation T := (Transport.t DateTime).
Local Abbreviation R := (Transaction.t DateTime).

Lemma finishedCount_emit (s : Transaction.Signal) (r : R) :
  Transaction.finishedCount (Transaction.emit s r)
  = (Transaction.finishedCount r
     + match s with Transaction.SigFinished => 1 | _ => 0 end)%nat.
Proof.
  unfold Transaction.finishedCount, Transaction.emit. destruct r; cbn.
  rewrite List.filter_app, length_app. destruct s; reflexivity.
Qed.

Lemma finalize_emitted (r : R) :
  Transaction.emitted (Transaction.finalize r)
  = Transaction.emitted r
    ++ (if Transaction.isNoError (Transaction.error r) then []
        else [Transaction.SigError (Transaction.error r)])
    ++ [Transaction.SigFinished].
Proof.
  unfold Transaction.finalize, Transaction.emit. destruct r; cbn.
  destruct (Transaction.isNoError error); cbn; [reflexivity | ].
  rewrite <- app_assoc. reflexivity.
Qed.

Lemma finishedCount_finalize (r : R) :
  Transaction.finishedCount (Transaction.finalize r)
  = S (Transaction.finishedCount r).
Proof.
  unfold Transaction.finalize.
  destruct (negb (Transaction.isNoError (Transaction.error r)));
    rewrite !finishedCount_emit; lia.
Qed.

Lemma quiet_count (f : R -> R) (r : R) :
  quiet f -> Transaction.finishedCount (f r) = Transaction.finishedCount r.
Proof. intros Hf. unfold Transaction.finishedCount. rewrite Hf. reflexivity. Qed.

Lemma setError_quiet code text : @quiet DateTime (Transaction.setError code text).
Proof. intros r. destruct r; reflexivity. Qed.

Lemma setStatus_quiet code text : @quiet DateTime (Transaction.setStatus code text).
Proof. intros r. destruct r; reflexivity. Qed.

Lemma quiet_compose (f g : R -> R) : quiet f -> quiet g -> quiet (fun x => f (g x)).
Proof. intros Hf Hg r. rewrite Hf, Hg. reflexivity. Qed.

Lemma quiet_if (b : bool) (f : R -> R) : quiet f -> quiet (fun x => if b then f x else x).
Proof. intros Hf r. destruct b; [apply Hf | reflexivity]. Qed.

Lemma transactionFinished_frame i (d d' : T) :
  _q_transactionFinished DateTime i d = Ok d' ->
  store DateTime d' = store DateTime d /\ queue DateTime d' = queue DateTime d.
Proof.
  unfold _q_transactionFinished. cbv zeta.
  match goal with |- context [if ?c then _ else _] => destruct c end;
    [discriminate | ].
  intros H. injection H as <-. destruct d; cbn. split; reflexivity.
Qed.

Lemma finalizeWith_frame f i (d d' : T) :
  finalizeWith DateTime f i d = Ok d' ->
  exists r, store DateTime d !! i = Some r
            /\ store DateTime d' = <[i := Transaction.finalize (f r)]> (store DateTime d)
            /\ queue DateTime d' = queue DateTime d.
Proof.
  unfold finalizeWith. destruct (store DateTime d !! i) as [r | ]; [ | discriminate].
  cbv zeta. intros H. exists r. split; [reflexivity | ].
  match type of H with context [if ?c then _ else _] => destruct c end.
  - apply transactionFinished_frame in H. destruct d; cbn in *. exact H.
  - injection H as <-. destruct d; cbn. split; reflexivity.
Qed.

(** A finalisation adds one [finished] to the transaction it is applied
    to, and nothing to the others. *)
Lemma finalizeWith_finishedAt f i j (d d' : T) :
  quiet f ->
  finalizeWith DateTime f i d = Ok d' ->
  finishedAt j d' = (finishedAt j d + if decide (j = i) then 1 else 0)%nat
  /\ queue DateTime d' = queue DateTime d.
Proof.
  intros Hf H. destruct (finalizeWith_frame f i d d' H) as (r & Hr & Hs & Hq).
  split; [ | exact Hq]. unfold finishedAt. rewrite Hs.
  destruct (decide (j = i)) as [-> | Hne].
  - rewrite list_lookup_insert_eq by (eapply lookup_lt_Some; exact Hr).
    rewrite Hr, finishedCount_finalize, quiet_count by exact Hf. lia.
  - rewrite list_lookup_insert_ne by congruence. lia.
Qed.

(** Taking the head off the queue and finalising it. *)
Lemma dequeue_finalize f i rest j (d d' : T) :
  quiet f ->
  queue DateTime d = i :: rest ->
  finalizeWith DateTime f i (withQueue DateTime rest d) = Ok d' ->
  owed j d' = owed j d /\ queue DateTime d' = rest.
Proof.
  intros Hf Hq H.
  destruct (finalizeWith_finishedAt f i j _ d' Hf H) as [Hfin Hq'].
  assert (queue DateTime (withQueue DateTime rest d) = rest) as Hw
    by (destruct d; reflexivity).
  assert (finishedAt j (withQueue DateTime rest d) = finishedAt j d) as Hw2
    by (destruct d; reflexivity).
  split; [ | congruence].
  unfold owed, queuedAt. rewrite Hfin, Hq', Hw, Hw2, Hq. cbn [count_occ].
  destruct (Nat.eq_dec i j) as [-> | Hne].
  - rewrite decide_True by reflexivity. lia.
  - rewrite decide_False by congruence. lia.
Qed.

Lemma finalizeQueueLoop_owed n error text j : forall (d d' : T),
  finalizeQueueLoop DateTime n error text d = Ok d' ->
  owed j d' = owed j d /\ queue DateTime d' = [].
Proof.
  induction n as [ | n IH]; intros d d' H; cbn [finalizeQueueLoop] in H;
    destruct (queue DateTime d) as [ | i rest] eqn:Hq; try discriminate;
    try (injection H as <-; split; [reflexivity | exact Hq]).
  cbv zeta in H.
  match type of H with
  | obind ?x _ = _ => destruct x as [d1 | | ] eqn:Hf
  end; cbn [obind] in H; try discriminate.
  apply dequeue_finalize with (j := j) in Hf as [Hf _]; [ | | exact Hq].
  - destruct (IH _ _ H) as [H1 H2]. split; [congruence | exact H2].
  - assert (response DateTime (withQueue DateTime rest d) = response DateTime d)
      as -> by (destruct d; reflexivity).
    apply (quiet_compose (Transaction.setError error text)
             (fun x => if isValid (response DateTime d)
                       then Transaction.setStatus (code (response DateTime d))
                              (lines (response DateTime d)) x else x)).
    + apply setError_quiet.
    + apply quiet_if, setStatus_quiet.
Qed.

Lemma finalizeQueue_owed error text j (d d' : T) :
  finalizeQueue DateTime error text d = Ok d' ->
  owed j d' = owed j d /\ queue DateTime d' = [].
Proof. apply finalizeQueueLoop_owed. Qed.

Lemma enumExtensions_frame ls (d : T) :
  store DateTime (enumExtensions DateTime ls d) = store DateTime d
  /\ queue DateTime (enumExtensions DateTime ls d) = queue DateTime d.
Proof.
  unfold enumExtensions. cbv zeta.
  assert (forall (d : T),
    store DateTime (fold_left (enumLine DateTime) ls d) = store DateTime d
    /\ queue DateTime (fold_left (enumLine DateTime) ls d) = queue DateTime d) as H.
  { induction ls as [ | l ls IH]; intros d0; [split; reflexivity | ].
    cbn [fold_left]. destruct (IH (enumLine DateTime d0 l)) as [H1 H2].
    rewrite H1, H2. unfold enumLine. cbv zeta.
    repeat match goal with |- context [if ?c then _ else _] => destruct c end;
      destruct d0; split; reflexivity. }
  destruct (H (withSelectedAuthMech DateTime DisabledMech
                 (withHasAuth DateTime false (withHasStartTls DateTime false d))))
    as [H1 H2].
  rewrite H1, H2. destruct d; split; reflexivity.
Qed.

Lemma owed_frame j (d d' : T) :
  store DateTime d' = store DateTime d ->
  queue DateTime d' = queue DateTime d ->
  owed j d' = owed j d.
Proof. intros Hs Hq. unfold owed, finishedAt, queuedAt. rewrite Hs, Hq. reflexivity. Qed.

Lemma setupTransaction_owed env j ok (d d' : T) :
  setupTransaction DateTime qsetOrder env d = Ok (ok, d') ->
  owed j d' = owed j d.
Proof.
  unfold setupTransaction. intros H.
  destruct (queue DateTime d) as [ | i rest] eqn:Hq; [discriminate | ].
  destruct (store DateTime d !! i) as [r | ] eqn:Hr; [ | discriminate].
  cbv zeta in H.
  set (r' := Transaction.withUsername _ _) in H.
  set (d0 := withRcpt DateTime _ _) in H.
  assert (owed j d0 = owed j d /\ queue DateTime d0 = i :: rest) as [H0 Hq0].
  { subst d0. unfold owed, finishedAt, queuedAt. destruct d; cbn in *. subst.
    split; [ | reflexivity]. f_equal.
    destruct (decide (j = i)) as [-> | Hne].
    - rewrite list_lookup_insert_eq by (eapply lookup_lt_Some; exact Hr).
      rewrite Hr. subst r'. destruct r; reflexivity.
    - rewrite list_lookup_insert_ne by congruence. reflexivity. }
  repeat match type of H with
         | (if ?c then _ else _) = _ => destruct c
         end.
  - match type of H with
    | obind ?x _ = _ => destruct x as [d1 | | ] eqn:Hf
    end; cbn [obind] in H; try discriminate.
    injection H as <- <-.
    apply dequeue_finalize with (j := j) in Hf as [Hf _];
      [congruence | apply setError_quiet | exact Hq0].
  - match type of H with
    | obind ?x _ = _ => destruct x as [d1 | | ] eqn:Hf
    end; cbn [obind] in H; try discriminate.
    injection H as <- <-.
    apply dequeue_finalize with (j := j) in Hf as [Hf _];
      [congruence | apply setError_quiet | exact Hq0].
  - injection H as <- <-. exact H0.
Qed.

Lemma readyToSend_owed env j n : forall (d d' : T),
  readyToSend DateTime qsetOrder n env d = Ok d' ->
  owed j d' = owed j d.
Proof.
  induction n as [ | n IH]; intros d d' H; cbn [readyToSend] in H;
    destruct (queue DateTime d) as [ | i rest] eqn:Hq; try discriminate;
    try (injection H as <-; apply owed_frame; destruct d; reflexivity).
  destruct (setupTransaction DateTime qsetOrder env d) as [[ok d1] | | ] eqn:Hs;
    cbn [obind] in H; try discriminate.
  apply setupTransaction_owed with (j := j) in Hs.
  destruct ok.
  - injection H as <-. rewrite <- Hs. apply owed_frame; destruct d1; reflexivity.
  - rewrite <- Hs. eapply IH. exact H.
Qed.

Ltac split_run H :=
  repeat match type of H with
         | context [if ?c then _ else _] => destruct c eqn:?
         | context [match ?x with _ => _ end] =>
             match type of x with
             | outcome _ => destruct x eqn:?
             | list _ => destruct x eqn:?
             | option _ => destruct x eqn:?
             | TlsLevel => destruct x eqn:?
             | AuthMech => destruct x eqn:?
             end
         end.

Ltac frame_done d :=
  apply owed_frame; destruct d; reflexivity.

(** One pass of the state machine takes a transaction off the queue
    exactly when it finalises it. *)
Lemma pass_owed env code j (d d1 : T) :
  pass DateTime qsetOrder env code d = Return DateTime d1
  \/ pass DateTime qsetOrder env code d = Continue DateTime d1 ->
  owed j d1 = owed j d.
Proof.
  intros H. unfold pass in H. cbv zeta in H.
  destruct (enumExtensions_frame (lines (response DateTime d)) d) as [He1 He2].
  destruct (state DateTime d) eqn:Hs; cbn [isState stateIndex Z.eqb Pos.eqb andb orb
    Z.leb Z.compare Pos.compare Pos.compare_cont] in H;
    unfold passOf, quitAndClose in H; destruct H as [H | H]; split_run H;
    try discriminate; injection H as <-;
    try (frame_done d);
    try (apply owed_frame; cbn; assumption);
    try match goal with
        | Hf : finalizeQueue _ _ _ ?x = Ok ?y |- _ =>
            apply finalizeQueue_owed with (j := j) in Hf as [Hf _];
            transitivity (owed j y); [frame_done y | ];
            rewrite Hf; first [reflexivity | frame_done d
                              | apply owed_frame; cbn; assumption]
        | Hf : finalizeWith _ _ _ (withQueue _ _ _) = Ok ?y |- _ =>
            apply dequeue_finalize with (j := j) (d := d) in Hf as [Hf _];
            [ transitivity (owed j y); [frame_done y | exact Hf]
            | repeat first [apply setError_quiet | apply setStatus_quiet
                           | apply quiet_compose]
            | assumption ]
        | Hf : readyToSend _ _ _ _ ?x = Ok ?y |- _ =>
            apply readyToSend_owed with (j := j) in Hf;
            rewrite Hf; frame_done d
        end.
Qed.

Lemma processLoop_owed env code j fuel : forall (d d' : T),
  processLoop DateTime qsetOrder fuel env code d = Ok d' ->
  owed j d' = owed j d.
Proof.
  induction fuel as [ | fuel IH]; intros d d' H; cbn [processLoop] in H;
    [discriminate | ].
  destruct (pass DateTime qsetOrder env code d) as [d1 | d1 | []] eqn:Hp;
    try discriminate.
  - injection H as <-. apply (pass_owed env code). left. exact Hp.
  - rewrite (IH _ _ H). apply (pass_owed env code). right. exact Hp.
Qed.

Lemma processStates_owed env j (d d' : T) :
  _q_processStates DateTime qsetOrder env d = Ok d' ->
  owed j d' = owed j d.
Proof.
  unfold _q_processStates. cbv zeta. intros H.
  apply processLoop_owed with (j := j) in H. rewrite H.
  destruct (timerActive DateTime d); [ | reflexivity].
  apply owed_frame; destruct d; reflexivity.
Qed.
End Finalisation.

(** * What the transport owes its transactions *)

Section Accounting.
Import Transport.
Variable DateTime : Type.
Variable qsetOrder : list (list Z) -> list (list Z).

Local Abbreviation T := (Transport.t DateTime).
Local Abbreviation R := (Transaction.t DateTime).
Local Abbreviation slots d := (length (store DateTime d)).

Lemma finalizeWith_slots f i (d d' : T) :
  finalizeWith DateTime f i d = Ok d' -> slots d' = slots d.
Proof.
  intros H. destruct (finalizeWith_frame DateTime f i d d' H) as (r & _ & Hs & _).
  rewrite Hs, length_insert. reflexivity.
Qed.

Lemma finalizeQueueLoop_slots n error text : forall (d d' : T),
  finalizeQueueLoop DateTime n error text d = Ok d' -> slots d' = slots d.
Proof.
  induction n as [ | n IH]; intros d d' H; cbn [finalizeQueueLoop] in H;
    destruct (queue DateTime d) as [ | i rest] eqn:Hq; try discriminate;
    try (injection H as <-; reflexivity).
  cbv zeta in H.
  match type of H with
  | obind ?x _ = _ => destruct x as [d1 | | ] eqn:Hf
  end; cbn [obind] in H; try discriminate.
  apply finalizeWith_slots in Hf. rewrite (IH _ _ H), Hf.
  destruct d; reflexivity.
Qed.

Lemma finalizeQueue_slots error text (d d' : T) :
  finalizeQueue DateTime error text d = Ok d' -> slots d' = slots d.
Proof. apply finalizeQueueLoop_slots. Qed.

Lemma setupTransaction_slots env ok (d d' : T) :
  setupTransaction DateTime qsetOrder env d = Ok (ok, d') -> slots d' = slots d.
Proof.
  unfold setupTransaction. intros H.
  destruct (queue DateTime d) as [ | i rest] eqn:Hq; [discriminate | ].
  destruct (store DateTime d !! i) as [r | ] eqn:Hr; [ | discriminate].
  cbv zeta in H.
  set (r' := Transaction.withUsername _ _) in H.
  set (d0 := withRcpt DateTime _ _) in H.
  assert (slots d0 = slots d) as H0.
  { subst d0. destruct d; cbn. apply length_insert. }
  repeat match type of H with
         | (if ?c then _ else _) = _ => destruct c
         end.
  - match type of H with
    | obind ?x _ = _ => destruct x as [d1 | | ] eqn:Hf
    end; cbn [obind] in H; try discriminate.
    injection H as <- <-. apply finalizeWith_slots in Hf. rewrite Hf, <- H0.
    destruct d0; reflexivity.
  - match type of H with
    | obind ?x _ = _ => destruct x as [d1 | | ] eqn:Hf
    end; cbn [obind] in H; try discriminate.
    injection H as <- <-. apply finalizeWith_slots in Hf. rewrite Hf, <- H0.
    destruct d0; reflexivity.
  - injection H as <- <-. exact H0.
Qed.

Lemma readyToSend_slots env n : forall (d d' : T),
  readyToSend DateTime qsetOrder n env d = Ok d' -> slots d' = slots d.
Proof.
  induction n as [ | n IH]; intros d d' H; cbn [readyToSend] in H;
    destruct (queue DateTime d) as [ | i rest] eqn:Hq; try discriminate;
    try (injection H as <-; destruct d; reflexivity).
  destruct (setupTransaction DateTime qsetOrder env d) as [[ok d1] | | ] eqn:Hs;
    cbn [obind] in H; try discriminate.
  apply setupTransaction_slots in Hs.
  destruct ok.
  - injection H as <-. rewrite <- Hs. destruct d1; reflexivity.
  - rewrite <- Hs. eapply IH. exact H.
Qed.

Ltac split_run H :=
  repeat match type of H with
         | context [if ?c then _ else _] => destruct c eqn:?
         | context [match ?x with _ => _ end] =>
             match type of x with
             | outcome _ => destruct x eqn:?
             | list _ => destruct x eqn:?
             | option _ => destruct x eqn:?
             | TlsLevel => destruct x eqn:?
             | AuthMech => destruct x eqn:?
             end
         end.

Lemma pass_slots env code (d d1 : T) :
  pass DateTime qsetOrder env code d = Return DateTime d1
  \/ pass DateTime qsetOrder env code d = Continue DateTime d1 ->
  slots d1 = slots d.
Proof.
  intros H. unfold pass in H. cbv zeta in H.
  destruct (enumExtensions_frame DateTime (lines (response DateTime d)) d) as [He1 _].
  destruct (state DateTime d) eqn:Hs; cbn [isState stateIndex Z.eqb Pos.eqb andb orb
    Z.leb Z.compare Pos.compare Pos.compare_cont] in H;
    unfold passOf, quitAndClose in H; destruct H as [H | H]; split_run H;
    try discriminate; injection H as <-;
    try (destruct d; reflexivity);
    try (cbn; f_equal; assumption);
    try match goal with
        | Hf : finalizeQueue _ _ _ ?x = Ok ?y |- _ =>
            apply finalizeQueue_slots in Hf;
            transitivity (slots y); [destruct y; reflexivity | ];
            rewrite Hf; first [reflexivity | destruct d; reflexivity
                              | cbn; f_equal; assumption]
        | Hf : finalizeWith _ _ _ (withQueue _ _ _) = Ok ?y |- _ =>
            apply finalizeWith_slots in Hf;
            transitivity (slots y); [destruct y; reflexivity | ];
            rewrite Hf; destruct d; reflexivity
        | Hf : readyToSend _ _ _ _ ?x = Ok ?y |- _ =>
            apply readyToSend_slots in Hf;
            rewrite Hf; destruct d; reflexivity
        end.
Qed.

Lemma processLoop_slots env code fuel : forall (d d' : T),
  processLoop DateTime qsetOrder fuel env code d = Ok d' -> slots d' = slots d.
Proof.
  induction fuel as [ | fuel IH]; intros d d' H; cbn [processLoop] in H;
    [discriminate | ].
  destruct (pass DateTime qsetOrder env code d) as [d1 | d1 | []] eqn:Hp;
    try discriminate.
  - injection H as <-. apply (pass_slots env code). left. exact Hp.
  - rewrite (IH _ _ H). apply (pass_slots env code). right. exact Hp.
Qed.

Lemma processStates_slots env (d d' : T) :
  _q_processStates DateTime qsetOrder env d = Ok d' -> slots d' = slots d.
Proof.
  unfold _q_processStates. cbv zeta. intros H.
  apply processLoop_slots in H. rewrite H.
  destruct (timerActive DateTime d); [ | reflexivity].
  destruct d; reflexivity.
Qed.

Local Abbreviation kept d d' :=
  (slots d' = slots d /\ forall j, owed j d' = owed j d).
Local Abbreviation accounted d :=
  (forall i : nat,
     owed i d = if decide (lt i (length (store DateTime d))) then 1%nat else 0%nat).

Lemma kept_frame (d d' : T) :
  store DateTime d' = store DateTime d ->
  queue DateTime d' = queue DateTime d ->
  kept d d'.
Proof.
  intros Hs Hq. split; [rewrite Hs; reflexivity | ].
  intros j. apply owed_frame; assumption.
Qed.

Lemma kept_trans (d d1 d2 : T) : kept d d1 -> kept d1 d2 -> kept d d2.
Proof.
  intros [H1 H2] [H3 H4]. split; [congruence | ].
  intros j. rewrite H4. apply H2.
Qed.

Lemma kept_accounted (d d' : T) : kept d d' -> accounted d -> accounted d'.
Proof. intros [H1 H2] Hd i. rewrite H2, H1. apply Hd. Qed.

Lemma processStates_kept env (d d' : T) :
  _q_processStates DateTime qsetOrder env d = Ok d' -> kept d d'.
Proof.
  intros H. split; [exact (processStates_slots env d d' H) | ].
  intros j. exact (processStates_owed DateTime qsetOrder env j d d' H).
Qed.

Lemma respond_kept env r (d d' : T) :
  respond DateTime qsetOrder env r d = Ok d' -> kept d d'.
Proof.
  unfold respond. intros H.
  destruct (_q_processStates DateTime qsetOrder env (withResponse DateTime r d))
    as [d1 | | ] eqn:Hp; cbn [obind] in H; try discriminate.
  injection H as <-. apply processStates_kept in Hp.
  apply (kept_trans d (withResponse DateTime r d));
    [apply kept_frame; destruct d; reflexivity | ].
  apply (kept_trans _ d1); [exact Hp | ].
  apply kept_frame; destruct d1; reflexivity.
Qed.

Lemma socketReadyReadLoop_kept env fuel : forall input resp (d : T) input' resp' d',
  TransportIO.socketReadyReadLoop DateTime qsetOrder fuel env input resp d
  = Ok (input', resp', d') ->
  kept d d'.
Proof.
  induction fuel as [ | fuel IH]; intros input resp d input' resp' d' H;
    cbn [TransportIO.socketReadyReadLoop] in H;
    destruct (TransportIO.readLine input) as [[data rest] | ];
    try discriminate;
    try (injection H as <- <- <-; apply kept_frame; reflexivity).
  cbv zeta in H.
  match type of H with context [if ?c then _ else _] => destruct c end.
  - match type of H with
    | obind ?x _ = _ => destruct x as [d1 | | ] eqn:Hp
    end; cbn [obind] in H; try discriminate.
    apply processStates_kept in Hp. apply IH in H.
    eapply kept_trans; [apply kept_frame | eapply kept_trans; [exact Hp | ] ].
    3: eapply kept_trans; [ | exact H]; apply kept_frame; destruct d1; reflexivity.
    all: destruct d; reflexivity.
  - apply IH in H. eapply kept_trans; [ | exact H].
    apply kept_frame; destruct d; reflexivity.
Qed.

Lemma writeLoop_frame socket bufferSize fuel : forall k r avail (d : T) avail' d',
  TransportIO.writeLoop DateTime fuel socket k r bufferSize avail d
  = Ok (avail', d') ->
  store DateTime d' = store DateTime d /\ queue DateTime d' = queue DateTime d.
Proof.
  induction fuel as [ | fuel IH]; intros k r avail d avail' d' H;
    cbn [TransportIO.writeLoop] in H; [discriminate | ].
  cbv zeta in H.
  repeat match type of H with
         | (if ?c then _ else _) = _ => destruct c
         end;
    try (injection H as <- <-; destruct d; split; reflexivity).
  apply IH in H as [H1 H2]. rewrite H1, H2. destruct d; split; reflexivity.
Qed.

Lemma writeMessageData_frame socket sender bufferSize avail (d : T) avail' d' :
  TransportIO._q_writeMessageData DateTime socket sender bufferSize avail d
  = Ok (avail', d') ->
  store DateTime d' = store DateTime d /\ queue DateTime d' = queue DateTime d.
Proof.
  unfold TransportIO._q_writeMessageData. cbv zeta. intros H.
  assert (forall r,
    TransportIO.writeLoop DateTime (S (length avail)) socket 0 r bufferSize avail
      (withWaitingRenderer DateTime None d) = Ok (avail', d') ->
    store DateTime d' = store DateTime d /\ queue DateTime d' = queue DateTime d)
    as Hrun.
  { intros r Hr. apply writeLoop_frame in Hr as [H1 H2]. rewrite H1, H2.
    destruct d; split; reflexivity. }
  destruct (waitingRenderer DateTime d) as [r | ]; [ | exact (Hrun _ H)].
  destruct (queue DateTime (withWaitingRenderer DateTime None d)) as [ | i rest];
    [injection H as <- <-; destruct d; split; reflexivity | ].
  destruct (negb (Nat.eqb r i)); [ | exact (Hrun _ H)].
  injection H as <- <-; destruct d; split; reflexivity.
Qed.

Lemma encryptedBytesWritten_frame socket sender bufferSize avail (d : T) avail' d' :
  TransportIO._q_encryptedBytesWritten DateTime socket sender bufferSize avail d
  = Ok (avail', d') ->
  store DateTime d' = store DateTime d /\ queue DateTime d' = queue DateTime d.
Proof.
  unfold TransportIO._q_encryptedBytesWritten. cbv zeta. intros H.
  set (d0 := if timerActive DateTime d then timerRestart DateTime d else d) in H.
  assert (store DateTime d0 = store DateTime d /\ queue DateTime d0 = queue DateTime d)
    as [H1 H2].
  { subst d0. destruct (timerActive DateTime d); destruct d; split; reflexivity. }
  rewrite <- H1, <- H2.
  destruct (waitingRenderer DateTime d0);
    [exact (writeMessageData_frame _ _ _ _ _ _ _ H) | ].
  injection H as <- <-. split; reflexivity.
Qed.

Lemma bytesWritten_frame socket sender bufferSize avail (d : T) avail' d' :
  TransportIO._q_bytesWritten DateTime socket sender bufferSize avail d
  = Ok (avail', d') ->
  store DateTime d' = store DateTime d /\ queue DateTime d' = queue DateTime d.
Proof.
  unfold TransportIO._q_bytesWritten. intros H.
  destruct (negb (TransportIO.isEncrypted socket));
    [exact (encryptedBytesWritten_frame _ _ _ _ _ _ _ H) | ].
  injection H as <- <-. split; reflexivity.
Qed.

Lemma messageProgress_kept processed total (d d' : T) :
  TransportIO._q_messageProgress DateTime processed total d = Ok d' -> kept d d'.
Proof.
  unfold TransportIO._q_messageProgress. intros H.
  destruct (negb (TransportIO.isInt (processed * 100)) || (total =? 0));
    [discriminate | ].
  cbv zeta in H.
  destruct (queue DateTime d) as [ | i rest] eqn:Hq; [discriminate | ].
  destruct (store DateTime d !! i) as [r | ] eqn:Hr; [ | discriminate].
  match type of H with (if ?c then _ else _) = _ => destruct c end;
    [discriminate | ].
  injection H as <-.
  match goal with |- context [Transaction.setProgress ?p r] => set (r1 := Transaction.setProgress p r) end.
  assert (Transaction.finishedCount r1 = Transaction.finishedCount r) as He
    by (subst r1; unfold Transaction.setProgress;
        rewrite finishedCount_emit; lia).
  split.
  - destruct d; cbn. apply length_insert.
  - intros j. unfold owed, finishedAt, queuedAt. destruct d; cbn in *. f_equal.
    destruct (decide (j = i)) as [-> | Hne].
    + rewrite list_lookup_insert_eq by (eapply lookup_lt_Some; exact Hr).
      rewrite Hr. exact He.
    + rewrite list_lookup_insert_ne by congruence. reflexivity.
Qed.

Lemma sendMessagesImpl_frame s (d : T) :
  store DateTime (sendMessagesImpl DateTime s d) = store DateTime d
  /\ queue DateTime (sendMessagesImpl DateTime s d) = queue DateTime d.
Proof.
  unfold sendMessagesImpl. destruct (queue DateTime d) eqn:Hq;
    destruct d; cbn in *; subst; split; reflexivity.
Qed.

Lemma queueMessage_accounted m (d : T) :
  accounted d -> accounted (snd (queueMessage DateTime m d)).
Proof.
  intros Hd i. specialize (Hd i). unfold owed, finishedAt, queuedAt in *.
  destruct d; cbn in *. rewrite length_app, count_occ_app. cbn [length count_occ].
  destruct (Nat.eq_dec (length store0) i) as [<- | Hne].
  - rewrite decide_False in Hd by lia. rewrite decide_True by lia.
    rewrite lookup_app_r by lia. rewrite Nat.sub_diag. cbn.
    rewrite lookup_ge_None_2 in Hd by lia. cbn in Hd. lia.
  - destruct (decide (i < length store0)%nat) as [Hlt | Hge].
    + rewrite decide_True by lia. rewrite lookup_app_l by lia. lia.
    + rewrite decide_False by lia. rewrite lookup_ge_None_2 in Hd by lia.
      rewrite lookup_ge_None_2 by (rewrite length_app; cbn; lia). lia.
Qed.

Lemma reachable_accounted (d : T) : reachable qsetOrder d -> accounted d.
Proof.
  induction 1 as [ | v d _ IH | m d _ IH | h p pr d _ IH | a p d _ IH
                 | d _ IH | d _ IH | s d _ IH | env d d' _ IH H
                 | env r d d' _ IH H | env input resp d input' resp' d' _ IH H
                 | socket sender bufferSize avail d avail' d' _ IH H
                 | socket sender bufferSize avail d avail' d' _ IH H
                 | socket sender bufferSize avail d avail' d' _ IH H
                 | processed total d d' _ IH H].
  - intros i. unfold owed, finishedAt, queuedAt. cbn.
    rewrite decide_False by lia. reflexivity.
  - apply (kept_accounted d); [ | exact IH].
    apply kept_frame; destruct d; reflexivity.
  - apply queueMessage_accounted. exact IH.
  - apply (kept_accounted d); [ | exact IH]. unfold sendMessages. cbv zeta.
    match goal with |- context [sendMessagesImpl DateTime ?s ?x] =>
      destruct (sendMessagesImpl_frame s x) as [H1 H2] end.
    apply kept_frame; [rewrite H1 | rewrite H2]; destruct d; reflexivity.
  - apply (kept_accounted d); [ | exact IH]. unfold sendMessagesTo. cbv zeta.
    match goal with |- context [sendMessagesImpl DateTime ?s ?x] =>
      destruct (sendMessagesImpl_frame s x) as [H1 H2] end.
    apply kept_frame; [rewrite H1 | rewrite H2]; destruct d; reflexivity.
  - apply (kept_accounted d); [ | exact IH].
    apply kept_frame; destruct d; reflexivity.
  - apply (kept_accounted d); [ | exact IH].
    apply kept_frame; destruct d; reflexivity.
  - apply (kept_accounted d); [ | exact IH].
    apply kept_frame; destruct s, d; reflexivity.
  - exact (kept_accounted d d' (processStates_kept env d d' H) IH).
  - exact (kept_accounted d d' (respond_kept env r d d' H) IH).
  - exact (kept_accounted d d' (socketReadyReadLoop_kept _ _ _ _ _ _ _ _ H) IH).
  - apply (kept_accounted d); [ | exact IH].
    apply writeMessageData_frame in H as [H1 H2]. apply kept_frame; assumption.
  - apply (kept_accounted d); [ | exact IH].
    apply encryptedBytesWritten_frame in H as [H1 H2]. apply kept_frame; assumption.
  - apply (kept_accounted d); [ | exact IH].
    apply bytesWritten_frame in H as [H1 H2]. apply kept_frame; assumption.
  - exact (kept_accounted d d' (messageProgress_kept _ _ d d' H) IH).
Qed.

Lemma abortTransaction_ok i r (d : T) :
  store DateTime d !! i = Some r ->
  totalMessages DateTime d <> 0 \/ i ∉ watched DateTime d ->
  exists d',
    abortTransaction DateTime i d = Ok d'
    /\ store DateTime d' = <[i := Transaction.abort r]> (store DateTime d)
    /\ queue DateTime d' = queue DateTime d.
Proof.
  intros Hr Hw. unfold abortTransaction, finalizeWith. rewrite Hr. cbv zeta.
  change (Transaction.finalize (Transaction.setError Transaction.AbortedError None r))
    with (Transaction.abort r).
  match goal with |- context [if ?c then _ else _] => destruct c eqn:Hc end.
  - apply bool_decide_eq_true in Hc.
    destruct Hw as [Ht | Hw]; [ | exfalso; apply Hw; destruct d; exact Hc].
    unfold _q_transactionFinished. cbv zeta.
    match goal with |- context [if ?c =? 0 then _ else _] =>
      replace (c =? 0) with false
        by (symmetry; apply Z.eqb_neq; destruct d; exact Ht) end.
    eexists. split; [reflexivity | ]. destruct d; split; reflexivity.
  - eexists. split; [reflexivity | ]. destruct d; split; reflexivity.
Qed.

End Accounting.



(** * Headers: lookup, insertion and the list of values *)

(** * Headers *)

Lemma value_cons (name : list Z) (h : Headers.HeaderPair) (hs : Headers.HeaderList) :
  Headers.value name (h :: hs)
  = if Headers.nameIs name h then Some (snd h) else Headers.value name hs.
Proof.
  unfold Headers.value. cbn [Headers.findHeader].
  destruct (Headers.nameIs name h); reflexivity.
Qed.

Lemma value_app (name : list Z) (hs tl : Headers.HeaderList) :
  Headers.value name (hs ++ tl)
  = match Headers.value name hs with
    | Some v => Some v
    | None => Headers.value name tl
    end.
Proof.
  induction hs as [ | h hs IH]; [reflexivity | ].
  rewrite <- app_comm_cons, !value_cons.
  destruct (Headers.nameIs name h); [reflexivity | exact IH].
Qed.

Lemma value_filter (name name' : list Z) (hs : Headers.HeaderList) :
  Headers.value name'
    (List.filter (fun h => negb (Headers.nameIs name h)) hs)
  = if decide (name' = name) then None else Headers.value name' hs.
Proof.
  induction hs as [ | h hs IH]; [destruct (decide _); reflexivity | ].
  cbn [List.filter]. rewrite value_cons.
  unfold Headers.nameIs at 1.
  destruct (bool_decide_reflect (fst h = name)) as [Hh | Hh]; cbn [negb].
  - rewrite IH. destruct (decide (name' = name)) as [-> | Hn]; [reflexivity | ].
    unfold Headers.nameIs. rewrite bool_decide_eq_false_2 by congruence.
    reflexivity.
  - rewrite value_cons, IH.
    destruct (decide (name' = name)) as [-> | Hn]; [ | reflexivity].
    unfold Headers.nameIs. rewrite bool_decide_eq_false_2 by congruence.
    reflexivity.
Qed.

(** X1.  Lookup after [setHeader]: for a name that is not empty, the
    header of that name has the new value (none for a null value), every
    other name has the value it had. *)
Theorem setHeader_then_value (name name' : list Z) (v : option (list Z))
    (hs : Headers.HeaderList) :
  name <> [] ->
  Headers.value name' (Headers.setHeader name v hs)
  = if decide (name' = name) then v else Headers.value name' hs.
Proof.
  intros Hname. unfold Headers.setHeader.
  destruct name as [ | c name]; [contradiction | ]. cbn [length Nat.eqb].
  destruct v as [v | ].
  - rewrite value_app, value_filter.
    destruct (decide (name' = c :: name)) as [-> | Hn].
    + rewrite value_cons. unfold Headers.nameIs.
      rewrite bool_decide_eq_true_2 by reflexivity. reflexivity.
    + destruct (Headers.value name' hs); [reflexivity | ].
      rewrite value_cons. unfold Headers.nameIs. cbn [fst].
      rewrite bool_decide_eq_false_2 by congruence. reflexivity.
  - apply value_filter.
Qed.

Lemma setHeader_then_value_witness :
  bytes "Date" <> []
  /\ Headers.value (bytes "Date")
       (Headers.setHeader (bytes "Date") (Some (bytes "now"))
          [(bytes "Date", bytes "then"); (bytes "To", bytes "a@x");
           (bytes "Date", bytes "before")])
     = Some (bytes "now")
  /\ Headers.value (bytes "To")
       (Headers.setHeader (bytes "Date") None
          [(bytes "Date", bytes "then"); (bytes "To", bytes "a@x")])
     = Some (bytes "a@x").
Proof.
  split; [discriminate | ]. split.
  - rewrite (setHeader_then_value (bytes "Date") (bytes "Date")) by discriminate.
    reflexivity.
  - rewrite (setHeader_then_value (bytes "Date") (bytes "To")) by discriminate.
    reflexivity.
Defined.

(** X2.  [value] returns the first header of a name: after [appendHeader]
    a name that was there keeps its old value, the appended value shows
    only for a name that had none. *)
Theorem appendHeader_keeps_first (name name' v : list Z) (hs : Headers.HeaderList) :
  name <> [] ->
  Headers.value name' (Headers.appendHeader name (Some v) hs)
  = match Headers.value name' hs with
    | Some old => Some old
    | None => if decide (name' = name) then Some v else None
    end.
Proof.
  intros Hname. unfold Headers.appendHeader.
  destruct name as [ | c name]; [contradiction | ]. cbn [length Nat.eqb].
  rewrite value_app. destruct (Headers.value name' hs); [reflexivity | ].
  rewrite value_cons. unfold Headers.nameIs. cbn [fst snd].
  destruct (decide (name' = c :: name)) as [-> | Hn].
  - rewrite bool_decide_eq_true_2 by reflexivity. reflexivity.
  - rewrite bool_decide_eq_false_2 by congruence. reflexivity.
Qed.

Lemma appendHeader_keeps_first_witness :
  bytes "To" <> []
  /\ Headers.value (bytes "To")
       (Headers.appendHeader (bytes "To") (Some (bytes "b@y"))
          [(bytes "To", bytes "a@x")])
     = Some (bytes "a@x").
Proof.
  split; [discriminate | ].
  rewrite (appendHeader_keeps_first (bytes "To") (bytes "To") (bytes "b@y"))
    by discriminate.
  reflexivity.
Defined.

Lemma valuesLoop_stuck (name : list Z) (h : Headers.HeaderPair) (hs : Headers.HeaderList) :
  forall fuel result, Headers.valuesLoop fuel name (h :: hs) 0 result = Fuel.
Proof.
  induction fuel as [ | fuel IH]; intros result; [reflexivity | ].
  cbn [Headers.valuesLoop nth_error]. apply IH.
Qed.

(** X3.  [values] returns the empty list on an empty header list; on any
    other list its loop never advances the iterator, so it does not
    return, whatever the number of passes allowed. *)
Theorem values_returns_only_on_empty :
  (forall fuel name, Headers.values fuel name [] = Ok [])
  /\ (forall fuel name h hs, Headers.values fuel name (h :: hs) = Fuel).
Proof.
  split.
  - intros [ | fuel] name; reflexivity.
  - intros fuel name h hs. apply valuesLoop_stuck.
Qed.

(** X4. [hasHeader] answers the wrong way round: it returns [true] exactly
    when [value] finds no header of the name. *)
Theorem hasHeader_means_absent (name : list Z) (hs : Headers.HeaderList) :
  Headers.hasHeader name hs = true <-> Headers.value name hs = None.
Proof.
  rewrite hasHeader_inverted. induction hs as [ | h hs IH].
  - split; [reflexivity | constructor].
  - rewrite value_cons. unfold Headers.nameIs.
    destruct (decide (fst h = name)) as [Heq | Hne].
    + rewrite bool_decide_eq_true_2 by exact Heq. split; [ | discriminate].
      intros H. inversion H; subst. congruence.
    + rewrite bool_decide_eq_false_2 by exact Hne. rewrite <- IH. split.
      * intros H. inversion H; assumption.
      * intros H. constructor; assumption.
Qed.

(** * The reply parser *)

Lemma scan_text (text tail : list Z) (code : Z) (cont : bool) (lp : list Z) :
  Forall (fun c => isStop c = false) text ->
  match tail with [] => True | c :: _ => isStop c = true end ->
  Response.scan (text ++ tail) 4 code cont lp = inr (4, code, cont, lp, tail).
Proof.
  intros Ht Htail. induction Ht as [ | c text Hc Ht IH].
  - destruct tail as [ | c tail]; [reflexivity | ].
    cbn [app Response.scan]. unfold isStop in Htail. rewrite Htail. reflexivity.
  - cbn [app Response.scan]. unfold isStop in Hc. rewrite Hc.
    change (4 <? 3) with false. change (4 =? 3) with false. cbv iota. exact IH.
Qed.

Lemma isDigit_range (c : Z) : isDigit c = true -> 48 <= c <= 57.
Proof. unfold isDigit. lia. Qed.

Lemma scan_digit (c : Z) : isDigit c = true ->
  isStop c = false /\ (c <? 48) || (57 <? c) = false.
Proof. intros H. apply isDigit_range in H. unfold isStop. lia. Qed.

Lemma scan_cons_digit (c : Z) (p : list Z) (s code : Z) (cont : bool) (lp : list Z) :
  isDigit c = true -> s < 3 ->
  Response.scan (c :: p) s code cont lp
  = Response.scan p (s + 1) (code * 10 + (c - 48)) cont lp.
Proof.
  intros Hc Hs. destruct (scan_digit c Hc) as [H1 H2]. unfold isStop in H1.
  cbn [Response.scan]. rewrite H1, H2.
  destruct (Z.ltb_spec s 3); [reflexivity | lia].
Qed.

Lemma scan_cons_sep (more : bool) (p : list Z) (code : Z) (lp : list Z) :
  Response.scan ((if more then 45 else 32) :: p) 3 code false lp
  = Response.scan p 4 code more p.
Proof. destruct more; reflexivity. Qed.

Lemma append_line_fields (d1 d2 d3 : Z) (more : bool) (text tail : list Z)
    (r : Response.t) :
  isDigit d1 = true -> isDigit d2 = true -> isDigit d3 = true ->
  Forall (fun c => isStop c = false) text ->
  match tail with [] => True | c :: _ => isStop c = true end ->
  let data := [d1; d2; d3; if more then 45 else 32] ++ text ++ tail in
  let r' := snd (Response.append data r) in
  fst (Response.append data r) = true
  /\ Response.code r' = replyCode d1 d2 d3
  /\ Response.line r' = text
  /\ Response.lines r' = Response.lines r ++ [text]
  /\ Response.isValid r' = (if more then Response.isValid r else true)
  /\ Response.isEmpty r' = false.
Proof.
  intros H1 H2 H3 Ht Htail data r'. subst r' data.
  unfold Response.append. cbn [app].
  rewrite (scan_cons_digit d1) by (assumption || lia).
  rewrite (scan_cons_digit d2) by (assumption || lia).
  rewrite (scan_cons_digit d3) by (assumption || lia).
  change (0 + 1 + 1 + 1) with 3. rewrite scan_cons_sep.
  rewrite (scan_text text tail _ more (text ++ tail) Ht Htail).
  cbn [Z.eqb Pos.eqb negb fst snd Response.code Response.line Response.lines
       Response.isValid Response.isEmpty].
  rewrite length_app, Nat.add_sub, firstn_app, Nat.sub_diag, firstn_all.
  cbn [firstn]. rewrite app_nil_r. unfold replyCode.
  destruct more; repeat split; lia.
Qed.

(** X5.  A reply line of three digits, a separator and a text is accepted:
    the code is the number of the digits, the text (up to the first NUL, CR
    or LF) becomes [line] and is appended to [lines], and the response is
    valid with a space as separator and as valid as before with a hyphen. *)
Theorem append_reply_line (d1 d2 d3 : Z) (more : bool) (text : list Z)
    (r : Response.t) :
  isDigit d1 = true -> isDigit d2 = true -> isDigit d3 = true ->
  Forall (fun c => isStop c = false) text ->
  let code := replyCode d1 d2 d3 in
  Response.append (wireLine d1 d2 d3 more text) r
  = (true,
     Response.mk text (Response.lines r ++ [text]) code
       (if more then Response.isValid r else true) false
       (Response.between 200 300 code) (Response.between 300 400 code)
       (Response.between 400 500 code) (Response.between 500 600 code)
       (Response.between 200 400 code) (Response.between 400 600 code)).
Proof.
  intros H1 H2 H3 Ht code. unfold wireLine, Response.append. cbn [app].
  rewrite (scan_cons_digit d1) by (assumption || lia).
  rewrite (scan_cons_digit d2) by (assumption || lia).
  rewrite (scan_cons_digit d3) by (assumption || lia).
  change (0 + 1 + 1 + 1) with 3. rewrite scan_cons_sep.
  rewrite (scan_text text [13; 10] _ more (text ++ [13; 10]) Ht eq_refl).
  cbn [Z.eqb Pos.eqb negb].
  rewrite length_app, Nat.add_sub, firstn_app, Nat.sub_diag, firstn_all.
  cbn [firstn]. rewrite app_nil_r, Z.mul_0_l, Z.add_0_l.
  fold (replyCode d1 d2 d3). fold code.
  destruct more; reflexivity.
Qed.

Lemma append_reply_line_witness :
  Response.append (bytes "250-SIZE 1000" ++ [13; 10]) Response.reset
  = (true,
     Response.mk (bytes "SIZE 1000") [bytes "SIZE 1000"] 250 false false
                 true false false false true false).
Proof.
  exact (append_reply_line 50 53 48 true (bytes "SIZE 1000") Response.reset
           eq_refl eq_refl eq_refl ltac:(repeat constructor)).
Defined.

Lemma split_at_stop (l : list Z) :
  exists text tail,
    l = text ++ tail
    /\ Forall (fun c => isStop c = false) text
    /\ match tail with [] => True | c :: _ => isStop c = true end.
Proof.
  induction l as [ | c l (text & tail & -> & Ht & Htail)].
  - exists [], []. repeat split; constructor.
  - destruct (isStop c) eqn:Hc.
    + exists [], (c :: text ++ tail). repeat split; [constructor | exact Hc].
    + exists (c :: text), tail. repeat split; [ | exact Htail].
      constructor; assumption.
Qed.

Lemma scan_short (p : list Z) (s code : Z) (cont : bool) (lp : list Z) :
  match p with [] => True | c :: _ => isStop c = true end ->
  Response.scan p s code cont lp = inr (s, code, cont, lp, p).
Proof.
  destruct p as [ | c p]; [reflexivity | ].
  intros H. cbn [Response.scan]. unfold isStop in H. rewrite H. reflexivity.
Qed.

Lemma scan_digit_or_fail (c : Z) (p : list Z) (s code : Z) (cont : bool)
    (lp : list Z) :
  s < 3 ->
  (isStop c = true
   /\ Response.scan (c :: p) s code cont lp = inr (s, code, cont, lp, c :: p))
  \/ (isStop c = false /\ isDigit c = false
      /\ Response.scan (c :: p) s code cont lp = inl code)
  \/ (isDigit c = true
      /\ Response.scan (c :: p) s code cont lp
         = Response.scan p (s + 1) (code * 10 + (c - 48)) cont lp).
Proof.
  intros Hs. destruct (isStop c) eqn:Hstop.
  - left. split; [reflexivity | ]. apply scan_short. exact Hstop.
  - right. destruct (isDigit c) eqn:Hd.
    + right. split; [reflexivity | ]. apply scan_cons_digit; assumption.
    + left. split; [reflexivity | ]. split; [reflexivity | ].
      cbn [Response.scan]. unfold isStop in Hstop. rewrite Hstop.
      destruct (Z.ltb_spec s 3); [ | lia].
      unfold isDigit in Hd.
      replace ((c <? 48) || (57 <? c)) with true by lia. reflexivity.
Qed.

Lemma append_rejects (data : list Z) (r : Response.t) :
  fst (Response.append data r) = false ->
  Response.lines (snd (Response.append data r)) = Response.lines r
  /\ Response.isValid (snd (Response.append data r)) = Response.isValid r
  /\ Response.line (snd (Response.append data r)) = Response.line r.
Proof.
  unfold Response.append.
  destruct (Response.scan data 0 0 false []) as [code | [[[[s code] cont] lp] p]].
  - intros _. repeat split.
  - destruct (negb (s =? 4)); [intros _; repeat split | discriminate].
Qed.

Lemma append_accepted_wellFormed (data : list Z) (r : Response.t) :
  fst (Response.append data r) = true -> wellFormed data.
Proof.
  unfold Response.append.
  destruct data as [ | d1 data]; [discriminate | ].
  destruct (scan_digit_or_fail d1 data 0 0 false [] ltac:(lia))
    as [[_ ->] | [(_ & _ & ->) | [H1 ->]]]; try discriminate.
  destruct data as [ | d2 data]; [discriminate | ].
  destruct (scan_digit_or_fail d2 data (0 + 1) (0 * 10 + (d1 - 48)) false []
              ltac:(lia))
    as [[_ ->] | [(_ & _ & ->) | [H2 ->]]]; try discriminate.
  destruct data as [ | d3 data]; [discriminate | ].
  destruct (scan_digit_or_fail d3 data (0 + 1 + 1)
              ((0 * 10 + (d1 - 48)) * 10 + (d2 - 48)) false [] ltac:(lia))
    as [[_ ->] | [(_ & _ & ->) | [H3 ->]]]; try discriminate.
  change (0 + 1 + 1 + 1) with 3.
  destruct data as [ | sep data]; [discriminate | ].
  cbn [Response.scan].
  destruct ((sep =? 0) || (sep =? 13) || (sep =? 10)); [discriminate | ].
  change (3 <? 3) with false. change (3 =? 3) with true. cbv iota.
  destruct (split_at_stop data) as (text & tail & -> & Ht & Htail).
  destruct (Z.eqb_spec sep 45) as [-> | H45].
  - intros _. exists d1, d2, d3, true, text, tail. repeat split; assumption.
  - destruct (Z.eqb_spec sep 32) as [-> | H32]; [ | discriminate].
    intros _. exists d1, d2, d3, false, text, tail. repeat split; assumption.
Qed.

(** X6.  [append] accepts a line exactly when it has that form; a line it
    rejects (a code of fewer than three digits, a code alone, another
    separator) leaves [lines], [line] and [isValid] as they were. *)
Theorem append_accepts_iff (data : list Z) (r : Response.t) :
  (fst (Response.append data r) = true <-> wellFormed data)
  /\ (fst (Response.append data r) = false ->
      Response.lines (snd (Response.append data r)) = Response.lines r
      /\ Response.isValid (snd (Response.append data r)) = Response.isValid r
      /\ Response.line (snd (Response.append data r)) = Response.line r).
Proof.
  split; [split | apply append_rejects].
  - apply append_accepted_wellFormed.
  - intros (d1 & d2 & d3 & more & text & tail & -> & H1 & H2 & H3 & Ht & Htail).
    apply (append_line_fields d1 d2 d3 more text tail r H1 H2 H3 Ht Htail).
Qed.

(** * Reading a reply from the socket *)

Lemma readLine_nonstop (text rest : list Z) :
  Forall (fun c => isStop c = false) text ->
  TransportIO.readLine (text ++ 13 :: 10 :: rest) = Some (text ++ [13; 10], rest).
Proof.
  induction 1 as [ | c text Hc Ht IH]; [reflexivity | ].
  cbn [app TransportIO.readLine]. rewrite IH.
  unfold isStop in Hc. replace (c =? 10) with false by lia. reflexivity.
Qed.

Lemma readLine_wireLine (d1 d2 d3 : Z) (more : bool) (text rest : list Z) :
  isDigit d1 = true -> isDigit d2 = true -> isDigit d3 = true ->
  Forall (fun c => isStop c = false) text ->
  TransportIO.readLine (wireLine d1 d2 d3 more text ++ rest)
  = Some (wireLine d1 d2 d3 more text, rest).
Proof.
  intros H1 H2 H3 Ht. unfold wireLine.
  change ([d1; d2; d3; if more then 45 else 32] ++ text ++ [13; 10])
    with (([d1; d2; d3; if more then 45 else 32] ++ text) ++ [13; 10]).
  rewrite <- !app_assoc. cbn [app].
  change (d1 :: d2 :: d3 :: (if more then 45 else 32) :: text ++ 13 :: 10 :: rest)
    with ((d1 :: d2 :: d3 :: (if more then 45 else 32) :: text) ++ 13 :: 10 :: rest).
  rewrite readLine_nonstop; [reflexivity | ].
  apply isDigit_range in H1, H2, H3.
  repeat constructor; try (unfold isStop; lia); [destruct more; reflexivity | exact Ht].
Qed.

Section ReadyRead.
Variable DateTime : Type.
Variable qsetOrder : list (list Z) -> list (list Z).
Variable env : Transport.Env.
Variables d1 d2 d3 : Z.
Hypothesis H1 : isDigit d1 = true.
Hypothesis H2 : isDigit d2 = true.
Hypothesis H3 : isDigit d3 = true.

Lemma withResponse_twice (r r0 : Transport.SmtpResponse) (d : Transport.t DateTime) :
  Transport.withResponse DateTime r (Transport.withResponse DateTime r0 d)
  = Transport.withResponse DateTime r d.
Proof. destruct d; reflexivity. Qed.

Lemma socketReadyReadLoop_reply (text : list Z) :
  Forall (fun c => isStop c = false) text ->
  forall (texts : list (list Z)) (fuel : nat) (resp : Response.t)
         (d : Transport.t DateTime),
    Forall (Forall (fun c => isStop c = false)) texts ->
    (length texts < fuel)%nat ->
    Response.isValid resp = false ->
    TransportIO.socketReadyReadLoop DateTime qsetOrder fuel env
      (wireReply d1 d2 d3 texts text) resp d
    = obind (Transport.respond DateTime qsetOrder env
               (Transport.mkResponse text (Response.lines resp ++ texts ++ [text])
                                     (replyCode d1 d2 d3) true) d)
            (fun d' => Ok ([], Response.reset, d')).
Proof.
  intros Ht. induction texts as [ | t texts IH]; intros fuel resp d Hts Hf Hv.
  - destruct fuel as [ | fuel]; [cbn in Hf; lia | ].
    unfold wireReply. cbn [flat_map app].
    rewrite <- (app_nil_r (wireLine d1 d2 d3 false text)).
    cbn [TransportIO.socketReadyReadLoop].
    rewrite readLine_wireLine by assumption.
    destruct (append_line_fields d1 d2 d3 false text [13; 10] resp H1 H2 H3 Ht
                eq_refl) as (_ & Hc & Hl & Hls & Hval & _).
    fold (wireLine d1 d2 d3 false text) in Hc, Hl, Hls, Hval.
    cbv zeta in Hc, Hl, Hls, Hval. cbv zeta. rewrite Hval.
    unfold Response.view at 1. rewrite Hc, Hl, Hls, Hval.
    unfold Transport.respond.
    destruct (Transport._q_processStates DateTime qsetOrder env _) as [d' | | ];
      cbn [obind]; try reflexivity.
    destruct fuel; reflexivity.
  - destruct fuel as [ | fuel]; [cbn in Hf; lia | ].
    inversion Hts as [ | ? ? Htt Hts']; subst.
    unfold wireReply. cbn [flat_map]. rewrite <- app_assoc.
    fold (wireReply d1 d2 d3 texts text).
    cbn [TransportIO.socketReadyReadLoop].
    rewrite readLine_wireLine by assumption.
    destruct (append_line_fields d1 d2 d3 true t [13; 10] resp H1 H2 H3 Htt
                eq_refl) as (_ & Hc & Hl & Hls & Hval & _).
    fold (wireLine d1 d2 d3 true t) in Hc, Hl, Hls, Hval.
    cbv zeta in Hc, Hl, Hls, Hval. cbv zeta. rewrite Hval, Hv.
    rewrite IH; [ | assumption | cbn in Hf; lia | rewrite Hval; exact Hv].
    rewrite Hls, <- app_assoc. cbn [app].
    unfold Transport.respond. rewrite withResponse_twice. reflexivity.
Qed.
End ReadyRead.

Lemma wireReply_length (d1 d2 d3 : Z) (texts : list (list Z)) (text : list Z) :
  (length texts < length (wireReply d1 d2 d3 texts text))%nat.
Proof.
  unfold wireReply. rewrite length_app.
  induction texts as [ | t texts IH]; cbn [flat_map length]; [cbn; lia | ].
  rewrite length_app. unfold wireLine at 1. cbn [length app]. lia.
Qed.

(** X7.  A reply of several lines arriving on the socket runs the state
    machine once, on the code and on all the texts in order, and leaves
    the response reset and the socket buffer empty. *)
Theorem socketReadyRead_reply (DateTime : Type)
    (qsetOrder : list (list Z) -> list (list Z)) (env : Transport.Env)
    (d1 d2 d3 : Z) (texts : list (list Z)) (text : list Z)
    (d : Transport.t DateTime) :
  isDigit d1 = true -> isDigit d2 = true -> isDigit d3 = true ->
  Forall (Forall (fun c => isStop c = false)) (texts ++ [text]) ->
  TransportIO._q_socketReadyRead DateTime qsetOrder env
    (wireReply d1 d2 d3 texts text) Response.reset d
  = obind (Transport.respond DateTime qsetOrder env
             (Transport.mkResponse text (texts ++ [text])
                                   (replyCode d1 d2 d3) true) d)
          (fun d' => Ok ([], Response.reset, d')).
Proof.
  intros H1 H2 H3 Hts. apply Forall_app in Hts as [Hts Ht].
  inversion Ht as [ | ? ? Ht' _]; subst.
  unfold TransportIO._q_socketReadyRead.
  rewrite (socketReadyReadLoop_reply DateTime qsetOrder env d1 d2 d3 H1 H2 H3
             text Ht' texts _ Response.reset d Hts
             (wireReply_length d1 d2 d3 texts text) eq_refl).
  reflexivity.
Qed.


Lemma socketReadyRead_reply_witness :
  exists d d',
    atBanner = Ok d
    /\ TransportIO._q_socketReadyRead unit dedup plainEnv
         (wireReply 50 50 48 [bytes "mail.example"] (bytes "ready"))
         Response.reset d
       = Ok ([], Response.reset, d')
    /\ Transport.state unit d' = Transport.SessionInitState.
Proof.
  set (d := resultOr (Transport.create unit) atBanner).
  set (d' := resultOr (Transport.create unit)
               (Transport.respond unit dedup plainEnv
                  (Transport.mkResponse (bytes "ready")
                     [bytes "mail.example"; bytes "ready"] 220 true) d)).
  assert (atBanner = Ok d) as Hd by (vm_compute; reflexivity).
  assert (Transport.respond unit dedup plainEnv
            (Transport.mkResponse (bytes "ready")
               [bytes "mail.example"; bytes "ready"] 220 true) d = Ok d') as Hr
    by (vm_compute; reflexivity).
  assert (Transport.state unit d' = Transport.SessionInitState) as Hs
    by (vm_compute; reflexivity).
  pose proof (socketReadyRead_reply unit dedup plainEnv 50 50 48
                [bytes "mail.example"] (bytes "ready") d eq_refl eq_refl eq_refl
                ltac:(repeat constructor)) as H.
  change ([bytes "mail.example"] ++ [bytes "ready"])
    with [bytes "mail.example"; bytes "ready"] in H.
  change (replyCode 50 50 48) with 220 in H.
  clearbody d d'. rewrite Hr in H.
  exists d, d'. exact (conj Hd (conj H Hs)).
Defined.


(** * The message data and its end *)

Lemma crlfTrack_one (s b : Z) : crlfTrack s b = 1 <-> b = 13.
Proof.
  unfold crlfTrack. destruct (Z.eqb_spec b 13); [tauto | ].
  destruct ((s =? 1) && (b =? 10)); split; (lia || discriminate).
Qed.

Lemma crlfStep_track (s : Z) (data : list Z) (size : Z) :
  0 < size <= Z.of_nat (length data) ->
  TransportIO.crlfStep s data size
  = fold_left crlfTrack (firstn (Z.to_nat size) data) s.
Proof.
  intros Hsize. unfold TransportIO.crlfStep. cbv zeta.
  destruct (Z.eqb_spec size 1) as [-> | Hne].
  - destruct data as [ | x data]; [cbn in Hsize; lia | ].
    change (Z.to_nat 1) with 1%nat. change (Z.to_nat 0) with 0%nat.
    cbn [Z.eqb Pos.eqb nth firstn take fold_left]. unfold crlfTrack.
    destruct (Z.eqb_spec x 13) as [-> | H13].
    + destruct (s =? 1); reflexivity.
    + destruct ((s =? 1) && (x =? 10)); reflexivity.
  - set (n := Z.to_nat (size - 2)).
    assert (Z.to_nat size = S (S n)) as -> by lia.
    assert (Z.to_nat (size - 1) = S n) as -> by lia.
    assert (S n < length data)%nat as Hn by lia.
    destruct (lookup_lt_is_Some_2 data n ltac:(lia)) as [x Hx].
    destruct (lookup_lt_is_Some_2 data (S n) Hn) as [y Hy].
    rewrite (take_S_r data (S n) y Hy), (take_S_r data n x Hx).
    rewrite !fold_left_app. cbn [fold_left].
    rewrite (nth_lookup_Some data n 0 x Hx), (nth_lookup_Some data (S n) 0 y Hy).
    set (s' := fold_left crlfTrack (take n data) s).
    pose proof (crlfTrack_one s' x) as Hone.
    unfold crlfTrack at 1.
    destruct (Z.eqb_spec y 13) as [-> | Hy13].
    + rewrite andb_false_r. reflexivity.
    + destruct (Z.eqb_spec x 13) as [-> | Hx13].
      * rewrite (proj2 Hone eq_refl). reflexivity.
      * cbn [andb].
        destruct (Z.eqb_spec (crlfTrack s' x) 1) as [H | H]; [tauto | reflexivity].
Qed.

Section Pump.
Variable DateTime : Type.

Lemma written_act_write (x : list Z) (d : Transport.t DateTime) :
  wire (Transport.act DateTime (Transport.SocketWrite x) d) = wire d ++ x.
Proof.
  unfold wire, Transport.written. destruct d; cbn.
  rewrite flat_map_app, concat_app. cbn. rewrite app_nil_r. reflexivity.
Qed.

Lemma wire_withCrlfState (v : Z) (d : Transport.t DateTime) :
  wire (Transport.withCrlfState DateTime v d) = wire d.
Proof. destruct d; reflexivity. Qed.

Lemma wire_withWaitingRenderer v (d : Transport.t DateTime) :
  wire (Transport.withWaitingRenderer DateTime v d) = wire d.
Proof. destruct d; reflexivity. Qed.

Lemma writeLoop_tracks socket r bufferSize : forall fuel k avail d rest d',
  TransportIO.writeLoop DateTime fuel socket k r bufferSize avail d = Ok (rest, d') ->
  exists w,
    avail = w ++ rest
    /\ wire d' = wire d ++ w
    /\ Transport.crlfState DateTime d'
       = fold_left crlfTrack w (Transport.crlfState DateTime d)
    /\ Transport.state DateTime d' = Transport.state DateTime d
    /\ Transport.queue DateTime d' = Transport.queue DateTime d
    /\ Transport.store DateTime d' = Transport.store DateTime d.
Proof.
  induction fuel as [ | fuel IH]; intros k avail d rest d' H; [discriminate | ].
  cbn [TransportIO.writeLoop] in H. cbv zeta in H.
  match type of H with context [?a <=? 0] =>
    destruct (Z.leb_spec a 0) as [Hmax | Hmax] end.
  { injection H as <- <-. exists []. rewrite app_nil_r.
    destruct d; cbn. repeat split; reflexivity. }
  destruct (Z.leb_spec (Z.of_nat (length avail)) 0) as [Hlen | Hlen].
  { injection H as <- <-. exists []. rewrite app_nil_r. repeat split; reflexivity. }
  match type of H with context [if ?a <? ?b then ?a else ?b] =>
    set (size := if a <? b then a else b) in * end.
  assert (0 < size <= Z.of_nat (length avail)) as Hsize.
  { subst size.
    match goal with |- context [?a <? ?b] => destruct (Z.ltb_spec a b) end; lia. }
  apply IH in H as (w & Hw & Hwire & Hcrlf & Hst & Hq & Hs).
  exists (firstn (Z.to_nat size) avail ++ w).
  rewrite <- app_assoc, <- Hw, firstn_skipn.
  split; [reflexivity | ].
  rewrite Hwire, written_act_write, wire_withCrlfState, app_assoc.
  split; [reflexivity | ].
  rewrite Hcrlf, fold_left_app, <- crlfStep_track by exact Hsize.
  split; [destruct d; reflexivity | ].
  rewrite Hst, Hq, Hs. destruct d; repeat split; reflexivity.
Qed.

Lemma writeMessageData_tracks socket sender bufferSize avail d rest d' :
  TransportIO._q_writeMessageData DateTime socket sender bufferSize avail d
  = Ok (rest, d') ->
  exists w,
    avail = w ++ rest
    /\ wire d' = wire d ++ w
    /\ Transport.crlfState DateTime d'
       = fold_left crlfTrack w (Transport.crlfState DateTime d)
    /\ Transport.state DateTime d' = Transport.state DateTime d
    /\ Transport.queue DateTime d' = Transport.queue DateTime d
    /\ Transport.store DateTime d' = Transport.store DateTime d.
Proof.
  unfold TransportIO._q_writeMessageData. cbv zeta.
  assert (forall r, TransportIO.writeLoop DateTime (S (length avail)) socket 0 r
                      bufferSize avail
                      (Transport.withWaitingRenderer DateTime None d)
                    = Ok (rest, d') ->
          exists w,
            avail = w ++ rest
            /\ wire d' = wire d ++ w
            /\ Transport.crlfState DateTime d'
               = fold_left crlfTrack w (Transport.crlfState DateTime d)
            /\ Transport.state DateTime d' = Transport.state DateTime d
            /\ Transport.queue DateTime d' = Transport.queue DateTime d
            /\ Transport.store DateTime d' = Transport.store DateTime d) as Hrun.
  { intros r H. apply writeLoop_tracks in H as (w & H1 & H2 & H3 & H4 & H5 & H6).
    exists w. rewrite H2, H3, H4, H5, H6. destruct d; repeat split; assumption. }
  assert (forall d0 : Transport.t DateTime,
            d0 = Transport.withWaitingRenderer DateTime None d ->
            Ok (avail, d0) = Ok (rest, d') ->
            exists w,
              avail = w ++ rest
              /\ wire d' = wire d ++ w
              /\ Transport.crlfState DateTime d'
                 = fold_left crlfTrack w (Transport.crlfState DateTime d)
              /\ Transport.state DateTime d' = Transport.state DateTime d
              /\ Transport.queue DateTime d' = Transport.queue DateTime d
              /\ Transport.store DateTime d' = Transport.store DateTime d) as Hskip.
  { intros d0 -> H. injection H as <- <-. exists []. rewrite app_nil_r.
    destruct d; repeat split; reflexivity. }
  destruct (Transport.waitingRenderer DateTime d) as [r | ]; [ | apply Hrun].
  destruct (Transport.queue DateTime (Transport.withWaitingRenderer DateTime None d))
    as [ | i q]; [apply Hskip; reflexivity | ].
  destruct (negb (r =? i)%nat); [apply Hskip; reflexivity | apply Hrun].
Qed.

Lemma pump_tracks : forall calls d data d',
  pump calls d = Ok (data, d') ->
  wire d' = wire d ++ data
  /\ Transport.crlfState DateTime d'
     = fold_left crlfTrack data (Transport.crlfState DateTime d)
  /\ Transport.state DateTime d' = Transport.state DateTime d
  /\ Transport.queue DateTime d' = Transport.queue DateTime d
  /\ Transport.store DateTime d' = Transport.store DateTime d.
Proof.
  induction calls as [ | [[[socket sender] bufferSize] avail] calls IH];
    intros d data d' H.
  - injection H as <- <-. rewrite app_nil_r. repeat split; reflexivity.
  - cbn [pump] in H.
    destruct (TransportIO._q_writeMessageData DateTime socket sender bufferSize
                avail d) as [[rest d1] | | ] eqn:Hcall; try discriminate.
    cbn [obind] in H.
    destruct (pump calls d1) as [[data1 d2] | | ] eqn:Hrest; try discriminate.
    cbn [obind] in H. injection H as <- <-.
    apply writeMessageData_tracks in Hcall as (w & Hw & H1 & H2 & H3 & H4 & H5).
    apply IH in Hrest as (K1 & K2 & K3 & K4 & K5).
    assert (firstn (length avail - length rest) avail = w) as ->.
    { rewrite Hw, length_app, Nat.add_sub, firstn_app, Nat.sub_diag, firstn_all.
      cbn [firstn]. apply app_nil_r. }
    rewrite K1, K2, K3, K4, K5, H1, H2, H3, H4, H5, fold_left_app, app_assoc.
    repeat split; reflexivity.
Qed.
End Pump.

Lemma crlfTrack_end (data : list Z) (s : Z) :
  fold_left crlfTrack data s = 2
  <-> (exists pre, data = pre ++ [13; 10])
      \/ (data = [10] /\ s = 1) \/ (data = [] /\ s = 2).
Proof.
  destruct data as [ | b data _] using rev_ind.
  - cbn. split.
    + intros ->. right. right. split; reflexivity.
    + intros [[pre H] | [[H _] | [_ H]]]; [ | discriminate | exact H].
      destruct pre as [ | ? [ | ? ?]]; discriminate.
  - rewrite fold_left_app. cbn [fold_left].
    destruct data as [ | a data _] using rev_ind.
    + cbn. unfold crlfTrack. split.
      * destruct (Z.eqb_spec b 13); [discriminate | ].
        destruct (Z.eqb_spec s 1), (Z.eqb_spec b 10); cbn; try discriminate.
        intros _. right. left. subst. split; reflexivity.
      * intros [[pre H] | [[H ->] | [H _]]].
        -- destruct pre as [ | ? [ | ? ?]]; discriminate.
        -- injection H as ->. reflexivity.
        -- discriminate.
    + rewrite fold_left_app. cbn [fold_left].
      set (s' := fold_left crlfTrack data s).
      pose proof (crlfTrack_one s' a) as Hone. unfold crlfTrack at 1.
      split.
      * destruct (Z.eqb_spec b 13); [discriminate | ].
        destruct (Z.eqb_spec (crlfTrack s' a) 1) as [H1 | H1]; [ | discriminate].
        destruct (Z.eqb_spec b 10) as [-> | ]; [ | discriminate].
        intros _. left. exists data. apply Hone in H1 as ->.
        rewrite <- app_assoc. reflexivity.
      * intros [[pre H] | [[H _] | [H _]]].
        -- change [13; 10] with ([13] ++ [10]) in H. rewrite app_assoc in H.
           apply List.app_inj_tail in H as [H ->]. apply List.app_inj_tail in H as [_ ->].
           rewrite (proj2 Hone eq_refl). reflexivity.
        -- apply (f_equal length) in H. rewrite !length_app in H. cbn in H. lia.
        -- apply (f_equal length) in H. rewrite !length_app in H. cbn in H. lia.
Qed.

(** X8.  The end of the message data.  From a transport whose [crlfState]
    is 0, after the renderers' data went out in any number of writes of
    any sizes, the state machine in EndOfMessageState writes the dot line
    and goes to DataSentState; it puts CR LF in front of the dot exactly
    when the data does not end in CR LF, so that the bytes on the wire end
    in CR LF [.] CR LF. *)
Theorem message_terminator (DateTime : Type)
    (qsetOrder : list (list Z) -> list (list Z)) (env : Transport.Env)
    (calls : list (TransportIO.Socket * nat * Z * list Z))
    (d0 d1 : Transport.t DateTime) (data : list Z) (i : nat) (rest : list nat) :
  Transport.crlfState DateTime d0 = 0 ->
  pump calls d0 = Ok (data, d1) ->
  Transport.state DateTime d1 = Transport.EndOfMessageState ->
  Transport.queue DateTime d1 = i :: rest ->
  Transport.lastError env i = [] ->
  exists d2,
    Transport._q_processStates DateTime qsetOrder env d1 = Ok d2
    /\ Transport.state DateTime d2 = Transport.DataSentState
    /\ (((exists pre, data = pre ++ [13; 10])
         /\ wire d2 = wire d0 ++ data ++ [46; 13; 10])
        \/ ((~ exists pre, data = pre ++ [13; 10])
            /\ wire d2 = wire d0 ++ data ++ [13; 10; 46; 13; 10]))
    /\ exists pre, wire d2 = pre ++ [13; 10; 46; 13; 10].
Proof.
  intros Hcrlf Hpump Hst Hq Herr.
  apply pump_tracks in Hpump as (Hwire & Htrack & _).
  rewrite Hcrlf in Htrack.
  pose proof (crlfTrack_end data 0) as Hend. rewrite <- Htrack in Hend.
  assert (exists d2,
            Transport._q_processStates DateTime qsetOrder env d1 = Ok d2
            /\ Transport.state DateTime d2 = Transport.DataSentState
            /\ wire d2
               = wire d1 ++ (if Transport.crlfState DateTime d1 =? 2 then []
                             else [13; 10]) ++ [46; 13; 10]) as (d2 & Hrun & Hst2 & Hw2).
  { unfold Transport._q_processStates. destruct d1. cbn in Hst, Hq. subst.
    cbn [Transport.code Transport.response Transport.timerActive].
    destruct timerActive; cbn; rewrite Herr; cbn;
      destruct (crlfState =? 2); cbn;
      (eexists; split; [reflexivity | ]; split; [reflexivity | ]);
      unfold wire, Transport.written; cbn;
      rewrite !flat_map_app, !concat_app; cbn; rewrite ?app_nil_r, <- ?app_assoc;
      reflexivity. }
  exists d2. split; [exact Hrun | ]. split; [exact Hst2 | ].
  rewrite Hw2, Hwire, <- !app_assoc.
  destruct (Z.eqb_spec (Transport.crlfState DateTime d1) 2) as [H2 | H2].
  - apply Hend in H2 as [[pre ->] | [[_ H] | [_ H]]]; try discriminate.
    split.
    + left. split; [exists pre; reflexivity | reflexivity].
    + exists (wire d0 ++ pre). rewrite <- !app_assoc. reflexivity.
  - split.
    + right. split; [ | reflexivity].
      intros Hpre. apply H2, Hend. left. exact Hpre.
    + exists (wire d0 ++ data). rewrite <- !app_assoc. reflexivity.
Qed.


Lemma message_terminator_witness :
  exists d0 d1 d2,
    goAhead = Ok d0
    /\ pump [(idleSocket, 0%nat, 8, bytes "Subject: hi" ++ [13; 10; 13; 10]
                                      ++ bytes "text")] d0
       = Ok (bytes "Subject: hi" ++ [13; 10; 13; 10] ++ bytes "text", d1)
    /\ Transport._q_processStates unit dedup plainEnv d1 = Ok d2
    /\ Transport.state unit d2 = Transport.DataSentState
    /\ exists pre, wire d2 = pre ++ [13; 10; 46; 13; 10].
Proof.
  set (d0 := resultOr (Transport.create unit) goAhead).
  set (data := bytes "Subject: hi" ++ [13; 10; 13; 10] ++ bytes "text").
  set (d1 := resultOr (Transport.create unit)
               (obind (pump [(idleSocket, 0%nat, 8, data)] d0)
                      (fun x => Ok (snd x)))).
  assert (goAhead = Ok d0) as Hd0 by (vm_compute; reflexivity).
  assert (pump [(idleSocket, 0%nat, 8, data)] d0 = Ok (data, d1)) as Hpump
    by (vm_compute; reflexivity).
  assert (Transport.crlfState unit d0 = 0) as Hc by (vm_compute; reflexivity).
  assert (Transport.state unit d1 = Transport.EndOfMessageState) as Hs
    by (vm_compute; reflexivity).
  assert (Transport.queue unit d1 = [0%nat]) as Hq by (vm_compute; reflexivity).
  clearbody d0 d1.
  destruct (message_terminator unit dedup plainEnv _ d0 d1 data 0%nat []
              Hc Hpump Hs Hq eq_refl) as (d2 & Hrun & Hst & _ & Hend).
  exists d0, d1, d2.
  exact (conj Hd0 (conj Hpump (conj Hrun (conj Hst Hend)))).
Defined.


Section WriteTotal.
Variable DateTime : Type.

Lemma writeLoop_total socket r bufferSize : forall fuel k avail d,
  (length avail < fuel)%nat ->
  exists rest d',
    TransportIO.writeLoop DateTime fuel socket k r bufferSize avail d
    = Ok (rest, d')
    /\ (rest = [] /\ Transport.waitingRenderer DateTime d'
                     = Transport.waitingRenderer DateTime d
        \/ Transport.waitingRenderer DateTime d' = Some r).
Proof.
  induction fuel as [ | fuel IH]; intros k avail d Hf; [lia | ].
  cbn [TransportIO.writeLoop]. cbv zeta.
  match goal with |- context [?a <=? 0] =>
    destruct (Z.leb_spec a 0) as [Hmax | Hmax] end.
  { eexists _, _. split; [reflexivity | ]. right. destruct d; reflexivity. }
  destruct (Z.leb_spec (Z.of_nat (length avail)) 0) as [Hlen | Hlen].
  { eexists _, _. split; [reflexivity | ]. left.
    split; [destruct avail; [reflexivity | cbn in Hlen; lia] | reflexivity]. }
  match goal with |- context [if ?a <? ?b then ?a else ?b] =>
    set (size := if a <? b then a else b) in * end.
  assert (0 < size <= Z.of_nat (length avail)) as Hsize.
  { subst size.
    match goal with |- context [?a <? ?b] => destruct (Z.ltb_spec a b) end; lia. }
  match goal with |- context [TransportIO.writeLoop _ _ _ _ _ _ ?a ?x] =>
    destruct (IH (S k) a x) as (rest & d' & Hrun & Hw) end.
  { rewrite length_skipn. lia. }
  exists rest, d'. split; [exact Hrun | ].
  destruct Hw as [[-> Hw] | Hw]; [left | right; exact Hw].
  split; [reflexivity | ]. rewrite Hw. destruct d; reflexivity.
Qed.
End WriteTotal.

(** X9.  [_q_writeMessageData], called on a signal of the renderer, always
    returns: it writes a prefix of the renderer's bytes to the socket,
    [crlfState] follows the written bytes one by one, and either every byte
    went out or the renderer is recorded as waiting for the socket. *)
Theorem writeMessageData_all_or_waiting (DateTime : Type)
    (socket : TransportIO.Socket) (sender : nat) (bufferSize : Z)
    (avail : list Z) (d : Transport.t DateTime) :
  exists w rest d',
    TransportIO._q_writeMessageData DateTime socket sender bufferSize avail
      (Transport.withWaitingRenderer DateTime None d) = Ok (rest, d')
    /\ avail = w ++ rest
    /\ wire d' = wire d ++ w
    /\ Transport.crlfState DateTime d'
       = fold_left crlfTrack w (Transport.crlfState DateTime d)
    /\ (rest = [] \/ Transport.waitingRenderer DateTime d' = Some sender).
Proof.
  destruct (writeLoop_total DateTime socket sender bufferSize (S (length avail)) 0
              avail (Transport.withWaitingRenderer DateTime None
                       (Transport.withWaitingRenderer DateTime None d))
              ltac:(lia)) as (rest & d' & Hrun & Hw).
  assert (TransportIO._q_writeMessageData DateTime socket sender bufferSize avail
            (Transport.withWaitingRenderer DateTime None d) = Ok (rest, d')) as Hcall.
  { unfold TransportIO._q_writeMessageData. cbv zeta.
    replace (Transport.waitingRenderer DateTime
               (Transport.withWaitingRenderer DateTime None d)) with (@None nat)
      by (destruct d; reflexivity).
    exact Hrun. }
  destruct (writeMessageData_tracks DateTime _ _ _ _ _ _ _ Hcall)
    as (w & H1 & H2 & H3 & _).
  exists w, rest, d'. split; [exact Hcall | ]. split; [exact H1 | ].
  split; [rewrite H2; destruct d; reflexivity | ].
  split; [rewrite H3; destruct d; reflexivity | ].
  destruct Hw as [[-> _] | Hw]; [left; reflexivity | right; exact Hw].
Qed.

(** * Progress *)

(** X10.  Progress of a message.  With [processed] chunks of [total] done,
    [0 <= processed <= total], [0 < total], a head transaction,
    [0 <= processedMessages < totalMessages], and [total] and
    [totalMessages] at most 21474836, so that the products by 100 fit an
    [int], the transaction emits [progressUpdate] with the percentage of
    the chunks, between 0 and 100, and the transport emits one between the
    share of the messages done and the share reached with this message,
    never above 100. *)
Theorem messageProgress_bounds (DateTime : Type) (processed total : Z)
    (d : Transport.t DateTime) (i : nat) (rest : list nat)
    (r : Transaction.t DateTime) :
  0 <= processed <= total -> 0 < total -> total <= 21474836 ->
  Transport.queue DateTime d = i :: rest ->
  Transport.store DateTime d !! i = Some r ->
  0 <= Transport.processedMessages DateTime d
    < Transport.totalMessages DateTime d ->
  Transport.totalMessages DateTime d <= 21474836 ->
  exists p q d',
    TransportIO._q_messageProgress DateTime processed total d = Ok d'
    /\ p = processed * 100 / total /\ 0 <= p <= 100
    /\ q = (Transport.processedMessages DateTime d * 100 + p)
           / Transport.totalMessages DateTime d
    /\ Transport.store DateTime d' !! i
       = Some (Transaction.emit (Transaction.SigProgressUpdate p) r)
    /\ Transport.log DateTime d'
       = Transport.log DateTime d ++ [Transport.EmitProgressUpdate q]
    /\ Transport.processedMessages DateTime d * 100
         / Transport.totalMessages DateTime d <= q
    /\ q <= (Transport.processedMessages DateTime d + 1) * 100
              / Transport.totalMessages DateTime d
    /\ q <= 100.
Proof.
  intros Hp Ht Htmax Hq Hr Hpm Htm.
  set (p := processed * 100 / total).
  assert (0 <= p <= 100) as Hprange.
  { subst p. split; [apply Z.div_pos; lia | ].
    apply Z.div_le_upper_bound; lia. }
  set (pm := Transport.processedMessages DateTime d) in *.
  set (tm := Transport.totalMessages DateTime d) in *.
  set (q := (pm * 100 + p) / tm).
  assert (pm * 100 / tm <= q) as Hq1.
  { subst q. apply Z.div_le_mono; lia. }
  assert (q <= (pm + 1) * 100 / tm) as Hq2.
  { subst q. apply Z.div_le_mono; lia. }
  assert (q <= 100) as Hq3.
  { subst q. apply Z.div_le_upper_bound; nia. }
  exists p, q. unfold TransportIO._q_messageProgress.
  unfold TransportIO.isInt.
  replace (negb ((-2147483648 <=? processed * 100) && (processed * 100 <=? 2147483647))
           || (total =? 0)) with false by lia.
  rewrite Z.quot_div_nonneg by lia. fold p.
  replace (100 <? p) with false by lia.
  rewrite Hq, Hr. cbv zeta.
  assert (Transport.processedMessages DateTime
            (Transport.withStore DateTime
               (<[i:=Transaction.setProgress p r]> (Transport.store DateTime d)) d)
          = pm) as -> by (destruct d; reflexivity).
  assert (Transport.totalMessages DateTime
            (Transport.withStore DateTime
               (<[i:=Transaction.setProgress p r]> (Transport.store DateTime d)) d)
          = tm) as -> by (destruct d; reflexivity).
  replace (negb ((-2147483648 <=? pm * 100) && (pm * 100 <=? 2147483647))
           || negb ((-2147483648 <=? pm * 100 + p) && (pm * 100 + p <=? 2147483647))
           || (tm =? 0)) with false by lia.
  rewrite Z.quot_div_nonneg by lia. fold q.
  replace (100 <? q) with false by lia.
  eexists. split; [reflexivity | ].
  split; [reflexivity | ]. split; [exact Hprange | ].
  split; [reflexivity | ].
  split.
  - destruct d; cbn in *. apply list_lookup_insert_eq.
    eapply lookup_lt_Some. exact Hr.
  - split; [destruct d; reflexivity | ]. repeat split; assumption.
Qed.


Lemma messageProgress_bounds_witness :
  exists d0 d',
    goAhead = Ok d0
    /\ TransportIO._q_messageProgress unit 1 3 d0 = Ok d'
    /\ Transport.log unit d'
       = Transport.log unit d0 ++ [Transport.EmitProgressUpdate 33].
Proof.
  set (d0 := resultOr (Transport.create unit) goAhead).
  set (r := default (Transaction.createInstance twoRecipients)
                    (Transport.store unit d0 !! 0%nat)).
  assert (goAhead = Ok d0) as Hd0 by (vm_compute; reflexivity).
  assert (Transport.queue unit d0 = [0%nat]) as Hq by (vm_compute; reflexivity).
  assert (Transport.store unit d0 !! 0%nat = Some r) as Hr
    by (vm_compute; reflexivity).
  assert (Transport.processedMessages unit d0 = 0) as Hpm
    by (vm_compute; reflexivity).
  assert (Transport.totalMessages unit d0 = 1) as Htm
    by (vm_compute; reflexivity).
  clearbody d0 r.
  destruct (messageProgress_bounds unit 1 3 d0 0%nat [] r ltac:(lia) ltac:(lia)
              ltac:(lia) Hq Hr ltac:(rewrite Hpm, Htm; lia)
              ltac:(rewrite Htm; lia))
    as (p & q & d' & Hrun & Hp & _ & Hqv & _ & Hlog & _).
  rewrite Hpm, Htm, Hp in Hqv. change ((0 * 100 + 1 * 100 / 3) / 1) with 33 in Hqv.
  rewrite Hqv in Hlog.
  exists d0, d'. exact (conj Hd0 (conj Hrun Hlog)).
Defined.


(** * The loop of the state machine ends *)

Section Termination.
Import Transport.
Variable DateTime : Type.
Variable qsetOrder : list (list Z) -> list (list Z).

Local Abbreviation T := (Transport.t DateTime).

Lemma transactionFinished_no_fuel i (d : T) :
  _q_transactionFinished DateTime i d <> Fuel.
Proof.
  unfold _q_transactionFinished. cbv zeta.
  match goal with |- context [if ?c then _ else _] => destruct c end;
    discriminate.
Qed.

Lemma finalizeWith_no_fuel f i (d : T) : finalizeWith DateTime f i d <> Fuel.
Proof.
  unfold finalizeWith. destruct (store DateTime d !! i); [ | discriminate].
  cbv zeta. match goal with |- context [if ?c then _ else _] => destruct c end;
    [apply transactionFinished_no_fuel | discriminate].
Qed.

Lemma finalizeQueueLoop_no_fuel error text : forall n (d : T),
  (length (queue DateTime d) <= n)%nat ->
  finalizeQueueLoop DateTime n error text d <> Fuel.
Proof.
  induction n as [ | n IH]; intros d Hn; cbn [finalizeQueueLoop].
  - destruct (queue DateTime d); [discriminate | cbn in Hn; lia].
  - destruct (queue DateTime d) as [ | i rest] eqn:Hq; [discriminate | ].
    cbv zeta.
    match goal with |- obind ?x _ <> _ => destruct x as [d1 | | ] eqn:Hf end;
      cbn [obind]; [ | discriminate | ].
    + apply IH. apply finalizeWith_state in Hf as [_ Hq1]. rewrite Hq1.
      destruct d; cbn in *. lia.
    + exfalso. exact (finalizeWith_no_fuel _ _ _ Hf).
Qed.

Lemma finalizeQueue_no_fuel error text (d : T) :
  finalizeQueue DateTime error text d <> Fuel.
Proof. apply finalizeQueueLoop_no_fuel. lia. Qed.

Lemma setupTransaction_shortens env (d : T) :
  setupTransaction DateTime qsetOrder env d <> Fuel
  /\ forall d', setupTransaction DateTime qsetOrder env d = Ok (false, d') ->
                (length (queue DateTime d') < length (queue DateTime d))%nat.
Proof.
  unfold setupTransaction.
  destruct (queue DateTime d) as [ | i rest] eqn:Hq; [split; discriminate | ].
  destruct (store DateTime d !! i) as [r | ]; [ | split; discriminate].
  cbv zeta.
  repeat match goal with
         | |- context [if ?c then _ else _] => destruct c
         end;
    try (split; discriminate);
    match goal with
    | |- context [finalizeWith DateTime ?f ?i ?x] =>
        destruct (finalizeWith DateTime f i x) as [d1 | | ] eqn:Hf;
        cbn [obind]; (split; [ | intros d' H]); try discriminate;
        [ injection H as <-; apply finalizeWith_state in Hf as [_ ->];
          cbn; lia
        | exfalso; exact (finalizeWith_no_fuel _ _ _ Hf) ]
    end.
Qed.

Lemma readyToSend_no_fuel env : forall n (d : T),
  (length (queue DateTime d) <= n)%nat ->
  readyToSend DateTime qsetOrder n env d <> Fuel.
Proof.
  induction n as [ | n IH]; intros d Hn; cbn [readyToSend].
  - destruct (queue DateTime d); [discriminate | cbn in Hn; lia].
  - destruct (queue DateTime d) as [ | i rest] eqn:Hq; [discriminate | ].
    destruct (setupTransaction_shortens env d) as [Hnf Hshort].
    destruct (setupTransaction DateTime qsetOrder env d) as [[[] d1] | | ];
      cbn [obind]; try discriminate; [ | contradiction].
    apply IH. specialize (Hshort d1 eq_refl). rewrite Hq in Hshort.
    cbn in Hshort, Hn. lia.
Qed.

(** A pass never stops for want of passes of an inner loop, and a pass
    that ends in [continue] has moved to a state of lower rank. *)
Lemma pass_rank env code (d : T) :
  pass DateTime qsetOrder env code d <> Broken DateTime false
  /\ forall d1, pass DateTime qsetOrder env code d = Continue DateTime d1 ->
                (rank (state DateTime d1) < rank (state DateTime d))%nat.
Proof.
  pose proof (fun e t x => finalizeQueue_no_fuel e t x) as Hfq.
  pose proof (fun f i x => finalizeWith_no_fuel f i x) as Hfw.
  pose proof (fun n x H => readyToSend_no_fuel env n x H) as Hrts.
  unfold pass. cbv zeta.
  destruct (state DateTime d) eqn:Hs;
    cbn [isState stateIndex Z.eqb Pos.eqb andb orb Z.leb Z.compare
         Pos.compare Pos.compare_cont];
    unfold passOf, quitAndClose;
    repeat match goal with
           | |- context [if ?c then _ else _] => destruct c eqn:?
           | |- context [match ?x with _ => _ end] =>
               match type of x with
               | outcome _ => destruct x eqn:?
               | list _ => destruct x eqn:?
               | option _ => destruct x eqn:?
               | TlsLevel => destruct x eqn:?
               | AuthMech => destruct x eqn:?
               end
           end;
    (split; [try discriminate | intros d1 H; try discriminate]);
    try (injection H as <-; cbn; lia);
    try match goal with
        | Hf : finalizeQueue _ _ _ _ = Fuel |- _ =>
            exfalso; exact (Hfq _ _ _ Hf)
        | Hf : finalizeWith _ _ _ _ = Fuel |- _ =>
            exfalso; exact (Hfw _ _ _ Hf)
        | Hf : readyToSend _ _ _ _ _ = Fuel |- _ =>
            exfalso; apply (Hrts _ _ ltac:(reflexivity) Hf)
        end.
Qed.

Lemma processLoop_no_fuel env code : forall fuel (d : T),
  (rank (state DateTime d) <= fuel)%nat ->
  processLoop DateTime qsetOrder fuel env code d <> Fuel.
Proof.
  induction fuel as [ | fuel IH]; intros d Hr.
  - destruct (state DateTime d); cbn in Hr; lia.
  - cbn [processLoop]. destruct (pass_rank env code d) as [Hnb Hlt].
    destruct (pass DateTime qsetOrder env code d) as [d1 | d1 | []];
      try discriminate; [ | contradiction].
    apply IH. specialize (Hlt d1 eq_refl). lia.
Qed.
End Termination.

(** * The end of a connection *)

Section Disconnected.
Import Transport.
Variable DateTime : Type.
Variable qsetOrder : list (list Z) -> list (list Z).

Local Abbreviation T := (Transport.t DateTime).

Lemma transactionFinished_response i (d d' : T) :
  _q_transactionFinished DateTime i d = Ok d' ->
  response DateTime d' = response DateTime d.
Proof.
  unfold _q_transactionFinished. cbv zeta.
  match goal with |- context [if ?c then _ else _] => destruct c end;
    [discriminate | ].
  intros H. injection H as <-. destruct d; reflexivity.
Qed.

Lemma finalizeWith_response f i (d d' : T) :
  finalizeWith DateTime f i d = Ok d' ->
  response DateTime d' = response DateTime d.
Proof.
  unfold finalizeWith. destruct (store DateTime d !! i); [ | discriminate].
  cbv zeta. match goal with |- context [if ?c then _ else _] => destruct c end.
  - intros H. apply transactionFinished_response in H. rewrite H.
    destruct d; reflexivity.
  - intros H. injection H as <-. destruct d; reflexivity.
Qed.

Lemma finalizeQueueLoop_store error text : forall n (d d' : T),
  finalizeQueueLoop DateTime n error text d = Ok d' ->
  NoDup (queue DateTime d) ->
  queue DateTime d' = []
  /\ response DateTime d' = response DateTime d
  /\ (forall i, i ∈ queue DateTime d ->
        exists r, store DateTime d !! i = Some r
                  /\ store DateTime d' !! i
                     = Some (flushed error text (response DateTime d) r))
  /\ (forall j, j ∉ queue DateTime d ->
        store DateTime d' !! j = store DateTime d !! j).
Proof.
  induction n as [ | n IH]; intros d d' H Hnd; cbn [finalizeQueueLoop] in H.
  - destruct (queue DateTime d) as [ | i rest] eqn:Hq; [ | discriminate].
    injection H as <-. rewrite Hq.
    split; [reflexivity | ]. split; [reflexivity | ].
    split; [intros i Hi; inversion Hi | reflexivity].
  - destruct (queue DateTime d) as [ | i rest] eqn:Hq.
    { injection H as <-. rewrite Hq.
      split; [reflexivity | ]. split; [reflexivity | ].
      split; [intros i Hi; inversion Hi | reflexivity]. }
    cbv zeta in H.
    match type of H with obind ?x _ = _ => destruct x as [d1 | | ] eqn:Hf end;
      try discriminate.
    cbn [obind] in H.
    pose proof (finalizeWith_response _ _ _ _ Hf) as Hresp.
    apply finalizeWith_frame in Hf as (r & Hr & Hs & Hq1).
    assert (queue DateTime d1 = rest) as Hrest by (rewrite Hq1; destruct d; reflexivity).
    assert (response DateTime d1 = response DateTime d) as Hresp'
      by (rewrite Hresp; destruct d; reflexivity).
    assert (store DateTime d !! i = Some r) as Hr' by (destruct d; exact Hr).
    assert (store DateTime d1 = <[i := flushed error text (response DateTime d) r]>
                                  (store DateTime d)) as Hs'.
    { rewrite Hs. unfold flushed. destruct d; reflexivity. }
    apply NoDup_cons in Hnd as [Hni Hnd].
    destruct (IH d1 d' H ltac:(rewrite Hrest; exact Hnd)) as (K1 & K2 & K3 & K4).
    rewrite Hrest in K3, K4. rewrite Hresp' in K2, K3.
    split; [exact K1 | ]. split; [exact K2 | ]. split.
    + intros j Hj. apply elem_of_cons in Hj as [-> | Hj].
      * exists r. split; [exact Hr' | ].
        rewrite (K4 i Hni), Hs'. apply list_lookup_insert_eq.
        eapply lookup_lt_Some. exact Hr'.
      * destruct (K3 j Hj) as (r1 & Hr1 & Hr2).
        assert (j <> i) as Hne by (intros ->; contradiction).
        exists r1. split; [ | exact Hr2].
        rewrite Hs', list_lookup_insert_ne in Hr1 by congruence. exact Hr1.
    + intros j Hj. apply not_elem_of_cons in Hj as [Hne Hj].
      rewrite (K4 j Hj), Hs'. apply list_lookup_insert_ne. congruence.
Qed.

Lemma transactionFinished_timer i (d d' : T) :
  _q_transactionFinished DateTime i d = Ok d' ->
  timerActive DateTime d' = timerActive DateTime d.
Proof.
  unfold _q_transactionFinished. cbv zeta.
  match goal with |- context [if ?c then _ else _] => destruct c end;
    [discriminate | ].
  intros H. injection H as <-. destruct d; reflexivity.
Qed.

Lemma finalizeWith_timer f i (d d' : T) :
  finalizeWith DateTime f i d = Ok d' ->
  timerActive DateTime d' = timerActive DateTime d.
Proof.
  unfold finalizeWith. destruct (store DateTime d !! i); [ | discriminate].
  cbv zeta. match goal with |- context [if ?c then _ else _] => destruct c end.
  - intros H. apply transactionFinished_timer in H. rewrite H.
    destruct d; reflexivity.
  - intros H. injection H as <-. destruct d; reflexivity.
Qed.

Lemma finalizeQueueLoop_timer error text : forall n (d d' : T),
  finalizeQueueLoop DateTime n error text d = Ok d' ->
  timerActive DateTime d' = timerActive DateTime d.
Proof.
  induction n as [ | n IH]; intros d d' H; cbn [finalizeQueueLoop] in H.
  - destruct (queue DateTime d); [ | discriminate]. injection H as <-. reflexivity.
  - destruct (queue DateTime d) as [ | i rest]; [injection H as <-; reflexivity | ].
    cbv zeta in H.
    match type of H with obind ?x _ = _ => destruct x as [d3 | | ] eqn:Hf end;
      try discriminate.
    cbn [obind] in H. rewrite (IH d3 d' H).
    apply finalizeWith_timer in Hf. rewrite Hf. destruct d; reflexivity.
Qed.

Lemma pass_disconnected env code (d : T) :
  state DateTime d = DisconnectedState ->
  pass DateTime qsetOrder env code d
  = match queue DateTime d with
    | _ :: _ =>
        if reachedRTS DateTime d
        then Continue DateTime
               (withState DateTime ConnectingState (timerRestart DateTime d))
        else
          let d := timerStop DateTime d in
          passOf DateTime
            (if interrupted DateTime d
             then finalizeQueue DateTime Transaction.TimeoutError None d
             else if aborted DateTime d
             then finalizeQueue DateTime Transaction.AbortedError None d
             else finalizeQueue DateTime Transaction.ConnectionError
                                (Some (socketErrorString env)) d)
            (fun d => Continue DateTime (withState DateTime FinishedState d))
    | [] => Continue DateTime (withState DateTime FinishedState d)
    end.
Proof. intros Hs. unfold pass. rewrite Hs. reflexivity. Qed.

Lemma pass_finished env code (d : T) :
  state DateTime d = FinishedState ->
  pass DateTime qsetOrder env code d = Return DateTime (act DateTime EmitFinished d).
Proof. intros Hs. unfold pass. rewrite Hs. reflexivity. Qed.

Lemma pass_connecting env code (d : T) :
  state DateTime d = ConnectingState ->
  pass DateTime qsetOrder env code d
  = Return DateTime (act DateTime (ConnectToHost (serverAddress DateTime d)
                                                 (serverPort DateTime d)) d).
Proof. intros Hs. unfold pass. rewrite Hs. reflexivity. Qed.

Lemma disconnected_flush env (d d' : T) :
  state DateTime d = DisconnectedState ->
  reachedRTS DateTime d = false ->
  NoDup (queue DateTime d) ->
  _q_processStates DateTime qsetOrder env d = Ok d' ->
  let kind := if interrupted DateTime d then Transaction.TimeoutError
              else if aborted DateTime d then Transaction.AbortedError
              else Transaction.ConnectionError in
  let text := if interrupted DateTime d then None
              else if aborted DateTime d then None
              else Some (socketErrorString env) in
  state DateTime d' = FinishedState
  /\ queue DateTime d' = []
  /\ List.last (log DateTime d') TimerStop = EmitFinished
  /\ (queue DateTime d <> [] -> timerActive DateTime d' = false)
  /\ forall i, i ∈ queue DateTime d ->
       exists r, store DateTime d !! i = Some r
                 /\ store DateTime d' !! i
                    = Some (flushed kind text (response DateTime d) r).
Proof.
  intros Hs Hrts Hnd Hrun kind text.
  unfold _q_processStates in Hrun. cbv zeta in Hrun.
  set (d0 := if timerActive DateTime d then timerRestart DateTime d else d) in Hrun.
  assert (state DateTime d0 = DisconnectedState /\ reachedRTS DateTime d0 = false
          /\ queue DateTime d0 = queue DateTime d
          /\ store DateTime d0 = store DateTime d
          /\ response DateTime d0 = response DateTime d
          /\ interrupted DateTime d0 = interrupted DateTime d
          /\ aborted DateTime d0 = aborted DateTime d)
    as (Hs0 & Hrts0 & Hq0 & Hst0 & Hresp0 & Hint0 & Hab0).
  { subst d0. destruct (timerActive DateTime d); destruct d; cbn in *;
      repeat split; assumption. }
  cbn [processLoop] in Hrun. rewrite (pass_disconnected env _ d0 Hs0) in Hrun.
  rewrite Hq0, Hrts0 in Hrun.
  destruct (queue DateTime d) as [ | i0 rest] eqn:Hq.
  - rewrite pass_finished in Hrun by (destruct d0; reflexivity).
    injection Hrun as <-.
    split; [destruct d0; exact eq_refl | ].
    split; [destruct d0; cbn in *; exact Hq0 | ].
    split; [destruct d0; cbn; apply last_last | ].
    split; [intros H; contradiction | intros i Hi; inversion Hi].
  - cbv zeta in Hrun.
    set (d1 := timerStop DateTime d0) in Hrun.
    assert (queue DateTime d1 = i0 :: rest /\ store DateTime d1 = store DateTime d
            /\ response DateTime d1 = response DateTime d
            /\ interrupted DateTime d1 = interrupted DateTime d
            /\ aborted DateTime d1 = aborted DateTime d
            /\ timerActive DateTime d1 = false)
      as (Hq1 & Hst1 & Hresp1 & Hint1 & Hab1 & Hta1).
    { subst d1. destruct d0; cbn in *. repeat split; assumption. }
    rewrite Hint1, Hab1 in Hrun. fold kind text in Hrun.
    assert (exists d2,
              finalizeQueue DateTime kind text d1 = Ok d2
              /\ processLoop DateTime qsetOrder 7 env
                   (code (response DateTime d))
                   (withState DateTime FinishedState d2) = Ok d')
      as (d2 & Hfin & Hrun').
    { subst kind text.
      destruct (interrupted DateTime d); [ | destruct (aborted DateTime d)];
        match type of Hrun with
        | context [finalizeQueue DateTime ?k ?t ?x] =>
            destruct (finalizeQueue DateTime k t x) as [d2 | | ] eqn:Hfin;
            cbn [passOf] in Hrun; try discriminate;
            exists d2; split; [reflexivity | exact Hrun]
        end. }
    cbn [processLoop] in Hrun'.
    rewrite pass_finished in Hrun' by (destruct d2; reflexivity).
    injection Hrun' as <-.
    pose proof (finalizeQueueLoop_state _ _ _ _ _ _ Hfin) as Hstate.
    assert (timerActive DateTime d2 = false) as Hta2
      by (rewrite (finalizeQueueLoop_timer _ _ _ _ _ Hfin); exact Hta1).
    apply finalizeQueueLoop_store in Hfin as (K1 & K2 & K3 & _);
      [ | rewrite Hq1; exact Hnd].
    split; [destruct d2; reflexivity | ].
    split; [destruct d2; exact K1 | ].
    split; [destruct d2; cbn; apply last_last | ].
    split; [intros _; destruct d2; exact Hta2 | ].
    intros i Hi. rewrite Hq1, Hst1, Hresp1 in K3.
    destruct (K3 i Hi) as (r & Hr1 & Hr2).
    exists r. split; [exact Hr1 | ]. destruct d2; exact Hr2.
Qed.

(** X12.  A connection that ends after the session was ready to send.
    With transactions left in the queue the state machine connects again
    and finalises nothing, whether the connection was lost, the timer
    fired or [abort()] was called: it restarts the timer, calls
    [connectToHost] with the stored address and port, and waits in
    ConnectingState. *)
Theorem disconnect_after_ready_reconnects env (d : T) :
  state DateTime d = DisconnectedState ->
  reachedRTS DateTime d = true ->
  queue DateTime d <> [] ->
  exists d',
    _q_processStates DateTime qsetOrder env d = Ok d'
    /\ state DateTime d' = ConnectingState
    /\ queue DateTime d' = queue DateTime d
    /\ store DateTime d' = store DateTime d
    /\ timerActive DateTime d' = true
    /\ log DateTime d'
       = log DateTime d
         ++ (if timerActive DateTime d then [TimerRestart] else [])
         ++ [TimerRestart;
             ConnectToHost (serverAddress DateTime d) (serverPort DateTime d)].
Proof.
  intros Hs Hrts Hq. unfold _q_processStates. cbv zeta.
  set (d0 := if timerActive DateTime d then timerRestart DateTime d else d).
  assert (state DateTime d0 = DisconnectedState /\ reachedRTS DateTime d0 = true
          /\ queue DateTime d0 = queue DateTime d) as (Hs0 & Hrts0 & Hq0).
  { subst d0. destruct (timerActive DateTime d); destruct d; cbn in *;
      repeat split; assumption. }
  cbn [processLoop]. rewrite (pass_disconnected env _ d0 Hs0), Hq0, Hrts0.
  destruct (queue DateTime d) as [ | i rest] eqn:Hqd; [contradiction | ].
  rewrite pass_connecting by (destruct d0; reflexivity).
  eexists. split; [reflexivity | ].
  subst d0. destruct d; cbn in *. subst.
  destruct timerActive0; cbn; rewrite <- ?app_assoc; repeat split; reflexivity.
Qed.
End Disconnected.

Lemma disconnect_after_ready_reconnects_witness :
  exists d0 d',
    goAhead = Ok d0
    /\ Transport._q_processStates unit dedup plainEnv
         (Transport._q_stateChanged unit Transport.SocketUnconnected
            (Transport.abort unit d0)) = Ok d'
    /\ Transport.state unit d' = Transport.ConnectingState
    /\ Transport.queue unit d' = [0%nat].
Proof.
  set (d0 := resultOr (Transport.create unit) goAhead).
  set (d := Transport._q_stateChanged unit Transport.SocketUnconnected
              (Transport.abort unit d0)).
  assert (goAhead = Ok d0) as Hd0 by (vm_compute; reflexivity).
  assert (Transport.state unit d = Transport.DisconnectedState) as Hs
    by (vm_compute; reflexivity).
  assert (Transport.reachedRTS unit d = true) as Hrts
    by (vm_compute; reflexivity).
  assert (Transport.queue unit d = [0%nat]) as Hq by (vm_compute; reflexivity).
  assert (d = Transport._q_stateChanged unit Transport.SocketUnconnected
                (Transport.abort unit d0)) as Hd by reflexivity.
  clearbody d.
  destruct (disconnect_after_ready_reconnects unit dedup plainEnv d Hs Hrts
              ltac:(rewrite Hq; discriminate))
    as (d' & Hrun & Hst & Hq' & _).
  rewrite Hq in Hq'. rewrite Hd in Hrun.
  exists d0, d'. exact (conj Hd0 (conj Hrun (conj Hst Hq'))).
Defined.


(** * Replies the state machine does not expect *)

Section Reject.
Import Transport.
Variable DateTime : Type.
Variable qsetOrder : list (list Z) -> list (list Z).
Local Abbreviation T := (Transport.t DateTime).

Lemma pass_reject env c (d : T) i rest :
  (state DateTime d = MailFromState /\ c <> 250)
  \/ (state DateTime d = RcptToState /\ c <> 250)
  \/ (state DateTime d = DataState /\ c <> 354)
  \/ (state DateTime d = DataSentState /\ c <> 250) ->
  queue DateTime d = i :: rest ->
  pass DateTime qsetOrder env c d
  = passOf DateTime
      (finalizeWith DateTime
         (fun x => Transaction.setError Transaction.ResponseError None
                     (Transaction.setStatus c (lines (response DateTime d)) x))
         i (withQueue DateTime rest d))
      (fun d => Return DateTime (withState DateTime ReadyToSendState
                                   (write DateTime (bytes "RSET") d))).
Proof.
  intros Hcase Hq. unfold pass. cbv zeta. rewrite Hq.
  destruct Hcase as [[-> Hc] | [[-> Hc] | [[-> Hc] | [-> Hc]]]];
    cbn [isState stateIndex Z.eqb Pos.eqb andb orb Z.leb Z.compare
         Pos.compare Pos.compare_cont];
    rewrite ?(proj2 (Z.eqb_neq _ _) Hc); reflexivity.
Qed.

Lemma finalizeWith_ok f i (d : T) r :
  store DateTime d !! i = Some r ->
  totalMessages DateTime d <> 0 ->
  exists d',
    finalizeWith DateTime f i d = Ok d'
    /\ state DateTime d' = state DateTime d
    /\ queue DateTime d' = queue DateTime d
    /\ store DateTime d' = <[i := Transaction.finalize (f r)]> (store DateTime d)
    /\ written DateTime d' = written DateTime d.
Proof.
  intros Hr Ht. unfold finalizeWith. rewrite Hr. cbv zeta.
  match goal with |- context [if ?c then _ else _] => destruct c end.
  - unfold _q_transactionFinished. cbv zeta.
    match goal with |- context [if ?c =? 0 then _ else _] =>
      replace (c =? 0) with false
        by (symmetry; apply Z.eqb_neq; destruct d; exact Ht) end.
    eexists. split; [reflexivity | ].
    destruct d; unfold written; cbn. rewrite !flat_map_app. cbn.
    rewrite !app_nil_r. repeat split; reflexivity.
  - eexists. split; [reflexivity | ]. destruct d; repeat split; reflexivity.
Qed.

(** X13.  An unexpected reply inside a transaction.  When the server
    answers MAIL FROM, RCPT TO or the final dot with something else than
    250, or DATA with something else than 354, the transaction at the
    head of the queue gets the status of the reply and ResponseError, is
    finalised and leaves the queue; the transport writes RSET and is
    ready for the next message. *)
Theorem response_error_rejects_message env (resp : SmtpResponse) (d : T) i rest r :
  (state DateTime d = MailFromState /\ code resp <> 250)
  \/ (state DateTime d = RcptToState /\ code resp <> 250)
  \/ (state DateTime d = DataState /\ code resp <> 354)
  \/ (state DateTime d = DataSentState /\ code resp <> 250) ->
  queue DateTime d = i :: rest ->
  store DateTime d !! i = Some r ->
  totalMessages DateTime d <> 0 ->
  exists d',
    respond DateTime qsetOrder env resp d = Ok d'
    /\ state DateTime d' = ReadyToSendState
    /\ queue DateTime d' = rest
    /\ store DateTime d'
       = <[i := Transaction.finalize
                  (Transaction.setError Transaction.ResponseError None
                     (Transaction.setStatus (code resp) (lines resp) r))]>
           (store DateTime d)
    /\ written DateTime d' = written DateTime d ++ [bytes "RSET" ++ [13; 10]].
Proof.
  intros Hcase Hq Hr Ht. unfold respond, _q_processStates. cbv zeta.
  set (d1 := if timerActive DateTime (withResponse DateTime resp d)
             then timerRestart DateTime (withResponse DateTime resp d)
             else withResponse DateTime resp d).
  assert (state DateTime d1 = state DateTime d /\ queue DateTime d1 = i :: rest
          /\ store DateTime d1 = store DateTime d
          /\ totalMessages DateTime d1 = totalMessages DateTime d
          /\ response DateTime d1 = resp
          /\ written DateTime d1 = written DateTime d)
    as (Hs1 & Hq1 & Hst1 & Ht1 & Hr1 & Hw1).
  { subst d1. destruct d; cbn in *. destruct timerActive0; unfold written; cbn;
      rewrite ?flat_map_app; cbn; rewrite ?app_nil_r; repeat split; assumption. }
  replace (code (response DateTime (withResponse DateTime resp d))) with (code resp)
    by (destruct d; reflexivity).
  cbn [processLoop].
  rewrite (pass_reject env (code resp) d1 i rest) by (rewrite ?Hs1; assumption).
  rewrite Hr1.
  destruct (finalizeWith_ok
              (fun x => Transaction.setError Transaction.ResponseError None
                          (Transaction.setStatus (code resp) (lines resp) x))
              i (withQueue DateTime rest d1) r)
    as (d2 & Hfin & Hs2 & Hq2 & Hst2 & Hw2).
  { destruct d1; cbn in *. rewrite Hst1. exact Hr. }
  { destruct d1; cbn in *. rewrite Ht1. exact Ht. }
  rewrite Hfin. cbn [passOf obind]. eexists. split; [reflexivity | ].
  split; [destruct d2; reflexivity | ].
  split; [destruct d2, d1; cbn in *; exact Hq2 | ].
  split.
  - destruct d2, d1; cbn in *. rewrite Hst2, Hst1. reflexivity.
  - assert (written DateTime d2 = written DateTime d) as Hw.
    { rewrite Hw2, <- Hw1. destruct d1; reflexivity. }
    rewrite <- Hw. destruct d2; unfold written, write, act; cbn.
    rewrite flat_map_app. reflexivity.
Qed.
End Reject.

Lemma response_error_rejects_message_witness :
  exists d0 d',
    mailFromSent = Ok d0
    /\ Transport.respond unit dedup plainEnv (reply 550 [bytes "no"]) d0 = Ok d'
    /\ Transport.state unit d' = Transport.ReadyToSendState
    /\ Transport.queue unit d' = []
    /\ Transport.written unit d'
       = Transport.written unit d0 ++ [bytes "RSET" ++ [13; 10]].
Proof.
  set (d0 := resultOr (Transport.create unit) mailFromSent).
  set (r := default (Transaction.createInstance twoRecipients)
                    (Transport.store unit d0 !! 0%nat)).
  assert (mailFromSent = Ok d0) as Hd0 by (vm_compute; reflexivity).
  assert (Transport.state unit d0 = Transport.MailFromState) as Hs
    by (vm_compute; reflexivity).
  assert (Transport.queue unit d0 = [0%nat]) as Hq by (vm_compute; reflexivity).
  assert (Transport.store unit d0 !! 0%nat = Some r) as Hr
    by (vm_compute; reflexivity).
  assert (Transport.totalMessages unit d0 <> 0) as Ht
    by (vm_compute; discriminate).
  clearbody d0 r.
  destruct (response_error_rejects_message unit dedup plainEnv
              (reply 550 [bytes "no"]) d0 0%nat [] r
              ltac:(left; split; [exact Hs | discriminate]) Hq Hr Ht)
    as (d' & Hrun & Hst & Hq' & _ & Hw).
  exists d0, d'. exact (conj Hd0 (conj Hrun (conj Hst (conj Hq' Hw)))).
Defined.


(** * The reply to EHLO *)

Section Extensions.
Import Transport.
Variable DateTime : Type.
Local Abbreviation T := (Transport.t DateTime).

Lemma enumLine_cases (d : T) (l : list Z) :
  authMech DateTime (enumLine DateTime d l) = authMech DateTime d
  /\ (firstWord l = bytes "STARTTLS" ->
      hasStartTls DateTime (enumLine DateTime d l) = true
      /\ hasAuth DateTime (enumLine DateTime d l) = hasAuth DateTime d
      /\ selectedAuthMech DateTime (enumLine DateTime d l)
         = selectedAuthMech DateTime d)
  /\ (firstWord l = bytes "AUTH" ->
      hasStartTls DateTime (enumLine DateTime d l) = hasStartTls DateTime d
      /\ hasAuth DateTime (enumLine DateTime d l) = true
      /\ selectedAuthMech DateTime (enumLine DateTime d l)
         = match authMech DateTime d with
           | AutoSelectMech =>
               if offered l (bytes "CRAM-MD5") then CramMd5Mech
               else if offered l (bytes "LOGIN") then LoginMech
               else if offered l (bytes "PLAIN") then PlainMech
               else DisabledMech
           | m => m
           end)
  /\ (firstWord l <> bytes "STARTTLS" -> firstWord l <> bytes "AUTH" ->
      enumLine DateTime d l = d).
Proof.
  unfold enumLine, firstWord, offered. cbv zeta.
  destruct (bool_decide_reflect (nth 0 (split 32 l) [] = bytes "STARTTLS"))
    as [Htls | Htls].
  { split; [destruct d; reflexivity | ]. split.
    - intros _. destruct d; repeat split; reflexivity.
    - split; [ | intros H; contradiction].
      intros H. rewrite H in Htls. discriminate. }
  destruct (bool_decide_reflect (nth 0 (split 32 l) [] = bytes "AUTH"))
    as [Hauth | Hauth].
  - assert (isMech (authMech DateTime (withHasAuth DateTime true d)) AutoSelectMech
            = isMech (authMech DateTime d) AutoSelectMech) as -> by (destruct d; reflexivity).
    assert (authMech DateTime (withHasAuth DateTime true d) = authMech DateTime d)
      as -> by (destruct d; reflexivity).
    split; [ | split; [intros H; contradiction | split; [ | intros _ H; contradiction]]].
    + destruct (authMech DateTime d) eqn:Hm; cbn [isMech];
        repeat match goal with |- context [if ?c then _ else _] => destruct c end;
        destruct d; cbn in *; assumption.
    + intros _.
      destruct (authMech DateTime d) eqn:Hm; cbn [isMech];
        repeat match goal with |- context [if ?c then _ else _] => destruct c end;
        destruct d; repeat split; reflexivity.
  - split; [reflexivity | ]. split; [intros H; contradiction | ].
    split; [intros H; contradiction | reflexivity].
Qed.

Lemma fold_enumLine_authMech (ls : list (list Z)) : forall d : T,
  authMech DateTime (fold_left (enumLine DateTime) ls d) = authMech DateTime d.
Proof.
  induction ls as [ | l ls IH]; intros d; [reflexivity | ].
  cbn [fold_left]. rewrite IH. apply enumLine_cases.
Qed.

Lemma fold_enumLine_startTls (ls : list (list Z)) : forall d : T,
  hasStartTls DateTime (fold_left (enumLine DateTime) ls d) = true
  <-> hasStartTls DateTime d = true
      \/ exists l, l ∈ ls /\ firstWord l = bytes "STARTTLS".
Proof.
  induction ls as [ | l ls IH]; intros d; cbn [fold_left].
  - split; [intros H; left; exact H | ].
    intros [H | (l & Hl & _)]; [exact H | inversion Hl].
  - rewrite IH. destruct (enumLine_cases d l) as (_ & Htls & Hauth & Hother).
    destruct (decide (firstWord l = bytes "STARTTLS")) as [H1 | H1].
    + destruct (Htls H1) as (-> & _). split; [ | intros _; left; reflexivity].
      intros _. right. exists l. split; [constructor | exact H1].
    + assert (hasStartTls DateTime (enumLine DateTime d l)
              = hasStartTls DateTime d) as ->.
      { destruct (decide (firstWord l = bytes "AUTH")) as [H2 | H2].
        - apply (Hauth H2).
        - rewrite (Hother H1 H2). reflexivity. }
      split.
      * intros [H | (l' & Hl' & H')]; [left; exact H | ].
        right. exists l'. split; [constructor; exact Hl' | exact H'].
      * intros [H | (l' & Hl' & H')]; [left; exact H | ].
        apply elem_of_cons in Hl' as [-> | Hl']; [contradiction | ].
        right. exists l'. split; assumption.
Qed.

Lemma fold_enumLine_no_auth (ls : list (list Z)) : forall d : T,
  (forall l, l ∈ ls -> firstWord l <> bytes "AUTH") ->
  hasAuth DateTime (fold_left (enumLine DateTime) ls d) = hasAuth DateTime d
  /\ selectedAuthMech DateTime (fold_left (enumLine DateTime) ls d)
     = selectedAuthMech DateTime d.
Proof.
  induction ls as [ | l ls IH]; intros d Hno; cbn [fold_left];
    [split; reflexivity | ].
  destruct (IH (enumLine DateTime d l)) as [-> ->].
  { intros l' Hl'. apply Hno. constructor. exact Hl'. }
  destruct (enumLine_cases d l) as (_ & Htls & _ & Hother).
  assert (firstWord l <> bytes "AUTH") as H2 by (apply Hno; constructor).
  destruct (decide (firstWord l = bytes "STARTTLS")) as [H1 | H1].
  - destruct (Htls H1) as (_ & -> & ->). split; reflexivity.
  - rewrite (Hother H1 H2). split; reflexivity.
Qed.
End Extensions.

(** X14.  The extensions read from the reply to EHLO.  STARTTLS is noted
    exactly when a line has it as its first word.  Without a line that
    starts with AUTH no mechanism is selected.  Otherwise the last such
    line decides: a mechanism fixed by the application is selected whether
    the line lists it or not, and with AutoSelect the choice is CRAM-MD5
    before LOGIN before PLAIN among the words of the line, none when the
    line has none of them. *)
Theorem ehlo_extensions (DateTime : Type) (ls : list (list Z))
    (d : Transport.t DateTime) :
  let d' := Transport.enumExtensions DateTime ls d in
  (Transport.hasStartTls DateTime d' = true
   <-> exists l, l ∈ ls /\ firstWord l = bytes "STARTTLS")
  /\ ((forall l, l ∈ ls -> firstWord l <> bytes "AUTH") ->
      Transport.hasAuth DateTime d' = false
      /\ Transport.selectedAuthMech DateTime d' = DisabledMech)
  /\ (forall pre l post,
        ls = pre ++ l :: post ->
        firstWord l = bytes "AUTH" ->
        (forall l', l' ∈ post -> firstWord l' <> bytes "AUTH") ->
        Transport.hasAuth DateTime d' = true
        /\ Transport.selectedAuthMech DateTime d'
           = match Transport.authMech DateTime d with
             | AutoSelectMech =>
                 if offered l (bytes "CRAM-MD5") then CramMd5Mech
                 else if offered l (bytes "LOGIN") then LoginMech
                 else if offered l (bytes "PLAIN") then PlainMech
                 else DisabledMech
             | m => m
             end).
Proof.
  intros d'. subst d'. unfold Transport.enumExtensions. cbv zeta.
  set (d0 := Transport.withSelectedAuthMech DateTime DisabledMech
               (Transport.withHasAuth DateTime false
                  (Transport.withHasStartTls DateTime false d))).
  assert (Transport.hasStartTls DateTime d0 = false
          /\ Transport.hasAuth DateTime d0 = false
          /\ Transport.selectedAuthMech DateTime d0 = DisabledMech
          /\ Transport.authMech DateTime d0 = Transport.authMech DateTime d)
    as (H1 & H2 & H3 & H4) by (destruct d; repeat split; reflexivity).
  split; [ | split].
  - rewrite fold_enumLine_startTls, H1.
    split; [intros [H | H]; [discriminate | exact H] | intros H; right; exact H].
  - intros Hno. destruct (fold_enumLine_no_auth DateTime ls d0 Hno) as [-> ->].
    split; assumption.
  - intros pre l post -> Hl Hpost. rewrite fold_left_app. cbn [fold_left].
    destruct (fold_enumLine_no_auth DateTime post
                (Transport.enumLine DateTime
                   (fold_left (Transport.enumLine DateTime) pre d0) l) Hpost)
      as [-> ->].
    destruct (enumLine_cases DateTime
                (fold_left (Transport.enumLine DateTime) pre d0) l)
      as (_ & _ & Hauth & _).
    destruct (Hauth Hl) as (_ & -> & ->).
    rewrite fold_enumLine_authMech, H4. split; reflexivity.
Qed.

Lemma ehlo_extensions_witness :
  Transport.hasStartTls unit
    (Transport.enumExtensions unit
       [bytes "mail.example"; bytes "STARTTLS"; bytes "AUTH PLAIN LOGIN"]
       (Transport.create unit)) = true
  /\ Transport.selectedAuthMech unit
       (Transport.enumExtensions unit
          [bytes "mail.example"; bytes "STARTTLS"; bytes "AUTH PLAIN LOGIN"]
          (Transport.create unit)) = LoginMech.
Proof.
  destruct (ehlo_extensions unit
              [bytes "mail.example"; bytes "STARTTLS"; bytes "AUTH PLAIN LOGIN"]
              (Transport.create unit)) as (H1 & _ & H3).
  split.
  - apply H1. exists (bytes "STARTTLS").
    split; [right; left | reflexivity].
  - destruct (H3 [bytes "mail.example"; bytes "STARTTLS"]
                 (bytes "AUTH PLAIN LOGIN") [] eq_refl eq_refl) as [_ H].
    + intros l' Hl'. inversion Hl'.
    + exact H.
Defined.

(** * Header texts *)

(** A property of every byte of a text that is given in full. *)
Ltac forall_bytes tac :=
  match goal with
  | |- Forall ?P ?l =>
      let l' := eval vm_compute in l in
      change (Forall P l'); repeat (constructor; [tac | ]); constructor
  end.

Lemma encodedtext_range (c : Z) :
  0 <= c < 256 -> RfcTools.isENCODEDTEXT c = true ->
  33 <= c <= 126 /\ c <> 95 /\ c <> 63 /\ c <> 32.
Proof.
  intros Hc H.
  pose proof (forall_below
    (fun c => negb (RfcTools.isENCODEDTEXT c)
              || ((33 <=? c) && (c <=? 126) && negb (c =? 95) && negb (c =? 63)
                  && negb (c =? 32)))
    256 eq_refl c Hc) as Hall.
  cbv beta in Hall. rewrite H in Hall. cbn [negb orb] in Hall. lia.
Qed.

Lemma tohex_nibble (n : Z) :
  0 <= n < 16 ->
  let h := nth (Z.to_nat n) RfcTools.tohex 0 in
  33 <= h <= 126 /\ unhex h = Some n.
Proof.
  intros Hn.
  pose proof (forall_below
    (fun n => let h := nth (Z.to_nat n) RfcTools.tohex 0 in
              (33 <=? h) && (h <=? 126)
              && match unhex h with Some m => m =? n | None => false end)
    16 eq_refl n Hn) as Hall.
  cbv beta zeta in Hall. cbv zeta.
  destruct (unhex (nth (Z.to_nat n) RfcTools.tohex 0)) as [m | ]; [ | lia].
  split; [lia | f_equal; lia].
Qed.

Lemma nibbles (c : Z) :
  0 <= c < 256 ->
  0 <= Z.land (Z.shiftr c 4) 15 < 16 /\ 0 <= Z.land c 15 < 16
  /\ Z.land (Z.shiftr c 4) 15 * 16 + Z.land c 15 = c.
Proof.
  intros Hc. change 15 with (Z.ones 4). rewrite !Z.land_ones by lia.
  rewrite Z.shiftr_div_pow2 by lia. change (2 ^ 4) with 16.
  repeat split; Z.div_mod_to_equations; lia.
Qed.

Lemma encodeWords_spec (data : list Z) :
  Forall (fun c => 0 < c < 256) data ->
  Forall (fun c => 33 <= c <= 126 /\ c <> 63) (fst (RfcTools.encodeWords data))
  /\ (snd (RfcTools.encodeWords data) = false ->
      fst (RfcTools.encodeWords data) = data)
  /\ (Forall (fun c => c <> 61) data ->
      decodeQ (fst (RfcTools.encodeWords data)) = Some data).
Proof.
  induction 1 as [ | c data Hc Hdata IH]; cbn [RfcTools.encodeWords].
  - split; [constructor | ]. split; intros _; reflexivity.
  - replace (c =? 0) with false by lia.
    destruct (RfcTools.encodeWords data) as [t isEncoded].
    cbn [fst snd] in IH. destruct IH as (Hsafe & Hplain & Hdec).
    destruct (RfcTools.isENCODEDTEXT c) eqn:Henc; cbn [fst snd].
    + destruct (encodedtext_range c ltac:(lia) Henc) as (Hr & H95 & H63 & H32).
      split; [constructor; [split | ]; assumption | ].
      split; [intros H; rewrite (Hplain H); reflexivity | ].
      intros Hne. inversion Hne as [ | ? ? H61 Hne']; subst.
      cbn [decodeQ]. replace (c =? 95) with false by lia.
      replace (c =? 61) with false by lia. rewrite (Hdec Hne'). reflexivity.
    + destruct (Z.eqb_spec c 32) as [-> | H32]; cbn [fst snd].
      * split; [constructor; [lia | assumption] | ].
        split; [discriminate | ].
        intros Hne. inversion Hne as [ | ? ? H61 Hne']; subst.
        cbn [decodeQ Z.eqb Pos.eqb]. rewrite (Hdec Hne'). reflexivity.
      * destruct (nibbles c ltac:(lia)) as (Hhi & Hlo & Hsum).
        change 0xf with 15.
        destruct (tohex_nibble _ Hhi) as [Hr1 Hu1].
        destruct (tohex_nibble _ Hlo) as [Hr2 Hu2].
        cbv zeta in Hr1, Hu1, Hr2, Hu2.
        assert (forall n, 0 <= n < 16 -> nth (Z.to_nat n) RfcTools.tohex 0 <> 63)
          as Hq.
        { intros n Hn Heq. destruct (tohex_nibble n Hn) as [_ Hu].
          cbv zeta in Hu. rewrite Heq in Hu. discriminate. }
        split; [repeat (constructor; [split; [lia | auto; lia] | ]); assumption | ].
        split; [discriminate | ].
        intros Hne. inversion Hne as [ | ? ? H61 Hne']; subst.
        cbn [decodeQ Z.eqb Pos.eqb]. rewrite Hu1, Hu2, (Hdec Hne'), Hsum.
        reflexivity.
Qed.

(** X15.  The encoded form of a header text.  For a text without a NUL
    byte, every byte of [toEncodedWords] is a printable ASCII character
    other than the space: no control character, no CR or LF, no byte with
    the high bit.  The result is the text itself or one encoded word,
    whose text has no question mark. *)
Theorem toEncodedWords_header_safe (data : list Z) :
  Forall (fun c => 0 < c < 256) data ->
  Forall (fun c => 33 <= c <= 126) (RfcTools.toEncodedWords data)
  /\ (RfcTools.toEncodedWords data = data
      \/ exists t, RfcTools.toEncodedWords data
                   = bytes "=?UTF-8?Q?" ++ t ++ bytes "?="
                   /\ Forall (fun c => c <> 63) t).
Proof.
  intros Hdata. destruct (encodeWords_spec data Hdata) as (Hsafe & Hplain & _).
  unfold RfcTools.toEncodedWords.
  destruct (RfcTools.encodeWords data) as [t isEncoded].
  cbn [fst snd] in Hsafe, Hplain.
  assert (Forall (fun c => 33 <= c <= 126) t) as Hsafe1
    by (eapply Forall_impl; [exact Hsafe | intros c [H _]; exact H]).
  assert (Forall (fun c => c <> 63) t) as Hsafe2
    by (eapply Forall_impl; [exact Hsafe | intros c [_ H]; exact H]).
  destruct isEncoded.
  - split.
    + assert (bytes "=?UTF-8?Q?" = [61; 63; 85; 84; 70; 45; 56; 63; 81; 63]) as ->
        by reflexivity.
      assert (bytes "?=" = [63; 61]) as -> by reflexivity.
      apply Forall_app. split; [repeat (constructor; [lia | ]); constructor | ].
      apply Forall_app.
      split; [exact Hsafe1 | repeat (constructor; [lia | ]); constructor].
    + right. exists t. split; [reflexivity | exact Hsafe2].
  - rewrite <- (Hplain eq_refl). split; [exact Hsafe1 | left; reflexivity].
Qed.

Lemma toEncodedWords_header_safe_witness :
  Forall (fun c => 33 <= c <= 126)
         (RfcTools.toEncodedWords (bytes "Re: caf" ++ [195; 169; 13; 10]))
  /\ RfcTools.toEncodedWords (bytes "Re: caf" ++ [195; 169; 13; 10])
     = bytes "=?UTF-8?Q?Re=3A_caf=C3=A9=0D=0A?=".
Proof.
  split; [ | reflexivity].
  apply (toEncodedWords_header_safe (bytes "Re: caf" ++ [195; 169; 13; 10])).
  forall_bytes lia.
Defined.

(** X16.  An encoded header text reads back.  For a text without a NUL
    byte and without an equals sign, decoding the result of
    [toEncodedWords] (the "Q" decoding of RFC 2047 for an encoded word,
    the text itself otherwise) gives the text.  An equals sign is in the
    table of the bytes that pass as they are, so a text with one is not
    covered. *)
Theorem toEncodedWords_round_trip (data : list Z) :
  Forall (fun c => 0 < c < 256) data ->
  Forall (fun c => c <> 61) data ->
  decodeWord (RfcTools.toEncodedWords data) = Some data.
Proof.
  intros Hdata Hne. destruct (encodeWords_spec data Hdata) as (_ & Hplain & Hdec).
  specialize (Hdec Hne). unfold RfcTools.toEncodedWords.
  destruct (RfcTools.encodeWords data) as [t isEncoded].
  cbn [fst snd] in Hplain, Hdec. destruct isEncoded.
  - unfold decodeWord, stripPrefix.
    rewrite take_app_length, drop_app_length.
    rewrite decide_True by reflexivity.
    unfold stripSuffix. rewrite length_app, Nat.add_sub, drop_app_length.
    rewrite decide_True by reflexivity. rewrite take_app_length. exact Hdec.
  - unfold decodeWord, stripPrefix.
    destruct (decide (take (length (bytes "=?UTF-8?Q?")) data = bytes "=?UTF-8?Q?"))
      as [Hp | Hp]; [ | reflexivity].
    exfalso. destruct data as [ | c data]; [discriminate | ].
    change (bytes "=?UTF-8?Q?") with [61; 63; 85; 84; 70; 45; 56; 63; 81; 63] in Hp.
    cbn [length take] in Hp. injection Hp as Hc _.
    inversion Hne as [ | ? ? H61 _]. contradiction.
Qed.

Lemma toEncodedWords_round_trip_witness :
  decodeWord (RfcTools.toEncodedWords (bytes "Re: caf" ++ [195; 169]))
  = Some (bytes "Re: caf" ++ [195; 169]).
Proof.
  apply (toEncodedWords_round_trip (bytes "Re: caf" ++ [195; 169])).
  - forall_bytes lia.
  - forall_bytes discriminate.
Defined.

(** * Addresses *)

Lemma skipCFWSFrom_suffix : forall (n : nat) (c : list Z) (level : nat) (c' : list Z),
  (length c <= n)%nat ->
  RfcTools.skipCFWSFrom level c = Some c' -> c' `suffix_of` c.
Proof.
  induction n as [ | n IH]; intros c level c' Hn H.
  - destruct c; [ | cbn in Hn; lia]. cbn in H.
    destruct (level =? 0)%nat; [injection H as <-; reflexivity | discriminate].
  - destruct c as [ | x c]; cbn [RfcTools.skipCFWSFrom] in H.
    + destruct (level =? 0)%nat; [injection H as <-; reflexivity | discriminate].
    + cbn [length] in Hn.
      assert (forall lv r, RfcTools.skipCFWSFrom lv c = Some r ->
                           r `suffix_of` x :: c) as Hrec.
      { intros lv r Hr. apply suffix_cons_r. apply (IH c lv r); [lia | exact Hr]. }
      destruct (x =? 0).
      { destruct (level =? 0)%nat; [injection H as <-; reflexivity | discriminate]. }
      destruct (level =? 0)%nat.
      { destruct (RfcTools.isFWS x); [apply (Hrec _ _ H) | ].
        destruct (x =? 40); [apply (Hrec _ _ H) | ].
        injection H as <-. reflexivity. }
      destruct (RfcTools.high x); [discriminate | ].
      destruct (x =? 40); [apply (Hrec _ _ H) | ].
      destruct (x =? 41); [apply (Hrec _ _ H) | ].
      destruct (x =? 92); [ | apply (Hrec _ _ H)].
      destruct c as [ | y c2]; [apply (Hrec _ _ H) | ].
      destruct (y =? 0); [apply (Hrec _ _ H) | ].
      do 2 apply suffix_cons_r. apply (IH c2 level c'); [cbn in Hn; lia | exact H].
Qed.

Lemma skipCFWS_suffix (c c' : list Z) :
  RfcTools.skipCFWS c = Some c' -> c' `suffix_of` c.
Proof. apply (skipCFWSFrom_suffix (length c)). lia. Qed.

Lemma skipQuoted_suffix : forall (n : nat) (c c' : list Z),
  (length c <= n)%nat -> RfcTools.skipQuoted c = Some c' -> c' `suffix_of` c.
Proof.
  induction n as [ | n IH]; intros c c' Hn H.
  - destruct c; [discriminate | cbn in Hn; lia].
  - destruct c as [ | x c]; cbn [RfcTools.skipQuoted] in H; [discriminate | ].
    cbn [length] in Hn.
    assert (forall r, RfcTools.skipQuoted c = Some r -> r `suffix_of` x :: c) as Hrec.
    { intros r Hr. apply suffix_cons_r. apply (IH c r); [lia | exact Hr]. }
    destruct (x =? 0); [discriminate | ].
    destruct (x =? 34); [injection H as <-; apply suffix_cons_r; reflexivity | ].
    destruct (RfcTools.high x); [discriminate | ].
    destruct (x =? 92); [ | apply (Hrec _ H)].
    destruct c as [ | y c2]; [apply (Hrec _ H) | ].
    destruct (y =? 0); [apply (Hrec _ H) | ].
    do 2 apply suffix_cons_r. apply (IH c2 c'); [cbn in Hn; lia | exact H].
Qed.

Lemma skipDotAtom_suffix (c : list Z) : RfcTools.skipDotAtom c `suffix_of` c.
Proof.
  induction c as [ | x c IH]; cbn [RfcTools.skipDotAtom]; [reflexivity | ].
  destruct ((x =? 46) || RfcTools.isATEXT x); [ | reflexivity].
  apply suffix_cons_r. exact IH.
Qed.

Lemma skipWord_suffix (c c' : list Z) :
  RfcTools.skipWord c = Some c' -> c' `suffix_of` c.
Proof.
  unfold RfcTools.skipWord. destruct (RfcTools.cur c =? 34).
  - intros H. apply (skipQuoted_suffix (length (tl c))) in H; [ | lia].
    destruct c; [exact H | apply suffix_cons_r; exact H].
  - intros H. injection H as <-. apply skipDotAtom_suffix.
Qed.

(** X17.  An address that [validateAddrSpec] accepts has an at sign with
    something behind it: a text without [@], or one that ends in [@], is
    never valid. *)
Theorem validateAddrSpec_needs_at (data : list Z) :
  RfcTools.validateAddrSpec data = true ->
  exists l r, data = l ++ 64 :: r /\ r <> [].
Proof.
  unfold RfcTools.validateAddrSpec, RfcTools.andThen.
  destruct (RfcTools.skipCFWS data) as [c1 | ] eqn:H1; [ | discriminate].
  destruct (RfcTools.cur c1 =? 0); [discriminate | ].
  destruct (RfcTools.skipWord c1) as [c2 | ] eqn:H2; [ | discriminate].
  destruct (RfcTools.skipCFWS c2) as [c3 | ] eqn:H3; [ | discriminate].
  destruct (Z.eqb_spec (RfcTools.cur c3) 64) as [H64 | ]; [ | discriminate].
  cbn [negb].
  destruct (RfcTools.skipCFWS (tl c3)) as [c4 | ] eqn:H4; [ | discriminate].
  destruct (Z.eqb_spec (RfcTools.cur c4) 0) as [ | H0]; [discriminate | ].
  intros _.
  apply skipCFWS_suffix in H1, H3, H4. apply skipWord_suffix in H2.
  destruct c3 as [ | x r]; [discriminate | ]. cbn in H64, H4. subst x.
  assert ((64 :: r) `suffix_of` data) as [l ->].
  { etransitivity; [exact H3 | ]. etransitivity; [exact H2 | exact H1]. }
  exists l, r. split; [reflexivity | ].
  intros ->. apply suffix_nil_inv in H4. subst c4. contradiction.
Qed.

Lemma validateAddrSpec_needs_at_witness :
  RfcTools.validateAddrSpec (bytes "a@x") = true
  /\ exists l r, bytes "a@x" = l ++ 64 :: r /\ r <> [].
Proof.
  split; [reflexivity | ].
  apply (validateAddrSpec_needs_at (bytes "a@x")). reflexivity.
Defined.

(** * The Base64 encoder: reads of any size *)

(** X18. Over a byte array, a source with random access as a [QBuffer] is
    (not a sequential one), with folding off or a line width of at least
    four, any series of reads of the Base64 encoder returns: no read stores
    behind the room it was given (whatever sizes are asked for, negative
    ones included), and what the reads deliver together is a prefix of the
    encoding of the whole input. *)
Theorem base64_reads_stay_in_buffer (lw : Z) (B maxlens : list Z) :
  Forall isByte B ->
  lw <= 0 \/ 4 <= lw ->
  exists e' out rest,
    Base64.readAll (Base64.setLineWidth lw (Base64.create (Device.ofBytes B)))
                   maxlens = Ok (e', out)
    /\ fst (Base64Spec.foldLines lw 0 (Base64Spec.encodeChars B)) = out ++ rest.
Proof.
  intros HB Hw.
  assert (Inv lw B [] (Base64.setLineWidth lw (Base64.create (Device.ofBytes B))))
    as Hinv.
  { left. exists [], []. cbn. repeat split; (reflexivity || lia). }
  destruct (readAll_returns lw B HB Hw maxlens _ [] Hinv eq_refl)
    as (e' & out & Hrun & Hinv' & _).
  destruct (Inv_prefix lw B out e' Hinv') as [rest Hrest].
  exists e', out, rest. split; [exact Hrun | exact Hrest].
Qed.

Lemma base64_reads_stay_in_buffer_witness :
  exists e' out rest,
    Base64.readAll (Base64.setLineWidth 4 (Base64.create (Device.ofBytes (bytes "Mann"))))
                   [7; 3; 7; 100] = Ok (e', out)
    /\ fst (Base64Spec.foldLines 4 0 (Base64Spec.encodeChars (bytes "Mann")))
       = out ++ rest.
Proof.
  apply (base64_reads_stay_in_buffer 4 (bytes "Mann") [7; 3; 7; 100]).
  - assert (bytes "Mann" = [77; 97; 110; 110]) as -> by reflexivity.
    repeat constructor; unfold isByte; lia.
  - right. lia.
Defined.

(** X19. Over a byte array, a source with random access as a [QBuffer] is
    (not a sequential one), with folding off or a line width of at least
    four: after any series of reads, a Base64 encoder that has not
    delivered everything answers a read with room for seven bytes or more
    with at least one byte, so a consumer that offers such buffers is never
    stalled. *)
Theorem base64_read_makes_progress (lw : Z) (B maxlens : list Z) (maxlen : Z)
    (e : Base64.t) (out : list Z) :
  Forall isByte B ->
  lw <= 0 \/ 4 <= lw ->
  Base64.readAll (Base64.setLineWidth lw (Base64.create (Device.ofBytes B)))
                 maxlens = Ok (e, out) ->
  Base64.atEnd e = false ->
  6 < maxlen ->
  exists r, Base64.readDataImpl e maxlen = Ok r /\ Base64.data r <> [].
Proof.
  intros HB Hw Hrun Hnot Hmax.
  assert (Inv lw B [] (Base64.setLineWidth lw (Base64.create (Device.ofBytes B))))
    as Hinv.
  { left. exists [], []. cbn. repeat split; (reflexivity || lia). }
  destruct (readAll_returns lw B HB Hw maxlens _ [] Hinv eq_refl)
    as (e' & out' & Hrun' & Hinv' & Hz).
  rewrite Hrun in Hrun'. injection Hrun' as <- <-.
  destruct (readDataImpl_returns lw B HB Hw e maxlen _ Hinv' Hz)
    as (r & Hr & _).
  exists r. split; [exact Hr | ].
  exact (readDataImpl_progress lw B HB e maxlen _ r Hinv' Hz Hnot Hmax Hr).
Qed.

Lemma base64_read_makes_progress_witness :
  exists r,
    Base64.readDataImpl
      (resultOr (Base64.create (Device.ofBytes (bytes "Mann")), [])
         (Base64.readAll (Base64.setLineWidth 4 (Base64.create (Device.ofBytes (bytes "Mann")))) [7; 3])).1 7 = Ok r
    /\ Base64.data r <> [].
Proof.
  apply (base64_read_makes_progress 4 (bytes "Mann") [7; 3] 7 _
           (resultOr (Base64.create (Device.ofBytes (bytes "Mann")), [])
         (Base64.readAll (Base64.setLineWidth 4 (Base64.create (Device.ofBytes (bytes "Mann")))) [7; 3])).2).
  - assert (bytes "Mann" = [77; 97; 110; 110]) as -> by reflexivity.
    repeat constructor; unfold isByte; lia.
  - right. lia.
  - vm_compute. reflexivity.
  - vm_compute. reflexivity.
  - lia.
Defined.

(** * The Base64 encoder: narrow lines *)

Lemma fillQuantum_full b q : Base64.fillQuantum b q 3 = (b, q, 3).
Proof. destruct b; reflexivity. Qed.

Lemma put_cases (e : Base64.t) c :
  0 < Base64.lineWidth e ->
  (Base64.lineWidth e <= Base64.lineChars e + 1
   /\ Base64.put e c = (Base64.setLineChars 0 e, [c; 13; 10]))
  \/ (Base64.lineChars e + 1 < Base64.lineWidth e
      /\ Base64.put e c
         = (Base64.setLineChars (Base64.lineChars e + 1) e, [c])).
Proof.
  intros Hw. unfold Base64.put.
  rewrite (proj2 (Z.ltb_lt _ _) Hw).
  destruct (Z.leb_spec (Base64.lineWidth e) (Base64.lineChars e + 1));
    [left | right]; (split; [lia | reflexivity]).
Qed.

(** On lines of one or two characters a quantum takes eight bytes or
    more: its four characters and at least two line breaks. *)
Lemma putQ_narrow (e : Base64.t) :
  1 <= Base64.lineWidth e <= 2 -> 0 <= Base64.lineChars e ->
  (8 <= length (snd (Base64.putQ e)))%nat.
Proof.
  intros Hw Hc. unfold Base64.putQ. cbv zeta.
  destruct (put_cases e (Base64.dict (Z.shiftr (Z.land (Base64.qBuffer e) 0xfc0000) 18))
              ltac:(lia)) as [[H1 ->] | [H1 ->]];
  match goal with |- context [Base64.put ?e1 ?c] =>
    destruct (put_cases e1 c ltac:(cbn; lia)) as [[H2 ->] | [H2 ->]] end;
  match goal with |- context [Base64.put ?e1 ?c] =>
    destruct (put_cases e1 c ltac:(cbn; lia)) as [[H3 ->] | [H3 ->]] end;
  match goal with |- context [Base64.put ?e1 ?c] =>
    destruct (put_cases e1 c ltac:(cbn; lia)) as [[H4 ->] | [H4 ->]] end;
  cbn [snd app length]; cbn in H2, H3, H4; lia.
Qed.

(** X20. With a line width of one or two, the Base64 encoder stores behind
    the end of a buffer of seven bytes as soon as three input bytes are
    there: the loop asks for seven bytes of room, the quantum with its
    line breaks takes eight or more. *)
Theorem base64_narrow_width_overruns (e : Base64.t)
    (b0 b1 b2 : Z) (rest : list Z) :
  1 <= Base64.lineWidth e <= 2 ->
  0 <= Base64.lineChars e ->
  Base64.qSize e = 0 ->
  Device.buf (Base64.device e) = b0 :: b1 :: b2 :: rest ->
  Base64.readDataImpl e 7 = Fault.
Proof.
  intros Hw Hc Hq Hbuf.
  assert (Base64.deviceAtEnd e = false) as Hend.
  { unfold Base64.deviceAtEnd, Device.atEnd, Device.bytesAvailable.
    rewrite Hbuf. destruct (Device.isSequential _); reflexivity. }
  unfold Base64.readDataImpl. rewrite Hend, andb_false_r, Hbuf.
  cbn [length Nat.mul Nat.add Base64.readLoop].
  unfold Device.bytesAvailable at 1. rewrite Hbuf.
  change ((0 <? Z.of_nat (length (b0 :: b1 :: b2 :: rest))) && (6 <? 7))
    with true. cbv iota.
  assert (exists q, Base64.fill e
            = Base64.setQuantum q 3
                (Base64.setDevice
                   (Device.mk rest (Device.isSequential (Base64.device e))) e))
    as [q ->].
  { unfold Base64.fill. rewrite Hbuf, Hq. cbn [Base64.fillQuantum].
    change (0 <? 3) with true. change (0 + 1 <? 3) with true.
    change (0 + 1 + 1 <? 3) with true. cbv iota.
    change (0 + 1 + 1 + 1) with 3. rewrite fillQuantum_full.
    eexists. reflexivity. }
  cbn [Base64.qSize Base64.setQuantum]. change (3 =? 3) with true. cbv iota.
  unfold Base64.emitQ.
  match goal with |- context [Base64.putQ ?e1] =>
    pose proof (putQ_narrow e1 Hw Hc) as Hlen;
    destruct (Base64.putQ e1) as [e2 o] end.
  cbn [snd] in Hlen.
  destruct (Z.ltb_spec 7 (Z.of_nat (length o))); [reflexivity | lia].
Qed.

Lemma base64_narrow_width_overruns_witness :
  Base64.readDataImpl
    (Base64.setLineWidth 2 (Base64.create (Device.ofBytes (bytes "Man")))) 7
  = Fault.
Proof.
  apply (base64_narrow_width_overruns
           (Base64.setLineWidth 2 (Base64.create (Device.ofBytes (bytes "Man"))))
           77 97 110 []).
  - cbn. lia.
  - cbn. lia.
  - reflexivity.
  - reflexivity.
Defined.

(** * The quoted-printable encoder *)

Lemma hex_plain c : isPlain (Qp.hex (Z.land c 0x0f)) = true.
Proof.
  assert (0 <= Z.land c 0x0f < 16) as Hr.
  { change 0x0f with (Z.ones 4). rewrite Z.land_ones by lia.
    apply Z.mod_pos_bound. reflexivity. }
  revert Hr. generalize (Z.land c 0x0f). intros i Hi.
  apply (forall_below (fun i => isPlain (Qp.hex i)) 16); [reflexivity | exact Hi].
Qed.

Lemma printable_plain c : Qp.printable c = true -> isPlain c = true.
Proof.
  unfold Qp.printable, isPlain. intros H.
  repeat (apply orb_true_iff in H as [H | H]);
    repeat (apply andb_true_iff in H as [? H]);
    repeat match goal with
           | H : (_ <=? _) = true |- _ => apply Z.leb_le in H
           | H : (_ =? _) = true |- _ => apply Z.eqb_eq in H
           end;
    repeat (apply orb_true_iff; first [right; apply andb_true_iff; split; apply Z.leb_le; lia | left]);
    try (apply Z.eqb_eq; lia).
Qed.


Lemma ensureSpace_plain n c e remaining out k :
  plain out -> plainFlow k -> plainFlow (Qp.ensureSpace n c e remaining out k).
Proof.
  intros Ho Hk. unfold Qp.ensureSpace. destruct (remaining <? n); assumption.
Qed.

Lemma writeChar_plain p c e remaining out :
  plain out -> (p = true -> Qp.printable c = true) ->
  plainFlow (Qp.writeChar p c e remaining out).
Proof.
  intros Ho Hp. unfold Qp.writeChar. destruct p.
  - destruct (remaining <? 1); [exact I | ]. cbn [plainFlow].
    apply Forall_app. split; [exact Ho | ].
    constructor; [apply printable_plain, Hp; reflexivity | constructor].
  - apply ensureSpace_plain; [exact Ho | ]. cbn [plainFlow].
    apply Forall_app. split; [exact Ho | ].
    repeat constructor; apply hex_plain.
Qed.

Lemma encodeChar_plain c f e remaining out :
  plain out -> plainFlow (Qp.encodeChar c f e remaining out).
Proof.
  intros Ho. unfold Qp.encodeChar.
  destruct (Qp.textMode e && (c =? 10)).
  - apply ensureSpace_plain; [exact Ho | ]. cbn [plainFlow].
    apply Forall_app. split; [exact Ho | repeat constructor].
  - cbv zeta.
    match goal with |- context [Qp.writeChar ?p] =>
      assert (p = true -> Qp.printable c = true) as Hp
        by (intros H; apply andb_true_iff in H as [_ H]; exact H);
      generalize dependent p end.
    intros q Hq.
    destruct (Qp.lineWidth e <=? _).
    + apply ensureSpace_plain; [exact Ho | ].
      apply writeChar_plain; [ | exact Hq].
      apply Forall_app. split; [exact Ho | repeat constructor].
    + apply writeChar_plain; assumption.
Qed.

Lemma iteration_plain e remaining out :
  plain out -> plainFlow (Qp.iteration e remaining out).
Proof.
  intros Ho. unfold Qp.iteration.
  destruct (Device.getChar (Qp.device e)) as [[c d1] | ]; [ | exact Ho].
  cbv zeta.
  destruct (_ && negb _); [exact Ho | ].
  destruct (c =? 13); [ | apply encodeChar_plain; exact Ho].
  destruct (Device.getChar d1) as [[c2 d2] | ]; [ | exact Ho].
  destruct (c2 =? 10); [ | apply encodeChar_plain; exact Ho].
  apply ensureSpace_plain; [exact Ho | ]. cbn [plainFlow].
  apply Forall_app. split; [exact Ho | repeat constructor].
Qed.

Lemma readLoop_plain fuel : forall e remaining out e' r' out',
  plain out ->
  Qp.readLoop fuel e remaining out = Ok (e', r', out') -> plain out'.
Proof.
  induction fuel as [ | fuel IH]; intros e remaining out e' r' out' Ho Hrun;
    cbn [Qp.readLoop] in Hrun;
    destruct (negb _ && _); try discriminate;
    try (injection Hrun as _ _ <-; exact Ho).
  pose proof (iteration_plain e remaining out Ho) as Hit.
  destruct (Qp.iteration e remaining out) as [e1 r1 o1 | e1 r1 o1 | ];
    [ | | discriminate].
  - exact (IH _ _ _ _ _ _ Hit Hrun).
  - injection Hrun as _ _ <-. exact Hit.
Qed.

Lemma readDataImpl_plain e maxlen r :
  Qp.readDataImpl e maxlen = Ok r -> plain (Qp.data r).
Proof.
  unfold Qp.readDataImpl. destruct (Qp.deviceAtEnd e).
  - intros H. injection H as <-. constructor.
  - destruct (Qp.readLoop _ e maxlen []) as [[[e1 r1] o1] | | ] eqn:Hloop;
      try discriminate.
    cbn [obind]. intros H. injection H as <-. cbn [Qp.data].
    exact (readLoop_plain _ _ _ _ _ _ _ (List.Forall_nil _) Hloop).
Qed.

(** X21. Whatever the input bytes, the line width and the sizes of the
    reads, the quoted-printable encoder delivers plain text only: TAB, CR,
    LF and the bytes from 32 to 126. *)
Theorem qp_output_is_plain (e e' : Qp.t) (maxlens : list Z) (rs : list Qp.reply) :
  Qp.readAll e maxlens = Ok (e', rs) ->
  Forall (fun b => isPlain b = true) (Qp.output rs).
Proof.
  revert e rs. induction maxlens as [ | m ms IH]; intros e rs Hrun.
  - injection Hrun as _ <-. constructor.
  - cbn [Qp.readAll] in Hrun.
    destruct (Qp.readDataImpl e m) as [r | | ] eqn:Hr; try discriminate.
    cbn [obind] in Hrun.
    destruct (Qp.readAll (Qp.encoder r) ms) as [[e1 rs1] | | ] eqn:Hrest;
      try discriminate.
    cbn [obind] in Hrun. injection Hrun as <- <-. unfold Qp.output.
    cbn [map concat].
    apply Forall_app. split.
    + exact (readDataImpl_plain e m r Hr).
    + exact (IH _ _ Hrest).
Qed.

Lemma qp_output_is_plain_witness :
  Forall (fun b => isPlain b = true)
    (Qp.output
       (snd (resultOr (Qp.create (Device.ofBytes []), [])
               (Qp.readAll (Qp.create (Device.ofBytes [255; 61; 46; 32; 13; 10; 97]))
                  [5; 100])))).
Proof.
  apply (qp_output_is_plain
           (Qp.create (Device.ofBytes [255; 61; 46; 32; 13; 10; 97]))
           (fst (resultOr (Qp.create (Device.ofBytes []), [])
                   (Qp.readAll (Qp.create (Device.ofBytes [255; 61; 46; 32; 13; 10; 97]))
                      [5; 100])))
           [5; 100]).
  vm_compute. reflexivity.
Defined.

(** X22. The room is checked for the soft line break but not for the
    printable byte stored behind it: when a soft break is due and exactly
    three bytes are left, the quoted-printable encoder stores the byte
    behind the end of the buffer. *)
Theorem qp_soft_break_overruns (e : Qp.t) (c : Z) (rest : list Z) :
  Device.buf (Qp.device e) = c :: rest ->
  33 <= c <= 126 -> c <> 61 -> c <> 46 ->
  Qp.lineWidth e <= Qp.lineChars e + 2 ->
  Qp.readDataImpl e 3 = Fault.
Proof.
  intros Hbuf Hc H61 H46 Hw.
  assert (Qp.deviceAtEnd e = false) as Hend.
  { unfold Qp.deviceAtEnd, Device.atEnd, Device.bytesAvailable.
    rewrite Hbuf. destruct (Device.isSequential _); reflexivity. }
  unfold Qp.readDataImpl. rewrite Hend, Hbuf. cbn [length Qp.readLoop].
  unfold Device.bytesAvailable at 1. rewrite Hbuf.
  change (negb (Z.of_nat (length (c :: rest)) =? 0) && (0 <? 3)) with true.
  cbv iota.
  unfold Qp.iteration, Device.getChar. rewrite Hbuf. cbv zeta.
  assert ((c =? 9) = false) as -> by (apply Z.eqb_neq; lia).
  assert ((c =? 32) = false) as -> by (apply Z.eqb_neq; lia).
  assert ((c =? 13) = false) as -> by (apply Z.eqb_neq; lia).
  cbn [orb andb]. unfold Qp.encodeChar.
  assert ((c =? 10) = false) as -> by (apply Z.eqb_neq; lia).
  assert ((c =? 46) = false) as -> by (apply Z.eqb_neq; lia).
  rewrite !andb_false_r. cbv zeta. cbn [negb andb].
  assert (Qp.printable c = true) as ->.
  { unfold Qp.printable. destruct (Z.leb_spec c 60).
    - rewrite (proj2 (Z.leb_le 33 c)) by lia. reflexivity.
    - rewrite (proj2 (Z.leb_le 62 c)), (proj2 (Z.leb_le c 126)) by lia.
      rewrite orb_true_r. reflexivity. }
  cbn [Qp.lineWidth Qp.lineChars Qp.setDevice].
  rewrite (proj2 (Z.leb_le _ _) Hw).
  reflexivity.
Qed.

Lemma qp_soft_break_overruns_witness :
  Qp.readDataImpl
    (fst (resultOr (Qp.create (Device.ofBytes []), [])
            (Qp.readAll (Qp.create (Device.ofBytes (repeat 97 80))) [74])))
    3
  = Fault.
Proof.
  apply (qp_soft_break_overruns _ 97 (repeat 97 5)).
  - vm_compute. reflexivity.
  - lia.
  - lia.
  - lia.
  - vm_compute. discriminate.
Defined.

Lemma qp_deviceAtEnd_false (e : Qp.t) c rest :
  Device.buf (Qp.device e) = c :: rest -> Qp.deviceAtEnd e = false.
Proof.
  intros Hbuf. unfold Qp.deviceAtEnd, Device.atEnd, Device.bytesAvailable.
  rewrite Hbuf. destruct (Device.isSequential _); reflexivity.
Qed.

Lemma qp_readLoop_enter fuel (e : Qp.t) c rest remaining out :
  Device.buf (Qp.device e) = c :: rest -> 0 < remaining ->
  Qp.readLoop (S fuel) e remaining out
  = match Qp.iteration e remaining out with
    | Qp.Continue e' r' o' => Qp.readLoop fuel e' r' o'
    | Qp.Break e' r' o' => Ok (e', r', o')
    | Qp.Crash => Fault
    end.
Proof.
  intros Hbuf Hrem. cbn [Qp.readLoop]. unfold Device.bytesAvailable at 1.
  rewrite Hbuf, (proj2 (Z.ltb_lt 0 remaining) Hrem). reflexivity.
Qed.

(** X23. A CR that is not followed by LF is dropped, and the byte behind
    it is encoded while it stays in the device: the encoder answers as if
    the input held that byte twice in place of the CR and the byte. *)
Theorem qp_bare_cr_repeats_next_byte (e : Qp.t) (c : Z) (rest : list Z)
    (maxlen : Z) :
  Device.buf (Qp.device e) = 13 :: c :: rest ->
  c <> 10 -> c <> 13 -> c <> 9 -> c <> 32 ->
  0 < maxlen ->
  Qp.readDataImpl e maxlen
  = Qp.readDataImpl
      (Qp.setDevice (Device.mk (c :: c :: rest)
                       (Device.isSequential (Qp.device e))) e) maxlen.
Proof.
  intros Hbuf H10 H13 H9 H32 Hmax.
  set (e' := Qp.setDevice _ e).
  assert (Device.buf (Qp.device e') = c :: c :: rest) as Hbuf' by reflexivity.
  unfold Qp.readDataImpl.
  rewrite (qp_deviceAtEnd_false e _ _ Hbuf), (qp_deviceAtEnd_false e' _ _ Hbuf').
  rewrite Hbuf, Hbuf'. cbn [length]. f_equal.
  rewrite (qp_readLoop_enter _ e _ _ _ _ Hbuf Hmax).
  rewrite (qp_readLoop_enter _ e' _ _ _ _ Hbuf' Hmax).
  assert (Qp.iteration e maxlen [] = Qp.iteration e' maxlen []) as ->;
    [ | reflexivity].
  unfold Qp.iteration, Device.getChar. rewrite Hbuf, Hbuf'. cbv zeta.
  cbn [Device.buf].
  change (13 =? 9) with false. change (13 =? 32) with false.
  change (13 =? 13) with true. cbn [orb andb]. cbv iota.
  rewrite (proj2 (Z.eqb_neq c 10) H10), (proj2 (Z.eqb_neq c 13) H13),
    (proj2 (Z.eqb_neq c 9) H9), (proj2 (Z.eqb_neq c 32) H32).
  cbn [orb andb]. subst e'. destruct e as [[buf seq] g lw lc tm]. reflexivity.
Qed.

Lemma qp_bare_cr_repeats_next_byte_witness :
  Qp.readDataImpl (Qp.create (Device.ofBytes [13; 97; 98])) 10
  = Qp.readDataImpl (Qp.create (Device.ofBytes [97; 97; 98])) 10.
Proof.
  apply (qp_bare_cr_repeats_next_byte (Qp.create (Device.ofBytes [13; 97; 98]))
           97 [98] 10); (reflexivity || lia).
Defined.

(** ** Decoding what the encoder wrote *)

Lemma hex_nibble (n : Z) :
  0 <= n < 16 -> Qp.hex n <> 13 /\ unhex (Qp.hex n) = Some n.
Proof.
  intros Hn.
  pose proof (forall_below
    (fun n => negb (Qp.hex n =? 13)
              && match unhex (Qp.hex n) with Some m => m =? n | None => false end)
    16 eq_refl n Hn) as H.
  cbv beta in H. apply andb_true_iff in H as [H1 H2].
  split.
  - apply negb_true_iff, Z.eqb_neq in H1. exact H1.
  - destruct (unhex (Qp.hex n)); [ | discriminate].
    apply Z.eqb_eq in H2. congruence.
Qed.


Lemma stands_nil : stands [] [].
Proof. intros tail. cbn. destruct (decodeQp tail); reflexivity. Qed.

Lemma stands_app c1 P1 c2 P2 :
  stands c1 P1 -> stands c2 P2 -> stands (c1 ++ c2) (P1 ++ P2).
Proof.
  intros H1 H2 tail. rewrite <- app_assoc, H1, H2.
  destruct (decodeQp tail); cbn; [rewrite app_assoc | ]; reflexivity.
Qed.

Lemma stands_literal c : c <> 61 -> stands [c] [c].
Proof.
  intros Hc tail. cbn [app decodeQp].
  rewrite (proj2 (Z.eqb_neq c 61) Hc). destruct (decodeQp tail); reflexivity.
Qed.

Lemma stands_soft : stands [61; 13; 10] [].
Proof. intros tail. cbn. destruct (decodeQp tail); reflexivity. Qed.

Lemma stands_hex c :
  isByte c ->
  stands [61; Qp.hex (Z.land (Z.shiftr c 4) 0x0f); Qp.hex (Z.land c 0x0f)] [c].
Proof.
  intros Hc tail. destruct (nibbles c Hc) as (Hhi & Hlo & Hsum).
  destruct (hex_nibble _ Hhi) as [Hn1 Hu1]. destruct (hex_nibble _ Hlo) as [_ Hu2].
  cbn [app decodeQp]. change (61 =? 61) with true. cbv iota.
  rewrite (proj2 (Z.eqb_neq _ 13) Hn1). cbn [andb].
  rewrite Hu1, Hu2, Hsum. destruct (decodeQp tail); reflexivity.
Qed.

Lemma printable_not_eq c : Qp.printable c = true -> c <> 61.
Proof.
  unfold Qp.printable. intros H ->. vm_compute in H. discriminate.
Qed.

(** One pass on settled input with room for six bytes: it goes on, takes
    one or two bytes from the device and stores what stands for them. *)
Lemma iteration_settled (e : Qp.t) c S remaining out :
  Device.buf (Qp.device e) = c :: S ->
  Qp.textMode e = false ->
  Forall isByte (c :: S) ->
  settled (c :: S) = true ->
  6 <= remaining ->
  exists e1 w chunk P S1,
    Qp.iteration e remaining out = Qp.Continue e1 (remaining - w) (out ++ chunk)
    /\ Device.buf (Qp.device e1) = S1
    /\ c :: S = P ++ S1
    /\ (0 < length P)%nat
    /\ 0 <= w <= 6
    /\ stands chunk P
    /\ Qp.textMode e1 = false
    /\ Qp.lineWidth e1 = Qp.lineWidth e
    /\ Device.isSequential (Qp.device e1) = Device.isSequential (Qp.device e)
    /\ settled S1 = true.
Proof.
  intros Hbuf Htm HB Hs Hrem.
  assert (forall f (e0 : Qp.t), Qp.textMode e0 = false ->
            Device.buf (Qp.device e0) = S ->
            c <> 13 ->
            exists e1 w chunk,
              Qp.encodeChar c f e0 remaining out
              = Qp.Continue e1 (remaining - w) (out ++ chunk)
              /\ Device.buf (Qp.device e1) = S
              /\ 0 <= w <= 6
              /\ stands chunk [c]
              /\ Qp.textMode e1 = false
              /\ Qp.lineWidth e1 = Qp.lineWidth e0
              /\ Device.isSequential (Qp.device e1)
                 = Device.isSequential (Qp.device e0)) as Henc.
  { intros f e0 Htm0 Hbuf0 H13. unfold Qp.encodeChar. rewrite Htm0.
    cbn [andb]. cbv zeta.
    match goal with |- context [Qp.writeChar ?p] =>
      assert (p = true -> Qp.printable c = true) as Hp
        by (intros H; apply andb_true_iff in H as [_ H]; exact H);
      generalize dependent p end.
    intros p Hp.
    assert (forall (e2 : Qp.t) rem2 out2,
              3 <= rem2 ->
              exists w chunk,
                Qp.writeChar p c e2 rem2 out2
                = Qp.Continue (Qp.setLineChars (Qp.lineChars e2 + (if p then 1 else 3)) e2)
                    (rem2 - w) (out2 ++ chunk)
                /\ 0 <= w <= 3 /\ stands chunk [c]) as Hwrite.
    { intros e2 rem2 out2 Hr2. unfold Qp.writeChar. destruct p.
      - destruct (Z.ltb_spec rem2 1); [lia | ].
        exists 1, [c]. split; [reflexivity | split; [lia | ]].
        apply stands_literal, printable_not_eq, Hp. reflexivity.
      - unfold Qp.ensureSpace. destruct (Z.ltb_spec rem2 3); [lia | ].
        eexists 3, _. split; [reflexivity | split; [lia | ]].
        apply stands_hex. inversion HB; assumption. }
    destruct (Qp.lineWidth e0 <=? _).
    - unfold Qp.ensureSpace. destruct (Z.ltb_spec remaining 3); [lia | ].
      destruct (Hwrite (Qp.setLineChars 0 e0) (remaining - 3) (out ++ [61; 13; 10])
                  ltac:(lia)) as (w & chunk & -> & Hw & Hst).
      eexists _, (3 + w), ([61; 13; 10] ++ chunk).
      split; [f_equal; [lia | rewrite <- app_assoc; reflexivity] | ].
      split; [exact Hbuf0 | ]. split; [lia | ].
      split; [exact (stands_app _ [] _ _ stands_soft Hst) | ].
      split; [exact Htm0 | ]. split; reflexivity.
    - destruct (Hwrite e0 remaining out ltac:(lia)) as (w & chunk & -> & Hw & Hst).
      eexists _, w, chunk. split; [reflexivity | ].
      split; [exact Hbuf0 | ]. split; [lia | ]. split; [exact Hst | ].
      split; [exact Htm0 | ]. split; reflexivity. }
  unfold Qp.iteration, Device.getChar. rewrite Hbuf. cbv zeta.
  cbn [settled] in Hs.
  destruct (Z.eqb_spec c 13) as [-> | H13].
  - change ((13 =? 9) || (13 =? 32)) with false. cbn [andb].
    destruct S as [ | c2 S2]; [discriminate | ].
    apply andb_true_iff in Hs as [H10 Hs]. apply Z.eqb_eq in H10. subst c2.
    cbn [Device.buf Device.isSequential]. change (10 =? 10) with true. cbv iota.
    unfold Qp.ensureSpace. destruct (Z.ltb_spec remaining 2); [lia | ].
    eexists _, 2, [13; 10], [13; 10], S2.
    split; [reflexivity | ]. split; [reflexivity | ]. split; [reflexivity | ].
    split; [cbn; lia | ]. split; [lia | ].
    split.
    { intros tail. cbn. destruct (decodeQp tail); reflexivity. }
    split; [exact Htm | ]. split; [reflexivity | ]. split; [reflexivity | exact Hs].
  - apply andb_true_iff in Hs as [Hblank Hs].
    assert (((c =? 9) || (c =? 32))
            && negb (Nat.eqb (length (Device.peek 2
                 (Device.mk S (Device.isSequential (Qp.device e))))) 2) = false)
      as ->.
    { destruct ((c =? 9) || (c =? 32)); [ | reflexivity]. cbn [andb].
      apply Nat.leb_le in Hblank. unfold Device.peek. cbn [Device.buf].
      rewrite length_firstn. replace (Nat.min 2 (length S)) with 2%nat by lia.
      reflexivity. }
    destruct (Henc (((c =? 9) || (c =? 32))
                && (nth 0 (Device.peek 2 (Device.mk S (Device.isSequential (Qp.device e)))) 0 =? 13)
                && (nth 1 (Device.peek 2 (Device.mk S (Device.isSequential (Qp.device e)))) 0 =? 10))
                (Qp.setDevice (Device.mk S (Device.isSequential (Qp.device e))) e)
                Htm eq_refl H13)
      as (e1 & w & chunk & Hrun & Hb1 & Hw & Hst & Htm1 & Hlw1 & Hseq1).
    exists e1, w, chunk, [c], S.
    split; [exact Hrun | ]. split; [exact Hb1 | ]. split; [reflexivity | ].
    split; [cbn; lia | ]. split; [exact Hw | ]. split; [exact Hst | ].
    split; [exact Htm1 | ]. split; [exact Hlw1 | ]. split; [exact Hseq1 | exact Hs].
Qed.

Lemma readLoop_settled fuel : forall (e : Qp.t) remaining out,
  Qp.textMode e = false ->
  Forall isByte (Device.buf (Qp.device e)) ->
  settled (Device.buf (Qp.device e)) = true ->
  6 * Z.of_nat (length (Device.buf (Qp.device e))) <= remaining ->
  (length (Device.buf (Qp.device e)) < fuel)%nat ->
  exists e1 r1 chunk,
    Qp.readLoop fuel e remaining out = Ok (e1, r1, out ++ chunk)
    /\ Device.buf (Qp.device e1) = []
    /\ stands chunk (Device.buf (Qp.device e))
    /\ Device.isSequential (Qp.device e1) = Device.isSequential (Qp.device e).
Proof.
  induction fuel as [ | fuel IH]; intros e remaining out Htm HB Hs Hrem Hfuel;
    [lia | ].
  destruct (Device.buf (Qp.device e)) as [ | c S] eqn:Hbuf.
  - exists e, remaining, []. cbn [Qp.readLoop]. unfold Device.bytesAvailable.
    rewrite Hbuf. cbn [length Z.of_nat Z.eqb negb andb]. rewrite app_nil_r.
    split; [reflexivity | ]. split; [reflexivity | ].
    split; [exact stands_nil | reflexivity].
  - cbn [length] in Hrem, Hfuel.
    assert (6 <= remaining) as Hroom by lia.
    rewrite (qp_readLoop_enter fuel e c S remaining out Hbuf ltac:(lia)).
    destruct (iteration_settled e c S remaining out Hbuf Htm HB Hs Hroom)
      as (e1 & w & chunk & P & S1 & -> & Hb1 & Happ & HP & Hw & Hst & Htm1
          & _ & Hseq1 & Hs1).
    assert (length (c :: S) = length P + length S1)%nat as Hlen
      by (rewrite Happ, length_app; reflexivity).
    cbn [length] in Hlen.
    destruct (IH e1 (remaining - w) (out ++ chunk) Htm1) as
      (e2 & r2 & chunk2 & Hrun & Hb2 & Hst2 & Hseq2).
    + rewrite Hb1. rewrite Happ in HB. apply Forall_app in HB as [_ HB]. exact HB.
    + rewrite Hb1. exact Hs1.
    + rewrite Hb1. lia.
    + rewrite Hb1. lia.
    + exists e2, r2, (chunk ++ chunk2). rewrite app_assoc.
      split; [exact Hrun | ]. split; [exact Hb2 | ].
      split; [ | congruence].
      rewrite Happ. rewrite Hb1 in Hst2. exact (stands_app _ _ _ _ Hst Hst2).
Qed.

(** X24. Round trip of the quoted-printable encoder.  On input in which
    every CR is followed by LF and every TAB or SPACE by two more bytes, a
    single read with room for six bytes per input byte takes the whole
    input, and what it delivers decodes back to the input, at any line
    width. *)
Theorem qp_round_trip (lw maxlen : Z) (B : list Z) :
  Forall isByte B ->
  settled B = true ->
  6 * Z.of_nat (length B) <= maxlen ->
  exists r,
    Qp.readDataImpl (Qp.setLineWidth lw (Qp.create (Device.ofBytes B))) maxlen
    = Ok r
    /\ decodeQp (Qp.data r) = Some B
    /\ Device.buf (Qp.device (Qp.encoder r)) = [].
Proof.
  intros HB Hs Hmax.
  set (e := Qp.setLineWidth lw (Qp.create (Device.ofBytes B))).
  unfold Qp.readDataImpl.
  destruct B as [ | c B'].
  - eexists. split; [reflexivity | ]. split; reflexivity.
  - rewrite (qp_deviceAtEnd_false e c B' eq_refl).
    destruct (readLoop_settled (S (length (c :: B'))) e maxlen [] eq_refl HB Hs Hmax
                ltac:(cbn; lia)) as (e1 & r1 & chunk & Hrun & Hb1 & Hst & Hseq).
    change (Device.buf (Qp.device e)) with (c :: B') in *.
    rewrite Hrun. cbn [obind app]. eexists. split; [reflexivity | ].
    cbn [Qp.data Qp.encoder]. split; [ | exact Hb1].
    specialize (Hst []). rewrite app_nil_r in Hst. rewrite Hst.
    cbn. rewrite app_nil_r. reflexivity.
Qed.

Lemma qp_round_trip_witness :
  exists r,
    Qp.readDataImpl
      (Qp.setLineWidth 76
         (Qp.create (Device.ofBytes [97; 61; 32; 13; 10; 46; 255; 120; 120])))
      100 = Ok r
    /\ decodeQp (Qp.data r) = Some [97; 61; 32; 13; 10; 46; 255; 120; 120]
    /\ Device.buf (Qp.device (Qp.encoder r)) = [].
Proof.
  apply (qp_round_trip 76 100 [97; 61; 32; 13; 10; 46; 255; 120; 120]).
  - repeat constructor; unfold isByte; lia.
  - reflexivity.
  - cbn. lia.
Defined.

(** ** Line lengths *)

Lemma lines_cons c l :
  c <> 13 -> l <> [] ->
  Base64Spec.lines (c :: l) = Base64Spec.consHead c (Base64Spec.lines l).
Proof.
  intros Hc Hl. destruct l as [ | d l2]; [congruence | ].
  change (Base64Spec.lines (c :: d :: l2))
    with (if (c =? 13) && (d =? 10) then [] :: Base64Spec.lines l2
          else Base64Spec.consHead c (Base64Spec.lines (d :: l2))).
  rewrite (proj2 (Z.eqb_neq c 13) Hc). reflexivity.
Qed.

Lemma lines_noCr a : noCr a -> Base64Spec.lines a = [a].
Proof.
  induction a as [ | c a IH]; intros Ha; [reflexivity | ].
  inversion Ha as [ | ? ? Hc Ha']; subst.
  destruct a as [ | d a']; [reflexivity | ].
  rewrite lines_cons by (assumption || discriminate).
  rewrite (IH Ha'). reflexivity.
Qed.

Lemma lines_closed a b :
  noCr a -> Base64Spec.lines (a ++ 13 :: 10 :: b) = a :: Base64Spec.lines b.
Proof.
  induction a as [ | c a IH]; intros Ha; [reflexivity | ].
  inversion Ha as [ | ? ? Hc Ha']; subst.
  cbn [app]. rewrite lines_cons; [ | exact Hc | destruct a; discriminate].
  rewrite (IH Ha'). reflexivity.
Qed.

Lemma lines_closedLines ls last :
  Forall noCr ls -> noCr last ->
  Base64Spec.lines (closedLines ls ++ last) = ls ++ [last].
Proof.
  intros Hls Hlast. induction Hls as [ | l ls Hl Hls IH].
  - exact (lines_noCr last Hlast).
  - unfold closedLines. cbn [map concat]. rewrite <- !app_assoc. cbn [app].
    rewrite (lines_closed l _ Hl). fold (closedLines ls). rewrite IH. reflexivity.
Qed.

Lemma closedLines_snoc ls l : closedLines (ls ++ [l]) = closedLines ls ++ l ++ [13; 10].
Proof.
  unfold closedLines. rewrite map_app, concat_app. cbn [map concat].
  rewrite app_nil_r. reflexivity.
Qed.

Section Lines.
Variable lw : Z.

Lemma Lined_hard lc text :
  Lined lw lc text -> Lined lw 0 (text ++ [13; 10]).
Proof.
  intros (ls & last & -> & Hls & Hlast & Hshort & Hlen & Hlc).
  exists (ls ++ [last]), []. rewrite closedLines_snoc, app_nil_r, app_assoc.
  split; [reflexivity | ].
  split; [apply Forall_app; split; [exact Hls | constructor; [exact Hlast | constructor]] | ].
  split; [constructor | ].
  split; [apply Forall_app; split; [exact Hshort | constructor; [lia | constructor]] | ].
  split; [reflexivity | unfold lineBound; lia].
Qed.

Lemma Lined_soft lc text :
  Lined lw lc text -> Lined lw 0 (text ++ [61; 13; 10]).
Proof.
  intros (ls & last & -> & Hls & Hlast & Hshort & Hlen & Hlc).
  exists (ls ++ [last ++ [61]]), [].
  rewrite closedLines_snoc, app_nil_r, <- !app_assoc.
  split; [reflexivity | ].
  split.
  { apply Forall_app. split; [exact Hls | ]. constructor; [ | constructor].
    apply Forall_app. split; [exact Hlast | ]. constructor; [lia | constructor]. }
  split; [constructor | ].
  split.
  { apply Forall_app. split; [exact Hshort | ]. constructor; [ | constructor].
    rewrite length_app. cbn [length]. lia. }
  split; [reflexivity | unfold lineBound; lia].
Qed.

Lemma Lined_more lc text chunk :
  Lined lw lc text -> noCr chunk ->
  lc + Z.of_nat (length chunk) + 1 <= lineBound lw ->
  Lined lw (lc + Z.of_nat (length chunk)) (text ++ chunk).
Proof.
  intros (ls & last & -> & Hls & Hlast & Hshort & Hlen & Hlc) Hchunk Hfit.
  exists ls, (last ++ chunk). rewrite app_assoc.
  split; [reflexivity | ]. split; [exact Hls | ].
  split; [apply Forall_app; split; assumption | ].
  split; [exact Hshort | ].
  split; [rewrite length_app; lia | exact Hfit].
Qed.

Lemma Lined_nonneg lc text : Lined lw lc text -> 0 <= lc.
Proof. intros (ls & last & _ & _ & _ & _ & Hlen & _). lia. Qed.

Variable pre : list Z.

Lemma ensureSpace_line n c e remaining out k :
  LineInv lw pre e out -> lineFlow lw pre k ->
  lineFlow lw pre (Qp.ensureSpace n c e remaining out k).
Proof.
  intros He Hk. unfold Qp.ensureSpace. destruct (remaining <? n); [ | exact Hk].
  exact He.
Qed.

Lemma hex_noCr c : Qp.hex (Z.land c 0x0f) <> 13.
Proof.
  intros Heq.
  assert (0 <= Z.land c 0x0f < 16) as Hr.
  { change 0x0f with (Z.ones 4). rewrite Z.land_ones by lia.
    apply Z.mod_pos_bound. reflexivity. }
  exact (proj1 (hex_nibble _ Hr) Heq).
Qed.

Lemma writeChar_line p c e remaining out :
  LineInv lw pre e out ->
  (p = true -> Qp.printable c = true) ->
  Qp.lineChars e + (if p then 2 else 4) <= lineBound lw ->
  lineFlow lw pre (Qp.writeChar p c e remaining out).
Proof.
  intros [Hw Hl] Hp Hfit. unfold Qp.writeChar. destruct p.
  - destruct (remaining <? 1); [exact I | ]. split; [exact Hw | ].
    cbn [Qp.lineChars Qp.setLineChars]. rewrite app_assoc.
    apply (Lined_more _ _ [c] Hl); [ | cbn [length]; lia].
    constructor; [ | constructor]. intros ->.
    specialize (Hp eq_refl). vm_compute in Hp. discriminate.
  - apply ensureSpace_line; [split; assumption | ].
    split; [exact Hw | ]. cbn [Qp.lineChars Qp.setLineChars]. rewrite app_assoc.
    apply (Lined_more _ _ [_; _; _] Hl); [ | cbn [length]; lia].
    repeat constructor; [lia | apply hex_noCr | apply hex_noCr].
Qed.

Lemma encodeChar_line c f e remaining out :
  LineInv lw pre e out ->
  lineFlow lw pre (Qp.encodeChar c f e remaining out).
Proof.
  intros [Hw Hl]. unfold Qp.encodeChar.
  destruct (Qp.textMode e && (c =? 10)).
  - apply ensureSpace_line; [split; assumption | ].
    split; [exact Hw | ]. cbn [Qp.lineChars Qp.setLineChars]. rewrite app_assoc.
    exact (Lined_hard _ _ Hl).
  - cbv zeta.
    match goal with |- context [Qp.writeChar ?p] =>
      assert (p = true -> Qp.printable c = true) as Hp
        by (intros H; apply andb_true_iff in H as [_ H]; exact H);
      generalize dependent p end.
    intros p Hp.
    destruct (Z.leb_spec (Qp.lineWidth e) (Qp.lineChars e + (if p then 2 else 4))).
    + apply ensureSpace_line; [split; assumption | ].
      apply writeChar_line; [ | exact Hp | ].
      * split; [exact Hw | ]. cbn [Qp.lineChars Qp.setLineChars].
        rewrite app_assoc. exact (Lined_soft _ _ Hl).
      * cbn [Qp.lineChars Qp.setLineChars]. unfold lineBound.
        destruct p; lia.
    + apply writeChar_line; [split; assumption | exact Hp | ].
      unfold lineBound. destruct p; lia.
Qed.

Lemma iteration_line e remaining out :
  LineInv lw pre e out -> lineFlow lw pre (Qp.iteration e remaining out).
Proof.
  intros He. unfold Qp.iteration.
  destruct (Device.getChar (Qp.device e)) as [[c d1] | ]; [ | exact He].
  cbv zeta.
  destruct (_ && negb _); [exact He | ].
  destruct (c =? 13); [ | apply encodeChar_line; exact He].
  destruct (Device.getChar d1) as [[c2 d2] | ]; [ | exact He].
  destruct (c2 =? 10); [ | apply encodeChar_line; exact He].
  apply ensureSpace_line; [exact He | ].
  destruct He as [Hw Hl]. split; [exact Hw | ].
  cbn [Qp.lineChars Qp.setLineChars Qp.setDevice]. rewrite app_assoc.
  exact (Lined_hard _ _ Hl).
Qed.

Lemma readLoop_line fuel : forall e remaining out e' r' out',
  LineInv lw pre e out ->
  Qp.readLoop fuel e remaining out = Ok (e', r', out') ->
  LineInv lw pre e' out'.
Proof.
  induction fuel as [ | fuel IH]; intros e remaining out e' r' out' He Hrun;
    cbn [Qp.readLoop] in Hrun;
    destruct (negb _ && _); try discriminate;
    try (injection Hrun as <- _ <-; exact He).
  pose proof (iteration_line e remaining out He) as Hit.
  destruct (Qp.iteration e remaining out) as [e1 r1 o1 | e1 r1 o1 | ];
    [ | | discriminate].
  - exact (IH _ _ _ _ _ _ Hit Hrun).
  - injection Hrun as <- _ <-. exact Hit.
Qed.

Lemma readDataImpl_line e maxlen r :
  LineInv lw pre e [] ->
  Qp.readDataImpl e maxlen = Ok r ->
  LineInv lw pre (Qp.encoder r) (Qp.data r).
Proof.
  intros He. unfold Qp.readDataImpl. destruct (Qp.deviceAtEnd e).
  - intros H. injection H as <-. exact He.
  - destruct (Qp.readLoop _ e maxlen []) as [[[e1 r1] o1] | | ] eqn:Hloop;
      try discriminate.
    cbn [obind]. intros H. injection H as <-. cbn [Qp.data Qp.encoder].
    exact (readLoop_line _ _ _ _ _ _ _ He Hloop).
Qed.
End Lines.

Lemma readAll_line lw maxlens : forall pre e e' rs,
  LineInv lw pre e [] ->
  Qp.readAll e maxlens = Ok (e', rs) ->
  LineInv lw (pre ++ Qp.output rs) e' [].
Proof.
  induction maxlens as [ | m ms IH]; intros pre e e' rs He Hrun.
  - injection Hrun as <- <-. unfold Qp.output. cbn [map concat].
    rewrite app_nil_r. exact He.
  - cbn [Qp.readAll] in Hrun.
    destruct (Qp.readDataImpl e m) as [r | | ] eqn:Hr; try discriminate.
    cbn [obind] in Hrun.
    destruct (Qp.readAll (Qp.encoder r) ms) as [[e1 rs1] | | ] eqn:Hrest;
      try discriminate.
    cbn [obind] in Hrun. injection Hrun as <- <-.
    pose proof (readDataImpl_line lw pre e m r He Hr) as [Hw Hl].
    assert (LineInv lw (pre ++ Qp.data r) (Qp.encoder r) []) as He1.
    { split; [exact Hw | ]. rewrite app_nil_r. exact Hl. }
    specialize (IH _ _ _ _ He1 Hrest).
    unfold Qp.output in *. cbn [map concat]. rewrite app_assoc. exact IH.
Qed.

(** X25. With line width [lw], no line the quoted-printable encoder
    delivers is longer than [lw - 1] characters, the [=] of a soft break
    included, or than four characters when [lw] is below five; this holds
    for every input and every series of reads. *)
Theorem qp_line_length (lw : Z) (d : Device.t) (maxlens : list Z)
    (e' : Qp.t) (rs : list Qp.reply) :
  Qp.readAll (Qp.setLineWidth lw (Qp.create d)) maxlens = Ok (e', rs) ->
  Forall (fun l => Z.of_nat (length l) <= Z.max (lw - 1) 4)
         (Base64Spec.lines (Qp.output rs)).
Proof.
  intros Hrun.
  assert (LineInv lw [] (Qp.setLineWidth lw (Qp.create d)) []) as He.
  { split; [reflexivity | ]. exists [], [].
    repeat split; try constructor. unfold lineBound. cbn. lia. }
  destruct (readAll_line lw maxlens [] _ _ _ He Hrun)
    as [_ (ls & last & Heq & Hls & Hlast & Hshort & Hlen & Hlc)].
  rewrite app_nil_r in Heq. cbn [app] in Heq.
  rewrite Heq, (lines_closedLines ls last Hls Hlast).
  apply Forall_app. split; [exact Hshort | ].
  constructor; [ | constructor]. unfold lineBound in Hlc. lia.
Qed.

Lemma qp_line_length_witness :
  Forall (fun l => Z.of_nat (length l) <= Z.max (8 - 1) 4)
    (Base64Spec.lines
       (Qp.output
          (snd (resultOr (Qp.create (Device.ofBytes []), [])
                  (Qp.readAll
                     (Qp.setLineWidth 8 (Qp.create (Device.ofBytes (repeat 97 30))))
                     [5; 100; 100]))))).
Proof.
  apply (qp_line_length 8 (Device.ofBytes (repeat 97 30)) [5; 100; 100]
           (fst (resultOr (Qp.create (Device.ofBytes []), [])
                  (Qp.readAll
                     (Qp.setLineWidth 8 (Qp.create (Device.ofBytes (repeat 97 30))))
                     [5; 100; 100])))).
  vm_compute. reflexivity.
Defined.

(** * The preflight check of a message *)

Lemma toByteArray_valid a :
  Address.isValid a = true -> content (Address.toByteArray a) <> [].
Proof.
  intros Hv. unfold Address.toByteArray. rewrite Hv. cbn [negb].
  destruct (Nat.eqb _ 0).
  - intros Heq. cbn in Heq. unfold Address.isValid in Hv.
    rewrite Heq in Hv. vm_compute in Hv. discriminate.
  - destruct (RfcTools.validateDisplayName _); cbn.
    + destruct (Address.displayName a); discriminate.
    + destruct (RfcTools.toEncodedWords _); discriminate.
Qed.

Lemma toByteArray_invalid a :
  Address.isValid a = false -> content (Address.toByteArray a) = [].
Proof. intros Hv. unfold Address.toByteArray. rewrite Hv. reflexivity. Qed.

Lemma rcpts_grow (keys : list (list Z)) : forall (s : gset (list Z)) k,
  k ∈ s -> k ∈ fold_left (fun s k => {[k]} ∪ s) keys s.
Proof.
  induction keys as [ | k0 keys IH]; intros s k Hk; [exact Hk | ].
  cbn [fold_left]. apply IH. set_solver.
Qed.

Lemma rcpts_empty (keys : list (list Z)) :
  fold_left (fun s k => {[k]} ∪ s) keys (∅ : gset (list Z)) = ∅ <-> keys = [].
Proof.
  split; [ | intros ->; reflexivity].
  destruct keys as [ | k keys]; [reflexivity | ]. cbn [fold_left]. intros Heq.
  assert (k ∈ fold_left (fun s k => {[k]} ∪ s) keys ({[k]} ∪ (∅ : gset (list Z))))
    as Hin by (apply rcpts_grow; set_solver).
  rewrite Heq in Hin. set_solver.
Qed.

Lemma finalize_setError {DateTime : Type} err (x : Transaction.t DateTime) :
  err <> Transaction.NoError ->
  let y := Transaction.finalize (Transaction.setError err None x) in
  Transaction.message y = Transaction.message x
  /\ Transaction.error y = err
  /\ Transaction.emitted y
     = Transaction.emitted x ++ [Transaction.SigError err; Transaction.SigFinished].
Proof.
  intros Hne. destruct x, err; cbn; try congruence;
    rewrite <- app_assoc; repeat split; reflexivity.
Qed.

Section Preflight.
Import Transport.
Variable DateTime : Type.
Variable qsetOrder : list (list Z) -> list (list Z).
Local Abbreviation T := (Transport.t DateTime).

Lemma finalizeWith_totalMessages f i (d d' : T) :
  finalizeWith DateTime f i d = Ok d' ->
  totalMessages DateTime d' = totalMessages DateTime d.
Proof.
  unfold finalizeWith. destruct (store DateTime d !! i); [ | discriminate].
  cbv zeta. match goal with |- context [if ?c then _ else _] => destruct c end.
  - unfold _q_transactionFinished. cbv zeta.
    match goal with |- context [if ?c then _ else _] => destruct c end;
      [discriminate | ].
    intros H. injection H as <-. destruct d; reflexivity.
  - intros H. injection H as <-. destruct d; reflexivity.
Qed.

Lemma setupTransaction_rejects env (d : T) i rest r :
  queue DateTime d = i :: rest ->
  store DateTime d !! i = Some r ->
  totalMessages DateTime d <> 0 ->
  preflightError (Transaction.message r) <> Transaction.NoError ->
  exists d' r',
    setupTransaction DateTime qsetOrder env d = Ok (false, d')
    /\ queue DateTime d' = rest
    /\ store DateTime d' = <[i := r']> (store DateTime d)
    /\ Transaction.message r' = Transaction.message r
    /\ refused r'
    /\ written DateTime d' = written DateTime d
    /\ state DateTime d' = state DateTime d
    /\ totalMessages DateTime d' = totalMessages DateTime d.
Proof.
  intros Hq Hr Ht Herr. unfold setupTransaction. rewrite Hq, Hr. cbv zeta.
  set (r1 := Transaction.withUsername _ _).
  set (msg := Transaction.message r) in *.
  set (d1 := withStore DateTime _ d).
  set (key := if Address.isValid (Message.sender msg) then _ else _).
  set (keys := recipientKeys DateTime msg).
  set (d2 := withRcpt DateTime _ _).
  assert (store DateTime d2 !! i = Some r1) as Hr2.
  { subst d2 d1. destruct d; cbn in *. apply list_lookup_insert_eq.
    apply lookup_lt_Some in Hr. exact Hr. }
  assert (from DateTime d2 = key) as Hfrom by (destruct d; reflexivity).
  assert (rcpts DateTime d2 = fold_left (fun s k => {[k]} ∪ s) keys ∅)
    as Hrcpts by (destruct d; reflexivity).
  assert (totalMessages DateTime d2 = totalMessages DateTime d /\
          written DateTime d2 = written DateTime d /\
          state DateTime d2 = state DateTime d /\
          store DateTime d2 = <[i := r1]> (store DateTime d))
    as (Ht2 & Hw2 & Hs2 & Hst2) by (destruct d; repeat split; reflexivity).
  assert (Transaction.message r1 = msg) as Hmsg by (destruct r; reflexivity).
  assert (Transaction.emitted r1 = Transaction.emitted r) as Hem
    by (destruct r; reflexivity).
  assert (forall err, err <> Transaction.NoError ->
            preflightError msg = err ->
            exists d' r',
              obind (finalizeWith DateTime (Transaction.setError err None) i
                       (withQueue DateTime rest d2))
                    (fun d => Ok (false, d)) = Ok (false, d')
              /\ queue DateTime d' = rest
              /\ store DateTime d' = <[i := r']> (store DateTime d)
              /\ Transaction.message r' = Transaction.message r
              /\ refused r'
              /\ written DateTime d' = written DateTime d
              /\ state DateTime d' = state DateTime d
              /\ totalMessages DateTime d' = totalMessages DateTime d) as Hfin.
  { intros err Hne Hpre.
    destruct (finalizeWith_ok DateTime (Transaction.setError err None) i
                (withQueue DateTime rest d2) r1)
      as (d3 & Hrun & Hs3 & Hq3 & Hst3 & Hw3).
    { destruct d2; exact Hr2. }
    { destruct d2; cbn in *. rewrite Ht2. exact Ht. }
    rewrite Hrun. cbn [obind]. eexists d3, _.
    split; [reflexivity | ].
    split; [rewrite Hq3; destruct d2; reflexivity | ].
    split.
    { rewrite Hst3. replace (store DateTime (withQueue DateTime rest d2))
        with (store DateTime d2) by (destruct d2; reflexivity).
      rewrite Hst2. apply list_insert_insert_eq. }
    destruct (finalize_setError err r1 Hne) as (Hm & He & Hsig).
    split; [rewrite Hm; exact Hmsg | ].
    split.
    { unfold refused.
      split; [rewrite Hm, He, Hmsg; symmetry; exact Hpre | ].
      split; [rewrite He; exact Hne | ].
      exists (Transaction.emitted r1). rewrite He. exact Hsig. }
    split; [rewrite Hw3, <- Hw2; destruct d2; reflexivity | ].
    split; [rewrite Hs3, <- Hs2; destruct d2; reflexivity | ].
    rewrite (finalizeWith_totalMessages _ _ _ _ Hrun), <- Ht2.
    destruct d2; reflexivity. }
  clearbody r1.
  rewrite Hfrom, Hrcpts.
  unfold preflightError in Herr. fold msg in Herr.
  destruct (Address.isValid (Message.sender msg)) eqn:Hsv.
  - cbn [negb andb] in Herr. subst key.
    pose proof (toByteArray_valid _ Hsv) as Hne.
    destruct (content (Address.toByteArray (Message.sender msg))) as [ | k0 key0];
      [congruence | ].
    cbn [length Nat.eqb].
    destruct (Message.to msg ++ Message.cc msg ++ Message.bcc msg) eqn:Hall;
      [ | congruence].
    assert (keys = []) as -> by (subst keys; unfold recipientKeys; rewrite Hall; reflexivity).
    cbn [fold_left]. rewrite bool_decide_eq_true_2 by reflexivity.
    apply Hfin; [discriminate | ].
    unfold preflightError. rewrite Hsv, Hall. reflexivity.
  - cbn [negb andb] in Herr. subst key.
    assert (forall key : list Z, key = [] ->
              preflightError msg = Transaction.NoSenderError ->
              exists d' r',
                (if Nat.eqb (length key) 0
                 then obind (finalizeWith DateTime
                               (Transaction.setError Transaction.NoSenderError None)
                               i (withQueue DateTime rest d2))
                            (fun d => Ok (false, d))
                 else if bool_decide
                           (fold_left (fun s k => {[k]} ∪ s) keys (∅ : gset (list Z)) = ∅)
                 then obind (finalizeWith DateTime
                               (Transaction.setError Transaction.NoRecipientsError None)
                               i (withQueue DateTime rest d2))
                            (fun d => Ok (false, d))
                 else Ok (true, d2)) = Ok (false, d')
                /\ queue DateTime d' = rest
                /\ store DateTime d' = <[i := r']> (store DateTime d)
                /\ Transaction.message r' = Transaction.message r
                /\ refused r'
                /\ written DateTime d' = written DateTime d
                /\ state DateTime d' = state DateTime d
                /\ totalMessages DateTime d' = totalMessages DateTime d) as Hnone.
    { intros key -> Hpre. cbn [length Nat.eqb].
      apply Hfin; [discriminate | exact Hpre]. }
    destruct (Message.from msg) as [ | a others] eqn:Hf.
    + apply Hnone; [reflexivity | ].
      unfold preflightError. rewrite Hsv, Hf. reflexivity.
    + destruct (Address.isValid a) eqn:Hav.
      * cbn [negb] in Herr.
        pose proof (toByteArray_valid _ Hav) as Hne.
        destruct (content (Address.toByteArray a)) as [ | k0 key0];
          [congruence | ].
        cbn [length Nat.eqb].
        destruct (Message.to msg ++ Message.cc msg ++ Message.bcc msg) eqn:Hall;
          [ | congruence].
        assert (keys = []) as ->
          by (subst keys; unfold recipientKeys; rewrite Hall; reflexivity).
        cbn [fold_left]. rewrite bool_decide_eq_true_2 by reflexivity.
        apply Hfin; [discriminate | ].
        unfold preflightError. rewrite Hsv, Hf, Hav, Hall. reflexivity.
      * apply Hnone; [exact (toByteArray_invalid _ Hav) | ].
        unfold preflightError. rewrite Hsv, Hf, Hav. reflexivity.
Qed.

(** Once refused, a transaction stays so when another one is refused. *)
Lemma refusedAt_insert (d d' : T) i r' j :
  store DateTime d' = <[i := r']> (store DateTime d) ->
  refused r' ->
  refusedAt j d -> refusedAt j d'.
Proof.
  intros Hst Hr' (r & Hj & Hr). unfold refusedAt. rewrite Hst.
  destruct (Nat.eq_dec i j) as [-> | Hne].
  - exists r'. split; [ | exact Hr'].
    apply list_lookup_insert_eq. apply lookup_lt_Some in Hj. exact Hj.
  - exists r. split; [ | exact Hr].
    rewrite list_lookup_insert_ne by exact Hne. exact Hj.
Qed.

Lemma readyToSend_refuses n env : forall (d : T),
  (forall i, i ∈ queue DateTime d ->
     exists r, store DateTime d !! i = Some r
               /\ preflightError (Transaction.message r) <> Transaction.NoError) ->
  totalMessages DateTime d <> 0 ->
  (length (queue DateTime d) <= n)%nat ->
  exists d',
    readyToSend DateTime qsetOrder n env d = Ok d'
    /\ state DateTime d' = ClosingState
    /\ queue DateTime d' = []
    /\ written DateTime d' = written DateTime d ++ [bytes "QUIT" ++ [13; 10]]
    /\ (forall j, j ∈ queue DateTime d \/ refusedAt j d -> refusedAt j d')
    /\ (forall j r, store DateTime d !! j = Some r ->
          exists r', store DateTime d' !! j = Some r'
                     /\ Transaction.message r' = Transaction.message r).
Proof.
  induction n as [ | n IH]; intros d Hall Ht Hn.
  - destruct (queue DateTime d) as [ | i rest] eqn:Hq; [ | cbn in Hn; lia].
    cbn [readyToSend]. rewrite Hq. eexists. split; [reflexivity | ].
    split; [destruct d; reflexivity | ].
    split; [destruct d; cbn in *; exact Hq | ].
    split.
    { destruct d; unfold written, write, act; cbn. rewrite flat_map_app.
      reflexivity. }
    split.
    { intros j [Hj | Hj]; [inversion Hj | ].
      destruct Hj as (r & Hj & Hr). exists r. split; [ | exact Hr].
      destruct d; exact Hj. }
    intros j r Hj. exists r. split; [destruct d; exact Hj | reflexivity].
  - destruct (queue DateTime d) as [ | i rest] eqn:Hq.
    + cbn [readyToSend]. rewrite Hq. eexists. split; [reflexivity | ].
      split; [destruct d; reflexivity | ].
      split; [destruct d; cbn in *; exact Hq | ].
      split.
      { destruct d; unfold written, write, act; cbn. rewrite flat_map_app.
        reflexivity. }
      split.
      { intros j [Hj | Hj]; [inversion Hj | ].
        destruct Hj as (r & Hj & Hr). exists r. split; [ | exact Hr].
        destruct d; exact Hj. }
      intros j r Hj. exists r. split; [destruct d; exact Hj | reflexivity].
    + cbn [readyToSend]. rewrite Hq.
      destruct (Hall i ltac:(constructor)) as (r & Hr & Herr).
      destruct (setupTransaction_rejects env d i rest r Hq Hr Ht Herr)
        as (d1 & r1 & Hrun & Hq1 & Hst1 & Hm1 & Hr1 & Hw1 & Hs1 & Ht1).
      rewrite Hrun. cbn [obind].
      destruct (IH d1) as (d' & Hrest & Hs' & Hq' & Hw' & Hdone & Hkeep).
      * intros j Hj. rewrite Hq1 in Hj.
        destruct (Hall j ltac:(right; exact Hj)) as (rj & Hrj & Hej).
        rewrite Hst1. destruct (Nat.eq_dec i j) as [-> | Hne].
        -- exists r1. split.
           ++ apply list_lookup_insert_eq. apply lookup_lt_Some in Hrj. exact Hrj.
           ++ rewrite Hm1. congruence.
        -- exists rj. split; [ | exact Hej].
           rewrite list_lookup_insert_ne by exact Hne. exact Hrj.
      * rewrite Ht1. exact Ht.
      * rewrite Hq1. cbn [length] in Hn. lia.
      * exists d'. split; [exact Hrest | ]. split; [exact Hs' | ].
        split; [exact Hq' | ]. split; [rewrite Hw', Hw1; reflexivity | ].
        assert (refusedAt i d1) as Hi.
        { exists r1. split; [ | exact Hr1]. rewrite Hst1.
          apply list_lookup_insert_eq. apply lookup_lt_Some in Hr. exact Hr. }
        split.
        { intros j [Hj | Hj].
          - apply Hdone. rewrite Hq1.
            apply elem_of_cons in Hj as [-> | Hj]; [right; exact Hi | left; exact Hj].
          - apply Hdone. right. exact (refusedAt_insert d d1 i r1 j Hst1 Hr1 Hj). }
        intros j rj Hj. destruct (Nat.eq_dec i j) as [-> | Hne].
        { destruct (Hkeep j r1) as (r' & Hr' & Hm').
          - rewrite Hst1. apply list_lookup_insert_eq.
            apply lookup_lt_Some in Hj. exact Hj.
          - exists r'. split; [exact Hr' | ]. rewrite Hm', Hm1. congruence. }
        apply Hkeep. rewrite Hst1, list_lookup_insert_ne by exact Hne. exact Hj.
Qed.

Lemma setupTransaction_accepts env (d : T) i rest r :
  queue DateTime d = i :: rest ->
  store DateTime d !! i = Some r ->
  Address.isValid (Message.sender (Transaction.message r)) = true ->
  Message.to (Transaction.message r) ++ Message.cc (Transaction.message r)
    ++ Message.bcc (Transaction.message r) <> [] ->
  exists d',
    setupTransaction DateTime qsetOrder env d = Ok (true, d')
    /\ queue DateTime d' = i :: rest
    /\ state DateTime d' = state DateTime d
    /\ written DateTime d' = written DateTime d
    /\ from DateTime d'
       = content (Address.toByteArray (Message.sender (Transaction.message r)))
    /\ rcpt DateTime d' = qsetOrder (recipientKeys DateTime (Transaction.message r)).
Proof.
  intros Hq Hr Hsv Hall. unfold setupTransaction. rewrite Hq, Hr. cbv zeta.
  rewrite Hsv.
  set (r1 := Transaction.withUsername _ _).
  set (msg := Transaction.message r) in *.
  set (d1 := withStore DateTime _ d).
  set (keys := recipientKeys DateTime msg).
  set (d2 := withRcpt DateTime _ _).
  assert (from DateTime d2 = content (Address.toByteArray (Message.sender msg)))
    as Hfrom by (destruct d; reflexivity).
  assert (rcpts DateTime d2 = fold_left (fun s k => {[k]} ∪ s) keys ∅)
    as Hrcpts by (destruct d; reflexivity).
  rewrite Hfrom, Hrcpts.
  pose proof (toByteArray_valid _ Hsv) as Hne.
  destruct (content (Address.toByteArray (Message.sender msg))) as [ | k0 key0] eqn:Hkey;
    [congruence | ].
  cbn [length Nat.eqb].
  rewrite bool_decide_eq_false_2.
  2: { rewrite rcpts_empty. subst keys. unfold recipientKeys.
       intros Heq. apply map_eq_nil in Heq. exact (Hall Heq). }
  exists d2. split; [reflexivity | ].
  split; [destruct d; exact Hq | ].
  split; [destruct d; reflexivity | ].
  split; [destruct d; reflexivity | ].
  split; [exact Hfrom | destruct d; reflexivity].
Qed.
End Preflight.

(** X26. Messages that fail the preflight check.  When the session is
    ready to send and every queued message lacks a valid sender (and a
    valid first author) or has no recipient at all, the state machine
    returns and has finished each queued transaction: it keeps its message,
    has NoSenderError or NoRecipientsError as the check finds it, and the
    last two signals it emitted are [error] with that kind and [finished].
    Nothing is sent for any of them, the queue is empty, and the session
    ends with QUIT. *)
Theorem unsendable_queue_ends_in_quit {DateTime : Type}
    (qsetOrder : list (list Z) -> list (list Z)) (env : Transport.Env)
    (d : Transport.t DateTime) :
  Transport.state DateTime d = Transport.ReadyToSendState ->
  (forall i, i ∈ Transport.queue DateTime d ->
     exists r, Transport.store DateTime d !! i = Some r
               /\ preflightError (Transaction.message r) <> Transaction.NoError) ->
  Transport.totalMessages DateTime d <> 0 ->
  exists d',
    Transport._q_processStates DateTime qsetOrder env d = Ok d'
    /\ Transport.state DateTime d' = Transport.ClosingState
    /\ Transport.queue DateTime d' = []
    /\ Transport.written DateTime d'
       = Transport.written DateTime d ++ [bytes "QUIT" ++ [13; 10]]
    /\ forall j r,
         j ∈ Transport.queue DateTime d ->
         Transport.store DateTime d !! j = Some r ->
         exists r' pre,
           Transport.store DateTime d' !! j = Some r'
           /\ Transaction.message r' = Transaction.message r
           /\ Transaction.error r' = preflightError (Transaction.message r)
           /\ Transaction.error r' <> Transaction.NoError
           /\ Transaction.emitted r'
              = pre ++ [Transaction.SigError (Transaction.error r');
                        Transaction.SigFinished].
Proof.
  intros Hs Hall Ht. unfold Transport._q_processStates. cbv zeta.
  set (d1 := if Transport.timerActive DateTime d
             then Transport.timerRestart DateTime d else d).
  assert (Transport.state DateTime d1 = Transport.ReadyToSendState
          /\ Transport.queue DateTime d1 = Transport.queue DateTime d
          /\ Transport.store DateTime d1 = Transport.store DateTime d
          /\ Transport.totalMessages DateTime d1 = Transport.totalMessages DateTime d
          /\ Transport.written DateTime d1 = Transport.written DateTime d)
    as (Hs1 & Hq1 & Hst1 & Ht1 & Hw1).
  { subst d1. destruct d; cbn in *. destruct timerActive; unfold Transport.written; cbn;
      rewrite ?flat_map_app; cbn; rewrite ?app_nil_r; repeat split; assumption. }
  clearbody d1. cbn [Transport.processLoop]. unfold Transport.pass. cbv zeta.
  rewrite Hs1. cbn [Transport.isState Transport.stateIndex Z.eqb Pos.eqb andb orb].
  set (d2 := Transport.withReachedRTS DateTime true d1).
  assert (Transport.queue DateTime d2 = Transport.queue DateTime d
          /\ Transport.store DateTime d2 = Transport.store DateTime d
          /\ Transport.totalMessages DateTime d2 = Transport.totalMessages DateTime d
          /\ Transport.written DateTime d2 = Transport.written DateTime d)
    as (Hq2 & Hst2 & Ht2 & Hw2).
  { subst d2. destruct d1; cbn in *. repeat split; assumption. }
  clearbody d2.
  destruct (readyToSend_refuses DateTime qsetOrder (length (Transport.queue DateTime d2))
              env d2) as (d' & Hrun & Hs' & Hq' & Hw' & Hdone & Hkeep).
  - rewrite Hq2, Hst2. exact Hall.
  - rewrite Ht2. exact Ht.
  - lia.
  - rewrite Hrun. cbn [Transport.passOf]. exists d'.
    split; [reflexivity | ]. split; [exact Hs' | ]. split; [exact Hq' | ].
    split; [rewrite Hw', Hw2; reflexivity | ].
    intros j r Hj Hr.
    destruct (Hdone j ltac:(left; rewrite Hq2; exact Hj))
      as (r' & Hr' & Herr & Hne & pre & Hsig).
    destruct (Hkeep j r ltac:(rewrite Hst2; exact Hr)) as (r2 & Hr2 & Hm).
    assert (r2 = r') as -> by congruence.
    exists r', pre. split; [exact Hr' | ]. split; [exact Hm | ].
    split; [rewrite Herr, Hm; reflexivity | ]. split; [exact Hne | exact Hsig].
Qed.

Lemma unsendable_queue_ends_in_quit_witness :
  exists d',
    Transport._q_processStates unit dedup plainEnv (readyFor [noRecipients; noSender])
    = Ok d'
    /\ Transport.state unit d' = Transport.ClosingState
    /\ Transport.queue unit d' = []
    /\ Transport.written unit d'
       = Transport.written unit (readyFor [noRecipients; noSender])
         ++ [bytes "QUIT" ++ [13; 10]]
    /\ forall j r,
         j ∈ Transport.queue unit (readyFor [noRecipients; noSender]) ->
         Transport.store unit (readyFor [noRecipients; noSender]) !! j = Some r ->
         exists r' pre,
           Transport.store unit d' !! j = Some r'
           /\ Transaction.message r' = Transaction.message r
           /\ Transaction.error r' = preflightError (Transaction.message r)
           /\ Transaction.error r' <> Transaction.NoError
           /\ Transaction.emitted r'
              = pre ++ [Transaction.SigError (Transaction.error r');
                        Transaction.SigFinished].
Proof.
  apply (unsendable_queue_ends_in_quit dedup plainEnv
           (readyFor [noRecipients; noSender])).
  - reflexivity.
  - assert (Transport.queue unit (readyFor [noRecipients; noSender]) = [0; 1]%nat)
      as -> by reflexivity.
    intros i Hi. apply elem_of_cons in Hi as [-> | Hi];
      [ | apply list_elem_of_singleton in Hi as ->];
      (eexists; split; [reflexivity | intros H; vm_compute in H; discriminate]).
  - vm_compute. discriminate.
Defined.

(** X27. The first command of a transaction.  When the session is ready
    to send and the message at the head of the queue has a valid sender and
    at least one recipient, valid or not, the state machine writes MAIL FROM
    with the sender in the form of [toByteArray], display name included,
    between the angle brackets, and sets the recipient iterator on the
    forms of all recipients; for one that is not valid that form is empty. *)
Theorem ready_to_send_writes_mail_from {DateTime : Type}
    (qsetOrder : list (list Z) -> list (list Z)) (env : Transport.Env)
    (d : Transport.t DateTime) (i : nat) (rest : list nat)
    (r : Transaction.t DateTime) :
  Transport.state DateTime d = Transport.ReadyToSendState ->
  Transport.queue DateTime d = i :: rest ->
  Transport.store DateTime d !! i = Some r ->
  Address.isValid (Message.sender (Transaction.message r)) = true ->
  Message.to (Transaction.message r) ++ Message.cc (Transaction.message r)
    ++ Message.bcc (Transaction.message r) <> [] ->
  exists d',
    Transport._q_processStates DateTime qsetOrder env d = Ok d'
    /\ Transport.state DateTime d' = Transport.MailFromState
    /\ Transport.queue DateTime d' = i :: rest
    /\ Transport.written DateTime d'
       = Transport.written DateTime d
         ++ [bytes "MAIL FROM:<"
             ++ content (Address.toByteArray (Message.sender (Transaction.message r)))
             ++ bytes ">" ++ [13; 10]]
    /\ Transport.rcpt DateTime d'
       = qsetOrder (map (fun a => content (Address.toByteArray a))
                      (Message.to (Transaction.message r)
                       ++ Message.cc (Transaction.message r)
                       ++ Message.bcc (Transaction.message r))).
Proof.
  intros Hs Hq Hr Hsv Hall. unfold Transport._q_processStates. cbv zeta.
  set (d1 := if Transport.timerActive DateTime d
             then Transport.timerRestart DateTime d else d).
  assert (Transport.state DateTime d1 = Transport.ReadyToSendState
          /\ Transport.queue DateTime d1 = i :: rest
          /\ Transport.store DateTime d1 = Transport.store DateTime d
          /\ Transport.written DateTime d1 = Transport.written DateTime d)
    as (Hs1 & Hq1 & Hst1 & Hw1).
  { subst d1. destruct d; cbn in *. destruct timerActive; unfold Transport.written; cbn;
      rewrite ?flat_map_app; cbn; rewrite ?app_nil_r; repeat split; assumption. }
  clearbody d1. cbn [Transport.processLoop]. unfold Transport.pass. cbv zeta.
  rewrite Hs1. cbn [Transport.isState Transport.stateIndex Z.eqb Pos.eqb andb orb].
  set (d2 := Transport.withReachedRTS DateTime true d1).
  assert (Transport.queue DateTime d2 = i :: rest
          /\ Transport.store DateTime d2 = Transport.store DateTime d
          /\ Transport.written DateTime d2 = Transport.written DateTime d)
    as (Hq2 & Hst2 & Hw2).
  { subst d2. destruct d1; cbn in *. repeat split; assumption. }
  clearbody d2. rewrite Hq2. cbn [length Transport.readyToSend]. rewrite Hq2.
  destruct (setupTransaction_accepts DateTime qsetOrder env d2 i rest r Hq2
              ltac:(rewrite Hst2; exact Hr) Hsv Hall)
    as (d3 & Hrun & Hq3 & Hs3 & Hw3 & Hf3 & Hr3).
  rewrite Hrun. cbn [obind Transport.passOf]. eexists. split; [reflexivity | ].
  split; [destruct d3; reflexivity | ].
  split; [destruct d3; cbn in *; exact Hq3 | ].
  split.
  - rewrite <- Hw2, <- Hw3, <- Hf3. destruct d3; unfold Transport.written,
      Transport.write, Transport.act; cbn. rewrite flat_map_app. cbn.
    rewrite <- !app_assoc. reflexivity.
  - change (map _ _) with (Transport.recipientKeys DateTime (Transaction.message r)).
    rewrite <- Hr3. destruct d3; reflexivity.
Qed.

Lemma ready_to_send_writes_mail_from_witness :
  exists d',
    Transport._q_processStates unit dedup plainEnv (readyFor [fromAnn]) = Ok d'
    /\ Transport.state unit d' = Transport.MailFromState
    /\ Transport.queue unit d' = [0%nat]
    /\ Transport.written unit d'
       = Transport.written unit (readyFor [fromAnn])
         ++ [bytes "MAIL FROM:<Ann <s@h>>" ++ [13; 10]]
    /\ Transport.rcpt unit d' = [[]].
Proof.
  destruct (ready_to_send_writes_mail_from dedup plainEnv (readyFor [fromAnn])
              0%nat [] (Transaction.createInstance fromAnn))
    as (d' & Hrun & Hs & Hq & Hw & Hr).
  - reflexivity.
  - reflexivity.
  - reflexivity.
  - vm_compute. reflexivity.
  - discriminate.
  - exists d'. split; [exact Hrun | ]. split; [exact Hs | ]. split; [exact Hq | ].
    split; [exact Hw | exact Hr].
Defined.

(** * Failures that end the whole queue *)

Section Returns.
Import Transport.
Variable DateTime : Type.
Variable qsetOrder : list (list Z) -> list (list Z).
Local Abbreviation T := (Transport.t DateTime).

(** [finalizeQueue] returns when the queued transactions exist and the
    number of messages is not zero; it writes nothing to the socket. *)
Lemma finalizeQueueLoop_ok error text : forall n (d : T),
  (forall i, i ∈ queue DateTime d -> is_Some (store DateTime d !! i)) ->
  totalMessages DateTime d <> 0 ->
  (length (queue DateTime d) <= n)%nat ->
  exists d',
    finalizeQueueLoop DateTime n error text d = Ok d'
    /\ written DateTime d' = written DateTime d.
Proof.
  induction n as [ | n IH]; intros d Hall Ht Hn; cbn [finalizeQueueLoop].
  - destruct (queue DateTime d) as [ | i rest]; [ | cbn in Hn; lia].
    exists d. split; reflexivity.
  - destruct (queue DateTime d) as [ | i rest] eqn:Hq.
    { exists d. split; reflexivity. }
    cbv zeta. destruct (Hall i ltac:(constructor)) as [r Hr].
    match goal with |- context [finalizeWith DateTime ?f i ?d0] =>
      destruct (finalizeWith_ok DateTime f i d0 r) as (d1 & Hfin & Hs1 & Hq1 & Hst1 & Hw1);
        [destruct d; exact Hr | destruct d; exact Ht | ];
      pose proof (finalizeWith_totalMessages DateTime f i d0 d1 Hfin) as Ht1
    end.
    rewrite Hfin. cbn [obind].
    destruct (IH d1) as (d' & Hrun & Hw').
    + intros j Hj. rewrite Hq1 in Hj. rewrite Hst1.
      replace (queue DateTime (withQueue DateTime rest d)) with rest in Hj
        by (destruct d; reflexivity).
      replace (store DateTime (withQueue DateTime rest d)) with (store DateTime d)
        by (destruct d; reflexivity).
      destruct (Hall j ltac:(right; exact Hj)) as [rj Hrj].
      destruct (Nat.eq_dec i j) as [-> | Hne].
      * eexists. apply list_lookup_insert_eq. apply lookup_lt_Some in Hrj. exact Hrj.
      * exists rj. rewrite list_lookup_insert_ne by exact Hne. exact Hrj.
    + rewrite Ht1. destruct d; exact Ht.
    + rewrite Hq1. destruct d; cbn in *. lia.
    + exists d'. split; [exact Hrun | ]. rewrite Hw', Hw1. destruct d; reflexivity.
Qed.

Lemma pass_unexpected env c (d : T) :
  unexpected (state DateTime d) c = true ->
  pass DateTime qsetOrder env c d
  = passOf DateTime (finalizeQueue DateTime Transaction.ResponseError None d)
           (quitAndClose DateTime).
Proof.
  intros Hu. unfold pass. cbv zeta.
  destruct (state DateTime d); try discriminate; cbn [unexpected] in Hu;
    cbn [isState stateIndex Z.eqb Pos.eqb andb orb Z.leb Z.compare
         Pos.compare Pos.compare_cont];
    repeat match type of Hu with
           | _ && _ = true => apply andb_true_iff in Hu as [? Hu]
           end;
    repeat match goal with
           | H : negb _ = true |- _ => apply negb_true_iff in H
           end;
    rewrite ?Hu, ?H, ?H0; reflexivity.
Qed.

Lemma unexpected_flush env (resp : SmtpResponse) (d : T) :
  unexpected (state DateTime d) (code resp) = true ->
  NoDup (queue DateTime d) ->
  (forall i, i ∈ queue DateTime d -> is_Some (store DateTime d !! i)) ->
  totalMessages DateTime d <> 0 ->
  exists d',
    respond DateTime qsetOrder env resp d = Ok d'
    /\ state DateTime d' = ClosingState
    /\ queue DateTime d' = []
    /\ written DateTime d' = written DateTime d ++ [bytes "QUIT" ++ [13; 10]]
    /\ forall i, i ∈ queue DateTime d ->
         exists r, store DateTime d !! i = Some r
                   /\ store DateTime d' !! i
                      = Some (flushed Transaction.ResponseError None resp r).
Proof.
  intros Hu Hnd Hall Ht. unfold respond, _q_processStates. cbv zeta.
  set (d1 := if timerActive DateTime (withResponse DateTime resp d)
             then timerRestart DateTime (withResponse DateTime resp d)
             else withResponse DateTime resp d).
  assert (state DateTime d1 = state DateTime d
          /\ queue DateTime d1 = queue DateTime d
          /\ store DateTime d1 = store DateTime d
          /\ totalMessages DateTime d1 = totalMessages DateTime d
          /\ response DateTime d1 = resp
          /\ written DateTime d1 = written DateTime d)
    as (Hs1 & Hq1 & Hst1 & Ht1 & Hr1 & Hw1).
  { subst d1. destruct d; cbn in *. destruct timerActive0; unfold written; cbn;
      rewrite ?flat_map_app; cbn; rewrite ?app_nil_r; repeat split; reflexivity. }
  replace (code (response DateTime (withResponse DateTime resp d))) with (code resp)
    by (destruct d; reflexivity).
  clearbody d1. cbn [processLoop].
  rewrite (pass_unexpected env (code resp) d1) by (rewrite Hs1; exact Hu).
  unfold finalizeQueue.
  destruct (finalizeQueueLoop_ok Transaction.ResponseError None
              (length (queue DateTime d1)) d1) as (d2 & Hfin & Hw2).
  { rewrite Hq1, Hst1. exact Hall. }
  { rewrite Ht1. exact Ht. }
  { lia. }
  rewrite Hfin. cbn [passOf quitAndClose obind].
  destruct (finalizeQueueLoop_store DateTime Transaction.ResponseError None _ d1 d2 Hfin)
    as (K1 & K2 & K3 & _); [rewrite Hq1; exact Hnd | ].
  eexists. split; [reflexivity | ].
  split; [destruct d2; reflexivity | ].
  split; [destruct d2; exact K1 | ].
  split.
  { rewrite <- Hw1, <- Hw2. destruct d2; unfold written, write, act; cbn.
    rewrite flat_map_app. reflexivity. }
  intros i Hi. rewrite Hq1, Hst1, Hr1 in K3.
  destruct (K3 i Hi) as (r & Hr & Hr'). exists r. split; [exact Hr | ].
  destruct d2; exact Hr'.
Qed.

(** In DisconnectedState the state machine returns when the queued
    transactions exist and the number of messages is not zero. *)
Lemma disconnected_returns env (d : T) :
  state DateTime d = DisconnectedState ->
  reachedRTS DateTime d = false ->
  (forall i, i ∈ queue DateTime d -> is_Some (store DateTime d !! i)) ->
  totalMessages DateTime d <> 0 ->
  exists d', _q_processStates DateTime qsetOrder env d = Ok d'.
Proof.
  intros Hs Hrts Hall Ht. unfold _q_processStates. cbv zeta.
  set (d0 := if timerActive DateTime d then timerRestart DateTime d else d).
  assert (state DateTime d0 = DisconnectedState /\ reachedRTS DateTime d0 = false
          /\ queue DateTime d0 = queue DateTime d
          /\ store DateTime d0 = store DateTime d
          /\ totalMessages DateTime d0 = totalMessages DateTime d)
    as (Hs0 & Hrts0 & Hq0 & Hst0 & Ht0).
  { subst d0. destruct (timerActive DateTime d); destruct d; cbn in *;
      repeat split; assumption. }
  clearbody d0. cbn [processLoop].
  rewrite (pass_disconnected DateTime qsetOrder env _ d0 Hs0), Hrts0.
  destruct (queue DateTime d0) as [ | i0 rest] eqn:Hqd.
  - rewrite pass_finished by (destruct d0; reflexivity). eexists. reflexivity.
  - cbv zeta.
    set (d1 := timerStop DateTime d0).
    assert (queue DateTime d1 = queue DateTime d
            /\ store DateTime d1 = store DateTime d
            /\ totalMessages DateTime d1 = totalMessages DateTime d)
      as (Hq1 & Hst1 & Ht1).
    { subst d1. destruct d0; cbn in *. repeat split; congruence. }
    clearbody d1.
    assert (forall kind text, exists d2,
              finalizeQueue DateTime kind text d1 = Ok d2) as Hfin.
    { intros kind text. unfold finalizeQueue.
      destruct (finalizeQueueLoop_ok kind text (length (queue DateTime d1)) d1)
        as (d2 & Hfin & _).
      - rewrite Hq1, Hst1. exact Hall.
      - rewrite Ht1. exact Ht.
      - lia.
      - exists d2. exact Hfin. }
    destruct (interrupted DateTime d1); [ | destruct (aborted DateTime d1)];
      match goal with |- context [finalizeQueue DateTime ?k ?t d1] =>
        destruct (Hfin k t) as [d2 ->] end;
      cbn [passOf];
      rewrite pass_finished by (destruct d2; reflexivity);
      eexists; reflexivity.
Qed.
End Returns.

(** X28. A reply the state machine does not expect before the first
    message: to the banner anything but 220, to EHLO anything but 250 and
    the codes 500 to 509, to STARTTLS anything but 220 and 454, to the
    second EHLO or to HELO anything but 250, during AUTH anything but 334
    and 235.  Every queued transaction is then finalised with ResponseError
    and the status of the reply, emits [error] and [finished], the queue is
    empty, and the transport writes QUIT and waits for the connection to
    close. *)
Theorem unexpected_reply_fails_queue {DateTime : Type}
    (qsetOrder : list (list Z) -> list (list Z)) (env : Transport.Env)
    (resp : Transport.SmtpResponse) (d : Transport.t DateTime) :
  unexpected (Transport.state DateTime d) (Transport.code resp) = true ->
  NoDup (Transport.queue DateTime d) ->
  (forall i, i ∈ Transport.queue DateTime d ->
             is_Some (Transport.store DateTime d !! i)) ->
  Transport.totalMessages DateTime d <> 0 ->
  exists d',
    Transport.respond DateTime qsetOrder env resp d = Ok d'
    /\ Transport.state DateTime d' = Transport.ClosingState
    /\ Transport.queue DateTime d' = []
    /\ Transport.written DateTime d'
       = Transport.written DateTime d ++ [bytes "QUIT" ++ [13; 10]]
    /\ forall i, i ∈ Transport.queue DateTime d ->
         exists r r',
           Transport.store DateTime d !! i = Some r
           /\ Transport.store DateTime d' !! i = Some r'
           /\ Transaction.error r' = Transaction.ResponseError
           /\ (Transport.isValid resp = true ->
               Transaction.status r' = Transport.code resp)
           /\ Transaction.emitted r'
              = Transaction.emitted r
                ++ [Transaction.SigError Transaction.ResponseError;
                    Transaction.SigFinished].
Proof.
  intros Hu Hnd Hall Ht.
  destruct (unexpected_flush DateTime qsetOrder env resp d Hu Hnd Hall Ht)
    as (d' & Hrun & Hs & Hq & Hw & Hdone).
  exists d'. split; [exact Hrun | ]. split; [exact Hs | ]. split; [exact Hq | ].
  split; [exact Hw | ].
  intros i Hi. destruct (Hdone i Hi) as (r & Hr & Hr').
  exists r, (flushed Transaction.ResponseError None resp r).
  split; [exact Hr | ]. split; [exact Hr' | ].
  unfold flushed. destruct (Transport.isValid resp); destruct r; cbn;
    rewrite <- ?app_assoc; repeat split; (reflexivity || discriminate).
Qed.


Lemma unexpected_reply_fails_queue_witness :
  exists d0 d',
    atBanner = Ok d0
    /\ Transport.respond unit dedup plainEnv (reply 554 [bytes "no service"]) d0 = Ok d'
    /\ Transport.state unit d' = Transport.ClosingState
    /\ Transport.queue unit d' = []
    /\ Transport.written unit d' = [bytes "QUIT" ++ [13; 10]].
Proof.
  set (d0 := resultOr (Transport.create unit) atBanner).
  assert (atBanner = Ok d0) as Hd0 by (vm_compute; reflexivity).
  assert (unexpected (Transport.state unit d0)
            (Transport.code (reply 554 [bytes "no service"])) = true) as Hu
    by (vm_compute; reflexivity).
  assert (Transport.queue unit d0 = [0%nat]) as Hq by (vm_compute; reflexivity).
  assert (is_Some (Transport.store unit d0 !! 0%nat)) as Hst
    by (vm_compute; eexists; reflexivity).
  assert (Transport.totalMessages unit d0 <> 0) as Ht by (vm_compute; discriminate).
  assert (Transport.written unit d0 = []) as Hw by (vm_compute; reflexivity).
  clearbody d0.
  destruct (unexpected_reply_fails_queue dedup plainEnv
              (reply 554 [bytes "no service"]) d0 Hu)
    as (d' & Hrun & Hs' & Hq' & Hw' & _).
  - rewrite Hq. apply NoDup_singleton.
  - intros i Hi. rewrite Hq in Hi. apply list_elem_of_singleton in Hi as ->. exact Hst.
  - exact Ht.
  - rewrite Hw in Hw'. exists d0, d'.
    exact (conj Hd0 (conj Hrun (conj Hs' (conj Hq' Hw')))).
Defined.



(** X29. A connection that ends before the session was ready to send.
    When the state machine runs in DisconnectedState, ReadyToSend was never
    reached, the queued transactions exist and the number of messages is
    not zero, it returns and every transaction in the queue is finalised:
    with TimeoutError after the timer fired, else with AbortedError after
    [abort()], else with ConnectionError and the socket's error text; it
    gets the status of a valid response, and emits [error] and [finished].
    The queue is empty afterwards, the timer is stopped, and [finished] of
    the transport is the last thing that happens. *)
Theorem disconnect_before_ready_flushes_queue (DateTime : Type)
    (qsetOrder : list (list Z) -> list (list Z)) (env : Transport.Env)
    (d : Transport.t DateTime) :
  Transport.state DateTime d = Transport.DisconnectedState ->
  Transport.reachedRTS DateTime d = false ->
  NoDup (Transport.queue DateTime d) ->
  (forall i, i ∈ Transport.queue DateTime d ->
             is_Some (Transport.store DateTime d !! i)) ->
  Transport.totalMessages DateTime d <> 0 ->
  let kind := if Transport.interrupted DateTime d then Transaction.TimeoutError
              else if Transport.aborted DateTime d then Transaction.AbortedError
              else Transaction.ConnectionError in
  let text := if Transport.interrupted DateTime d then None
              else if Transport.aborted DateTime d then None
              else Some (Transport.socketErrorString env) in
  exists d',
    Transport._q_processStates DateTime qsetOrder env d = Ok d'
    /\ Transport.state DateTime d' = Transport.FinishedState
    /\ Transport.queue DateTime d' = []
    /\ List.last (Transport.log DateTime d') Transport.TimerStop
       = Transport.EmitFinished
    /\ (Transport.queue DateTime d <> [] -> Transport.timerActive DateTime d' = false)
    /\ forall i, i ∈ Transport.queue DateTime d ->
         exists r r',
           Transport.store DateTime d !! i = Some r
           /\ Transport.store DateTime d' !! i = Some r'
           /\ r' = flushed kind text (Transport.response DateTime d) r
           /\ Transaction.error r' = kind
           /\ Transaction.emitted r'
              = Transaction.emitted r
                ++ [Transaction.SigError kind; Transaction.SigFinished].
Proof.
  intros Hs Hrts Hnd Hall Ht kind text.
  destruct (disconnected_returns DateTime qsetOrder env d Hs Hrts Hall Ht)
    as [d' Hrun].
  exists d'. split; [exact Hrun | ].
  destruct (disconnected_flush DateTime qsetOrder env d d' Hs Hrts Hnd Hrun)
    as (H1 & H2 & H3 & H4 & H5).
  fold kind text in H5.
  split; [exact H1 | ]. split; [exact H2 | ]. split; [exact H3 | ].
  split; [exact H4 | ].
  intros i Hi. destruct (H5 i Hi) as (r & Hr & Hr').
  exists r, (flushed kind text (Transport.response DateTime d) r).
  split; [exact Hr | ]. split; [exact Hr' | ]. split; [reflexivity | ].
  unfold flushed.
  destruct (Transport.isValid (Transport.response DateTime d));
    subst kind; destruct (Transport.interrupted DateTime d);
    try destruct (Transport.aborted DateTime d);
    destruct r; cbn; rewrite <- ?app_assoc; split; reflexivity.
Qed.

Lemma disconnect_before_ready_flushes_queue_witness :
  exists d0 d' r',
    atBanner = Ok d0
    /\ Transport._q_processStates unit dedup plainEnv
         (Transport._q_stateChanged unit Transport.SocketUnconnected
            (Transport._q_timeout unit d0)) = Ok d'
    /\ Transport.queue unit d' = []
    /\ Transport.store unit d' !! 0%nat = Some r'
    /\ Transaction.error r' = Transaction.TimeoutError
    /\ Transaction.emitted r'
       = [Transaction.SigError Transaction.TimeoutError; Transaction.SigFinished].
Proof.
  set (d0 := resultOr (Transport.create unit) atBanner).
  set (d := Transport._q_stateChanged unit Transport.SocketUnconnected
              (Transport._q_timeout unit d0)).
  assert (atBanner = Ok d0) as Hd0 by (vm_compute; reflexivity).
  assert (Transport.state unit d = Transport.DisconnectedState) as Hs
    by (vm_compute; reflexivity).
  assert (Transport.reachedRTS unit d = false) as Hrts
    by (vm_compute; reflexivity).
  assert (Transport.queue unit d = [0%nat]) as Hq by (vm_compute; reflexivity).
  assert (Transport.interrupted unit d = true) as Hi by (vm_compute; reflexivity).
  assert (is_Some (Transport.store unit d !! 0%nat)) as Hst
    by (vm_compute; eexists; reflexivity).
  assert (Transport.totalMessages unit d <> 0) as Ht by (vm_compute; discriminate).
  assert (forall r, Transport.store unit d !! 0%nat = Some r ->
                    Transaction.emitted r = []) as He.
  { intros r Hr. vm_compute in Hr. injection Hr as <-. reflexivity. }
  assert (d = Transport._q_stateChanged unit Transport.SocketUnconnected
                (Transport._q_timeout unit d0)) as Hd by reflexivity.
  clearbody d.
  destruct (disconnect_before_ready_flushes_queue unit dedup plainEnv d Hs Hrts
              ltac:(rewrite Hq; apply NoDup_singleton))
    as (d' & Hrun & _ & Hq' & _ & _ & Hall).
  - intros i Hin. rewrite Hq in Hin. apply list_elem_of_singleton in Hin as ->.
    exact Hst.
  - exact Ht.
  - assert (0%nat ∈ Transport.queue unit d) as Hin by (rewrite Hq; constructor).
    destruct (Hall 0%nat Hin) as (r & r' & Hr & Hr' & _ & Herr & Hem).
    rewrite Hi in Herr, Hem. rewrite (He r Hr) in Hem. rewrite Hd in Hrun.
    exists d0, d', r'.
    exact (conj Hd0 (conj Hrun (conj Hq' (conj Hr' (conj Herr Hem))))).
Defined.

(** * A message the server accepts *)

Section Accepted.
Import Transport.
Variable DateTime : Type.
Variable qsetOrder : list (list Z) -> list (list Z).
Local Abbreviation T := (Transport.t DateTime).

Lemma pass_accepted env (d : T) i rest :
  state DateTime d = DataSentState ->
  queue DateTime d = i :: rest ->
  pass DateTime qsetOrder env 250 d
  = passOf DateTime
      (finalizeWith DateTime
         (fun x => Transaction.setStatus 250 (lines (response DateTime d))
                     (Transaction.setError Transaction.NoError None x))
         i (withQueue DateTime rest d))
      (fun d => Continue DateTime (withState DateTime ReadyToSendState d)).
Proof.
  intros Hs Hq. unfold pass. cbv zeta. rewrite Hs, Hq. reflexivity.
Qed.

Lemma pass_ready env c (d : T) :
  state DateTime d = ReadyToSendState ->
  queue DateTime d = [] ->
  pass DateTime qsetOrder env c d
  = Return DateTime
      (withState DateTime ClosingState
         (write DateTime (bytes "QUIT") (withReachedRTS DateTime true d))).
Proof.
  intros Hs Hq. unfold pass. cbv zeta. rewrite Hs.
  cbn [isState stateIndex Z.eqb Pos.eqb andb orb].
  replace (queue DateTime (withReachedRTS DateTime true d)) with (@nil nat)
    by (destruct d; cbn in *; congruence).
  cbn [length readyToSend].
  replace (queue DateTime (withReachedRTS DateTime true d)) with (@nil nat)
    by (destruct d; cbn in *; congruence).
  reflexivity.
Qed.
End Accepted.

(** X30. The last message is accepted.  When the server answers the final
    dot with 250 and no other message is queued, the transaction gets
    NoError and the status 250, emits [finished] and no [error], leaves the
    queue, and the transport writes QUIT and waits for the connection to
    close. *)
Theorem accepted_message_finishes {DateTime : Type}
    (qsetOrder : list (list Z) -> list (list Z)) (env : Transport.Env)
    (resp : Transport.SmtpResponse) (d : Transport.t DateTime) (i : nat)
    (r : Transaction.t DateTime) :
  Transport.state DateTime d = Transport.DataSentState ->
  Transport.code resp = 250 ->
  Transport.queue DateTime d = [i] ->
  Transport.store DateTime d !! i = Some r ->
  Transport.totalMessages DateTime d <> 0 ->
  exists d' r',
    Transport.respond DateTime qsetOrder env resp d = Ok d'
    /\ Transport.state DateTime d' = Transport.ClosingState
    /\ Transport.queue DateTime d' = []
    /\ Transport.written DateTime d'
       = Transport.written DateTime d ++ [bytes "QUIT" ++ [13; 10]]
    /\ Transport.store DateTime d' = <[i := r']> (Transport.store DateTime d)
    /\ Transaction.error r' = Transaction.NoError
    /\ Transaction.status r' = 250
    /\ Transaction.emitted r' = Transaction.emitted r ++ [Transaction.SigFinished].
Proof.
  intros Hs Hc Hq Hr Ht. unfold Transport.respond, Transport._q_processStates.
  cbv zeta.
  set (d1 := if Transport.timerActive DateTime (Transport.withResponse DateTime resp d)
             then Transport.timerRestart DateTime (Transport.withResponse DateTime resp d)
             else Transport.withResponse DateTime resp d).
  assert (Transport.state DateTime d1 = Transport.DataSentState
          /\ Transport.queue DateTime d1 = [i]
          /\ Transport.store DateTime d1 = Transport.store DateTime d
          /\ Transport.totalMessages DateTime d1 = Transport.totalMessages DateTime d
          /\ Transport.response DateTime d1 = resp
          /\ Transport.written DateTime d1 = Transport.written DateTime d)
    as (Hs1 & Hq1 & Hst1 & Ht1 & Hr1 & Hw1).
  { subst d1. destruct d; cbn in *. destruct timerActive; unfold Transport.written; cbn;
      rewrite ?flat_map_app; cbn; rewrite ?app_nil_r; repeat split; assumption. }
  replace (Transport.code (Transport.response DateTime
             (Transport.withResponse DateTime resp d))) with 250
    by (destruct d; cbn; congruence).
  clearbody d1. cbn [Transport.processLoop].
  rewrite (pass_accepted DateTime qsetOrder env d1 i [] Hs1 Hq1), Hr1.
  destruct (finalizeWith_ok DateTime
              (fun x => Transaction.setStatus 250 (Transport.lines resp)
                          (Transaction.setError Transaction.NoError None x))
              i (Transport.withQueue DateTime [] d1) r)
    as (d2 & Hfin & Hs2 & Hq2 & Hst2 & Hw2).
  { destruct d1; cbn in *. rewrite Hst1. exact Hr. }
  { destruct d1; cbn in *. rewrite Ht1. exact Ht. }
  rewrite Hfin. cbn [Transport.passOf].
  rewrite (pass_ready DateTime qsetOrder env 250
             (Transport.withState DateTime Transport.ReadyToSendState d2))
    by (destruct d2, d1; cbn in *; (reflexivity || exact Hq2)).
  eexists _, _. split; [reflexivity | ].
  split; [destruct d2; reflexivity | ].
  split; [destruct d2, d1; cbn in *; exact Hq2 | ].
  split.
  { assert (Transport.written DateTime d2 = Transport.written DateTime d) as Hw
      by (rewrite Hw2, <- Hw1; destruct d1; reflexivity).
    rewrite <- Hw. destruct d2; unfold Transport.written, Transport.write,
      Transport.act; cbn. rewrite flat_map_app. reflexivity. }
  split.
  { destruct d2, d1; cbn in *. rewrite Hst2, Hst1. reflexivity. }
  destruct r; cbn. repeat split; reflexivity.
Qed.

Lemma accepted_message_finishes_witness :
  exists d0 d' r',
    dataSent = Ok d0
    /\ Transport.respond unit dedup plainEnv (reply 250 [bytes "queued"]) d0 = Ok d'
    /\ Transport.state unit d' = Transport.ClosingState
    /\ Transport.queue unit d' = []
    /\ Transport.store unit d' !! 0%nat = Some r'
    /\ Transaction.error r' = Transaction.NoError
    /\ Transaction.status r' = 250.
Proof.
  set (d0 := resultOr (Transport.create unit) dataSent).
  assert (dataSent = Ok d0) as Hd0 by (vm_compute; reflexivity).
  assert (Transport.state unit d0 = Transport.DataSentState) as Hs
    by (vm_compute; reflexivity).
  assert (Transport.queue unit d0 = [0%nat]) as Hq by (vm_compute; reflexivity).
  set (r := default (Transaction.createInstance twoRecipients)
              (Transport.store unit d0 !! 0%nat)).
  assert (Transport.store unit d0 !! 0%nat = Some r) as Hr
    by (vm_compute; reflexivity).
  assert (Transport.totalMessages unit d0 <> 0) as Ht by (vm_compute; discriminate).
  clearbody r d0.
  destruct (accepted_message_finishes dedup plainEnv (reply 250 [bytes "queued"])
              d0 0%nat r Hs eq_refl Hq Hr Ht)
    as (d' & r' & Hrun & Hs' & Hq' & _ & Hst' & He & Hstatus & _).
  assert (Transport.store unit d' !! 0%nat = Some r') as Hr'.
  { rewrite Hst'. apply list_lookup_insert_eq. apply lookup_lt_Some in Hr. exact Hr. }
  exists d0, d', r'.
  exact (conj Hd0 (conj Hrun (conj Hs' (conj Hq' (conj Hr' (conj He Hstatus)))))).
Defined.

(** * The state machine returns *)

Section Sound.
Import Transport.
Variable DateTime : Type.
Variable qsetOrder : list (list Z) -> list (list Z).
Local Abbreviation T := (Transport.t DateTime).

Lemma enumExtensions_totalMessages ls (d : T) :
  totalMessages DateTime (enumExtensions DateTime ls d) = totalMessages DateTime d.
Proof.
  unfold enumExtensions. cbv zeta.
  assert (forall (d : T),
    totalMessages DateTime (fold_left (enumLine DateTime) ls d)
    = totalMessages DateTime d) as H.
  { induction ls as [ | l ls IH]; intros d0; [reflexivity | ].
    cbn [fold_left]. rewrite (IH (enumLine DateTime d0 l)).
    unfold enumLine. cbv zeta.
    repeat match goal with |- context [if ?c then _ else _] => destruct c end;
      destruct d0; reflexivity. }
  rewrite H. destruct d; reflexivity.
Qed.

Lemma sound_frame (d d' : T) :
  queue DateTime d' = queue DateTime d ->
  store DateTime d' = store DateTime d ->
  totalMessages DateTime d' = totalMessages DateTime d ->
  sound d -> sound d'.
Proof. intros Hq Hs Ht [H1 H2]. unfold sound. rewrite Hq, Hs, Ht. auto. Qed.

Lemma finalizeWith_sound f i rest (d : T) :
  sound d -> queue DateTime d = i :: rest ->
  exists d',
    finalizeWith DateTime f i (withQueue DateTime rest d) = Ok d'
    /\ queue DateTime d' = rest
    /\ state DateTime d' = state DateTime d
    /\ sound d'.
Proof.
  intros [Hin Ht] Hq.
  destruct (lookup_lt_is_Some_2 (store DateTime d) i
              (Hin i ltac:(rewrite Hq; constructor))) as [r Hr].
  destruct (finalizeWith_ok DateTime f i (withQueue DateTime rest d) r)
    as (d1 & Hfin & Hs1 & Hq1 & Hst1 & _);
    [destruct d; exact Hr | destruct d; exact Ht | ].
  pose proof (finalizeWith_totalMessages DateTime f i _ d1 Hfin) as Ht1.
  exists d1. split; [exact Hfin | ].
  split; [rewrite Hq1; destruct d; reflexivity | ].
  split; [rewrite Hs1; destruct d; reflexivity | ].
  split.
  - intros j Hj. rewrite Hq1 in Hj. rewrite Hst1, length_insert.
    replace (store DateTime (withQueue DateTime rest d)) with (store DateTime d)
      by (destruct d; reflexivity).
    apply Hin. rewrite Hq. right. destruct d; exact Hj.
  - rewrite Ht1. destruct d; exact Ht.
Qed.

Lemma finalizeQueueLoop_sound error text : forall n (d : T),
  sound d -> (length (queue DateTime d) <= n)%nat ->
  exists d',
    finalizeQueueLoop DateTime n error text d = Ok d' /\ sound d'.
Proof.
  induction n as [ | n IH]; intros d Hd Hn; cbn [finalizeQueueLoop].
  - destruct (queue DateTime d) as [ | i rest]; [ | cbn in Hn; lia].
    exists d. split; [reflexivity | exact Hd].
  - destruct (queue DateTime d) as [ | i rest] eqn:Hq.
    { exists d. split; [reflexivity | exact Hd]. }
    cbv zeta.
    match goal with |- context [finalizeWith DateTime ?f i _] =>
      destruct (finalizeWith_sound f i rest d Hd Hq) as (d1 & Hfin & Hq1 & _ & Hd1)
    end.
    rewrite Hfin. cbn [obind]. apply IH; [exact Hd1 | ].
    rewrite Hq1. cbn in Hn. lia.
Qed.

Lemma finalizeQueue_sound error text (d : T) :
  sound d ->
  exists d', finalizeQueue DateTime error text d = Ok d' /\ sound d'.
Proof. intros Hd. apply finalizeQueueLoop_sound; [exact Hd | lia]. Qed.

Lemma setupTransaction_sound env (d : T) :
  sound d -> queue DateTime d <> [] ->
  exists b d',
    setupTransaction DateTime qsetOrder env d = Ok (b, d')
    /\ sound d'
    /\ (b = false -> (length (queue DateTime d') < length (queue DateTime d))%nat).
Proof.
  intros Hd Hne. pose proof Hd as [Hin Ht]. unfold setupTransaction.
  destruct (queue DateTime d) as [ | i rest] eqn:Hq; [congruence | ].
  destruct (lookup_lt_is_Some_2 (store DateTime d) i (Hin i ltac:(constructor)))
    as [r Hr].
  rewrite Hr. cbv zeta.
  set (r1 := Transaction.withUsername _ _).
  set (d2 := withRcpt DateTime _ _).
  assert (store DateTime d2 = <[i := r1]> (store DateTime d)
          /\ queue DateTime d2 = queue DateTime d
          /\ totalMessages DateTime d2 = totalMessages DateTime d)
    as (Hst2 & Hq2' & Ht2) by (destruct d; repeat split; reflexivity).
  assert (sound d2 /\ queue DateTime d2 = i :: rest) as [Hd2 Hq2].
  { split; [ | rewrite Hq2'; exact Hq]. split.
    - intros j Hj. rewrite Hst2, length_insert. apply Hin.
      rewrite Hq2', Hq in Hj. exact Hj.
    - rewrite Ht2. exact Ht. }
  clearbody d2.
  destruct (Nat.eqb _ 0).
  - match goal with |- context [finalizeWith DateTime ?f i _] =>
      destruct (finalizeWith_sound f i rest d2 Hd2 Hq2) as (d3 & -> & Hq3 & _ & Hd3)
    end.
    cbn [obind]. exists false, d3. split; [reflexivity | ]. split; [exact Hd3 | ].
    intros _. rewrite Hq3. cbn. lia.
  - destruct (bool_decide _).
    + match goal with |- context [finalizeWith DateTime ?f i _] =>
        destruct (finalizeWith_sound f i rest d2 Hd2 Hq2) as (d3 & -> & Hq3 & _ & Hd3)
      end.
      cbn [obind]. exists false, d3. split; [reflexivity | ]. split; [exact Hd3 | ].
      intros _. rewrite Hq3. cbn. lia.
    + exists true, d2. split; [reflexivity | ]. split; [exact Hd2 | discriminate].
Qed.

Lemma readyToSend_sound env : forall n (d : T),
  sound d -> (length (queue DateTime d) <= n)%nat ->
  exists d', readyToSend DateTime qsetOrder n env d = Ok d'.
Proof.
  induction n as [ | n IH]; intros d Hd Hn; cbn [readyToSend].
  - destruct (queue DateTime d); [eexists; reflexivity | cbn in Hn; lia].
  - destruct (queue DateTime d) as [ | i rest] eqn:Hq; [eexists; reflexivity | ].
    destruct (setupTransaction_sound env d Hd ltac:(rewrite Hq; discriminate))
      as (b & d1 & -> & Hd1 & Hlt).
    cbn [obind]. destruct b; [eexists; reflexivity | ].
    apply IH; [exact Hd1 | ]. specialize (Hlt eq_refl). rewrite Hq in Hlt.
    cbn in Hlt, Hn. lia.
Qed.

Lemma sound_enumExtensions ls (d : T) : sound d -> sound (enumExtensions DateTime ls d).
Proof.
  destruct (enumExtensions_frame DateTime ls d) as [Hs Hq].
  exact (sound_frame d _ Hq Hs (enumExtensions_totalMessages ls d)).
Qed.

Ltac sound_tac Hd :=
  first
    [ exact Hd
    | apply sound_enumExtensions; sound_tac Hd
    | match goal with
      | |- sound ?x =>
          match type of Hd with
          | sound ?d => apply (sound_frame d x); [destruct d; reflexivity .. | exact Hd]
          end
      end ].

Lemma pass_sound env code (d : T) :
  sound d ->
  (state DateTime d = ResolvedState -> resolverError env = None ->
   hostAddressRecords env <> []) ->
  (headState (state DateTime d) = true -> queue DateTime d <> []) ->
  pass DateTime qsetOrder env code d <> Broken DateTime true
  /\ forall d1, pass DateTime qsetOrder env code d = Continue DateTime d1 ->
                sound d1 /\ resumed (state DateTime d1) = true.
Proof.
  intros Hd HG1 HG2. unfold headState in HG2.
  unfold pass. cbv zeta.
  destruct (state DateTime d) eqn:Hs;
    cbn [isState stateIndex Z.eqb Pos.eqb andb orb Z.leb Z.compare
         Pos.compare Pos.compare_cont] in HG2 |- *;
    try specialize (HG1 eq_refl); try specialize (HG2 eq_refl);
    unfold passOf, quitAndClose;
    repeat match goal with
           | |- context [if ?c then _ else _] => destruct c eqn:?
           | |- context [match ?x with _ => _ end] =>
               match type of x with
               | outcome _ => destruct x eqn:?
               | list _ => destruct x eqn:?
               | option _ => destruct x eqn:?
               | TlsLevel => destruct x eqn:?
               | AuthMech => destruct x eqn:?
               end
           end;
    (split; [try discriminate | intros d1 H; try discriminate]);
    try (injection H as <-; split; [sound_tac Hd | reflexivity]);
    try (exfalso; apply HG1; [assumption | reflexivity]);
    try (exfalso; apply HG2; reflexivity);
    try (exfalso; apply HG2; assumption);
    try match goal with
        | Hf : finalizeQueue _ ?e ?t ?x = _ |- _ =>
            let dq := fresh "dq" in
            let Hq := fresh "Hq" in
            let Hsq := fresh "Hsq" in
            destruct (finalizeQueue_sound e t x ltac:(sound_tac Hd))
              as (dq & Hq & Hsq);
            rewrite Hq in Hf; first [discriminate | injection Hf as Hf; subst]
        | Hf : finalizeWith _ ?f ?i (withQueue _ ?rest ?x) = _,
          Hqq : queue _ d = ?i :: ?rest |- _ =>
            let dq := fresh "dq" in
            let Hq := fresh "Hq" in
            let Hsq := fresh "Hsq" in
            destruct (finalizeWith_sound f i rest d Hd Hqq)
              as (dq & Hq & _ & _ & Hsq);
            rewrite Hq in Hf; first [discriminate | injection Hf as Hf; subst]
        | Hf : readyToSend _ _ ?n ?e ?x = Fault |- _ =>
            let dq := fresh "dq" in
            let Hq := fresh "Hq" in
            destruct (readyToSend_sound e n x ltac:(sound_tac Hd) ltac:(lia))
              as (dq & Hq);
            rewrite Hq in Hf; discriminate
        end.
  - exfalso. exact (HG1 eq_refl eq_refl).
  - injection H as <-. split; [ | reflexivity].
    match goal with Hsq : sound ?a |- sound (withState _ _ ?a) =>
      apply (sound_frame a); [destruct a; reflexivity .. | exact Hsq] end.
  - injection H as <-. split; [ | reflexivity].
    match goal with Hsq : sound ?a |- sound (withState _ _ ?a) =>
      apply (sound_frame a); [destruct a; reflexivity .. | exact Hsq] end.
  - injection H as <-. split; [ | reflexivity].
    match goal with Hsq : sound ?a |- sound (withState _ _ ?a) =>
      apply (sound_frame a); [destruct a; reflexivity .. | exact Hsq] end.
  - injection H as <-. split; [ | reflexivity].
    match goal with Hsq : sound ?a |- sound (withState _ _ ?a) =>
      apply (sound_frame a); [destruct a; reflexivity .. | exact Hsq] end.
Qed.

Lemma processLoop_more env code : forall fuel fuel' (d d' : T),
  processLoop DateTime qsetOrder fuel env code d = Ok d' ->
  (fuel <= fuel')%nat ->
  processLoop DateTime qsetOrder fuel' env code d = Ok d'.
Proof.
  induction fuel as [ | fuel IH]; intros fuel' d d' Hrun Hle; [discriminate | ].
  destruct fuel' as [ | fuel']; [lia | ]. cbn [processLoop] in Hrun |- *.
  destruct (pass DateTime qsetOrder env code d) as [d1 | d1 | []];
    try discriminate; [exact Hrun | ].
  apply (IH fuel' d1 d' Hrun). lia.
Qed.

Lemma processLoop_sound env code : forall fuel (d : T),
  sound d ->
  (state DateTime d = ResolvedState -> resolverError env = None ->
   hostAddressRecords env <> []) ->
  (headState (state DateTime d) = true -> queue DateTime d <> []) ->
  (rank (state DateTime d) <= fuel)%nat ->
  exists d', processLoop DateTime qsetOrder fuel env code d = Ok d'.
Proof.
  induction fuel as [ | fuel IH]; intros d Hd HG1 HG2 Hr.
  - destruct (state DateTime d); cbn in Hr; lia.
  - cbn [processLoop].
    destruct (pass_rank DateTime qsetOrder env code d) as [Hnb Hlt].
    destruct (pass_sound env code d Hd HG1 HG2) as [Hnf Hnext].
    destruct (pass DateTime qsetOrder env code d) as [d1 | d1 | []];
      [eexists; reflexivity | | contradiction | contradiction].
    destruct (Hnext d1 eq_refl) as [Hd1 Hres]. specialize (Hlt d1 eq_refl).
    apply IH; [exact Hd1 | | | lia].
    + intros Hs. rewrite Hs in Hres. discriminate.
    + intros Hh. destruct (state DateTime d1); discriminate.
Qed.
End Sound.

(** X11.  [_q_processStates] returns.  On a transport in which every
    queued handle names a transaction of the store, the number of messages
    is not zero, the queue is not empty in the states from MailFrom to
    DataSent, and a lookup that succeeded has an address record, the slot
    returns, and no path through its loop takes more than three passes; the
    loops over the queue inside it end. *)
Theorem processStates_returns (DateTime : Type)
    (qsetOrder : list (list Z) -> list (list Z)) (env : Transport.Env)
    (d : Transport.t DateTime) :
  (forall i, i ∈ Transport.queue DateTime d ->
             is_Some (Transport.store DateTime d !! i)) ->
  Transport.totalMessages DateTime d <> 0 ->
  (headState (Transport.state DateTime d) = true ->
   Transport.queue DateTime d <> []) ->
  (Transport.state DateTime d = Transport.ResolvedState ->
   Transport.resolverError env = None ->
   Transport.hostAddressRecords env <> []) ->
  exists d',
    Transport._q_processStates DateTime qsetOrder env d = Ok d'
    /\ Transport.processLoop DateTime qsetOrder 3 env
         (Transport.code (Transport.response DateTime d))
         (if Transport.timerActive DateTime d
          then Transport.timerRestart DateTime d else d) = Ok d'.
Proof.
  intros Hstore Ht Hhead Hres.
  set (d0 := if Transport.timerActive DateTime d
             then Transport.timerRestart DateTime d else d).
  assert (Transport.state DateTime d0 = Transport.state DateTime d
          /\ Transport.queue DateTime d0 = Transport.queue DateTime d
          /\ Transport.store DateTime d0 = Transport.store DateTime d
          /\ Transport.totalMessages DateTime d0 = Transport.totalMessages DateTime d)
    as (Hs0 & Hq0 & Hst0 & Ht0).
  { subst d0. destruct (Transport.timerActive DateTime d); destruct d;
      repeat split; reflexivity. }
  assert (sound d0) as Hd0.
  { split; [ | rewrite Ht0; exact Ht]. intros i Hi. rewrite Hq0 in Hi.
    rewrite Hst0. apply lookup_lt_is_Some_1, Hstore, Hi. }

  destruct (processLoop_sound DateTime qsetOrder env
              (Transport.code (Transport.response DateTime d)) 3 d0 Hd0)
    as [d' Hrun].
  { rewrite Hs0. exact Hres. }
  { rewrite Hs0, Hq0. exact Hhead. }
  { destruct (Transport.state DateTime d0); cbn; lia. }
  exists d'. split; [ | exact Hrun].
  unfold Transport._q_processStates. cbv zeta.
  apply (processLoop_more DateTime qsetOrder env _ 3 8 _ _ Hrun). lia.
Qed.


Lemma processStates_returns_witness :
  exists d',
    Transport._q_processStates unit dedup plainEnv ehloAnswered = Ok d'
    /\ Transport.processLoop unit dedup 3 plainEnv
         (Transport.code (Transport.response unit ehloAnswered))
         (if Transport.timerActive unit ehloAnswered
          then Transport.timerRestart unit ehloAnswered else ehloAnswered) = Ok d'.
Proof.
  apply (processStates_returns unit dedup plainEnv ehloAnswered).
  - assert (Transport.queue unit ehloAnswered = [0%nat]) as -> by (vm_compute; reflexivity).
    intros i Hi. apply list_elem_of_singleton in Hi as ->.
    vm_compute. eexists. reflexivity.
  - vm_compute. discriminate.
  - intros H. vm_compute in H. discriminate.
  - intros H. vm_compute in H. discriminate.
Defined.
(** * Test vectors *)

Example md5_empty :
  Qt.toHexLower (Qt.md5 []) = bytes "d41d8cd98f00b204e9800998ecf8427e".
Proof. vm_compute. reflexivity. Qed.

Example md5_abc :
  Qt.toHexLower (Qt.md5 (bytes "abc")) = bytes "900150983cd24fb0d6963f7d28e17f72".
Proof. vm_compute. reflexivity. Qed.

Example md5_two_blocks :
  Qt.toHexLower (Qt.md5 (bytes
    "12345678901234567890123456789012345678901234567890123456789012345678901234567890"))
  = bytes "57edf4a22be3c955ac49da2e2107b67a".
Proof. vm_compute. reflexivity. Qed.

Example fromBase64_challenge :
  Qt.fromBase64 (bytes "PDE4OTYuNjk3MTcwOTUyQHBvc3RvZmZpY2UucmVzdG9uLm1jaS5uZXQ+")
  = bytes "<1896.697170952@postoffice.reston.mci.net>".
Proof. vm_compute. reflexivity. Qed.

Example base64_Man :
  Base64.readAll (Base64.create (Device.ofBytes (bytes "Man"))) [100; 100]
  = Ok (Base64.mk (Device.ofBytes []) false 76 4 0 0, bytes "TWFu").
Proof. vm_compute. reflexivity. Qed.

Example base64_decode_Ma :
  Base64Spec.decode (bytes "TWE=") = Some (bytes "Ma").
Proof. vm_compute. reflexivity. Qed.

Example qp_plain :
  obind (Qp.readAll (Qp.create (Device.ofBytes (bytes "a=b cd"))) [100; 100])
        (fun '(e, rs) => Ok (Qp.output rs, map Qp.result rs,
                             map Qp.readChannelFinished rs))
  = Ok (bytes "a=3Db cd", [8; 0], [true; false]).
Proof. vm_compute. reflexivity. Qed.

Example addr_valid :
  map RfcTools.validateAddrSpec
      [bytes "a@x"; bytes "h.mueller@foo.com"; bytes "nobody"; bytes "a@@x";
       bytes "(c) a@[10.0.0.1] "; bytes ""]
  = [true; true; false; false; true; false].
Proof. vm_compute. reflexivity. Qed.

Example addr_encoded :
  Address.toByteArray
    (Address.mk (bytes "h.mueller@foo.com") (bytes "Henry Miller"))
  = Some (bytes "=?UTF-8?Q?Henry_Miller?= <h.mueller@foo.com>").
Proof. vm_compute. reflexivity. Qed.
